(* ===== verification/_CoqProject ===== *)
-Q . S2P
Prelude.v
DList.v
Regions.v
Bitmap.v
CaseTables.v
CString.v
FileInfo.v
Ntfs.v
NtfsRuns.v
NtfsAttrs.v
NtfsEnds.v
NtfsScan.v
NtfsPaths.v
Ftw.v
FtwRelease.v
FileIO.v
FtwDir.v
Path.v
Time.v
Hr.v
Volume.v
Sync.v
System.v
Keyboard.v
KbThreads.v
KbDevices.v
Stdio.v
Reg.v
Dbg.v
DbgLog.v
Library.v
StdMap.v
Gaps.v
Files.v
Op.v
OpSafe.v
Widen.v
PathVar.v
Console.v
Main.v
