(* ===== verification/Prelude.v ===== *)
(** * StopGap: a verification of the defragmenter and of its native library

    StopGap (src/main.cpp, src/op.cpp, src/zen.cpp) closes the gaps between the
    files of an NTFS volume by moving files into them.  It sits on zenwinx
    (src/zenwinx/src/zenwinx), a C library over the native Windows interface.
    This development models both as functions of Rocq and proves what they are
    meant to do; where the code does not do it, a theorem or an example says so.

    ** How the program works and where its parts are

    - [Prelude]: outcomes of C code, programs over a store ([ST]), pointers and
      typed heaps, the allocator, machine integers, byte buffers; the tactics
      [step], [hstep] and [words].
    - [DList] (list.c): circular doubly linked lists over a heap of nodes;
      [is_list] says which sequence a list represents.  The clients below use
      its specifications only.
    - [Regions], [Bitmap] (volume.c): the list of free regions,
      winx_add_volume_region and winx_sub_volume_region, and the list that
      winx_get_free_volume_regions builds from the volume bitmap.
    - [CaseTables], [CString] (case-tables.h, string.c): case conversion,
      comparison, masks, pattern lists, formatting, UTF-8; [Hr]: numbers of
      bytes as text and back, with exact IEEE doubles.
    - [FileInfo] (zenwinx.h): files and their block maps, shared by the two
      ways to walk over the files of a volume: [Ftw] (ftw.c: recursive, portable;
      also the dump of one file's map; [FtwDir] reads the listing of a directory out
      of its buffer, [FtwRelease] frees the list) and [Ntfs] (ftw_ntfs.c: from the records
      of the MFT), with the theorems about the latter in [NtfsRuns] (run lists),
      [NtfsAttrs] (attributes and attribute lists), [NtfsEnds] (what ends),
      [NtfsScan] (the scan and its order) and [NtfsPaths] (full paths).
    - [FileIO] (file.c): buffered files over the class [NtApi] of system calls,
      whose laws are the class [NtFileLaws]; [Path] (path.c); [Time] (time.c);
      [Stdio] (stdio.c: paging and the prompt); [Reg] (reg.c: the commands
      executed during the boot) over the class [Registry].
    - [Keyboard] (keyboard.c, keytrans.c): the queue of keys, the polling of
      kb_read, the table of keyboards, the translation of keys; [KbThreads] has
      the threads of the keyboards and the program as a transition system, one
      access to a shared variable at a time; [KbDevices] opens the devices and
      checks them by way of their indicators.
    - [Volume] (volume.c): drive types and the information about a volume, over
      [NtApi], the control requests ([NtControl]) and the queries ([NtVolume]);
      [NtHandles] and [DiskLaws] say what is relied on.
    - [Sync] (event.c, mutex.c, lock.c): kernel objects as the class [NtSync],
      spin locks, and threads under a lock as a transition system.
    - [System] (mem.c, env.c, misc.c): allocation that must not fail, environment
      variables, boot options.
    - [Dbg] (dbg.c): the collected log, its header, its file and the messages
      that describe errors, over [FileIO] and [Path]; [DbgLog] has its theorems.
    - [Library] (zenwinx.c, thread.c, ldr.c, privilege.c, the printing of
      stdio.c): start-up and shutdown, which put the case tables, [Dbg],
      [Keyboard] and [System] together; wrappers of system calls.
    - [StdMap]: std::map and std::multimap as sorted sequences.
    - [Gaps] (zen.cpp, class GapEnumeration): the gaps, by place and by length,
      over the regions of [Regions] and [Bitmap].
    - [Files] (zen.cpp, class FileEnumeration): the movable files by size, and
      findBest, which chooses the files for a gap by dynamic programming.
    - [Op] (op.cpp): move_file, move_set, defrag, widen_behind, close_gaps and
      the rounds of Operation::run, over [Gaps], [Files] and the class [Volume];
      [OpSafe] has the laws of a volume ([VolumeLaws]) and the theorems, [Widen]
      those about widen_behind.
    - [PathVar] (util.cpp): the program's directory in the variable PATH;
      [Console] (util.cpp, util.hpp): control events, icons, the version.
    - [Main] (main.cpp and the rest of op.cpp): options, set-up, the report at
      the end and the exit code; it puts [Volume], [Gaps], [Files], [Op] and
      [PathVar] together into [wmain].

    Definitions keep the names of the source.  A loop whose body is more than a
    few lines is a fixpoint of its own, named after the function; early returns
    are branches.

    ** How state and effects are modelled

    Objects of one C type live in one finite map from locations, so that
    pointers of different types never alias; [None] is NULL.  A program is a
    function from a store to an [outcome]: [Ret], or [Fault] for undefined
    behaviour (a bad pointer, memory freed twice, an access outside a buffer),
    or [NoFuel].  Unsigned integers are numbers with the wrapping written out
    ([u32], [u64], ...).  Text is a sequence of code units.  In [Op] a program
    may also throw a C++ exception: [Ret (None, s)].  What the program prints is
    not part of its state, except in [Stdio] and [Library], whose task it is to
    print, and for the report of [Main].

    System calls, the C++ runtime, callbacks and the failures of the allocator
    are parameters.  What the code relies on from them is stated once, as a
    hypothesis or a class with an instance that satisfies it: [bitmap_service]
    (FSCTL_GET_VOLUME_BITMAP), [retrieves] (FSCTL_GET_RETRIEVAL_POINTERS),
    [NtFileLaws], [NtDirLaws] (files and directories), [RegistryLaws] and
    [EnvironmentLaws] (values of the registry), [NtListing] (the portions of a
    listing), [EnvironmentVars] (variables of
    the process), [NtHandles] and [DiskLaws] (handles of a volume and what it
    answers), [NtSyncLaws] (kernel objects), [VolumeLaws] (a volume on which
    only this program moves files), [NtIndicators] (the lights of a keyboard),
    [NtDisplayLaws] and [IconLaws] (the screen and the icons of a window),
    [Allocator]; [Main] states as [listing] what the scan of the disk returns.
    Where several threads run, a step relation or a step function of the whole
    system takes one step at a time ([Sync], [KbThreads]), and the theorems hold
    for every sequence of steps.

    ** What is proved

    Each theorem's comment names the conditions it needs; the most important
    ones are said here.

    - The program (Main): with a volume that can be queried and whose files are
      listed, without the option to widen gaps and with a user who interrupts it
      in the end, the process ends with exit code 0, or 1 after an interrupt; its
      report counts the free clusters of the volume, gap by gap, and every file
      has as many clusters as before.
    - The operation (OpSafe), on a volume that only the program writes to and
      whose moves keep the size of a file (the class VolumeLaws): a move that
      succeeds keeps both enumerations in step with the volume; after one that
      fails the file enumeration still is, and the gaps have to be read again; a
      set of files that fits into a gap fills it when its moves succeed, put the
      files where they were asked to and nobody interrupts; defragmentation and,
      without the option to widen gaps, the whole run return and end with the
      gaps that the volume has.  The run ends once it is interrupted (widening a
      gap is right when the files lie in one piece and the moves succeed, Widen);
      without an interrupt it need not end, for a volume may refuse the same move
      again and again.
    - The gaps (Gaps): a scan finds exactly the maximal runs of free clusters;
      best finds the gap its preferences ask for; pushing (while there is a gap)
      and popping the blocks of a file add and remove exactly its clusters, in
      the list and in both maps.
    - [std::prev] of [begin()] is undefined in C++ (zen.cpp:151).  What the
      library makes of it is the parameter [prev_begin] of the definitions; the
      theorems on whole operations take it to stay at the end ([Ret tt]), as
      Visual C++'s library has it, those on one push or move ask for that or for
      a gap in front of each block, and [push_undefined] shows the fault.
    - The files (Files): the dynamic program is optimal; findBest returns files
      behind the gap that fit, a file counting twice when it is found twice, and
      fills a gap that can be filled when no two files have the same size; the
      enumeration partitions the files of the volume and stays consistent under
      pop and push.
    - Lists and regions (DList, Regions, Bitmap): the heap operations refine
      operations on sequences; adding and subtracting ranges add and subtract
      exactly their clusters and keep the regions disjoint and maximal; the
      bitmap scan is exact.
    - Strings (CString): masks match as a reference relation says, compiled
      patterns match when one of the words does, formatting ends with the whole
      text, UTF-8 conversion stays in its buffer and is the encoding.
    - The scanner (Ntfs...): decoding a run list inverts its encoding; on any
      bytes it ends, adds no block outside the volume (but for lengths that wrap)
      and stays inside the record when the list has its terminating zero there;
      walking the attributes stays inside the record; a record changes no entry
      of another file, and with a driver that returns the record asked for or one
      before it the scan ends and leaves the list sorted, which the binary search
      needs, unless the analysis of a record reads outside of it or follows
      attribute lists in attribute lists without end; full paths that fit their
      buffer are built when the parents of all files lead to the root.
    - The rest: the portable walk reports the files of the tree, each directory
      after its contents, a listing is complete in whatever portions it comes, a
      list of files is freed once with all it points to, buffered output without
      seeks refines writing at a position and is read back unchanged, path
      creation, the parsing of times inverts their formatting, the keyboard queue
      is a bounded queue and a key is delivered, the prompt refines a line editor
      while the lines of its history leave room in the string; boot commands are
      registered once and taken out with all their entries, without a leak of
      list nodes; registering the directory in PATH can be undone when PATH did
      not contain it.
    - The system (Volume, Sync, System): the information about a volume is well
      formed whatever the system answers and right when it answers, and no handle
      stays open; critical sections under a spin lock are serialised; a variable
      that was set is read back.
    - The log (DbgLog, Library): printing and flushing refine a sequence of
      messages, changing the log file writes what was collected to the old one,
      and from start-up to the end no message is lost; the texts of messages
      that were written stay allocated.
    - The keyboards (KbThreads): under every interleaving in which kb_open is
      called again only when all threads have ended, one at a time uses the
      queue, the keys are read in the order in which they were pushed, and those
      of one thread in the order in which it gathered them; a thread that is told
      to stop ends within six steps; the devices are closed when no thread uses
      them, provided that no two updates of the counter of the threads overlap
      and kb_close did not give up waiting.  Examples show what happens otherwise.
    - Numbers (Hr): below one exabyte, with at most nine digits and room for
      them, the text of a number of bytes is right up to one rounding, whole
      units are read back, and reading any text ends.

    Examples and findings show where the code fails: reading outside a record,
    unbounded recursion, a lost block of output, a file chosen twice for a gap, an
    entry of PATH cut in two, lost and leaked messages, a misread fraction, a
    device closed under a thread that reads it.

    ** Bounds

    Fixpoints that are not structural take a number of steps.  The walks over
    lists take a number of nodes, and the theorems ask for as many as the list
    has; [Bitmap] takes one step per portion of the bitmap (N < 8 * BITMAPBYTES *
    fuel); walks over buffers get the size of the buffer; the dump of a file
    takes one query per run at most.  Two numbers of [Ntfs] bound what need not
    end on a damaged volume, the recursion through attribute lists and the walk
    to the root; theorems say when they are enough and an example that no number
    is.  In [Op] a file is moved in one part (one step, for files of fewer than
    2^32 - 11 clusters), and the rounds are bounded by the number of times the
    flag of the console handler is read.

    ** Not modelled

    The entry point of the library and the helpers of the compiler (entry.c,
    int64.c), the drawing of the prompt, the parsing of the command line by
    boost, what the program prints on the way, the title and the colours of the
    console, the vendored libraries (libavl, which nothing calls, and
    gperftools) and the tests under TEST_NTFS_SCANNER. *)
From Stdlib Require Ascii String.
From stdpp Require Import prelude gmap strings.
Open Scope Z_scope.

(** ** Outcomes of C code

    [Ret a] is a normal return, [Fault] undefined behaviour of the C code (a
    NULL or dangling pointer dereferenced, memory freed twice, an access
    outside a buffer) and [NoFuel] an exhausted loop bound of the model. *)
Inductive outcome (A : Type) : Type :=
| Ret (a : A)
| Fault
| NoFuel.
Arguments Ret {A} a.
Arguments Fault {A}.
Arguments NoFuel {A}.

#[export] Instance outcome_ret : MRet outcome := fun A a => Ret a.

#[export] Instance outcome_bind : MBind outcome := fun A B f m =>
  match m with
  | Ret a => f a
  | Fault => Fault
  | NoFuel => NoFuel
  end.

#[export] Instance outcome_fmap : FMap outcome := fun A B f m =>
  match m with
  | Ret a => Ret (f a)
  | Fault => Fault
  | NoFuel => NoFuel
  end.

Lemma outcome_bind_ret {A B} (a : A) (f : A → outcome B) : (Ret a ≫= f) = f a.
Proof. reflexivity. Qed.

Lemma outcome_bind_inv {A B} (m : outcome A) (f : A → outcome B) b :
  (m ≫= f) = Ret b → ∃ a, m = Ret a ∧ f a = Ret b.
Proof. destruct m; simpl; [eauto | discriminate | discriminate]. Qed.

(** ** Programs over a store

    [ST S A] threads a store [S] through code that may fault. *)
Definition ST (S A : Type) : Type := S → outcome (A * S).

#[export] Instance st_ret S : MRet (ST S) := fun A a s => Ret (a, s).

#[export] Instance st_bind S : MBind (ST S) := fun A B f m s =>
  match m s with
  | Ret (a, s') => f a s'
  | Fault => Fault
  | NoFuel => NoFuel
  end.

Lemma st_bind_ret {S A B} (m : ST S A) (f : A → ST S B) s a s' :
  m s = Ret (a, s') → (m ≫= f) s = f a s'.
Proof. intros E. unfold mbind, st_bind. by rewrite E. Qed.

(** Running the first command of a program by an equation for it. *)
Tactic Notation "step" uconstr(E) := rewrite (st_bind_ret _ _ _ _ _ E).

Definition st_fault {S A} : ST S A := fun _ => Fault.

Definition st_nofuel {S A} : ST S A := fun _ => NoFuel.

(** An outcome that does not touch the store. *)
Definition st_lift {S A} (m : outcome A) : ST S A := fun s => a ← m; Ret (a, s).

Lemma st_lift_ret {S A B} (a : A) (f : A → ST S B) s : (st_lift (Ret a) ≫= f) s = f a s.
Proof. reflexivity. Qed.

(** ** Pointers and typed heaps

    Objects of one C type live in one finite map from locations to values, so
    that pointers of different types never alias.  [None] is the NULL
    pointer. *)
Abbreviation loc := positive.

Abbreviation ptr := (option positive).

Section heap.
Context {V : Type}.

(** Reading through a pointer. *)
Definition load (p : ptr) : ST (gmap loc V) V := fun h =>
  match p with
  | None => Fault
  | Some l => match h !! l with
              | None => Fault
              | Some v => Ret (v, h)
              end
  end.

(** Updating the object a pointer points to. *)
Definition modify (p : ptr) (f : V → V) : ST (gmap loc V) unit := fun h =>
  match p with
  | None => Fault
  | Some l => match h !! l with
              | None => Fault
              | Some v => Ret (tt, <[l := f v]> h)
              end
  end.

(** Releasing an object: [winx_free] ignores NULL. *)
Definition release (p : ptr) : ST (gmap loc V) unit := fun h =>
  match p with
  | None => Ret (tt, h)
  | Some l => match h !! l with
              | None => Fault
              | Some _ => Ret (tt, delete l h)
              end
  end.

Lemma load_ok l v (h : gmap loc V) : h !! l = Some v → load (Some l) h = Ret (v, h).
Proof. intros E. simpl. by rewrite E. Qed.

Lemma modify_ok l v f (h : gmap loc V) :
  h !! l = Some v → modify (Some l) f h = Ret (tt, <[l := f v]> h).
Proof. intros E. simpl. by rewrite E. Qed.

Lemma release_ok l v (h : gmap loc V) :
  h !! l = Some v → release (Some l) h = Ret (tt, delete l h).
Proof. intros E. simpl. by rewrite E. Qed.
End heap.

Lemma insert_as_alter {V} (m : gmap loc V) l v f :
  m !! l = Some v → <[l := f v]> m = alter f l m.
Proof.
  intros E. apply map_eq. intros k. rewrite lookup_insert, lookup_alter.
  case_decide; [subst; by rewrite E | done].
Qed.

Lemma modify_alter {V} l f (h : gmap loc V) :
  is_Some (h !! l) → modify (Some l) f h = Ret (tt, alter f l h).
Proof. intros [v E]. rewrite (modify_ok _ v) by done. by rewrite (insert_as_alter _ _ v). Qed.

(** What the components rely on from the memory allocator: an allocation that
    succeeds returns a location that holds no object.  Which location, and
    when an allocation fails, is left open. *)
Class Allocator (V : Type) := {
  alloc : gmap loc V → option loc;
  alloc_fresh h l : alloc h = Some l → h !! l = None;
}.

(** An allocator that never fails, used by the concrete runs. *)
Definition bump_allocator (V : Type) : Allocator V.
Proof.
  refine {| alloc h := Some (fresh (dom h)) |}.
  abstract (intros h l [= <-]; apply not_elem_of_dom, is_fresh).
Defined.

(** An allocator that always fails. *)
Definition null_allocator (V : Type) : Allocator V.
Proof. refine {| alloc _ := None |}. abstract done. Defined.

(** Symbolic execution of heap programs: [hstep] runs one load, store or
    release whose location is known. *)
Ltac hstep :=
  first
    [ erewrite st_bind_ret; [| by (eapply load_ok; simplify_map_eq) ]
    | erewrite st_bind_ret; [| by (eapply modify_ok; simplify_map_eq) ]
    | erewrite st_bind_ret; [| by (eapply release_ok; simplify_map_eq) ] ];
  cbn beta iota.

(** ** Machine integers

    Unsigned integers are kept in [Z] and wrapped where the C code computes
    with them. *)
Definition u8 (z : Z) : Z := z mod 2 ^ 8.

Definition u16 (z : Z) : Z := z mod 2 ^ 16.

Definition u32 (z : Z) : Z := z mod 2 ^ 32.

Definition u64 (z : Z) : Z := z mod 2 ^ 64.

(** Signed integers of 32 and 64 bits. *)
Definition s32 (z : Z) : Z := (z + 2 ^ 31) mod 2 ^ 32 - 2 ^ 31.

Definition s64 (z : Z) : Z := (z + 2 ^ 63) mod 2 ^ 64 - 2 ^ 63.

Lemma s32_small z : - 2 ^ 31 ≤ z < 2 ^ 31 → s32 z = z.
Proof. intros H. unfold s32. rewrite Z.mod_small; lia. Qed.

Lemma s64_small z : - 2 ^ 63 ≤ z < 2 ^ 63 → s64 z = z.
Proof. intros H. unfold s64. rewrite Z.mod_small; lia. Qed.

Lemma u16_small z : 0 ≤ z < 2 ^ 16 → u16 z = z.
Proof. apply Z.mod_small. Qed.

Lemma u32_small z : 0 ≤ z < 2 ^ 32 → u32 z = z.
Proof. apply Z.mod_small. Qed.

Lemma u64_small z : 0 ≤ z < 2 ^ 64 → u64 z = z.
Proof. apply Z.mod_small. Qed.

Lemma u64_range z : 0 ≤ u64 z < 2 ^ 64.
Proof. apply Z.mod_pos_bound. lia. Qed.

(** Where a result fits, [words] takes the wrapping away. *)
Create HintDb words.
#[export] Hint Rewrite u16_small u32_small u64_small s32_small s64_small using lia : words.

Ltac words := autorewrite with words.

(** Testing a bit with a mask. *)
Lemma land_bit b i : 0 ≤ i → (Z.land b (Z.shiftl 1 i) =? 0) = negb (Z.testbit b i).
Proof.
  intros Hi. apply eq_true_iff_eq. rewrite Z.eqb_eq, negb_true_iff.
  rewrite Z.shiftl_1_l. split.
  - intros H. apply (f_equal (fun z => Z.testbit z i)) in H.
    by rewrite Z.land_spec, Z.pow2_bits_true, andb_true_r, Z.bits_0 in H.
  - intros H. apply Z.bits_inj'. intros j Hj. rewrite Z.land_spec, Z.bits_0.
    destruct (decide (i = j)) as [->|Hij]; [by rewrite H|].
    by rewrite Z.pow2_bits_false, andb_false_r.
Qed.

(** ** Lists *)
Lemma Exists_ext_in {A} (P Q : A → Prop) (l : list A) :
  (∀ x, x ∈ l → P x ↔ Q x) → Exists P l ↔ Exists Q l.
Proof.
  intros H. rewrite !Exists_exists. split; intros (x & Hx & HP); exists x;
    (split; [done|]); by apply (H x Hx).
Qed.

Lemma filter_none {A} (P : A → Prop) `{!∀ x, Decision (P x)} (l : list A) :
  (∀ x, x ∈ l → ¬ P x) → base.filter P l = [].
Proof.
  intros Hno. induction l as [|x l IH]; [done|]. rewrite filter_cons_False by (apply Hno; left).
  apply IH. intros y Hy. apply Hno. by right.
Qed.

Lemma filter_every {A} (P : A → Prop) `{!∀ x, Decision (P x)} (l : list A) :
  (∀ x, x ∈ l → P x) → base.filter P l = l.
Proof.
  intros Hall. induction l as [|x l IH]; [done|]. rewrite filter_cons_True by (apply Hall; left).
  f_equal. apply IH. intros y Hy. apply Hall. by right.
Qed.

(** ** Buffers of bytes *)

(** A byte of a buffer; outside it, a fault. *)
Definition rd8 (b : list Z) (off : Z) : outcome Z :=
  if (off <? 0) || (Z.of_nat (length b) <=? off) then Fault else
  match b !! Z.to_nat off with
  | Some x => Ret x
  | None => Fault
  end.

(** A little-endian integer of [n] bytes. *)
Fixpoint rd (n : nat) (b : list Z) (off : Z) : outcome Z :=
  match n with
  | O => Ret 0
  | S n => x ← rd8 b off; y ← rd n b (off + 1); Ret (x + 256 * y)
  end.

Lemma rd8_ok b off : 0 ≤ off < Z.of_nat (length b) → ∃ x, rd8 b off = Ret x ∧ x ∈ b.
Proof.
  intros H. unfold rd8. rewrite (proj2 (Z.ltb_ge _ _)), (proj2 (Z.leb_gt _ _)) by lia. simpl.
  destruct (lookup_lt_is_Some_2 b (Z.to_nat off)) as [x E]; [lia|].
  rewrite E. exists x. split; [done|]. by eapply list_elem_of_lookup_2.
Qed.

Lemma rd_ok n b off :
  0 ≤ off → off + Z.of_nat n ≤ Z.of_nat (length b) → ∃ x, rd n b off = Ret x.
Proof.
  revert off. induction n as [|n IH]; intros off Ho Hl; simpl; [eauto|].
  destruct (rd8_ok b off) as (x & -> & _); [lia|].
  destruct (IH (off + 1)) as (y & Ey); [lia..|]. simpl. rewrite Ey. simpl. eauto.
Qed.

Lemma rd_range n b off x :
  Forall (fun c => 0 ≤ c < 256) b → rd n b off = Ret x → 0 ≤ x < 256 ^ Z.of_nat n.
Proof.
  intros Hb. revert off x. induction n as [|n IH]; intros off x; simpl.
  { intros [= <-]. lia. }
  intros (c & E1 & (y & E2 & E3)%outcome_bind_inv)%outcome_bind_inv. simplify_eq.
  apply IH in E2. unfold rd8 in E1. destruct (_ || _); [done|].
  destruct (b !! Z.to_nat off) as [c'|] eqn:E; [|done]. simplify_eq.
  rewrite Forall_forall in Hb. apply list_elem_of_lookup_2, Hb in E.
  rewrite Nat2Z.inj_succ, Z.pow_succ_r by lia. lia.
Qed.

Lemma rd8_lookup b i x : b !! i = Some x → rd8 b (Z.of_nat i) = Ret x.
Proof.
  intros E. unfold rd8. pose proof (lookup_lt_Some _ _ _ E).
  rewrite (proj2 (Z.ltb_ge _ _)), (proj2 (Z.leb_gt _ _)) by lia. simpl.
  by rewrite Nat2Z.id, E.
Qed.

(** The bytes of a little-endian integer. *)
Fixpoint enc (n : nat) (x : Z) : list Z :=
  match n with
  | O => []
  | S n => x mod 256 :: enc n (x / 256)
  end.

Lemma enc_length n x : length (enc n x) = n.
Proof. revert x. induction n as [|n IH]; intros x; simpl; [done|]. by rewrite IH. Qed.

Lemma enc_bytes n x : Forall (fun c => 0 ≤ c < 256) (enc n x).
Proof.
  revert x. induction n as [|n IH]; intros x; simpl; constructor; [|done].
  by apply Z.mod_pos_bound.
Qed.

Lemma rd_enc n z pre post off : off = Z.of_nat (length pre) →
  rd n (pre ++ enc n z ++ post) off = Ret (z mod 256 ^ Z.of_nat n).
Proof.
  intros ->. revert z pre. induction n as [|n IH]; intros z pre; [by rewrite Z.mod_1_r|].
  cbn [enc rd app]. rewrite (rd8_lookup _ _ (z mod 256)) by (by rewrite list_lookup_middle).
  rewrite outcome_bind_ret. specialize (IH (z / 256) (pre ++ [z mod 256])).
  rewrite length_app, <- app_assoc, Nat2Z.inj_add in IH. cbn [app length] in IH.
  change (Z.of_nat 1) with 1 in IH. rewrite IH.
  rewrite outcome_bind_ret, Nat2Z.inj_succ, Z.pow_succ_r, Z.rem_mul_r by lia. done.
Qed.

Lemma rd_at n z pre post b off :
  b = pre ++ enc n z ++ post → off = Z.of_nat (length pre) → 0 ≤ z < 256 ^ Z.of_nat n →
  rd n b off = Ret z.
Proof. intros -> -> Hz. by rewrite rd_enc, Z.mod_small. Qed.

(** Storing into a cell of a buffer, and copying a block of cells to it. *)
Definition put (b : list Z) (off v : Z) : outcome (list Z) :=
  if (off <? 0) || (Z.of_nat (length b) <=? off) then Fault else Ret (<[Z.to_nat off := v]> b).

Definition blit (b : list Z) (off : Z) (d : list Z) : outcome (list Z) :=
  if (off <? 0) || (Z.of_nat (length b) <? off + Z.of_nat (length d)) then Fault
  else Ret (take (Z.to_nat off) b ++ d ++ drop (Z.to_nat off + length d) b).

(** The first [n] cells of a buffer. *)
Definition front (b : list Z) (n : Z) : outcome (list Z) :=
  if (n <? 0) || (Z.of_nat (length b) <? n) then Fault else Ret (take (Z.to_nat n) b).

Lemma put_lookup b i v : (i < length b)%nat → put b (Z.of_nat i) v = Ret (<[i := v]> b).
Proof.
  intros H. unfold put. rewrite (proj2 (Z.ltb_ge _ _)), (proj2 (Z.leb_gt _ _)) by lia. simpl.
  by rewrite Nat2Z.id.
Qed.

(** A cell and a block of cells in the middle of a buffer. *)
Lemma put_middle (a : list Z) c b off v :
  off = Z.of_nat (length a) → put (a ++ c :: b) off v = Ret (a ++ v :: b).
Proof.
  intros ->. rewrite put_lookup by (rewrite length_app; simpl; lia).
  by rewrite insert_app_r_alt, Nat.sub_diag by lia.
Qed.

Lemma blit_middle (a old b d : list Z) off :
  off = Z.of_nat (length a) → length old = length d → blit (a ++ old ++ b) off d = Ret (a ++ d ++ b).
Proof.
  intros -> Ho. unfold blit. rewrite !length_app, Nat2Z.id.
  rewrite (proj2 (Z.ltb_ge _ 0)), (proj2 (Z.ltb_ge _ _)) by lia. simpl.
  rewrite take_app_length. rewrite <- drop_drop, drop_app_length, drop_app_length' by done. done.
Qed.

Lemma blit_whole (b d' : list Z) : length d' = length b → blit b 0 d' = Ret d'.
Proof.
  intros E. pose proof (blit_middle [] b [] d' 0 eq_refl) as H. rewrite !app_nil_r in H. by apply H.
Qed.

(** ** Text constants *)
Definition text (s : string) : list Z := (Z.of_N ∘ Ascii.N_of_ascii) <$> String.list_ascii_of_string s.
