(* ===== verification/DList.v ===== *)
(** * list.c: circular doubly linked lists

    [winx_list_insert], [winx_list_remove] and [winx_list_destroy] over a heap
    of nodes, with the payload of the C structures (everything after the two
    links) as a parameter.  [ring] and [is_list] relate a heap to the sequence
    of nodes it represents; the specifications at the end of the file are what
    the clients (free regions, block maps, file lists, command history) use. *)
From S2P Require Import Prelude.
From stdpp Require Import prelude gmap.
Open Scope Z_scope.

(** A list item: [struct _list_entry] followed by the client's fields. *)
Record node (A : Type) : Type := Node {
  next : ptr;
  prev : ptr;
  data : A;
}.
Arguments Node {A} next prev data.
Arguments next {A} n.
Arguments prev {A} n.
Arguments data {A} n.

Definition set_next {A} (p : ptr) (n : node A) : node A := Node p (prev n) (data n).

Definition set_prev {A} (p : ptr) (n : node A) : node A := Node (next n) p (data n).

Definition set_data {A} (f : A → A) (n : node A) : node A :=
  Node (next n) (prev n) (f (data n)).

(** [sizeof(list_entry)] on a 64-bit target. *)
Definition sizeof_list_entry : Z := 16.

Section ops.
Context {A : Type} `{!Allocator (node A)}.

(** [winx_malloc(size)], with [d] the indeterminate payload the client
    initialises next: NULL when the killer gives up. *)
Definition malloc_node (d : A) : ST (gmap loc (node A)) ptr := fun h =>
  match alloc h with
  | None => Ret (None, h)
  | Some l => Ret (Some l, <[l := Node None None d]> h)
  end.

(** [winx_list_insert]: returns the new item and the new value of [*phead].
    [size] is a [long]; the comparison converts it to [size_t]. *)
Definition winx_list_insert (phead prev_item : ptr) (size : Z) (d : A)
  : ST (gmap loc (node A)) (ptr * ptr) :=
  if u64 size <? sizeof_list_entry then mret (None, phead) else
  new_item ← malloc_node d;
  match phead with
  | None =>
      (* is list empty? *)
      _ ← modify new_item (set_next new_item);
      _ ← modify new_item (set_prev new_item);
      mret (new_item, new_item)
  | Some _ =>
      (* insert as the new head? *)
      '(p, phead') ← (match prev_item with
                      | None => hd ← load phead; mret (prev hd, new_item)
                      | Some _ => mret (prev_item, phead)
                      end);
      (* insert after the item specified by prev argument *)
      _ ← modify new_item (set_prev p);
      np ← load p;
      _ ← modify new_item (set_next (next np));
      n1 ← load new_item;
      _ ← modify (prev n1) (set_next new_item);
      n2 ← load new_item;
      _ ← modify (next n2) (set_prev new_item);
      mret (new_item, phead')
  end.

(** [winx_list_remove]: returns the new value of [*phead]. *)
Definition winx_list_remove (phead item : ptr) : ST (gmap loc (node A)) ptr :=
  match item with
  | None => mret phead
  | Some _ =>
      match phead with
      | None => mret phead
      | Some _ =>
          it ← load item;
          if decide (item = phead ∧ next it = phead) then
            (* remove alone first item? *)
            _ ← release item;
            mret None
          else
            (* remove first item? *)
            phead' ← (if decide (item = phead)
                      then hd ← load phead; mret (next hd)
                      else mret phead);
            i1 ← load item;
            _ ← modify (prev i1) (set_next (next i1));
            i2 ← load item;
            _ ← modify (next i2) (set_prev (prev i2));
            _ ← release item;
            mret phead'
      end
  end.

(** The [do ... while (next != head)] loop of [winx_list_destroy]. *)
Fixpoint destroy_loop (fuel : nat) (head item : ptr)
  : ST (gmap loc (node A)) unit :=
  match fuel with
  | O => st_nofuel
  | S fuel =>
      it ← load item;
      let nxt := next it in
      _ ← release item;
      if decide (nxt ≠ head) then destroy_loop fuel head nxt else mret tt
  end.

(** [winx_list_destroy]: returns the new value of [*phead]. *)
Definition winx_list_destroy (fuel : nat) (phead : ptr)
  : ST (gmap loc (node A)) ptr :=
  match phead with
  | None => mret phead
  | Some _ => _ ← destroy_loop fuel phead phead; mret None
  end.
End ops.

(** ** Rings and lists *)
Section theory.
Context {A : Type} `{!Allocator (node A)}.
Implicit Types (h : gmap loc (node A)) (l : list (loc * A)).

Definition fst_ptr l (d : ptr) : ptr :=
  match l with [] => d | (x, _) :: _ => Some x end.

Definition lst_ptr l (d : ptr) : ptr :=
  match last l with None => d | Some (x, _) => Some x end.

(** [seg h pp l qn]: the nodes [l] are chained in [h], preceded by [pp] and
    followed by [qn]. *)
Fixpoint seg h (pp : ptr) l (qn : ptr) : Prop :=
  match l with
  | [] => True
  | (x, a) :: l' =>
      h !! x = Some (Node (fst_ptr l' qn) pp a) ∧ seg h (Some x) l' qn
  end.

Definition ring h l : Prop :=
  NoDup l.*1 ∧ seg h (lst_ptr l None) l (fst_ptr l None).

(** The list headed by [head] holds the nodes [l]. *)
Definition is_list h (head : ptr) l : Prop := head = fst_ptr l None ∧ ring h l.

Lemma fst_ptr_app l1 l2 d : fst_ptr (l1 ++ l2) d = fst_ptr l1 (fst_ptr l2 d).
Proof. by destruct l1 as [|[]]. Qed.

Lemma lst_ptr_app l1 l2 d : lst_ptr (l1 ++ l2) d = lst_ptr l2 (lst_ptr l1 d).
Proof.
  unfold lst_ptr. rewrite last_app.
  by destruct (last l2) as [[]|].
Qed.

Lemma lst_ptr_snoc l x a d : lst_ptr (l ++ [(x, a)]) d = Some x.
Proof. by rewrite lst_ptr_app. Qed.

Lemma fst_ptr_default l y d : fst_ptr l None = Some y → fst_ptr l d = Some y.
Proof. by destruct l as [|[]]. Qed.

Lemma lst_ptr_step x a l d : lst_ptr ((x, a) :: l) d = lst_ptr l (Some x).
Proof. change ((x, a) :: l) with ([(x, a)] ++ l). by rewrite lst_ptr_app. Qed.

Lemma seg_app h pp l1 l2 qn :
  seg h pp (l1 ++ l2) qn ↔
  seg h pp l1 (fst_ptr l2 qn) ∧ seg h (lst_ptr l1 pp) l2 qn.
Proof.
  revert pp. induction l1 as [|[x a] l1 IH]; intros pp; simpl; [naive_solver|].
  rewrite IH, fst_ptr_app, lst_ptr_step. naive_solver.
Qed.

Lemma seg_ext h h' pp l qn :
  (∀ x, x ∈ l.*1 → h' !! x = h !! x) → seg h pp l qn → seg h' pp l qn.
Proof.
  revert pp. induction l as [|[x a] l IH]; intros pp Hx; simpl; [done|].
  intros [E Hs]. split.
  - rewrite Hx; [done | set_solver].
  - apply IH; [set_solver | done].
Qed.

Lemma seg_lookup h pp l qn x :
  seg h pp l qn → x ∈ l.*1 → is_Some (h !! x).
Proof.
  revert pp. induction l as [|[y a] l IH]; intros pp; simpl; [set_solver|].
  intros [E Hs] [->|Hx]%elem_of_cons; [by eauto | by eapply IH].
Qed.

Lemma ring_lookup h l x : ring h l → x ∈ l.*1 → is_Some (h !! x).
Proof. intros [_ Hs]. by eapply seg_lookup. Qed.

Lemma ring_fresh h l x : ring h l → h !! x = None → x ∉ l.*1.
Proof. intros Hr Hn Hx. destruct (ring_lookup _ _ _ Hr Hx). congruence. Qed.

Lemma ring_ext h h' l :
  (∀ x, x ∈ l.*1 → h' !! x = h !! x) → ring h l → ring h' l.
Proof. intros Hx [? ?]. split; [done|]. by eapply seg_ext. Qed.

Lemma is_list_ext h h' head l :
  (∀ x, x ∈ l.*1 → h' !! x = h !! x) → is_list h head l → is_list h' head l.
Proof. intros Hx [? ?]. split; [done|]. by eapply ring_ext. Qed.

Lemma lst_ptr_cons p l d d' : lst_ptr (p :: l) d = lst_ptr (p :: l) d'.
Proof.
  unfold lst_ptr. destruct (last (p :: l)) as [[]|] eqn:E; [done|].
  by apply last_None in E.
Qed.

(** A ring may be read from any of its nodes. *)
Lemma ring_rotate h l1 l2 : ring h (l1 ++ l2) → ring h (l2 ++ l1).
Proof.
  intros [Hnd Hs]. split.
  { rewrite fmap_app in *. by rewrite (Permutation_app_comm (l2.*1)). }
  destruct l1 as [|p l1]; [by rewrite app_nil_r|].
  destruct l2 as [|q l2]; [by rewrite app_nil_r in Hs|].
  rewrite !seg_app, !lst_ptr_app, !fst_ptr_app in *.
  destruct Hs as [H1 H2]. rewrite (lst_ptr_cons q l2 _ None) in H1.
  rewrite (lst_ptr_cons p l1 _ None) in H2.
  rewrite (lst_ptr_cons p l1 _ None), (lst_ptr_cons q l2 _ None).
  destruct p, q. simpl fst_ptr in *. done.
Qed.

(** The stores that link a node [x] behind the last node of a ring. *)
Definition link_end (x p y : loc) (d : A) h : gmap loc (node A) :=
  let h1 := <[x := Node (Some y) (Some p) d]> h in
  let h2 := alter (set_next (Some x)) p h1 in
  alter (set_prev (Some x)) y h2.

Lemma ring_link_end h l x d p y :
  h !! x = None → ring h l → lst_ptr l None = Some p → fst_ptr l None = Some y →
  ring (link_end x p y d h) (l ++ [(x, d)]).
Proof.
  intros Hx Hr Hp Hy. pose proof (ring_fresh _ _ _ Hr Hx) as Hxl.
  destruct Hr as [Hnd Hs]. split.
  { rewrite fmap_app. apply NoDup_app. split_and!; [done | set_solver | apply NoDup_singleton]. }
  destruct l as [|[y' b] l]; [done|]. simpl in Hy. simplify_eq.
  rewrite lst_ptr_snoc, fst_ptr_app. simpl fst_ptr at 2.
  destruct l as [|[z c] l _] using rev_ind.
  - unfold lst_ptr in Hp. simpl in Hp. simplify_eq.
    destruct Hs as [E _]. simpl in E. set_unfold in Hxl.
    unfold link_end. simpl. rewrite !lookup_alter, !lookup_insert.
    repeat case_decide; try naive_solver.
    rewrite E. naive_solver.
  - rewrite app_comm_cons in Hp. rewrite lst_ptr_snoc in Hp. simplify_eq.
    simpl in Hs. destruct Hs as [E Hs].
    rewrite fmap_cons, fmap_app in *. simpl in *.
    apply NoDup_cons in Hnd as [Hyl Hnd].
    apply NoDup_app in Hnd as (Hnd & Hdis & _).
    apply seg_app in Hs as [Hs1 Hs2]. simpl in Hs2. destruct Hs2 as [E2 _].
    assert (x ≠ y ∧ x ≠ p ∧ p ≠ y) as (Hxy & Hxp & Hpy) by set_solver.
    split; [| rewrite !seg_app; split_and!; simpl ].
    + unfold link_end. rewrite lookup_alter_eq, lookup_alter_ne, lookup_insert_ne by done.
      rewrite E. simpl. by rewrite !fst_ptr_app.
    + eapply seg_ext; [|exact Hs1]. intros k Hk. unfold link_end.
      rewrite !lookup_alter_ne, lookup_insert_ne; [done | set_solver..].
    + unfold link_end. rewrite lookup_alter_ne, lookup_alter_eq, lookup_insert_ne by done.
      rewrite E2. done.
    + unfold link_end. rewrite !lookup_alter_ne, lookup_insert_eq by done.
      by rewrite lst_ptr_snoc.
Qed.

Lemma lst_ptr_In l p : lst_ptr l None = Some p → ∃ l' a, l = l' ++ [(p, a)].
Proof.
  destruct l as [|[z c] l _] using rev_ind; [done|].
  rewrite lst_ptr_snoc. intros [= ->]. eauto.
Qed.

Lemma lst_ptr_None l : lst_ptr l None = None → l = [].
Proof.
  unfold lst_ptr. destruct (last l) as [[]|] eqn:E; [done|]. by apply last_None in E.
Qed.

Lemma ring_last h l p :
  ring h l → lst_ptr l None = Some p →
  ∃ n, h !! p = Some n ∧ next n = fst_ptr l None.
Proof.
  intros [_ Hs] Hp. apply lst_ptr_In in Hp as (l' & a & ->).
  apply seg_app in Hs as [_ [E _]]. eexists; split; [exact E | done].
Qed.

Lemma ring_first h l y :
  ring h l → fst_ptr l None = Some y →
  ∃ n, h !! y = Some n ∧ prev n = lst_ptr l None.
Proof.
  intros [_ Hs] Hy. destruct l as [|[z c] l]; [done|]. simpl in Hy. simplify_eq.
  destruct Hs as [E _]. eauto.
Qed.

(** The tail of [winx_list_insert] behind the last node [p] of a ring. *)
Lemma insert_link h l x d p :
  h !! x = None → ring h l → lst_ptr l None = Some p →
  ∃ y, fst_ptr l None = Some y ∧
  ∀ (k : ST (gmap loc (node A)) (ptr * ptr)),
  (_ ← modify (Some x) (set_prev (Some p));
   np ← load (Some p);
   _ ← modify (Some x) (set_next (next np));
   n1 ← load (Some x);
   _ ← modify (prev n1) (set_next (Some x));
   n2 ← load (Some x);
   _ ← modify (next n2) (set_prev (Some x));
   k) (<[x := Node None None d]> h) = k (link_end x p y d h).
Proof.
  intros Hx Hr Hp. destruct (ring_last _ _ _ Hr Hp) as (n & En & Hn).
  destruct (fst_ptr l None) as [y|] eqn:Ey.
  2: { destruct l as [|[]]; simpl in Ey; [by rewrite lst_ptr_step in Hp || done | done]. }
  exists y. split; [done|]. intros k.
  destruct (ring_first _ _ _ Hr Ey) as (m & Em & Hm).
  assert (x ≠ p ∧ x ≠ y) as [Hxp Hxy] by (split; intros ->; congruence).
  hstep. hstep. hstep. rewrite Hn. do 3 hstep.
  cbn [next set_next].
  erewrite st_bind_ret; [reflexivity|].
  rewrite !insert_insert_eq, (insert_as_alter _ p) by by simplify_map_eq.
  unfold modify. destruct (decide (y = p)) as [->|Hyp].
  - rewrite lookup_alter_eq. simplify_map_eq. do 2 f_equal.
    apply (insert_as_alter _ p (set_next (Some x) n)).
    rewrite lookup_alter_eq. by simplify_map_eq.
  - rewrite lookup_alter_ne, lookup_insert_ne, Em by done. do 2 f_equal.
    rewrite (insert_as_alter _ y m); [done|]. by rewrite lookup_alter_ne, lookup_insert_ne.
Qed.

Lemma link_end_frame x p y d h k :
  k ≠ x → k ≠ p → k ≠ y → link_end x p y d h !! k = h !! k.
Proof. intros. unfold link_end. by rewrite !lookup_alter_ne, lookup_insert_ne. Qed.

Lemma fst_ptr_elem l y : fst_ptr l None = Some y → y ∈ l.*1.
Proof. destruct l as [|[]]; simpl; [done|]. intros [= ->]. set_solver. Qed.

Lemma lst_ptr_elem l p : lst_ptr l None = Some p → p ∈ l.*1.
Proof. intros (l' & a & ->)%lst_ptr_In. rewrite fmap_app. set_solver. Qed.

Lemma ring_singleton x d h :
  ring (<[x := Node (Some x) (Some x) d]> h) [(x, d)].
Proof.
  split; [apply NoDup_singleton|]. simpl. by rewrite lookup_insert_eq.
Qed.

Lemma list_size_ok size :
  sizeof_list_entry ≤ size < 2 ^ 31 → (u64 size <? sizeof_list_entry) = false.
Proof. unfold sizeof_list_entry. intros. rewrite u64_small; lia. Qed.

(** Inserting with [prev] = NULL makes the new item the head. *)
Lemma winx_list_insert_head h head l x d size :
  is_list h head l → alloc h = Some x → sizeof_list_entry ≤ size < 2 ^ 31 →
  ∃ h', winx_list_insert head None size d h = Ret ((Some x, Some x), h') ∧
        is_list h' (Some x) ((x, d) :: l) ∧
        (∀ k, k ∉ x :: l.*1 → h' !! k = h !! k).
Proof.
  intros [-> Hr] Ha Hsz. pose proof (alloc_fresh _ _ Ha) as Hx.
  unfold winx_list_insert. rewrite list_size_ok by done.
  erewrite st_bind_ret by (unfold malloc_node; by rewrite Ha).
  destruct (fst_ptr l None) as [y|] eqn:Ey.
  - destruct (ring_first _ _ _ Hr Ey) as (m & Em & Hm).
    destruct (lst_ptr l None) as [p|] eqn:Ep.
    2: { apply lst_ptr_None in Ep. by subst. }
    destruct (insert_link _ _ _ d _ Hx Hr Ep) as (y' & Ey' & Hk). simplify_eq.
    eexists. split_and!.
    + erewrite st_bind_ret.
      2: { erewrite st_bind_ret; [reflexivity|]. apply load_ok.
           rewrite lookup_insert_ne; [exact Em | congruence]. }
      rewrite Hm, Hk. reflexivity.
    + split; [done|]. apply (ring_rotate _ l [(x, d)]). by apply ring_link_end.
    + intros k Hk'. apply fst_ptr_elem in Ey. apply lst_ptr_elem in Ep.
      apply link_end_frame; set_solver.
  - destruct l as [|[]]; [|done]. hstep. hstep.
    eexists. split_and!; [reflexivity | split; [done|] |].
    + rewrite !insert_insert_eq. apply ring_singleton.
    + intros k Hk. rewrite !lookup_insert_ne by set_solver. done.
Qed.

(** Inserting after an item of the list. *)
Lemma winx_list_insert_after h head l1 l2 p a x d size :
  is_list h head (l1 ++ (p, a) :: l2) → alloc h = Some x →
  sizeof_list_entry ≤ size < 2 ^ 31 →
  ∃ h', winx_list_insert head (Some p) size d h = Ret ((Some x, head), h') ∧
        is_list h' head (l1 ++ (p, a) :: (x, d) :: l2) ∧
        (∀ k, k ∉ x :: (l1 ++ (p, a) :: l2).*1 → h' !! k = h !! k).
Proof.
  intros [-> Hr] Ha Hsz. pose proof (alloc_fresh _ _ Ha) as Hx.
  unfold winx_list_insert. rewrite list_size_ok by done.
  erewrite st_bind_ret by (unfold malloc_node; by rewrite Ha).
  rewrite cons_middle, app_assoc in Hr. apply ring_rotate in Hr.
  rewrite app_assoc in Hr.
  destruct (insert_link _ _ _ d p Hx Hr) as (y & Ey & Hk); [by rewrite lst_ptr_snoc|].
  assert (∃ z, fst_ptr (l1 ++ (p, a) :: l2) None = Some z) as [z Ez].
  { rewrite fst_ptr_app. destruct l1 as [|[]]; simpl; eauto. }
  rewrite Ez. eexists. split_and!.
  - erewrite st_bind_ret by reflexivity. cbn beta iota. rewrite Hk. reflexivity.
  - split. { rewrite <- Ez, !fst_ptr_app. by destruct l1 as [|[]]. }
    rewrite cons_middle, app_assoc.
    apply (ring_rotate _ ((x, d) :: l2)).
    apply (ring_link_end _ _ x d p y) in Hr; [|done|by rewrite lst_ptr_snoc|done].
    apply ring_rotate in Hr. simpl in *. by rewrite <- app_assoc in Hr.
  - intros k Hk'. apply fst_ptr_elem in Ey. rewrite !fmap_app in *. simpl in *.
    apply link_end_frame; set_solver.
Qed.

(** The stores that take the last node [p] out of a ring of two or more. *)
Definition unlink_end (p q y : loc) h : gmap loc (node A) :=
  delete p (alter (set_prev (Some q)) y (alter (set_next (Some y)) q h)).

Lemma unlink_end_frame p q y h k :
  k ≠ p → k ≠ q → k ≠ y → unlink_end p q y h !! k = h !! k.
Proof. intros. unfold unlink_end. by rewrite lookup_delete_ne, !lookup_alter_ne. Qed.

Lemma ring_unlink_end h l p a q y :
  ring h (l ++ [(p, a)]) → lst_ptr l None = Some q → fst_ptr l None = Some y →
  ring (unlink_end p q y h) l.
Proof.
  intros [Hnd Hs] Hq Hy. rewrite fmap_app in Hnd.
  apply NoDup_app in Hnd as (Hnd & Hdis & _). split; [done|].
  assert (p ∉ l.*1) as Hp by (intros Hin; apply (Hdis _ Hin); set_solver).
  rewrite lst_ptr_snoc in Hs. rewrite Hq, Hy. apply seg_app in Hs as [Hs _].
  destruct l as [|[y' b] l]; [done|]. simpl in Hy. simplify_eq. simpl in *.
  destruct Hs as [E Hs].
  destruct l as [|[z c] l _] using rev_ind.
  - unfold lst_ptr in Hq. simpl in Hq. simplify_eq. simpl. split; [|done].
    unfold unlink_end. rewrite lookup_delete_ne, !lookup_alter_eq, E by set_solver. done.
  - rewrite app_comm_cons, lst_ptr_snoc in Hq. simplify_eq.
    rewrite fmap_app in *. simpl in *.
    apply NoDup_cons in Hnd as [Hyl Hnd]. apply NoDup_app in Hnd as (_ & Hd2 & _).
    apply seg_app in Hs as [Hs1 [E2 _]].
    split; [|rewrite seg_app; split; simpl].
    + unfold unlink_end.
      rewrite lookup_delete_ne, lookup_alter_eq, lookup_alter_ne, E by set_solver.
      simpl. by rewrite !fst_ptr_app.
    + eapply seg_ext; [|exact Hs1]. intros k Hk. apply unlink_end_frame; set_solver.
    + split; [|done]. unfold unlink_end.
      rewrite lookup_delete_ne, lookup_alter_ne, lookup_alter_eq, E2 by set_solver. done.
Qed.

(** Removing an item of the list. *)
Lemma winx_list_remove_spec h head l1 l2 p a :
  is_list h head (l1 ++ (p, a) :: l2) →
  ∃ h', winx_list_remove head (Some p) h = Ret (fst_ptr (l1 ++ l2) None, h') ∧
        is_list h' (fst_ptr (l1 ++ l2) None) (l1 ++ l2) ∧
        h' !! p = None ∧
        (∀ k, k ∉ (l1 ++ (p, a) :: l2).*1 → h' !! k = h !! k).
Proof.
  intros [-> Hr]. assert (∃ z, fst_ptr (l1 ++ (p, a) :: l2) None = Some z) as [z Ez].
  { rewrite fst_ptr_app. destruct l1 as [|[]]; simpl; eauto. }
  rewrite Ez. assert (z = p ↔ l1 = []) as Hz.
  { destruct l1 as [|[z' b] l1]; simpl in Ez; simplify_eq; [done|].
    split; [intros -> | done]. exfalso. destruct Hr as [Hnd _].
    rewrite fmap_app in Hnd. simpl in Hnd. apply NoDup_cons in Hnd as [Hn _]. set_solver. }
  rewrite cons_middle, app_assoc in Hr. apply ring_rotate in Hr. rewrite app_assoc in Hr.
  destruct (ring_last _ _ p Hr) as (n & En & Hn); [by rewrite lst_ptr_snoc|].
  unfold winx_list_remove. erewrite st_bind_ret by (by apply load_ok).
  destruct (decide (l1 ++ l2 = [])) as [Hnil|Hnil].
  - apply app_eq_nil in Hnil as [-> ->]. simpl in *. simplify_eq.
    rewrite decide_True by (rewrite Hn; done).
    erewrite st_bind_ret by (by eapply release_ok).
    eexists. split_and!; [done | split; [done|] | by simplify_map_eq |].
    + split; [apply NoDup_nil_2 | done].
    + intros k Hk. rewrite lookup_delete_ne by set_solver. done.
  - destruct (fst_ptr (l2 ++ l1) None) as [y|] eqn:Ey.
    2: { destruct l2 as [|[]], l1 as [|[]]; done. }
    destruct (lst_ptr (l2 ++ l1) None) as [q|] eqn:Eq.
    2: { apply lst_ptr_None in Eq. destruct l2, l1; done. }
    assert (p ∉ (l2 ++ l1).*1) as Hpl.
    { destruct Hr as [Hnd _]. rewrite fmap_app in Hnd.
      apply NoDup_app in Hnd as (_ & Hd & _). intros Hin. apply (Hd _ Hin). set_solver. }
    rewrite fst_ptr_app, (fst_ptr_default _ _ _ Ey) in Hn.
    pose proof (fst_ptr_elem _ _ Ey) as Hyl. pose proof (lst_ptr_elem _ _ Eq) as Hql.
    assert (y ≠ p ∧ q ≠ p) as [Hyp Hqp] by (split; congruence).
    rewrite decide_False by (intros [[= ->] Hnx]; congruence).
    assert (prev n = Some q) as Hpn.
    { destruct Hr as [_ Hs]. apply seg_app in Hs as [_ [E _]]. rewrite E in En.
      rewrite lst_ptr_snoc in En. simplify_eq. simpl.
      destruct (l2 ++ l1) as [|[] ?]; [done|]. by rewrite (lst_ptr_cons _ _ _ None). }
    destruct (ring_lookup _ _ q Hr) as [nq Enq]; [rewrite fmap_app; set_solver|].
    destruct (ring_lookup _ _ y Hr) as [ny Eny]; [rewrite fmap_app; set_solver|].
    eexists. split_and!.
    + erewrite (st_bind_ret _ _ _ (fst_ptr (l1 ++ l2) None)).
      2: { destruct (decide _) as [[= ->]|Hne].
           - erewrite st_bind_ret by (by apply load_ok). unfold mret, st_ret.
             destruct l1; [|by destruct Hz as [Hz _]; specialize (Hz eq_refl)].
             rewrite app_nil_r in Ey. simpl. by rewrite Hn, Ey.
           - destruct l1 as [|[z' b] l1]; simpl in *; simplify_eq. done. }
      erewrite st_bind_ret by (by apply load_ok). rewrite Hpn, Hn.
      erewrite st_bind_ret by (apply modify_alter; eauto).
      erewrite st_bind_ret by (apply load_ok; by rewrite lookup_alter_ne).
      rewrite Hn, Hpn.
      erewrite st_bind_ret by (apply modify_alter, lookup_alter_is_Some; eauto).
      erewrite st_bind_ret by (eapply release_ok; by rewrite !lookup_alter_ne).
      reflexivity.
    + split; [done|]. apply ring_rotate. by eapply ring_unlink_end.
    + apply lookup_delete_eq.
    + intros k Hk. rewrite !fmap_app in *. simpl in *.
      rewrite lookup_delete_ne, !lookup_alter_ne by set_solver. done.
Qed.

(** [winx_list_destroy] frees every item and nothing else. *)
Lemma destroy_loop_spec fuel h pp l y b qn :
  NoDup ((y, b) :: l).*1 → qn ∉ (fun p => Some p.1) <$> l → 
  seg h pp ((y, b) :: l) qn → (length ((y, b) :: l) ≤ fuel)%nat →
  ∃ h', destroy_loop fuel qn (Some y) h = Ret (tt, h') ∧
        (∀ k, k ∈ ((y, b) :: l).*1 → h' !! k = None) ∧
        (∀ k, k ∉ ((y, b) :: l).*1 → h' !! k = h !! k).
Proof.
  revert fuel h pp y b. induction l as [|[z c] l IH]; intros fuel h pp y b Hnd Hqn Hs Hf.
  all: destruct fuel as [|fuel]; [simpl in Hf; lia|]; simpl in Hs.
  - destruct Hs as [E _]. simpl.
    erewrite st_bind_ret by (by apply load_ok).
    erewrite st_bind_ret by (by eapply release_ok). simpl.
    rewrite decide_False by naive_solver.
    eexists. split_and!; [done| |]; intros k Hk; simpl in Hk.
    + apply list_elem_of_singleton in Hk as ->. apply lookup_delete_eq.
    + apply lookup_delete_ne. set_solver.
  - destruct Hs as [E Hs]. simpl.
    erewrite st_bind_ret by (by apply load_ok).
    erewrite st_bind_ret by (by eapply release_ok). simpl.
    rewrite decide_True by set_solver. simpl in Hnd. apply NoDup_cons in Hnd as [Hy Hnd].
    destruct (IH fuel (delete y h) (Some y) z c) as (h' & Hrun & Hin & Hout).
    + done.
    + set_solver.
    + eapply (seg_ext h); [|done]. intros k Hk. rewrite lookup_delete_ne; [done|].
      intros ->. done.
    + simpl in *. lia.
    + exists h'. split_and!; [done| |].
      * intros k [->|Hk]%elem_of_cons; [|by apply Hin].
        rewrite Hout by done. by simplify_map_eq.
      * intros k Hk. rewrite Hout by set_solver.
        rewrite lookup_delete_ne by set_solver. done.
Qed.

Lemma winx_list_destroy_spec fuel h head l :
  is_list h head l → (length l ≤ fuel)%nat →
  ∃ h', winx_list_destroy fuel head h = Ret (None, h') ∧
        (∀ k, k ∈ l.*1 → h' !! k = None) ∧
        (∀ k, k ∉ l.*1 → h' !! k = h !! k).
Proof.
  intros [-> [Hnd Hs]] Hf. destruct l as [|[y b] l].
  - exists h. split_and!; [done | set_solver | done].
  - destruct (destroy_loop_spec fuel h (lst_ptr ((y, b) :: l) None) l y b (Some y) Hnd) as (h' & Hrun & ? & ?).
    + simpl in Hnd. apply NoDup_cons in Hnd as [Hy _]. 
      intros (p & [= ->] & Hp)%list_elem_of_fmap. apply Hy. set_solver.
    + exact Hs.
    + done.
    + exists h'. split_and!; [|done..]. unfold winx_list_destroy. simpl.
      by erewrite st_bind_ret by exact Hrun.
Qed.

(** What a node of the list holds. *)
Lemma is_list_lookup h head l1 l2 p a :
  is_list h head (l1 ++ (p, a) :: l2) →
  h !! p = Some (Node (fst_ptr l2 head) (lst_ptr l1 (lst_ptr ((p, a) :: l2) None)) a).
Proof.
  intros [-> [_ Hs]]. apply seg_app in Hs as [_ [E _]]. rewrite E.
  rewrite lst_ptr_app. do 2 f_equal.
  destruct l1 as [|q l1]; [done|]. apply lst_ptr_cons.
Qed.

(** Changing the payload of an item. *)
Lemma is_list_update h head l1 l2 p a f :
  is_list h head (l1 ++ (p, a) :: l2) →
  ∃ h', modify (Some p) (set_data f) h = Ret (tt, h') ∧
        is_list h' head (l1 ++ (p, f a) :: l2) ∧
        (∀ k, k ≠ p → h' !! k = h !! k).
Proof.
  intros Hl. pose proof (is_list_lookup _ _ _ _ _ _ Hl) as Ep.
  destruct Hl as [-> [Hnd Hs]].
  eexists. split_and!; [by apply modify_ok | |].
  2: { intros k Hk. by rewrite lookup_insert_ne. }
  split; [by rewrite !fst_ptr_app | split].
  { by rewrite fmap_app in *. }
  rewrite fmap_app in Hnd. simpl in Hnd. apply NoDup_app in Hnd as (_ & Hd & Hnd).
  apply NoDup_cons in Hnd as [Hp _].
  assert (p ∉ l1.*1) as Hp1 by (intros Hin; apply (Hd _ Hin); set_solver).
  rewrite !seg_app, !lst_ptr_app, !fst_ptr_app, !lst_ptr_step in *. simpl in *.
  destruct Hs as (H1 & E & H2). split_and!.
  - eapply seg_ext; [|exact H1]. intros k Hk. rewrite lookup_insert_ne; [done | set_solver].
  - rewrite lookup_insert_eq. rewrite E in Ep. by simplify_eq.
  - eapply seg_ext; [|exact H2]. intros k Hk. rewrite lookup_insert_ne; [done | set_solver].
Qed.

Lemma is_list_nil h head : is_list h head [] ↔ head = None.
Proof. unfold is_list, ring. simpl. split; [naive_solver|]. intros ->. by repeat constructor. Qed.

Lemma is_list_NoDup h head l : is_list h head l → NoDup l.*1.
Proof. by intros [_ [? _]]. Qed.

Lemma fst_ptr_last_head h head l1 p a :
  is_list h head (l1 ++ [(p, a)]) → is_Some head.
Proof. intros [-> _]. rewrite fst_ptr_app. destruct l1 as [|[]]; simpl; eauto. Qed.

(** Only the last item points back to the head. *)
Lemma next_is_head h head l1 l2 p a :
  is_list h head (l1 ++ (p, a) :: l2) → fst_ptr l2 head = head ↔ l2 = [].
Proof.
  intros [-> [Hnd _]]. split; [|intros ->; done].
  destruct l2 as [|[q b] l2]; [done|]. simpl. intros Heq. exfalso.
  rewrite fst_ptr_app, fmap_app in *. simpl in *.
  destruct l1 as [|[z c] l1]; simpl in *; simplify_eq;
    apply NoDup_cons in Hnd as [Hn _]; set_solver.
Qed.

(** Inserting behind the last item, or into the empty list: the pattern of
    every client that builds its list from left to right. *)
Lemma winx_list_append h head l x d size :
  is_list h head l → alloc h = Some x → sizeof_list_entry ≤ size < 2 ^ 31 →
  ∃ h' head', winx_list_insert head (lst_ptr l None) size d h = Ret ((Some x, head'), h') ∧
        is_list h' head' (l ++ [(x, d)]) ∧
        (∀ k, k ∉ x :: l.*1 → h' !! k = h !! k).
Proof.
  intros Hl Ha Hsz. destruct (lst_ptr l None) as [p|] eqn:Ep.
  - apply lst_ptr_In in Ep as (l' & a & ->).
    destruct (winx_list_insert_after h head l' [] p a x d size) as (h' & ? & ? & ?); [done..|].
    exists h', head. rewrite <- app_assoc. done.
  - apply lst_ptr_None in Ep as ->.
    destruct (winx_list_insert_head h head [] x d size) as (h' & ? & ? & ?); [done..|]. eauto.
Qed.

(** Reading the last item through the head, as clients that append do. *)
Lemma last_run h head l :
  is_list h head l →
  match head with Some _ => hd ← load head; mret (prev hd) | None => mret None end h = Ret (lst_ptr l None, h).
Proof.
  intros [-> Hr]. destruct (fst_ptr l None) as [y|] eqn:Ey; [|by destruct l as [|[]]].
  destruct (ring_first _ _ _ Hr Ey) as (n & E & Hp). step (load_ok _ _ _ E). by rewrite Hp.
Qed.

Lemma fresh_node h head l x : is_list h head l → alloc h = Some x → x ∉ l.*1.
Proof. intros [_ Hr] Hx%alloc_fresh. by eapply ring_fresh. Qed.
End theory.

(** ** Sequences of list operations

    Positions stand for the items the clients hold pointers to. *)
Inductive list_op (A : Type) : Type :=
| InsertHead (d : A)
| InsertAfter (i : nat) (d : A)
| RemoveAt (i : nat).
Arguments InsertHead {A} d.
Arguments InsertAfter {A} i d.
Arguments RemoveAt {A} i.

Section sequences.
Context {A : Type} `{!Allocator (node A)}.
Context (alloc_total : ∀ h : gmap loc (node A), is_Some (alloc h)).
Context (size : Z) (Hsize : sizeof_list_entry ≤ size < 2 ^ 31).

(** Following [next] from an item. *)
Fixpoint walk (n : nat) (p : ptr) : ST (gmap loc (node A)) ptr :=
  match n with
  | O => mret p
  | S n => nd ← load p; walk n (next nd)
  end.

Definition run_op (op : list_op A) (head : ptr) : ST (gmap loc (node A)) ptr :=
  match op with
  | InsertHead d => '(_, head') ← winx_list_insert head None size d; mret head'
  | InsertAfter i d =>
      p ← walk i head;
      '(_, head') ← winx_list_insert head p size d; mret head'
  | RemoveAt i => p ← walk i head; winx_list_remove head p
  end.

Fixpoint run_ops (ops : list (list_op A)) (head : ptr) : ST (gmap loc (node A)) ptr :=
  match ops with
  | [] => mret head
  | op :: ops => head' ← run_op op head; run_ops ops head'
  end.

(** The same operations on a sequence. *)
Definition apply_op (op : list_op A) (k : list A) : list A :=
  match op with
  | InsertHead d => d :: k
  | InsertAfter i d => take (S i) k ++ d :: drop (S i) k
  | RemoveAt i => take i k ++ drop (S i) k
  end.

(** Positions must name items of the list. *)
Definition op_valid (op : list_op A) (k : list A) : Prop :=
  match op with
  | InsertHead _ => True
  | InsertAfter i _ | RemoveAt i => (i < length k)%nat
  end.

Fixpoint ops_valid (ops : list (list_op A)) (k : list A) : Prop :=
  match ops with
  | [] => True
  | op :: ops => op_valid op k ∧ ops_valid ops (apply_op op k)
  end.

Lemma walk_run h head l1 l2 p a :
  is_list h head (l1 ++ (p, a) :: l2) → walk (length l1) head h = Ret (Some p, h).
Proof.
  intros Hl. pose proof Hl as [Hh _].
  enough (Hw : ∀ la lb, l1 = la ++ lb →
    walk (length lb) (fst_ptr (lb ++ (p, a) :: l2) None) h = Ret (Some p, h)).
  { rewrite Hh. by apply (Hw []). }
  intros la lb. revert la. induction lb as [|[q b] lb IH]; intros la ->; [done|].
  simpl. rewrite <- app_assoc in Hl. simpl in Hl.
  erewrite st_bind_ret by (apply load_ok; by eapply is_list_lookup). simpl.
  replace (fst_ptr (lb ++ (p, a) :: l2) head) with (fst_ptr (lb ++ (p, a) :: l2) None).
  - apply (IH (la ++ [(q, b)])). by rewrite <- app_assoc.
  - rewrite !fst_ptr_app. by destruct lb as [|[]].
Qed.

Lemma split_position (l : list (loc * A)) i :
  (i < length l)%nat → ∃ l1 p a l2, l = l1 ++ (p, a) :: l2 ∧ length l1 = i.
Proof.
  intros Hi. destruct (lookup_lt_is_Some_2 _ _ Hi) as [[p a] E].
  exists (take i l), p, a, (drop (S i) l). split; [by rewrite take_drop_middle|].
  rewrite length_take. lia.
Qed.

Lemma run_op_spec op h head l :
  is_list h head l → op_valid op l.*2 →
  ∃ h' head' l', run_op op head h = Ret (head', h') ∧ is_list h' head' l' ∧
                 l'.*2 = apply_op op l.*2.
Proof.
  intros Hl Hv. destruct (alloc_total h) as [x Hx]. destruct op as [d|i d|i]; simpl in *.
  - destruct (winx_list_insert_head h head l x d size) as (h' & Hr & Hl' & _); [done..|].
    eexists h', _, _. split_and!; [by erewrite st_bind_ret by exact Hr | done | done].
  - rewrite length_fmap in Hv. destruct (split_position l i Hv) as (l1 & p & a & l2 & -> & <-).
    destruct (winx_list_insert_after h head l1 l2 p a x d size) as (h' & Hr & Hl' & _); [done..|].
    eexists h', _, _. split_and!; [|done|].
    + erewrite st_bind_ret by (by eapply walk_run). by erewrite st_bind_ret by exact Hr.
    + assert ((l1 ++ (p, a) :: l2).*2 = (l1.*2 ++ [a]) ++ l2.*2) as ->
        by (rewrite fmap_app; simpl; by rewrite <- app_assoc).
      rewrite take_app_length', drop_app_length' by (rewrite length_app, length_fmap; simpl; lia).
      rewrite fmap_app. simpl. by rewrite <- app_assoc.
  - rewrite length_fmap in Hv. destruct (split_position l i Hv) as (l1 & p & a & l2 & -> & <-).
    destruct (winx_list_remove_spec h head l1 l2 p a Hl) as (h' & Hr & Hl' & _).
    eexists h', _, _. split_and!; [|done|].
    + by erewrite st_bind_ret by (by eapply walk_run).
    + rewrite !fmap_app. simpl.
      rewrite take_app_length' by (by rewrite length_fmap).
      rewrite cons_middle, app_assoc, drop_app_length'; [done|].
      rewrite length_app, length_fmap. simpl. lia.
Qed.

Lemma run_ops_spec ops h head l :
  is_list h head l → ops_valid ops l.*2 →
  ∃ h' head' l', run_ops ops head h = Ret (head', h') ∧ is_list h' head' l' ∧
                 l'.*2 = foldl (fun k op => apply_op op k) l.*2 ops.
Proof.
  revert h head l. induction ops as [|op ops IH]; intros h head l Hl; simpl.
  - intros _. by eexists _, _, _.
  - intros [Hv Hvs]. destruct (run_op_spec op h head l Hl Hv) as (h1 & head1 & l1 & Hr & Hl1 & E1).
    rewrite <- E1 in *. destruct (IH h1 head1 l1 Hl1 Hvs) as (h2 & head2 & l2 & ? & ? & ?).
    exists h2, head2, l2. split_and!; [|done|done]. by erewrite st_bind_ret by exact Hr.
Qed.
End sequences.

(** ** Properties *)

(** C19: any sequence of insertions at the head, insertions after an item and
    removals, applied to a list whose items are [l], runs without dereferencing
    a bad pointer or freeing memory twice, and leaves a circular list (links in
    both directions consistent) whose items are those of the sequence
    operations. *)
Theorem winx_list_ops_refine {A : Type} `{!Allocator (node A)} size ops h head
    (l : list (loc * A)) :
  (∀ h : gmap loc (node A), is_Some (alloc h)) →
  sizeof_list_entry ≤ size < 2 ^ 31 →
  is_list h head l → ops_valid ops l.*2 →
  ∃ h' head' l', run_ops size ops head h = Ret (head', h') ∧ is_list h' head' l' ∧
                 l'.*2 = foldl (fun k op => apply_op op k) l.*2 ops.
Proof. intros. by apply run_ops_spec. Qed.

Lemma winx_list_ops_refine_witness :
  let A := bump_allocator (node nat) in
  ∃ h' head' l',
    run_ops 24 [InsertHead 1%nat; InsertAfter 0 2%nat; InsertAfter 0 3%nat; RemoveAt 0;
                InsertHead 4%nat; RemoveAt 2] None ∅ = Ret (head', h') ∧
    is_list h' head' l' ∧ l'.*2 = [4; 3]%nat.
Proof.
  refine (winx_list_ops_refine (A := nat) (Allocator0 := bump_allocator _) 24
    [InsertHead 1%nat; InsertAfter 0 2%nat; InsertAfter 0 3%nat; RemoveAt 0;
     InsertHead 4%nat; RemoveAt 2] ∅ None [] _ _ _ _);
    [by eexists | unfold sizeof_list_entry; lia | by apply is_list_nil | simpl; lia].
Defined.

(** Destroying a list frees all of its items and no other object, and
    returns an empty list. *)
Theorem winx_list_destroy_frees {A : Type} fuel h head (l : list (loc * A)) :
  is_list h head l → (length l ≤ fuel)%nat →
  ∃ h', winx_list_destroy fuel head h = Ret (None, h') ∧
        dom h' = dom h ∖ list_to_set l.*1 ∧ ∀ k, k ∉ l.*1 → h' !! k = h !! k.
Proof.
  intros Hl Hf. destruct (winx_list_destroy_spec fuel h head l Hl Hf) as (h' & Hr & Hin & Hout).
  exists h'. split_and!; [done | | done]. apply set_eq. intros k.
  rewrite elem_of_difference, elem_of_list_to_set, !elem_of_dom.
  destruct (decide (k ∈ l.*1)) as [Hk|Hk].
  - rewrite Hin by done. split; [by intros [? ?] | naive_solver].
  - rewrite Hout by done. naive_solver.
Qed.

Lemma winx_list_destroy_frees_witness :
  let h := <[1%positive := Node (Some 2%positive) (Some 2%positive) 10%nat]>
           (<[2%positive := Node (Some 1%positive) (Some 1%positive) 20%nat]>
           (<[3%positive := Node None None 30%nat]> ∅)) : gmap loc (node nat) in
  ∃ h', winx_list_destroy 2 (Some 1%positive) h = Ret (None, h') ∧
        dom h' = dom h ∖ list_to_set [1; 2]%positive ∧
        ∀ k, k ∉ [1; 2]%positive → h' !! k = h !! k.
Proof.
  apply (winx_list_destroy_frees 2 _ _ [(1%positive, 10%nat); (2%positive, 20%nat)]);
    [|simpl; lia].
  split; [done|]. split; [|by repeat split]. apply (bool_decide_unpack _). by vm_compute.
Defined.

(** When [winx_malloc] gives up and returns NULL, [winx_list_insert] does
    not return NULL to its caller as its documentation says: it writes through
    the NULL pointer. *)
Theorem winx_list_insert_out_of_memory {A : Type} `{!Allocator (node A)} phead prev_item size (d : A) h :
  sizeof_list_entry ≤ size < 2 ^ 31 → alloc h = None →
  winx_list_insert phead prev_item size d h = Fault.
Proof.
  intros Hsz Ha. unfold winx_list_insert. rewrite list_size_ok by done.
  erewrite st_bind_ret by (unfold malloc_node; by rewrite Ha).
  destruct phead as [y|]; [|done]. unfold mbind, st_bind at 1.
  destruct prev_item; [done|]. unfold st_bind. simpl. by destruct (h !! y).
Qed.

Lemma winx_list_insert_out_of_memory_witness :
  let A := null_allocator (node nat) in
  winx_list_insert None None 24 7%nat ∅ = Fault.
Proof.
  apply (winx_list_insert_out_of_memory (Allocator0 := null_allocator _));
    [unfold sizeof_list_entry; lia | done].
Defined.
