(* ===== verification/Regions.v ===== *)
(** * volume.c: the list of free regions of a volume

    [winx_add_volume_region], [winx_sub_volume_region] and
    [winx_release_free_volume_regions] over the heap of region nodes, and the
    list functions [add_region] and [sub_region] they refine.  A region list
    stands for a set of clusters ([covers]). *)
From S2P Require Import Prelude DList.
From stdpp Require Import prelude gmap sorting.
Open Scope Z_scope.

(** [struct _winx_volume_region], less its links. *)
Record winx_volume_region : Type := Region {
  rlcn : Z;
  rlength : Z;
}.

#[export] Instance region_eq_dec : EqDecision winx_volume_region.
Proof. solve_decision. Defined.

Definition set_rlength (n : Z) (r : winx_volume_region) : winx_volume_region :=
  Region (rlcn r) n.

Definition set_rlcn (n : Z) (r : winx_volume_region) : winx_volume_region :=
  Region n (rlength r).

(** [sizeof(winx_volume_region)]: two links and two 64-bit fields. *)
Definition sizeof_region : Z := 32.

Section ops.
Context `{!Allocator (node winx_volume_region)}.
Abbreviation rheap := (gmap loc (node winx_volume_region)).

(** The search loop of [winx_add_volume_region]: the region the new one is
    inserted after, NULL for the head of the list. *)
Fixpoint find_rprev (fuel : nat) (rlist r : ptr) (lcn : Z) : ST rheap ptr :=
  match fuel with
  | O => st_nofuel
  | S fuel =>
      match r with
      | None => mret None
      | Some _ =>
          n ← load r;
          if lcn <? rlcn (data n) then
            if decide (r ≠ rlist) then mret (prev n) else mret None
          else if decide (next n = rlist) then mret r
          else find_rprev fuel rlist (next n) lcn
      end
  end.

(** "hits the new region previous one?": [Some] of the resulting list when it
    does. *)
Definition add_hits_prev (rlist rprev : ptr) (lcn length : Z) : ST rheap (option ptr) :=
  match rprev with
  | None => mret None
  | Some _ =>
      p ← load rprev;
      if u64 (rlcn (data p) + rlength (data p)) =? lcn then
        _ ← modify rprev (set_data (fun r => set_rlength (u64 (rlength r + length)) r));
        p ← load rprev;
        pn ← load (next p);
        if u64 (rlcn (data p) + rlength (data p)) =? rlcn (data pn) then
          _ ← modify rprev
                (set_data (fun r => set_rlength (u64 (rlength r + rlength (data pn))) r));
          rlist' ← winx_list_remove rlist (next p);
          mret (Some rlist')
        else mret (Some rlist)
      else mret None
  end.

(** "hits the new region the next one?" *)
Definition add_hits_next (rlist rprev : ptr) (lcn length : Z) : ST rheap bool :=
  match rlist with
  | None => mret false
  | Some _ =>
      rnext ← (match rprev with
               | None => mret rlist
               | Some _ => p ← load rprev; mret (next p)
               end);
      n ← load rnext;
      if u64 (lcn + length) =? rlcn (data n) then
        _ ← modify rnext (set_data (set_rlcn lcn));
        _ ← modify rnext (set_data (fun r => set_rlength (u64 (rlength r + length)) r));
        mret true
      else mret false
  end.

Definition winx_add_volume_region (fuel : nat) (rlist : ptr) (lcn length : Z)
  : ST rheap ptr :=
  if length =? 0 then mret rlist else
  rprev ← find_rprev fuel rlist rlist lcn;
  hp ← add_hits_prev rlist rprev lcn length;
  match hp with
  | Some rlist' => mret rlist'
  | None =>
      hn ← add_hits_next rlist rprev lcn length;
      if (hn : bool) then mret rlist else
      '(r, rlist') ← winx_list_insert rlist rprev sizeof_region (Region 0 0);
      _ ← modify r (set_data (set_rlcn lcn));
      _ ← modify r (set_data (set_rlength length));
      mret rlist'
  end.

(** The body of the loop of [winx_sub_volume_region] for a region that is not
    behind the range: the resulting list and [remaining_clusters]. *)
Definition sub_step (fuel : nat) (rlist r : ptr) (d : winx_volume_region)
    (remaining lcn length : Z) : ST rheap (ptr * Z) :=
  let e := u64 (lcn + length) in
  let re := u64 (rlcn d + rlength d) in
  if lcn <? re then
    if (lcn <=? rlcn d) && (re <=? e) then
      (* list entry is inside a specified range *)
      rlist' ← winx_list_remove rlist r;
      mret (rlist', u64 (remaining - rlength d))
    else if (rlcn d <? lcn) && (lcn <? re) && (re <=? e) then
      (* cut the right side of the list entry *)
      _ ← modify r (set_data (set_rlength (u64 (lcn - rlcn d))));
      mret (rlist, remaining)
    else if (lcn <=? rlcn d) && (rlcn d <? e) then
      (* cut the left side of the list entry *)
      let new_lcn := e in
      let new_length := u64 (re - e) in
      rlist1 ← winx_list_remove rlist r;
      rlist' ← winx_add_volume_region fuel rlist1 new_lcn new_length;
      mret (rlist', remaining)
    else if (rlcn d <? lcn) && (e <? re) then
      (* specified range is inside list entry *)
      let new_lcn := e in
      let new_length := u64 (re - e) in
      _ ← modify r (set_data (set_rlength (u64 (lcn - rlcn d))));
      rlist' ← winx_add_volume_region fuel rlist new_lcn new_length;
      mret (rlist', remaining)
    else mret (rlist, remaining)
  else mret (rlist, remaining).

Fixpoint sub_loop (fuel n : nat) (rlist r : ptr) (remaining lcn length : Z)
  : ST rheap ptr :=
  match n with
  | O => st_nofuel
  | S n =>
      match r with
      | None => mret rlist
      | Some _ =>
          if remaining =? 0 then mret rlist else
          let head := rlist in
          nd ← load r;
          let nxt := next nd in
          if u64 (lcn + length) <=? rlcn (data nd) then mret rlist else
          '(rlist', remaining') ← sub_step fuel rlist r (data nd) remaining lcn length;
          match rlist' with
          | None => mret rlist'
          | Some _ => if decide (nxt = head) then mret rlist'
                      else sub_loop fuel n rlist' nxt remaining' lcn length
          end
      end
  end.

Definition winx_sub_volume_region (fuel : nat) (rlist : ptr) (lcn length : Z)
  : ST rheap ptr :=
  sub_loop fuel fuel rlist rlist length lcn length.

Definition winx_release_free_volume_regions (fuel : nat) (rlist : ptr) : ST rheap unit :=
  _ ← winx_list_destroy fuel rlist; mret tt.
End ops.

(** ** What a region list stands for *)
Definition rend (r : winx_volume_region) : Z := rlcn r + rlength r.

(** Cluster [c] belongs to one of the regions. *)
Definition covers (l : list winx_volume_region) (c : Z) : Prop :=
  ∃ r, r ∈ l ∧ rlcn r ≤ c < rend r.

Definition region_ok (N : Z) (r : winx_volume_region) : Prop :=
  0 ≤ rlcn r ∧ 0 < rlength r ∧ rend r ≤ N.

(** The regions are not empty, lie on a volume of [N] clusters, are sorted and
    any two are separated by at least one cluster. *)
Definition regions_wf (N : Z) (l : list winx_volume_region) : Prop :=
  Forall (region_ok N) l ∧ StronglySorted (fun r1 r2 => rend r1 < rlcn r2) l.

(** Reference definition of adding a range: neighbours are merged. *)
Fixpoint add_region (l : list winx_volume_region) (lcn len : Z)
  : list winx_volume_region :=
  match l with
  | [] => [Region lcn len]
  | r :: l' =>
      if lcn <? rlcn r then
        if lcn + len =? rlcn r then Region lcn (rlength r + len) :: l'
        else Region lcn len :: r :: l'
      else if rend r =? lcn then
        match l' with
        | n :: l'' =>
            if rend r + len =? rlcn n
            then Region (rlcn r) (rlength r + len + rlength n) :: l''
            else Region (rlcn r) (rlength r + len) :: l'
        | [] => [Region (rlcn r) (rlength r + len)]
        end
      else r :: add_region l' lcn len
  end.

(** What is left of a region when a range is subtracted. *)
Definition cut_region (lcn len : Z) (r : winx_volume_region)
  : list winx_volume_region :=
  (if rlcn r <? lcn then [Region (rlcn r) (Z.min (rend r) lcn - rlcn r)] else []) ++
  (if lcn + len <? rend r
   then [Region (Z.max (rlcn r) (lcn + len)) (rend r - Z.max (rlcn r) (lcn + len))]
   else []).

(** Reference definition of subtracting a range. *)
Definition sub_region (l : list winx_volume_region) (lcn len : Z)
  : list winx_volume_region := flat_map (cut_region lcn len) l.

Section list_theory.
Implicit Types (l : list winx_volume_region).

Lemma covers_nil c : covers [] c ↔ False.
Proof. unfold covers. set_solver. Qed.

Lemma covers_cons r l c : covers (r :: l) c ↔ rlcn r ≤ c < rend r ∨ covers l c.
Proof. unfold covers. set_solver. Qed.

Lemma covers_app l1 l2 c : covers (l1 ++ l2) c ↔ covers l1 c ∨ covers l2 c.
Proof. unfold covers. set_solver. Qed.

Lemma regions_wf_cons N r l :
  regions_wf N (r :: l) ↔
  region_ok N r ∧ Forall (fun r' => rend r < rlcn r') l ∧ regions_wf N l.
Proof.
  unfold regions_wf. rewrite Forall_cons. split.
  - intros [[? ?] [? ?]%StronglySorted_inv]. done.
  - intros (? & ? & ? & ?). split; [done | by constructor].
Qed.

Lemma regions_wf_app N l1 l2 :
  regions_wf N (l1 ++ l2) ↔
  regions_wf N l1 ∧ regions_wf N l2 ∧
  Forall (fun r => Forall (fun r' => rend r < rlcn r') l2) l1.
Proof.
  induction l1 as [|r l1 IH]; simpl.
  - split; [|naive_solver].
    intros ?. split_and!; [split; constructor | done | constructor].
  - rewrite !regions_wf_cons, Forall_app, Forall_cons, IH. naive_solver.
Qed.

Lemma covers_rend N r l c :
  region_ok N r → Forall (fun r' => rend r < rlcn r') l → covers l c → rend r < c.
Proof. intros _ Hf (r' & Hr' & Hc). rewrite Forall_forall in Hf. specialize (Hf _ Hr'). lia. Qed.

(** Adding a range of free clusters: the covered set grows by the range. *)
Lemma add_region_covers N l lcn len c :
  regions_wf N l → 0 < len →
  covers (add_region l lcn len) c ↔ covers l c ∨ lcn ≤ c < lcn + len.
Proof.
  intros Hwf Hlen. induction l as [|r l IH]; simpl.
  - rewrite covers_cons, covers_nil. unfold rend. simpl. tauto.
  - apply regions_wf_cons in Hwf as (Hr & Hf & Hwf). specialize (IH Hwf).
    unfold region_ok, rend in *.
    destruct (Z.ltb_spec lcn (rlcn r)); [destruct (Z.eqb_spec (lcn + len) (rlcn r))|].
    + rewrite !covers_cons. unfold rend; simpl. split; [|intuition lia].
      intros [?|?]; [|tauto]. destruct (decide (c < lcn + len)); [right; lia | left; left; lia].
    + rewrite !covers_cons. unfold rend; simpl. tauto.
    + destruct (Z.eqb_spec (rlcn r + rlength r) lcn) as [He|He].
      * destruct l as [|n l].
        { rewrite !covers_cons, covers_nil. unfold rend; simpl. intuition lia. }
        apply regions_wf_cons in Hwf as (Hn & _ & _).
        destruct (Z.eqb_spec (rlcn r + rlength r + len) (rlcn n));
          rewrite !covers_cons; unfold rend, region_ok in *; simpl; [|intuition lia].
        split; [|intuition lia]. intros [?|?]; [|tauto].
        destruct (decide (c < lcn)); [left; left; lia|].
        destruct (decide (c < lcn + len)); [right; lia | left; right; left; lia].
      * rewrite !covers_cons, IH. tauto.
Qed.

Lemma add_region_bounds l lcn len r' :
  r' ∈ add_region l lcn len → rlcn r' = lcn ∨ ∃ r, r ∈ l ∧ rlcn r' = rlcn r.
Proof.
  induction l as [|r l IH]; simpl.
  - intros ->%list_elem_of_singleton. by left.
  - repeat case_match; simplify_eq/=; intros Hr'; set_unfold;
      destruct_or?; subst; simpl; eauto 6.
    destruct IH as [?|(r0 & ? & ?)]; [done | by left | eauto 6].
Qed.

(** Adding a range of clusters that are not covered keeps the list
    well formed. *)
Lemma add_region_wf N l lcn len :
  regions_wf N l → 0 ≤ lcn → 0 < len → lcn + len ≤ N →
  (∀ c, lcn ≤ c < lcn + len → ¬ covers l c) → regions_wf N (add_region l lcn len).
Proof.
  intros Hwf H0 Hlen HN Hdis. induction l as [|r l IH]; simpl.
  - split; repeat constructor; unfold rend; simpl; lia.
  - apply regions_wf_cons in Hwf as (Hr & Hf & Hwf).
    assert (Hdis' : ∀ c, lcn ≤ c < lcn + len → ¬ covers l c).
    { intros c Hc Hl. apply (Hdis c Hc). rewrite covers_cons. by right. }
    assert (Hd1 : lcn + len ≤ rlcn r ∨ rend r ≤ lcn).
    { unfold region_ok, rend in *. destruct (decide (rlcn r ≤ lcn)).
      - right. destruct (decide (rlcn r + rlength r ≤ lcn)); [done|]. exfalso.
        apply (Hdis lcn); [lia|]. rewrite covers_cons. left. unfold rend. lia.
      - left. destruct (decide (lcn + len ≤ rlcn r)); [done|]. exfalso.
        apply (Hdis (rlcn r)); [lia|]. rewrite covers_cons. left. unfold rend. lia. }
    assert (Hf' : ∀ x, x ∈ l → rend r < rlcn x) by by apply Forall_forall.
    specialize (IH Hwf Hdis'). unfold region_ok, rend in *.
    destruct (Z.ltb_spec lcn (rlcn r)); [destruct (Z.eqb_spec (lcn + len) (rlcn r))|].
    + rewrite regions_wf_cons. unfold region_ok, rend; simpl. split_and!; try lia; try done.
      eapply Forall_impl; [exact Hf|]. simpl. lia.
    + rewrite !regions_wf_cons. unfold region_ok, rend; simpl. split_and!; try lia; try done.
      apply Forall_cons. split; [lia|]. eapply Forall_impl; [exact Hf|]. simpl. lia.
    + destruct (Z.eqb_spec (rlcn r + rlength r) lcn) as [He|He].
      * destruct l as [|n l].
        { split; repeat constructor; unfold rend; simpl; lia. }
        pose proof (regions_wf_cons N n l) as Hn. apply Hn in Hwf as (Hn1 & Hn2 & Hn3).
        assert (Hnl : lcn + len ≤ rlcn n).
        { unfold region_ok, rend in *. assert (Hrn := Hf' n ltac:(set_solver)).
          destruct (decide (lcn + len ≤ rlcn n)); [done|]. exfalso.
          apply (Hdis' (rlcn n)); [lia|]. rewrite covers_cons. left. unfold rend. lia. }
        unfold region_ok, rend in *.
        destruct (Z.eqb_spec (rlcn r + rlength r + len) (rlcn n));
          rewrite !regions_wf_cons; unfold region_ok, rend in *; simpl.
        -- split_and!; try lia; try done. eapply Forall_impl; [exact Hn2|]. simpl. lia.
        -- split_and!; try lia; try done. apply Forall_cons. split; [lia|].
           eapply Forall_impl; [exact Hn2|]. simpl. lia.
      * rewrite regions_wf_cons. unfold region_ok, rend. split_and!; try lia; try done.
        apply Forall_forall. intros x [Hx|(r' & Hr' & Hx)]%add_region_bounds; [lia|].
        rewrite Hx. by apply Hf'.
Qed.

Lemma cut_region_covers lcn len r c :
  0 < len → 0 < rlength r →
  covers (cut_region lcn len r) c ↔
  rlcn r ≤ c < rend r ∧ ¬ (lcn ≤ c < lcn + len).
Proof.
  intros Hl Hr. unfold cut_region. rewrite covers_app. unfold rend.
  destruct (Z.ltb_spec (rlcn r) lcn), (Z.ltb_spec (lcn + len) (rlcn r + rlength r));
    rewrite ?covers_cons, ?covers_nil; unfold rend; simpl; lia.
Qed.

(** Subtracting a range: exactly its clusters leave the covered set. *)
Lemma sub_region_covers N l lcn len c :
  regions_wf N l → 0 < len →
  covers (sub_region l lcn len) c ↔ covers l c ∧ ¬ (lcn ≤ c < lcn + len).
Proof.
  intros Hwf Hlen. unfold sub_region. induction l as [|r l IH]; simpl.
  - rewrite covers_nil. tauto.
  - apply regions_wf_cons in Hwf as (Hr & Hf & Hwf). rewrite covers_app, covers_cons, IH by done.
    rewrite cut_region_covers by (unfold region_ok in Hr; lia). tauto.
Qed.

Lemma cut_region_elem N lcn len r r' :
  0 < len → region_ok N r → r' ∈ cut_region lcn len r →
  region_ok N r' ∧ rlcn r ≤ rlcn r' ∧ rend r' ≤ rend r.
Proof.
  unfold cut_region, region_ok, rend. intros Hl Hr.
  destruct (Z.ltb_spec (rlcn r) lcn), (Z.ltb_spec (lcn + len) (rlcn r + rlength r));
    set_unfold; intros Hr'; destruct_or?; subst; simpl; try done; lia.
Qed.

Lemma sub_region_wf N l lcn len :
  regions_wf N l → 0 < len → regions_wf N (sub_region l lcn len).
Proof.
  intros Hwf Hlen. unfold sub_region. induction l as [|r l IH]; simpl; [done|].
  apply regions_wf_cons in Hwf as (Hr & Hf & Hwf).
  rewrite regions_wf_app. split_and!; [|by apply IH|].
  - split.
    + apply Forall_forall. intros r' Hr'. by eapply cut_region_elem.
    + unfold cut_region. destruct (Z.ltb_spec (rlcn r) lcn); simpl.
      * destruct (Z.ltb_spec (lcn + len) (rend r)); repeat constructor; unfold rend in *; simpl; lia.
      * destruct (Z.ltb_spec (lcn + len) (rend r)); repeat constructor.
  - apply Forall_forall. intros r' Hr'. apply Forall_forall. intros r2 Hr2.
    apply list_elem_of_In, in_flat_map in Hr2 as (r3 & Hr3 & Hr2).
    apply list_elem_of_In in Hr3, Hr2.
    assert (region_ok N r3) as Hok by (destruct Hwf as [Hw _]; by eapply Forall_forall in Hw).
    destruct (cut_region_elem N lcn len r r') as (_ & _ & ?); [done..|].
    destruct (cut_region_elem N lcn len r3 r2) as (_ & ? & _); [done..|].
    rewrite Forall_forall in Hf. specialize (Hf _ Hr3). lia.
Qed.
End list_theory.

(** ** The heap code refines the list functions *)
Section refinement.
Context `{!Allocator (node winx_volume_region)}.
Context (alloc_total : ∀ h, is_Some (alloc h)).
Abbreviation rheap := (gmap loc (node winx_volume_region)).
Abbreviation rnodes := (list (loc * winx_volume_region)).
Implicit Types (h : rheap) (l : rnodes).

(** Locations in use outside the list keep their contents. *)
Definition frame (l : rnodes) (h h' : rheap) : Prop :=
  ∀ k, k ∉ l.*1 → is_Some (h !! k) → h' !! k = h !! k.

(** The search stops behind the last region that does not start after [lcn]. *)
Lemma find_rprev_spec h head l0 l1 l2 lcn fuel :
  is_list h head (l0 ++ l1 ++ l2) → Forall (fun p => rlcn p.2 ≤ lcn) (l0 ++ l1) →
  match l2 with [] => True | (_, r) :: _ => lcn < rlcn r end →
  (length l1 < fuel)%nat → (l0 = [] ∨ l1 ++ l2 ≠ []) →
  find_rprev fuel head (fst_ptr (l1 ++ l2) None) lcn h = Ret (lst_ptr (l0 ++ l1) None, h).
Proof.
  revert fuel l0. induction l1 as [|[p r] l1 IH]; intros fuel l0 Hl Hle Hgt Hf Hne.
  all: destruct fuel as [|fuel]; [simpl in *; lia|].
  - rewrite app_nil_r, app_nil_l in *. destruct l2 as [|[q r] l2].
    + destruct Hne as [->|]; [|done]. done.
    + simpl. pose proof (is_list_lookup _ _ _ _ _ _ Hl) as Eq.
      erewrite st_bind_ret by (apply load_ok; exact Eq). simpl.
      rewrite (proj2 (Z.ltb_lt _ _)) by done.
      destruct Hl as [-> [Hnd _]]. rewrite fst_ptr_app.
      destruct l0 as [|[z c] l0]; simpl.
      * by rewrite decide_False by naive_solver.
      * rewrite decide_True. { by rewrite !lst_ptr_step. }
        intros [= ->]. simpl in Hnd. apply NoDup_cons in Hnd as [Hn _].
        rewrite fmap_app in Hn. set_solver.
  - simpl in Hl. pose proof (is_list_lookup _ _ _ _ _ _ Hl) as Ep. simpl.
    erewrite st_bind_ret by (apply load_ok; exact Ep). simpl.
    assert (rlcn r ≤ lcn) by (apply Forall_app in Hle as [_ [? _]%Forall_cons]; done).
    rewrite (proj2 (Z.ltb_ge _ _)) by done.
    pose proof (next_is_head _ _ _ _ _ _ Hl) as Hnh.
    rewrite cons_middle, !app_assoc in *.
    destruct (decide (l1 ++ l2 = [])) as [Hnil|Hnil].
    + rewrite decide_True by by apply Hnh.
      apply app_eq_nil in Hnil as [-> ->]. by rewrite app_nil_r, lst_ptr_snoc.
    + rewrite decide_False by naive_solver.
      replace (fst_ptr (l1 ++ l2) head) with (fst_ptr (l1 ++ l2) None).
      2: { destruct (l1 ++ l2) as [|[]]; done. }
      rewrite <- !app_assoc in *. simpl in *.
      rewrite (cons_middle _ l0 l1), app_assoc.
      apply (IH fuel (l0 ++ [(p, r)])); rewrite <- ?app_assoc; simpl; try done; [lia | by right].
Qed.

Lemma find_rprev_run h head l1 l2 lcn fuel :
  is_list h head (l1 ++ l2) → Forall (fun p => rlcn p.2 ≤ lcn) l1 →
  match l2 with [] => True | (_, r) :: _ => lcn < rlcn r end →
  (length l1 < fuel)%nat →
  find_rprev fuel head head lcn h = Ret (lst_ptr l1 None, h).
Proof.
  intros Hl Hle Hgt Hf.
  pose proof (find_rprev_spec h head [] l1 l2 lcn fuel Hl Hle Hgt Hf (or_introl eq_refl)) as Hr.
  by destruct Hl as [-> _].
Qed.

(** Splitting a well-formed list at the place of a new region. *)
Lemma split_at (l : rnodes) lcn :
  ∃ l1 l2, l = l1 ++ l2 ∧ Forall (fun p => rlcn p.2 ≤ lcn) l1 ∧
           match l2 with [] => True | (_, r) :: _ => lcn < rlcn r end.
Proof.
  induction l as [|[p r] l (l1 & l2 & -> & H1 & H2)].
  - exists [], []. by repeat constructor.
  - destruct (decide (rlcn r ≤ lcn)).
    + exists ((p, r) :: l1), l2. split_and!; [done | by constructor | done].
    + exists [], ((p, r) :: l1 ++ l2). split_and!; [done | constructor | lia].
Qed.

(** The item that follows the insertion point: the first region behind it, or
    the head of the list when there is none. *)
Lemma rnext_run h head l1 l2 :
  is_list h head (l1 ++ l2) → is_Some head →
  ∃ q r, (match lst_ptr l1 None with
          | None => mret head
          | Some p => n ← load (Some p); mret (next n)
          end : ST rheap ptr) h = Ret (Some q, h) ∧
         ((∃ t, l2 = (q, r) :: t) ∨ l2 = [] ∧ ∃ t, l1 = (q, r) :: t).
Proof.
  intros Hl [z ->]. destruct (lst_ptr l1 None) as [p|] eqn:Ep.
  - apply lst_ptr_In in Ep as (l' & a & ->). rewrite <- app_assoc in Hl. simpl in Hl.
    pose proof (is_list_lookup _ _ _ _ _ _ Hl) as E. destruct Hl as [Hz _].
    destruct l2 as [|[q r] l2].
    + rewrite fst_ptr_app in Hz. destruct l' as [|[q r] l']; simpl in Hz; simplify_eq.
      * exists p, a. split; [|right; eauto].
        erewrite st_bind_ret by (apply load_ok; exact E). done.
      * exists q, r. split; [|right; eauto].
        erewrite st_bind_ret by (apply load_ok; exact E). done.
    + exists q, r. split; [|left; eauto].
      erewrite st_bind_ret by (apply load_ok; exact E). done.
  - apply lst_ptr_None in Ep as ->. destruct Hl as [Hz _].
    destruct l2 as [|[q r] l2]; simpl in Hz; simplify_eq.
    exists q, r. split; [done | left; eauto].
Qed.

(** No region of [l1] ends at [lcn]: the previous one is not hit. *)
Lemma add_hits_prev_no N h head l1 l2 lcn len :
  is_list h head (l1 ++ l2) → regions_wf N (l1 ++ l2).*2 → N < 2 ^ 64 →
  Forall (fun p => rend p.2 ≠ lcn) l1 →
  add_hits_prev head (lst_ptr l1 None) lcn len h = Ret (None, h).
Proof.
  intros Hl Hwf HN Hne. destruct (lst_ptr l1 None) as [p|] eqn:Ep; [|done]. simpl.
  apply lst_ptr_In in Ep as (l' & a & ->). rewrite <- app_assoc in *. simpl in *.
  apply is_list_lookup in Hl.
  erewrite st_bind_ret by (apply load_ok; exact Hl). simpl.
  rewrite (proj2 (Z.eqb_neq _ _)); [done|].
  apply Forall_app in Hne as [_ [Hne _]%Forall_cons]. simpl in Hne.
  rewrite fmap_app in Hwf. apply regions_wf_app in Hwf as (_ & Hwf & _).
  simpl in Hwf. apply regions_wf_cons in Hwf as ((? & ? & ?) & _).
  unfold rend in *. words. done.
Qed.

(** Neither neighbour is hit: the region is inserted between them. *)
Lemma add_run_insert N h head l1 l2 lcn len fuel :
  is_list h head (l1 ++ l2) → regions_wf N (l1 ++ l2).*2 → N < 2 ^ 64 →
  0 ≤ lcn → 0 < len → lcn + len ≤ N →
  Forall (fun p => rlcn p.2 ≤ lcn) l1 →
  match l2 with [] => True | (_, r) :: _ => lcn < rlcn r ∧ lcn + len ≠ rlcn r end →
  Forall (fun p => rend p.2 ≠ lcn) l1 → (length l1 < fuel)%nat →
  ∃ x h' head', winx_add_volume_region fuel head lcn len h = Ret (head', h') ∧
                is_list h' head' (l1 ++ (x, Region lcn len) :: l2) ∧
                frame (l1 ++ l2) h h' ∧ h !! x = None.
Proof.
  intros Hl Hwf HN Hlcn Hlen Hle Hl1 Hl2 Hne Hf.
  unfold winx_add_volume_region. rewrite (proj2 (Z.eqb_neq _ _)) by lia.
  erewrite st_bind_ret.
  2: { eapply find_rprev_run; [done..| |done]. destruct l2 as [|[]]; naive_solver. }
  erewrite (st_bind_ret _ _ _ None) by (by eapply add_hits_prev_no).
  erewrite (st_bind_ret _ _ _ false).
  2: { destruct head as [z|]; [|done]. unfold add_hits_next.
       destruct (rnext_run h _ l1 l2 Hl) as (q & r & Hq & Hr); [done|].
       erewrite st_bind_ret by (destruct (lst_ptr l1 None); exact Hq).
       assert (∃ la lb, l1 ++ l2 = la ++ (q, r) :: lb) as (la & lb & Hlab).
       { destruct Hr as [[t ->]|(-> & t & ->)]; [eauto | rewrite app_nil_r; by exists []; eauto]. }
       rewrite Hlab in Hl. apply is_list_lookup in Hl.
       erewrite st_bind_ret by (apply load_ok; exact Hl). simpl.
       rewrite (proj2 (Z.eqb_neq _ _)); [done|]. words.
       destruct Hr as [[t ->]|(-> & t & ->)]; [naive_solver|].
       apply Forall_cons in Hl1 as [Hq1 _]. simpl in Hq1. lia. }
  cbn beta iota. destruct (alloc_total h) as [x Hx]. exists x.
  assert (∃ h1 head', winx_list_insert head (lst_ptr l1 None) sizeof_region (Region 0 0) h
              = Ret ((Some x, head'), h1) ∧
          is_list h1 head' (l1 ++ (x, Region 0 0) :: l2) ∧
          ∀ k, k ∉ x :: (l1 ++ l2).*1 → h1 !! k = h !! k) as (h1 & head' & Hrun & Hl' & Hfr).
  { destruct (lst_ptr l1 None) as [p|] eqn:Ep.
    - apply lst_ptr_In in Ep as (l' & a & ->). rewrite <- app_assoc in *. simpl in *.
      edestruct (winx_list_insert_after h head l' l2 p a x (Region 0 0) sizeof_region)
        as (h1 & ? & ? & ?); [done..| unfold sizeof_region, sizeof_list_entry; lia |].
      rewrite <- app_assoc. eauto.
    - apply lst_ptr_None in Ep as ->. simpl in *.
      edestruct (winx_list_insert_head h head l2 x (Region 0 0) sizeof_region)
        as (h1 & ? & ? & ?); [done..| unfold sizeof_region, sizeof_list_entry; lia |]. eauto. }
  erewrite st_bind_ret by exact Hrun. cbn beta iota.
  destruct (is_list_update _ _ _ _ _ _ (set_rlcn lcn) Hl') as (h2 & Hm2 & Hl2' & Hfr2).
  erewrite st_bind_ret by exact Hm2.
  destruct (is_list_update _ _ _ _ _ _ (set_rlength len) Hl2') as (h3 & Hm3 & Hl3 & Hfr3).
  erewrite st_bind_ret by exact Hm3.
  apply alloc_fresh in Hx. exists h3, head'. split_and!; [done | done | | done].
  intros k Hk Hs. destruct (decide (k = x)) as [->|Hkx].
  { rewrite Hx in Hs. by destruct Hs. }
  rewrite Hfr3, Hfr2, Hfr by set_solver. done.
Qed.

Lemma frame_trans l l' h h1 h2 :
  frame l h h1 → frame l' h1 h2 → (∀ k, k ∈ l'.*1 → k ∈ l.*1 ∨ h !! k = None) →
  frame l h h2.
Proof.
  intros H1 H2 Hsub k Hk Hs. rewrite H2, H1; [done | done | done | |].
  - intros Hk'. destruct (Hsub _ Hk') as [?|E]; [done|]. rewrite E in Hs. by destruct Hs.
  - by rewrite H1.
Qed.

(** The new region ends where the next one starts: that one grows. *)
Lemma add_run_next N h head l1 l2 q r lcn len fuel :
  is_list h head (l1 ++ (q, r) :: l2) → regions_wf N (l1 ++ (q, r) :: l2).*2 → N < 2 ^ 64 →
  0 ≤ lcn → 0 < len → lcn + len = rlcn r →
  Forall (fun p => rlcn p.2 ≤ lcn) l1 → Forall (fun p => rend p.2 ≠ lcn) l1 →
  (length l1 < fuel)%nat →
  ∃ h', winx_add_volume_region fuel head lcn len h = Ret (head, h') ∧
        is_list h' head (l1 ++ (q, Region lcn (rlength r + len)) :: l2) ∧
        frame (l1 ++ (q, r) :: l2) h h'.
Proof.
  intros Hl Hwf HN Hlcn Hlen He Hl1 Hne Hf.
  assert (region_ok N r) as (Hr1 & Hr2 & Hr3).
  { rewrite fmap_app in Hwf. apply regions_wf_app in Hwf as (_ & Hwf & _).
    simpl in Hwf. by apply regions_wf_cons in Hwf as (? & _). }
  unfold rend in Hr3.
  unfold winx_add_volume_region. rewrite (proj2 (Z.eqb_neq _ _)) by lia.
  erewrite st_bind_ret by (eapply find_rprev_run; [exact Hl | done | simpl; lia | done]).
  erewrite (st_bind_ret _ _ _ None) by (by eapply add_hits_prev_no).
  assert (is_Some head) as [z Hz].
  { destruct Hl as [-> _]. rewrite fst_ptr_app. destruct l1 as [|[]]; simpl; eauto. }
  destruct (rnext_run h head l1 ((q, r) :: l2) Hl) as (q' & r' & Hq & Hr); [by eauto|].
  assert (q' = q) as -> by (destruct Hr as [[t ?]|[? _]]; naive_solver).
  destruct (is_list_update _ _ _ _ _ _ (set_rlcn lcn) Hl) as (h1 & Hm1 & Hl1' & Hfr1).
  destruct (is_list_update _ _ _ _ _ _
    (fun x => set_rlength (u64 (rlength x + len)) x) Hl1') as (h2 & Hm2 & Hl2' & Hfr2).
  erewrite (st_bind_ret _ _ _ true).
  2: { subst head. unfold add_hits_next.
       erewrite st_bind_ret by (destruct (lst_ptr l1 None); exact Hq).
       erewrite st_bind_ret by (apply load_ok; by eapply is_list_lookup). simpl.
       rewrite (proj2 (Z.eqb_eq _ _)) by (words; done).
       erewrite st_bind_ret by exact Hm1. erewrite st_bind_ret by exact Hm2. done. }
  exists h2. split_and!; [done | |].
  - unfold set_rlength, set_rlcn in Hl2'. simpl in Hl2'. by rewrite u64_small in Hl2' by lia.
  - intros k Hk _. rewrite fmap_app in Hk. rewrite Hfr2, Hfr1 by set_solver. done.
Qed.

Lemma regions_wf_head N k1 k2 d :
  regions_wf N (k1 ++ d :: k2) →
  region_ok N d ∧ regions_wf N (k1 ++ k2) ∧ Forall (fun r => rend d < rlcn r) k2 ∧
  Forall (fun r => region_ok N r ∧ rend r < rlcn d) k1.
Proof.
  rewrite !regions_wf_app, regions_wf_cons. intros (H1 & (Hd & Hd2 & H2) & H12).
  split_and!; try done.
  - eapply Forall_impl; [exact H12|]. by intros x [_ ?]%Forall_cons.
  - apply Forall_and. split; [by destruct H1|].
    eapply Forall_impl; [exact H12|]. by intros x [? _]%Forall_cons.
Qed.

(** The last part of HITS_PREV: the region that was enlarged takes in the next
    one when it reaches it. *)
Definition absorb_next (head : ptr) (p : loc) : ST rheap (option ptr) :=
  p0 ← load (Some p);
  pn ← load (next p0);
  if u64 (rlcn (data p0) + rlength (data p0)) =? rlcn (data pn) then
    _ ← modify (Some p) (set_data (fun r => set_rlength (u64 (rlength r + rlength (data pn))) r));
    rlist' ← winx_list_remove head (next p0);
    mret (Some rlist')
  else mret (Some head).

(** Behind the last region comes the first one, which lies in front of it. *)
Lemma absorb_last h head l1 p b :
  is_list h head (l1 ++ [(p, b)]) → 0 ≤ rlcn b → 0 < rlength b → rend b < 2 ^ 64 →
  Forall (fun x => rlcn x.2 ≤ rlcn b) l1 → absorb_next head p h = Ret (Some head, h).
Proof.
  unfold rend. intros Hl Hb1 Hb2 Hb3 Hle. unfold absorb_next.
  erewrite st_bind_ret by (apply load_ok; by eapply is_list_lookup). simpl.
  assert (∃ z c la, l1 ++ [(p, b)] = (z, c) :: la ∧ rlcn c ≤ rlcn b) as (z & c & la & Hz & Hc).
  { destruct l1 as [|[z c] l1]; simpl; [by repeat eexists|].
    do 3 eexists. split; [done|]. by apply Forall_cons in Hle as [? _]. }
  rewrite Hz in Hl. assert (head = Some z) as -> by (by destruct Hl).
  erewrite st_bind_ret by (apply load_ok; by eapply (is_list_lookup _ _ [])). simpl.
  rewrite (proj2 (Z.eqb_neq _ _)); [done|]. words. lia.
Qed.

(** The region is enlarged by the next one, which leaves the list. *)
Lemma absorb_merge h head l1 p b q n t :
  is_list h head (l1 ++ (p, b) :: (q, n) :: t) → 0 ≤ rlength b + rlength n < 2 ^ 64 →
  ∃ h', (_ ← modify (Some p) (set_data (fun r => set_rlength (u64 (rlength r + rlength n)) r));
         rlist' ← winx_list_remove head (Some q);
         mret (Some rlist')) h = Ret (Some head, h') ∧
    is_list h' head (l1 ++ (p, Region (rlcn b) (rlength b + rlength n)) :: t) ∧
    frame (l1 ++ (p, b) :: (q, n) :: t) h h'.
Proof.
  intros Hl Hn.
  destruct (is_list_update _ _ _ _ _ _
    (fun r => set_rlength (u64 (rlength r + rlength n)) r) Hl) as (h2 & Hm2 & Hl2 & Hfr2).
  unfold set_rlength in Hl2. rewrite u64_small in Hl2 by lia. rewrite cons_middle, app_assoc in Hl2.
  destruct (winx_list_remove_spec _ _ _ _ _ _ Hl2) as (h3 & Hrm & Hl3 & _ & Hfr3).
  assert (Hhd : fst_ptr ((l1 ++ [(p, Region (rlcn b) (rlength b + rlength n))]) ++ t) None = head).
  { destruct Hl as [-> _]. rewrite !fst_ptr_app. by destruct l1 as [|[]]. }
  rewrite Hhd in *. exists h3. split_and!.
  - step Hm2. by step Hrm.
  - by rewrite <- app_assoc in Hl3.
  - intros k Hk _. rewrite !fmap_app in *. simpl in *. rewrite Hfr3, Hfr2; [done | set_solver..].
Qed.

Lemma absorb_run N h head l1 l2 p b :
  is_list h head (l1 ++ (p, b) :: l2) → N < 2 ^ 64 → region_ok N b →
  Forall (fun x => rlcn x.2 ≤ rlcn b) l1 → Forall (region_ok N) l2.*2 →
  ∃ h' l', absorb_next head p h = Ret (Some head, h') ∧ is_list h' head (l1 ++ l') ∧
    l'.*2 = match l2.*2 with
            | n :: t => if rend b =? rlcn n then Region (rlcn b) (rlength b + rlength n) :: t
                        else b :: l2.*2
            | [] => [b]
            end ∧
    frame (l1 ++ (p, b) :: l2) h h'.
Proof.
  intros Hl HN (Hb1 & Hb2 & Hb3) Hle Hok. unfold rend in *. destruct l2 as [|[q n] t]; simpl fmap.
  { exists h, [(p, b)]. split_and!; [|done..]. eapply absorb_last; [done.. | unfold rend; lia | done]. }
  simpl in Hok. apply Forall_cons in Hok as [(? & ? & ?) _]. unfold rend in *.
  assert (Hlq := Hl). rewrite cons_middle, app_assoc in Hlq.
  unfold absorb_next. erewrite st_bind_ret by (apply load_ok; by eapply is_list_lookup). simpl.
  erewrite st_bind_ret by (apply load_ok; by eapply is_list_lookup). simpl. words.
  destruct (Z.eqb_spec (rlcn b + rlength b) (rlcn n)) as [Heq|Hneq].
  - destruct (absorb_merge h head l1 p b q n t Hl) as (h' & Hrun & Hl' & Hfr); [lia|].
    eexists h', (_ :: t). by split_and!.
  - by exists h, ((p, b) :: (q, n) :: t).
Qed.

(** The new region starts where the previous one ends. *)
Lemma add_run_prev N h head l1 l2 p a lcn len fuel :
  is_list h head (l1 ++ (p, a) :: l2) → regions_wf N (l1 ++ (p, a) :: l2).*2 → N < 2 ^ 64 →
  0 ≤ lcn → 0 < len → lcn + len ≤ N → rend a = lcn → (S (length l1) < fuel)%nat →
  ∃ h' l', winx_add_volume_region fuel head lcn len h = Ret (head, h') ∧
        is_list h' head (l1 ++ l') ∧
        l'.*2 = match l2.*2 with
                | n :: t => if rend a + len =? rlcn n
                            then Region (rlcn a) (rlength a + len + rlength n) :: t
                            else Region (rlcn a) (rlength a + len) :: l2.*2
                | [] => [Region (rlcn a) (rlength a + len)]
                end ∧
        frame (l1 ++ (p, a) :: l2) h h'.
Proof.
  intros Hl Hwf HN Hlcn Hlen HlN He Hf. rewrite fmap_app in Hwf. simpl in Hwf.
  assert (Hok2 : Forall (region_ok N) l2.*2).
  { destruct Hwf as [Hall _]. by apply Forall_app in Hall as [_ [_ ?]%Forall_cons]. }
  apply regions_wf_head in Hwf as ((Ha1 & Ha2 & Ha3) & _ & Hw2 & Hw1). unfold rend in *.
  assert (Hle : Forall (fun x => rlcn x.2 ≤ rlcn a) l1).
  { apply (Forall_fmap snd (fun r => rlcn r ≤ rlcn a)). eapply Forall_impl; [exact Hw1|].
    intros r [(? & ? & ?) ?]. unfold rend in *. simpl in *. lia. }
  unfold winx_add_volume_region. rewrite (proj2 (Z.eqb_neq _ _)) by lia.
  erewrite st_bind_ret.
  2: { eapply (find_rprev_run _ _ (l1 ++ [(p, a)]) l2).
       - by rewrite <- app_assoc.
       - apply Forall_app. split; [|by repeat constructor; simpl; lia].
         eapply Forall_impl; [exact Hle|]. simpl. lia.
       - destruct l2 as [|[q r] l2]; [done|]. simpl in Hw2. apply Forall_cons in Hw2 as [? _]. lia.
       - rewrite length_app. simpl. lia. }
  rewrite lst_ptr_snoc.
  destruct (is_list_update _ _ _ _ _ _
    (fun r => set_rlength (u64 (rlength r + len)) r) Hl) as (h1 & Hm1 & Hl1 & Hfr1).
  replace (set_rlength (u64 (rlength a + len)) a) with (Region (rlcn a) (rlength a + len)) in Hl1
    by (unfold set_rlength; words; done).
  destruct (absorb_run N h1 head l1 l2 p _ Hl1 HN) as (h' & l' & Hrun & Hl' & Hd & Hfr);
    [unfold region_ok, rend; simpl; lia | done | done |].
  exists h', l'. split_and!.
  - erewrite (st_bind_ret _ _ _ (Some head)); [done|]. unfold add_hits_prev. fold (absorb_next head p).
    erewrite st_bind_ret by (apply load_ok; by eapply is_list_lookup). simpl.
    rewrite (proj2 (Z.eqb_eq _ _)) by (words; done). by step Hm1.
  - done.
  - rewrite Hd. unfold rend. simpl. by rewrite Z.add_assoc.
  - intros k Hk Hs. rewrite fmap_app in Hk. rewrite Hfr, Hfr1; [done | set_solver.. | ].
    rewrite Hfr1; [done | set_solver].
Qed.

(** [add_region] steps over the regions in front of the new one. *)
Lemma add_region_app (k1 k2 : list winx_volume_region) lcn len :
  Forall (fun r => rlcn r ≤ lcn ∧ rend r ≠ lcn) k1 →
  add_region (k1 ++ k2) lcn len = k1 ++ add_region k2 lcn len.
Proof.
  induction 1 as [|r k1 [H1 H2] _ IH]; simpl; [done|].
  rewrite (proj2 (Z.ltb_ge _ _)) by lia. rewrite (proj2 (Z.eqb_neq _ _)) by done.
  by rewrite IH.
Qed.

(** [winx_add_volume_region] does not fault and computes [add_region]. *)
Lemma add_refine N h head l lcn len fuel :
  is_list h head l → regions_wf N l.*2 → N < 2 ^ 64 →
  0 ≤ lcn → 0 < len → lcn + len ≤ N → (length l < fuel)%nat →
  ∃ h' head' l', winx_add_volume_region fuel head lcn len h = Ret (head', h') ∧
                 is_list h' head' l' ∧ l'.*2 = add_region l.*2 lcn len ∧ frame l h h'.
Proof.
  intros Hl Hwf HN Hlcn Hlen HlN Hf.
  destruct (split_at l lcn) as (l1 & l2 & -> & Hl1 & Hl2). rewrite length_app in Hf.
  destruct (decide (Exists (fun p => rend p.2 = lcn) l1)) as [Hex|Hnex].
  - (* the previous region is hit *)
    apply Exists_exists in Hex as ([p a] & Hp & He). simpl in He.
    apply list_elem_of_split in Hp as (la & lb & ->).
    assert (lb = []) as ->.
    { destruct lb as [|[q b] lb]; [done|]. exfalso.
      rewrite <- app_assoc, fmap_app in Hwf. apply regions_wf_app in Hwf as (_ & Hwf & _).
      simpl in Hwf. apply regions_wf_cons in Hwf as (_ & [Hab _]%Forall_cons & _).
      apply Forall_app in Hl1 as [_ Hl1]. apply Forall_cons in Hl1 as [_ [Hb _]%Forall_cons].
      simpl in *. lia. }
    rewrite <- app_assoc in *. simpl in *.
    destruct (add_run_prev N h head la l2 p a lcn len fuel) as (h' & l' & Hrun & Hl' & Hd & Hfr);
      [done..| rewrite length_app in Hf; simpl in Hf; lia|].
    exists h', head, (la ++ l'). split_and!; [done | done | | done].
    rewrite !fmap_app, Hd. simpl. rewrite add_region_app.
    + f_equal. simpl. pose proof Hwf as Hwf'. rewrite fmap_app in Hwf'.
      apply regions_wf_app in Hwf' as (_ & Hw & _). simpl in Hw.
      apply regions_wf_cons in Hw as ((? & ? & ?) & _). unfold rend in *.
      rewrite (proj2 (Z.ltb_ge _ _)) by lia. by rewrite (proj2 (Z.eqb_eq _ _)).
    + apply Forall_forall. intros r Hr. rewrite fmap_app in Hwf.
      apply regions_wf_app in Hwf as (Hw1 & _ & Hw). rewrite Forall_forall in Hw.
      specialize (Hw _ Hr). simpl in Hw. apply Forall_cons in Hw as [Hra _].
      destruct Hw1 as [Hw1 _]. rewrite Forall_forall in Hw1. destruct (Hw1 _ Hr) as (? & ? & ?).
      apply Forall_app in Hl1 as [_ [Ha _]%Forall_cons]. unfold rend in *. simpl in *. lia.
  - assert (Hne : Forall (fun p => rend p.2 ≠ lcn) l1)
      by (apply Forall_Exists_neg in Hnex; done).
    assert (Hsk : Forall (fun r => rlcn r ≤ lcn ∧ rend r ≠ lcn) l1.*2).
    { apply Forall_fmap, Forall_and. done. }
    rewrite fmap_app, add_region_app by done.
    destruct l2 as [|[q r] l2].
    + destruct (add_run_insert N h head l1 [] lcn len fuel) as (x & h' & head' & ? & ? & ? & _);
        [done..|lia|].
      exists h', head', (l1 ++ [(x, Region lcn len)]). by rewrite fmap_app.
    + simpl. rewrite (proj2 (Z.ltb_lt _ _)) by done.
      destruct (Z.eqb_spec (lcn + len) (rlcn r)) as [He|He].
      * destruct (add_run_next N h head l1 l2 q r lcn len fuel) as (h' & ? & ? & ?); [done..|lia|].
        eexists h', head, _. split_and!; [done | done | | done]. by rewrite fmap_app.
      * destruct (add_run_insert N h head l1 ((q, r) :: l2) lcn len fuel)
          as (x & h' & head' & ? & ? & ? & _); [done..|lia|].
        eexists h', head', _. split_and!; [done | done | | done]. by rewrite fmap_app.
Qed.

(** A region that does not meet the range is left alone. *)
Lemma cut_region_id lcn len r :
  0 < len → 0 < rlength r → lcn + len ≤ rlcn r ∨ rend r ≤ lcn → cut_region lcn len r = [r].
Proof.
  unfold cut_region, rend. destruct r as [a b]; simpl. intros.
  destruct (Z.ltb_spec a lcn), (Z.ltb_spec (lcn + len) (a + b)); simpl; try lia; do 2 f_equal; lia.
Qed.

Lemma sub_region_id N (k : list winx_volume_region) lcn len :
  0 < len → regions_wf N k → Forall (fun r => lcn + len ≤ rlcn r) k → sub_region k lcn len = k.
Proof.
  unfold sub_region. intros Hlen [Hok _]. induction k as [|r k IH]; simpl; [done|].
  apply Forall_cons in Hok as [(? & ? & ?) Hok]. intros [? ?]%Forall_cons.
  rewrite cut_region_id, IH by auto. done.
Qed.

(** Cutting one region keeps the list well formed. *)
Lemma regions_wf_cut N k1 k2 d lcn len :
  0 < len → regions_wf N (k1 ++ d :: k2) → regions_wf N (k1 ++ cut_region lcn len d ++ k2).
Proof.
  intros Hlen. rewrite !regions_wf_app, regions_wf_cons. intros (H1 & (Hd & Hd2 & H2) & H12).
  assert (Hc : ∀ x, x ∈ cut_region lcn len d → rlcn d ≤ rlcn x ∧ rend x ≤ rend d)
    by (intros x Hx; by edestruct (cut_region_elem N lcn len d x) as (_ & ? & ?)).
  pose proof (sub_region_wf N [d] lcn len) as Hw. unfold sub_region in Hw. simpl in Hw.
  rewrite app_nil_r in Hw. rewrite Forall_forall in Hd2.
  split_and!; [done | apply Hw; [|done] | done | |].
  - apply regions_wf_cons. split_and!; [done | constructor | split; constructor].
  - apply Forall_forall. intros x Hx. apply Forall_forall. intros y Hy.
    specialize (Hd2 _ Hy). apply Hc in Hx. lia.
  - eapply Forall_impl; [exact H12|]. simpl. intros x [Hx1 Hx2]%Forall_cons.
    apply Forall_app. split; [|done]. apply Forall_forall. intros y Hy. apply Hc in Hy. lia.
Qed.

(** Adding what is left of a region behind the range: a plain insertion. *)
Lemma add_run_rest N h head l1 l2 lcn len fuel :
  is_list h head (l1 ++ l2) → regions_wf N (l1 ++ l2).*2 → N < 2 ^ 64 →
  0 ≤ lcn → 0 < len → lcn + len ≤ N →
  Forall (fun r => region_ok N r ∧ rend r < lcn) l1.*2 →
  Forall (fun r => lcn + len < rlcn r) l2.*2 → (length l1 < fuel)%nat →
  ∃ x h' head', winx_add_volume_region fuel head lcn len h = Ret (head', h') ∧
                is_list h' head' (l1 ++ (x, Region lcn len) :: l2) ∧
                frame (l1 ++ l2) h h' ∧ h !! x = None.
Proof.
  intros Hl Hwf HN ? ? ? H1 H2 Hf. apply Forall_fmap in H1, H2.
  eapply add_run_insert; try done.
  - eapply Forall_impl; [exact H1|]. intros [x r] [(? & ? & ?) ?]. unfold rend in *. simpl in *. lia.
  - destruct l2 as [|[q r] l2]; [done|]. apply Forall_cons in H2 as [? _]. simpl in *. lia.
  - eapply Forall_impl; [exact H1|]. intros [x r] [_ ?]. simpl in *. lia.
Qed.

Lemma regions_wf_shorten N k1 k2 d n :
  regions_wf N (k1 ++ d :: k2) → 0 < n ≤ rlength d →
  regions_wf N (k1 ++ Region (rlcn d) n :: k2).
Proof.
  rewrite !regions_wf_app, !regions_wf_cons. intros (H1 & ((Ha & Hb & Hc) & Hd2 & H2) & H12) Hn.
  unfold region_ok, rend in *. simpl. split_and!; try done; try lia.
  - eapply Forall_impl; [exact Hd2|]. simpl. lia.
  - eapply Forall_impl; [exact H12|]. simpl. by intros x [? ?]%Forall_cons; apply Forall_cons.
Qed.

Lemma cut_region_length lcn len d : (length (cut_region lcn len d) ≤ 2)%nat.
Proof. unfold cut_region. destruct (_ <? lcn), (_ <? rend d); simpl; lia. Qed.

Lemma frame_fresh l h h' x : frame l h h' → h' !! x = None → x ∈ l.*1 ∨ h !! x = None.
Proof.
  intros Hfr Hx. destruct (decide (x ∈ l.*1)); [by left|]. right.
  destruct (h !! x) eqn:E; [|done]. rewrite Hfr in Hx; [congruence | done | by eauto].
Qed.

(** Is the region inside the range? *)
Definition insideb (lcn len : Z) (d : winx_volume_region) : bool :=
  (lcn <=? rlcn d) && (rend d <=? lcn + len).

Lemma remove_run h head l1 l2 p d :
  is_list h head (l1 ++ (p, d) :: l2) →
  ∃ h' head', winx_list_remove head (Some p) h = Ret (head', h') ∧
        is_list h' head' (l1 ++ l2) ∧ frame (l1 ++ (p, d) :: l2) h h'.
Proof.
  intros Hl. destruct (winx_list_remove_spec _ _ _ _ _ _ Hl) as (h' & ? & ? & _ & Hfr).
  do 2 eexists. split_and!; [done | done |]. intros k Hk _. by apply Hfr.
Qed.

Lemma shorten_run h head l1 l2 p d n :
  is_list h head (l1 ++ (p, d) :: l2) → 0 ≤ n < 2 ^ 64 →
  ∃ h', modify (Some p) (set_data (set_rlength (u64 n))) h = Ret (tt, h') ∧
        is_list h' head (l1 ++ (p, Region (rlcn d) n) :: l2) ∧ frame (l1 ++ (p, d) :: l2) h h'.
Proof.
  intros Hl Hn. rewrite u64_small by done.
  destruct (is_list_update _ _ _ _ _ _ (set_rlength n) Hl) as (h' & ? & ? & Hfr).
  exists h'. split_and!; [done | done |]. intros k Hk _. apply Hfr.
  rewrite fmap_app in Hk. set_solver.
Qed.

(** Cutting the left side: the region is taken out and what is left of it put
    in. *)
Lemma cut_left_run N h head l1 l2 p d e remaining fuel :
  is_list h head (l1 ++ (p, d) :: l2) → regions_wf N (l1 ++ (p, d) :: l2).*2 → N < 2 ^ 64 →
  rlcn d < e < rend d → (S (length l1) < fuel)%nat →
  ∃ h' head' x,
    (rlist1 ← winx_list_remove head (Some p);
     rlist' ← winx_add_volume_region fuel rlist1 e (u64 (rend d - e));
     mret (rlist', remaining)) h = Ret ((head', remaining : Z), h') ∧
    is_list h' head' (l1 ++ (x, Region e (rend d - e)) :: l2) ∧
    frame (l1 ++ (p, d) :: l2) h h' ∧ (x ∈ (l1 ++ (p, d) :: l2).*1 ∨ h !! x = None).
Proof.
  intros Hl Hwf HN He Hf. rewrite fmap_app in Hwf. simpl in Hwf.
  apply regions_wf_head in Hwf as ((Hd1 & Hd2 & Hd3) & Hw12 & Hw2 & Hw1).
  rewrite <- fmap_app in Hw12. unfold rend in *. words.
  destruct (remove_run _ _ _ _ _ _ Hl) as (h1 & head1 & Hrm & Hl1 & Hfr1). step Hrm.
  destruct (add_run_rest N h1 head1 l1 l2 e (rlcn d + rlength d - e) fuel)
    as (x & h2 & head2 & Hadd & Hl2 & Hfr2 & Hx); try done; try lia.
  { eapply Forall_impl; [exact Hw1|]. intros r [? ?]. split; [done | unfold rend; lia]. }
  { eapply Forall_impl; [exact Hw2|]. simpl. lia. }
  exists h2, head2, x. step Hadd. split_and!; [done | done | | by apply (frame_fresh _ h h1)].
  eapply frame_trans; [done..|]. intros k Hk. left. rewrite fmap_app in *. set_solver.
Qed.

(** A range inside the region: the region is shortened and what lies behind the
    range is put in. *)
Lemma split_region_run N h head l1 l2 p d lcn e remaining fuel :
  is_list h head (l1 ++ (p, d) :: l2) → regions_wf N (l1 ++ (p, d) :: l2).*2 → N < 2 ^ 64 →
  rlcn d < lcn < e → e < rend d → (S (length l1) < fuel)%nat →
  ∃ h' head' x,
    (_ ← modify (Some p) (set_data (set_rlength (u64 (lcn - rlcn d))));
     rlist' ← winx_add_volume_region fuel head e (u64 (rend d - e));
     mret (rlist', remaining)) h = Ret ((head', remaining : Z), h') ∧
    is_list h' head' (l1 ++ (p, Region (rlcn d) (lcn - rlcn d)) :: (x, Region e (rend d - e)) :: l2) ∧
    frame (l1 ++ (p, d) :: l2) h h' ∧ (x ∈ (l1 ++ (p, d) :: l2).*1 ∨ h !! x = None).
Proof.
  intros Hl Hwf HN Hlcn He Hf. rewrite fmap_app in Hwf. simpl in Hwf.
  pose proof (regions_wf_head _ _ _ _ Hwf) as ((Hd1 & Hd2 & Hd3) & Hw12 & Hw2 & Hw1). unfold rend in *.
  destruct (shorten_run _ _ _ _ _ _ (lcn - rlcn d) Hl) as (h1 & Hm & Hl1 & Hfr1); [lia|].
  step Hm. words. rewrite cons_middle, app_assoc in Hl1.
  destruct (add_run_rest N h1 head (l1 ++ [(p, Region (rlcn d) (lcn - rlcn d))]) l2 e
    (rlcn d + rlength d - e) fuel) as (x & h2 & head2 & Hadd & Hl2 & Hfr2 & Hx); try done; try lia.
  { rewrite <- app_assoc, fmap_app. exact (regions_wf_shorten N l1.*2 l2.*2 d (lcn - rlcn d) Hwf ltac:(lia)). }
  { rewrite fmap_app. apply Forall_app. split.
    - eapply Forall_impl; [exact Hw1|]. intros r [? ?]. split; [done | unfold rend; lia].
    - repeat constructor; unfold region_ok, rend; simpl; lia. }
  { eapply Forall_impl; [exact Hw2|]. simpl. lia. }
  { rewrite length_app. simpl. lia. }
  exists h2, head2, x. step Hadd. rewrite <- app_assoc in Hl2.
  split_and!; [done | done | | by apply (frame_fresh _ h h1)].
  eapply frame_trans; [done..|]. intros k Hk. left. rewrite !fmap_app in *. set_solver.
Qed.

(** One iteration replaces the current region by what is left of it. *)
Lemma sub_step_run N h head l1 l2 p d remaining lcn len fuel :
  is_list h head (l1 ++ (p, d) :: l2) → regions_wf N (l1 ++ (p, d) :: l2).*2 → N < 2 ^ 64 →
  0 ≤ lcn → 0 < len → lcn + len ≤ N → rlcn d < lcn + len →
  (insideb lcn len d = true → rlength d ≤ remaining) → 0 ≤ remaining < 2 ^ 64 →
  (S (length l1) < fuel)%nat →
  ∃ h' head' mid,
    sub_step fuel head (Some p) d remaining lcn len h
      = Ret ((head', if insideb lcn len d then remaining - rlength d else remaining), h') ∧
    is_list h' head' (l1 ++ mid ++ l2) ∧ mid.*2 = cut_region lcn len d ∧
    frame (l1 ++ (p, d) :: l2) h h' ∧
    (∀ k, k ∈ mid.*1 → k ∈ (l1 ++ (p, d) :: l2).*1 ∨ h !! k = None).
Proof.
  intros Hl Hwf HN Hlcn Hlen HlN Hd Hrem Hr64 Hf.
  pose proof Hwf as Hwf'. rewrite fmap_app in Hwf'. simpl in Hwf'.
  apply regions_wf_head in Hwf' as ((Hd1 & Hd2 & Hd3) & _).
  assert (Hp : p ∈ (l1 ++ (p, d) :: l2).*1) by (rewrite fmap_app; set_solver).
  unfold insideb, sub_step, cut_region, rend in *. rewrite !(u64_small (_ + _)) by lia.
  destruct (Z.ltb_spec lcn (rlcn d + rlength d)) as [Hov|Hov].
  2: { (* in front of the range *)
    exists h, head, [(p, d)]. rewrite (proj2 (Z.ltb_lt (rlcn d) _)) by lia.
    rewrite (proj2 (Z.ltb_ge (lcn + len) _)), (proj2 (Z.leb_gt lcn _)) by lia. simpl.
    split_and!; [done | done | | done | set_solver]. destruct d; simpl in *. do 2 f_equal. lia. }
  destruct (Z.leb_spec lcn (rlcn d)) as [Ha|Ha], (Z.leb_spec (rlcn d + rlength d) (lcn + len)) as [Hb|Hb];
    rewrite ?(proj2 (Z.ltb_ge (rlcn d) lcn)), ?(proj2 (Z.ltb_lt (rlcn d) lcn)),
      ?(proj2 (Z.ltb_ge (lcn + len) _)), ?(proj2 (Z.ltb_lt (lcn + len) _)),
      ?(proj2 (Z.ltb_lt (rlcn d) (lcn + len))) by lia; cbn [andb app].
  - (* inside *)
    destruct (remove_run _ _ _ _ _ _ Hl) as (h' & head' & Hrm & Hl' & Hfr).
    exists h', head', []. step Hrm. split_and!; [| done | done | done | set_solver].
    specialize (Hrem eq_refl). by rewrite u64_small by lia.
  - (* the left side is cut *)
    destruct (cut_left_run N h head l1 l2 p d (lcn + len) remaining fuel) as (h' & head' & x & E & Hl' & Hfr & Hx);
      [done.. | unfold rend; lia | done |].
    exists h', head', [(x, Region (lcn + len) (rlcn d + rlength d - (lcn + len)))].
    split_and!; [done | done | by rewrite Z.max_r by lia | done | by intros k ->%list_elem_of_singleton].
  - (* the right side is cut *)
    destruct (shorten_run _ _ _ _ _ _ (lcn - rlcn d) Hl) as (h1 & Hm & Hl1 & Hfr1); [lia|].
    exists h1, head, [(p, Region (rlcn d) (lcn - rlcn d))]. step Hm. rewrite Z.min_r by lia.
    split_and!; [done.. | by intros k ->%list_elem_of_singleton; left].
  - (* the range is inside the region *)
    destruct (split_region_run N h head l1 l2 p d lcn (lcn + len) remaining fuel)
      as (h' & head' & x & E & Hl' & Hfr & Hx); [done.. | lia | unfold rend; lia | done |].
    exists h', head', [(p, Region (rlcn d) (lcn - rlcn d));
                       (x, Region (lcn + len) (rlcn d + rlength d - (lcn + len)))].
    split_and!; [done | done | by rewrite Z.max_r, Z.min_r by lia | done |].
    intros k [->| ->%list_elem_of_singleton]%elem_of_cons; [by left | done].
Qed.

(** [remaining_clusters] bounds the part of the range that lies behind the
    regions processed so far, so the loop never stops too early. *)
Lemma sub_loop_run N n h head l1 l2 remaining lcn len fuel :
  is_list h head (l1 ++ l2) → regions_wf N (l1 ++ l2).*2 → N < 2 ^ 64 →
  0 ≤ lcn → 0 < len → lcn + len ≤ N → 0 ≤ remaining ≤ len →
  Forall (fun r => lcn + len - remaining ≤ Z.max lcn (rlcn r)) l2.*2 →
  (length l2 < n)%nat → (length l1 + 2 * length l2 < fuel)%nat → (l1 = [] ∨ l2 ≠ []) →
  ∃ h' head' l2', sub_loop fuel n head (fst_ptr l2 None) remaining lcn len h = Ret (head', h') ∧
     is_list h' head' (l1 ++ l2') ∧ l2'.*2 = sub_region l2.*2 lcn len ∧
     frame (l1 ++ l2) h h'.
Proof.
  intros Hl Hwf HN Hlcn Hlen HlN. revert n h head l1 remaining Hl Hwf.
  induction l2 as [|[p d] l2 IH]; intros n h head l1 remaining Hl Hwf Hrem Hinv Hn Hf Hne.
  all: destruct n as [|n]; [simpl in *; lia|].
  - exists h, head, []. done.
  - cbn [sub_loop fst_ptr].
    pose proof Hwf as Hwf'. rewrite fmap_app in Hwf'. simpl in Hwf'.
    pose proof (regions_wf_head _ _ _ _ Hwf') as ((Hd1 & Hd2 & Hd3) & Hw12 & Hw2 & Hw1).
    assert (Hstop : lcn + len ≤ rlcn d → ((p, d) :: l2).*2 = sub_region ((p, d) :: l2).*2 lcn len).
    { intros Hs. symmetry. apply (sub_region_id N); [done | by apply regions_wf_app in Hwf' as (_ & ? & _)|].
      constructor; [done|]. eapply Forall_impl; [exact Hw2|]. unfold rend. simpl. lia. }
    simpl in Hinv. apply Forall_cons in Hinv as [Hinv Hinv2].
    destruct (Z.eqb_spec remaining 0) as [->|Hr0].
    { exists h, head, ((p, d) :: l2). split_and!; [done | done | | done]. apply Hstop. lia. }
    erewrite st_bind_ret by (apply load_ok; by eapply is_list_lookup). cbn [data next].
    words.
    destruct (Z.leb_spec (lcn + len) (rlcn d)) as [Hs|Hs].
    { exists h, head, ((p, d) :: l2). split_and!; [done | done | by apply Hstop | done]. }
    simpl in Hf, Hn.
    destruct (sub_step_run N h head l1 l2 p d remaining lcn len fuel)
      as (h1 & head1 & mid & Hstep & Hl1 & Hmid & Hfr1 & Hnew); try done; try lia.
    { unfold insideb, rend. intros [? ?]%andb_prop. lia. }
    erewrite st_bind_ret by exact Hstep. cbn beta iota.
    pose proof (next_is_head _ _ _ _ _ _ Hl) as Hnh.
    destruct l2 as [|[q d2] l2].
    + (* last region *)
      rewrite app_nil_r in *. exists h1, head1, mid.
      split_and!; [| done | simpl; by rewrite Hmid, app_nil_r | done].
      destruct head1; [|done]. by rewrite decide_True by by apply Hnh.
    + rewrite decide_False by naive_solver.
      assert (∃ z, head1 = Some z) as [z Hz].
      { destruct Hl1 as [-> _]. rewrite !fst_ptr_app. destruct l1 as [|[]], mid as [|[]]; simpl; eauto. }
      rewrite Hz. rewrite <- Hz.
      destruct (IH n h1 head1 (l1 ++ mid) (if insideb lcn len d then remaining - rlength d else remaining))
        as (h2 & head2 & l2' & Hrun & Hl2 & Hd' & Hfr2).
      * by rewrite <- app_assoc.
      * rewrite <- app_assoc, !fmap_app, Hmid. by apply regions_wf_cut.
      * unfold insideb, rend. destruct (andb _ _) eqn:E; [apply andb_prop in E|]; lia.
      * eapply Forall_impl; [exact (proj2 (Forall_and _ _) (conj Hinv2 Hw2))|]. simpl. intros r [? ?].
        unfold insideb, rend in *. destruct (andb _ _) eqn:E; [apply andb_prop in E|]; lia.
      * simpl in *. lia.
      * assert (length mid ≤ 2)%nat.
        { rewrite <- (length_fmap snd), Hmid. apply cut_region_length. }
        rewrite length_app. simpl in *. lia.
      * by right.
      * exists h2, head2, (mid ++ l2'). split_and!.
        -- done.
        -- by rewrite app_assoc.
        -- rewrite fmap_app, Hmid, Hd'. done.
        -- eapply frame_trans; [done..|]. intros k Hk. rewrite <- app_assoc, !fmap_app in Hk.
           apply elem_of_app in Hk as [Hk|[Hk|Hk]%elem_of_app]; [|by apply Hnew|];
             left; rewrite fmap_app; set_solver.
Qed.
End refinement.

(** [winx_sub_volume_region] does not fault and computes [sub_region]. *)
Section top.
Context `{!Allocator (node winx_volume_region)}.
Context (alloc_total : ∀ h : gmap loc (node winx_volume_region), is_Some (alloc h)).
Implicit Types (l : list (loc * winx_volume_region)).

Lemma sub_refine N h head l lcn len fuel :
  is_list h head l → regions_wf N l.*2 → N < 2 ^ 64 →
  0 ≤ lcn → 0 < len → lcn + len ≤ N → (2 * length l < fuel)%nat →
  ∃ h' head' l', winx_sub_volume_region fuel head lcn len h = Ret (head', h') ∧
                 is_list h' head' l' ∧ l'.*2 = sub_region l.*2 lcn len ∧ frame l h h'.
Proof.
  intros Hl Hwf HN Hlcn Hlen HlN Hf. pose proof Hl as [Hh _].
  destruct (sub_loop_run alloc_total N fuel h head [] l len lcn len fuel)
    as (h' & head' & l' & Hrun & ? & ? & ?); try done; try lia.
  - apply Forall_forall. lia.
  - by left.
  - exists h', head', l'. rewrite <- Hh in Hrun. done.
Qed.
End top.

(** Region lists are canonical: the covered set determines the list. *)
Lemma covers_first N r l : regions_wf N (r :: l) → covers (r :: l) (rlcn r).
Proof. intros ((? & ? & ?) & _)%regions_wf_cons. rewrite covers_cons. unfold rend. left. lia. Qed.

Lemma covers_min N r l c : regions_wf N (r :: l) → covers (r :: l) c → rlcn r ≤ c.
Proof.
  intros (Hr & Hf & _)%regions_wf_cons [?|Hc]%covers_cons; [lia|].
  pose proof (covers_rend _ _ _ _ Hr Hf Hc). destruct Hr as (? & ? & ?). unfold rend in *. lia.
Qed.

Lemma covers_not_rend N r l : regions_wf N (r :: l) → ¬ covers (r :: l) (rend r).
Proof.
  intros (Hr & Hf & _)%regions_wf_cons [?|Hl]%covers_cons; [lia|].
  pose proof (covers_rend _ _ _ _ Hr Hf Hl). lia.
Qed.

Lemma covers_tail N r l c :
  regions_wf N (r :: l) → covers l c ↔ covers (r :: l) c ∧ rend r ≤ c.
Proof.
  intros (Hr & Hf & _)%regions_wf_cons. rewrite covers_cons. split.
  - intros Hl. pose proof (covers_rend _ _ _ _ Hr Hf Hl). split; [by right | lia].
  - intros [[?|?] ?]; [lia | done].
Qed.

Lemma regions_wf_ext N l1 l2 :
  regions_wf N l1 → regions_wf N l2 → (∀ c, covers l1 c ↔ covers l2 c) → l1 = l2.
Proof.
  revert l2. induction l1 as [|r1 l1 IH]; intros [|r2 l2] H1 H2 Heq.
  - done.
  - exfalso. by apply (covers_nil (rlcn r2)), Heq, (covers_first N).
  - exfalso. by apply (covers_nil (rlcn r1)), Heq, (covers_first N).
  - assert (rlcn r1 = rlcn r2) as El.
    { pose proof (covers_first _ _ _ H1) as Hc1. pose proof (covers_first _ _ _ H2) as Hc2.
      apply Heq in Hc1. apply Heq in Hc2. pose proof (covers_min _ _ _ _ H1 Hc2).
      pose proof (covers_min _ _ _ _ H2 Hc1). lia. }
    pose proof (covers_not_rend _ _ _ H1) as Hn1. pose proof (covers_not_rend _ _ _ H2) as Hn2.
    rewrite Heq, covers_cons in Hn1. rewrite <- Heq, covers_cons in Hn2.
    assert (rend r1 = rend r2) as Ee.
    { pose proof (proj1 (regions_wf_cons N r1 l1) H1) as ((? & ? & ?) & _).
      pose proof (proj1 (regions_wf_cons N r2 l2) H2) as ((? & ? & ?) & _).
      unfold rend in *. destruct (decide (rlcn r1 + rlength r1 < rlcn r2 + rlength r2)); [lia|].
      destruct (decide (rlcn r2 + rlength r2 < rlcn r1 + rlength r1)); lia. }
    f_equal; [destruct r1, r2; unfold rend in *; simpl in *; f_equal; lia|].
    apply IH.
    + by apply regions_wf_cons in H1 as (_ & _ & ?).
    + by apply regions_wf_cons in H2 as (_ & _ & ?).
    + intros c. rewrite (covers_tail N r1 l1 c H1), (covers_tail N r2 l2 c H2), Heq, Ee. done.
Qed.

(** ** Properties *)

(** C16: on a well-formed list, [winx_add_volume_region] called with a non-empty
    range of clusters of the volume that no region holds returns (it neither
    dereferences a bad pointer nor loops), leaves a well-formed list whose
    clusters are the old ones and the range, and touches no other object. *)
Theorem winx_add_volume_region_correct `{!Allocator (node winx_volume_region)}
    N h head (l : list (loc * winx_volume_region)) lcn len fuel :
  (∀ h : gmap loc (node winx_volume_region), is_Some (alloc h)) →
  is_list h head l → regions_wf N l.*2 → N < 2 ^ 64 →
  0 ≤ lcn → 0 < len → lcn + len ≤ N →
  (∀ c, lcn ≤ c < lcn + len → ¬ covers l.*2 c) → (length l < fuel)%nat →
  ∃ h' head' l', winx_add_volume_region fuel head lcn len h = Ret (head', h') ∧
    is_list h' head' l' ∧ regions_wf N l'.*2 ∧
    (∀ c, covers l'.*2 c ↔ covers l.*2 c ∨ lcn ≤ c < lcn + len) ∧ frame l h h'.
Proof.
  intros Ha Hl Hwf HN ? ? ? Hd Hf.
  destruct (add_refine Ha N h head l lcn len fuel) as (h' & head' & l' & ? & ? & E & ?); try done.
  exists h', head', l'. rewrite E. split_and!; try done.
  - by apply add_region_wf.
  - intros c. by apply (add_region_covers N).
Qed.

(** C17: on a well-formed list, [winx_sub_volume_region] called with a
    non-empty range of clusters of the volume returns without a fault, leaves a
    well-formed list whose clusters are the old ones outside the range (whether
    regions are dropped, cut on either side or split), and touches no other
    object. *)
Theorem winx_sub_volume_region_correct `{!Allocator (node winx_volume_region)}
    N h head (l : list (loc * winx_volume_region)) lcn len fuel :
  (∀ h : gmap loc (node winx_volume_region), is_Some (alloc h)) →
  is_list h head l → regions_wf N l.*2 → N < 2 ^ 64 →
  0 ≤ lcn → 0 < len → lcn + len ≤ N → (2 * length l < fuel)%nat →
  ∃ h' head' l', winx_sub_volume_region fuel head lcn len h = Ret (head', h') ∧
    is_list h' head' l' ∧ regions_wf N l'.*2 ∧
    (∀ c, covers l'.*2 c ↔ covers l.*2 c ∧ ¬ lcn ≤ c < lcn + len) ∧ frame l h h'.
Proof.
  intros Ha Hl Hwf HN ? ? ? Hf.
  destruct (sub_refine Ha N h head l lcn len fuel) as (h' & head' & l' & ? & ? & E & ?); try done.
  exists h', head', l'. rewrite E. split_and!; try done.
  - by apply sub_region_wf.
  - intros c. by apply (sub_region_covers N).
Qed.

(** Taking a free range out of the list and giving it back restores the
    list of regions exactly: [winx_sub_volume_region] followed by
    [winx_add_volume_region] with the same range, all of whose clusters were
    free, yields the same sequence of regions, merged again if the first call
    split one. *)
Theorem winx_sub_add_volume_region_roundtrip `{!Allocator (node winx_volume_region)}
    N h head (l : list (loc * winx_volume_region)) lcn len fuel :
  (∀ h : gmap loc (node winx_volume_region), is_Some (alloc h)) →
  is_list h head l → regions_wf N l.*2 → N < 2 ^ 64 →
  0 ≤ lcn → 0 < len → lcn + len ≤ N →
  (∀ c, lcn ≤ c < lcn + len → covers l.*2 c) → (2 * length l < fuel)%nat →
  ∃ h' head' l',
    (r ← winx_sub_volume_region fuel head lcn len;
     winx_add_volume_region fuel r lcn len) h = Ret (head', h') ∧
    is_list h' head' l' ∧ l'.*2 = l.*2.
Proof.
  intros Ha Hl Hwf HN ? ? ? Hd Hf.
  destruct (sub_refine Ha N h head l lcn len fuel) as (h1 & head1 & l1 & Hs & Hl1 & E1 & _); try done.
  assert (Hwf1 : regions_wf N l1.*2) by (rewrite E1; by apply sub_region_wf).
  assert (Hlen1 : (length l1 < fuel)%nat).
  { rewrite <- (length_fmap snd), E1. unfold sub_region.
    rewrite <- (length_fmap snd) in Hf. clear -Hf. revert Hf. generalize (l.*2). intros k Hk.
    assert (length (flat_map (cut_region lcn len) k) ≤ 2 * length k)%nat; [|lia].
    clear Hk. induction k as [|r k IH]; simpl; [done|]. rewrite length_app.
    pose proof (cut_region_length lcn len r). lia. }
  destruct (add_refine Ha N h1 head1 l1 lcn len fuel) as (h2 & head2 & l2 & Hadd & Hl2 & E2 & _); try done.
  exists h2, head2, l2. split_and!; [by erewrite st_bind_ret by exact Hs | done|].
  rewrite E2. apply (regions_wf_ext N); [|done|].
  - apply add_region_wf; try done. rewrite E1. intros c Hc [_ Hn]%(sub_region_covers N); done.
  - intros c. rewrite (add_region_covers N), E1, (sub_region_covers N) by done.
    destruct (decide (lcn ≤ c < lcn + len)) as [Hc|Hc]; [specialize (Hd c Hc)|]; naive_solver.
Qed.

(** A list of three regions on a volume of 100 clusters. *)
Definition demo_regions : list (loc * winx_volume_region) :=
  [(1%positive, Region 0 4); (2%positive, Region 10 5); (3%positive, Region 40 10)].

Definition demo_heap : gmap loc (node winx_volume_region) :=
  <[1%positive := Node (Some 2%positive) (Some 3%positive) (Region 0 4)]>
  (<[2%positive := Node (Some 3%positive) (Some 1%positive) (Region 10 5)]>
  (<[3%positive := Node (Some 1%positive) (Some 2%positive) (Region 40 10)]> ∅)).

Lemma demo_is_list : is_list demo_heap (Some 1%positive) demo_regions.
Proof.
  split; [done|]. split; [|by repeat split].
  apply (bool_decide_unpack _). by vm_compute.
Qed.

Lemma demo_wf : regions_wf 100 demo_regions.*2.
Proof. split; repeat constructor; unfold rend; simpl; lia. Qed.

Lemma demo_covers c :
  covers demo_regions.*2 c ↔ 0 ≤ c < 4 ∨ 10 ≤ c < 15 ∨ 40 ≤ c < 50.
Proof.
  change (demo_regions.*2) with [Region 0 4; Region 10 5; Region 40 10].
  rewrite !covers_cons, covers_nil. unfold rend. simpl. lia.
Qed.

Lemma winx_add_volume_region_correct_witness :
  let A := bump_allocator (node winx_volume_region) in
  ∃ h' head' l',
    winx_add_volume_region 4 (Some 1%positive) 4 6 demo_heap = Ret (head', h') ∧
    is_list h' head' l' ∧ regions_wf 100 l'.*2 ∧
    (∀ c, covers l'.*2 c ↔ covers demo_regions.*2 c ∨ 4 ≤ c < 4 + 6) ∧
    frame demo_regions demo_heap h'.
Proof.
  apply (winx_add_volume_region_correct (Allocator0 := bump_allocator _) 100);
    [by eexists | apply demo_is_list | apply demo_wf | lia | lia | lia | lia | | simpl; lia].
  intros c Hc. rewrite demo_covers. lia.
Defined.

Lemma winx_sub_volume_region_correct_witness :
  let A := bump_allocator (node winx_volume_region) in
  ∃ h' head' l',
    winx_sub_volume_region 7 (Some 1%positive) 2 43 demo_heap = Ret (head', h') ∧
    is_list h' head' l' ∧ regions_wf 100 l'.*2 ∧
    (∀ c, covers l'.*2 c ↔ covers demo_regions.*2 c ∧ ¬ 2 ≤ c < 2 + 43) ∧
    frame demo_regions demo_heap h'.
Proof.
  apply (winx_sub_volume_region_correct (Allocator0 := bump_allocator _) 100);
    [by eexists | apply demo_is_list | apply demo_wf | lia | lia | lia | lia | simpl; lia].
Defined.

Lemma winx_sub_add_volume_region_roundtrip_witness :
  let A := bump_allocator (node winx_volume_region) in
  ∃ h' head' l',
    (r ← winx_sub_volume_region 7 (Some 1%positive) 43 2;
     winx_add_volume_region 7 r 43 2) demo_heap = Ret (head', h') ∧
    is_list h' head' l' ∧ l'.*2 = demo_regions.*2.
Proof.
  apply (winx_sub_add_volume_region_roundtrip (Allocator0 := bump_allocator _) 100);
    [by eexists | apply demo_is_list | apply demo_wf | lia | lia | lia | lia | | simpl; lia].
  intros c Hc. rewrite demo_covers. lia.
Defined.
