(* ===== verification/Bitmap.v ===== *)
(** * volume.c: building the list of free regions from the volume bitmap

    [winx_get_free_volume_regions] reads the bitmap of the volume in portions
    of 8 * BITMAPBYTES clusters and turns each run of free clusters into a
    region.  The file system control call is a parameter; what the code relies
    on from it is [bitmap_service]. *)
From S2P Require Import Prelude DList Regions.
From stdpp Require Import prelude gmap sorting.
Open Scope Z_scope.

Definition STATUS_SUCCESS : Z := 0.

Definition STATUS_BUFFER_OVERFLOW : Z := 0x80000005.

Definition WINX_GVR_ALLOW_PARTIAL_SCAN : Z := 1.

Definition LLINVALID : Z := 2 ^ 64 - 1.

Definition BITMAPBYTES : Z := 4096.

(** [BITMAP_DESCRIPTOR] with its [BITMAPBYTES] bytes of map. *)
Record BITMAP_DESCRIPTOR : Type := {
  StartLcn : Z;
  ClustersToEndOfVol : Z;
  Map : list Z;
}.

Section scan.
Context `{!Allocator (node winx_volume_region)} {U : Type}.
(** [FSCTL_GET_VOLUME_BITMAP] for a starting cluster: final status and output
    buffer. *)
Context (get_volume_bitmap : Z → Z * BITMAP_DESCRIPTOR).
(** The callback with its [user_defined_data]; [None] for a NULL pointer. *)
Context (cb : option (winx_volume_region → U → bool * U)).
Abbreviation rheap := (gmap loc (node winx_volume_region)).

(** The locals of [winx_get_free_volume_regions] that live across iterations,
    and the caller's data. *)
Record scan_state : Type := Scan {
  s_rlist : ptr;
  s_rgn : ptr;
  s_free_rgn_start : Z;
  s_data : U;
}.

(** "add free region to the list": inserts [free_rgn_start .. pos) behind the
    last region and calls the callback; [true] stands for [goto done]. *)
Definition add_free_region (pos : Z) (s : scan_state) : ST rheap (bool * scan_state) :=
  '(rgn, rlist) ← winx_list_insert (s_rlist s) (s_rgn s) sizeof_region (Region 0 0);
  _ ← modify rgn (set_data (set_rlcn (s_free_rgn_start s)));
  _ ← modify rgn (set_data (set_rlength (u64 (pos - s_free_rgn_start s))));
  match cb with
  | None => mret (false, Scan rlist rgn LLINVALID (s_data s))
  | Some f =>
      n ← load rgn;
      let '(stop, d) := f (data n) (s_data s) in
      if stop then mret (true, Scan rlist rgn (s_free_rgn_start s) d)
      else mret (false, Scan rlist rgn LLINVALID d)
  end.

(** [bitshift[i]] *)
Definition bitshift (i : Z) : Z := Z.shiftl 1 i.

(** The [for] loop over the [n] clusters that are left of a portion. *)
Fixpoint scan_portion (n : nat) (i start : Z) (map : list Z) (s : scan_state)
  : ST rheap (bool * scan_state) :=
  match n with
  | O => mret (false, s)
  | S n =>
      match map !! Z.to_nat (i / 8) with
      | None => st_fault
      | Some b =>
          if Z.land b (bitshift (i mod 8)) =? 0 then
            (* cluster is free *)
            let s' := if s_free_rgn_start s =? LLINVALID
                      then Scan (s_rlist s) (s_rgn s) (u64 (start + i)) (s_data s) else s in
            scan_portion n (i + 1) start map s'
          else if s_free_rgn_start s =? LLINVALID then
            scan_portion n (i + 1) start map s
          else
            '(stop, s') ← add_free_region (u64 (start + i)) s;
            if (stop : bool) then mret (true, s') else scan_portion n (i + 1) start map s'
      end
  end.

(** The number of clusters described by a portion. *)
Definition portion_size (b : BITMAP_DESCRIPTOR) : Z :=
  Z.min (ClustersToEndOfVol b) (8 * BITMAPBYTES).

(** The [do ... while (status != STATUS_SUCCESS)] loop and what follows it;
    [lfuel] bounds the walk that frees the list after an error. *)
Fixpoint bitmap_loop (fuel lfuel : nat) (flags nxt : Z) (s : scan_state)
  : ST rheap (ptr * U) :=
  match fuel with
  | O => st_nofuel
  | S fuel =>
      let '(status, bitmap) := get_volume_bitmap nxt in
      if negb (status =? STATUS_SUCCESS) && negb (status =? STATUS_BUFFER_OVERFLOW) then
        if negb (Z.land flags WINX_GVR_ALLOW_PARTIAL_SCAN =? 0)
        then mret (s_rlist s, s_data s)
        else _ ← winx_list_destroy lfuel (s_rlist s); mret (None, s_data s)
      else
        let start := StartLcn bitmap in
        let i := portion_size bitmap in
        '(stop, s') ← scan_portion (Z.to_nat i) 0 start (Map bitmap) s;
        if (stop : bool) then mret (s_rlist s', s_data s') else
        if negb (status =? STATUS_SUCCESS) then bitmap_loop fuel lfuel flags (u64 (start + i)) s'
        else if s_free_rgn_start s' =? LLINVALID then mret (s_rlist s', s_data s')
        else '(_, s'') ← add_free_region (u64 (start + i)) s';
             mret (s_rlist s'', s_data s'')
  end.

(** [winx_get_free_volume_regions]; [opened] tells whether [winx_vopen]
    succeeds. *)
Definition winx_get_free_volume_regions (fuel lfuel : nat) (opened : bool) (flags : Z) (d : U)
  : ST rheap (ptr * U) :=
  if opened then bitmap_loop fuel lfuel flags 0 (Scan None None LLINVALID d)
  else mret (None, d).
End scan.
Arguments Scan {U}.
Arguments s_rlist {U}.
Arguments s_rgn {U}.
Arguments s_free_rgn_start {U}.
Arguments s_data {U}.

(** What the code relies on from [FSCTL_GET_VOLUME_BITMAP] on a volume of [N]
    clusters: a request for a cluster number that is a multiple of eight is
    answered from that cluster on, the status tells whether the volume
    continues behind the portion, and a bit is set exactly for an allocated
    cluster. *)
Definition bitmap_service (N : Z) (free : Z → bool)
    (get : Z → Z * BITMAP_DESCRIPTOR) : Prop :=
  ∀ nxt, 0 ≤ nxt < N → nxt mod 8 = 0 →
    let '(status, b) := get nxt in
    StartLcn b = nxt ∧ ClustersToEndOfVol b = N - nxt ∧
    status = (if N - nxt <=? 8 * BITMAPBYTES then STATUS_SUCCESS else STATUS_BUFFER_OVERFLOW) ∧
    ∀ i, 0 ≤ i < portion_size b →
      ∃ byte, Map b !! Z.to_nat (i / 8) = Some byte ∧
              Z.testbit byte (i mod 8) = negb (free (nxt + i)).

Section correctness.
Context `{!Allocator (node winx_volume_region)} {U : Type}.
Context (alloc_total : ∀ h : gmap loc (node winx_volume_region), is_Some (alloc h)).
Context (cb : option (winx_volume_region → U → bool * U)).
Context (cb_continues : ∀ f r d, cb = Some f → (f r d).1 = false).
Context (N : Z) (free : Z → bool) (HN : 0 < N < LLINVALID).
Context (get_volume_bitmap : Z → Z * BITMAP_DESCRIPTOR).
Context (Hget : bitmap_service N free get_volume_bitmap).
Abbreviation rheap := (gmap loc (node winx_volume_region)).
Implicit Types (h : rheap) (l : list (loc * winx_volume_region)) (s : scan_state (U := U)).

(** The first cluster not yet accounted for by the list. *)
Definition bound (pos : Z) s : Z :=
  if s_free_rgn_start s =? LLINVALID then pos else s_free_rgn_start s.

(** Clusters in front of [pos] have been scanned. *)
Definition scan_inv (pos : Z) h l s : Prop :=
  is_list h (s_rlist s) l ∧ s_rgn s = lst_ptr l None ∧ regions_wf N l.*2 ∧
  0 ≤ bound pos s ≤ pos ∧ pos ≤ N ∧
  (s_free_rgn_start s ≠ LLINVALID → s_free_rgn_start s < pos) ∧
  Forall (fun r => rend r < bound pos s) l.*2 ∧
  (∀ c, covers l.*2 c ↔ 0 ≤ c < bound pos s ∧ free c = true) ∧
  (∀ c, bound pos s ≤ c < pos → free c = true).

Lemma add_free_region_run pos h l s :
  scan_inv pos h l s → s_free_rgn_start s ≠ LLINVALID →
  ∃ h' l' s', add_free_region cb pos s h = Ret ((false, s'), h') ∧
    is_list h' (s_rlist s') l' ∧ s_rgn s' = lst_ptr l' None ∧
    s_free_rgn_start s' = LLINVALID ∧
    l'.*2 = l.*2 ++ [Region (s_free_rgn_start s) (pos - s_free_rgn_start s)].
Proof.
  intros (Hl & Hrgn & Hwf & Hb & HpN & Hfs & Hf & Hc & Hbp) Hne.
  unfold bound in *. rewrite (proj2 (Z.eqb_neq _ _)) in * by done. specialize (Hfs Hne).
  destruct (alloc_total h) as [x Hx]. unfold add_free_region. rewrite Hrgn.
  destruct (winx_list_append h (s_rlist s) l x (Region 0 0) sizeof_region)
    as (h1 & rl & Hins & Hl1 & _); [done..| unfold sizeof_region, sizeof_list_entry; lia |].
  erewrite st_bind_ret by exact Hins. cbn beta iota.
  destruct (is_list_update _ _ _ _ _ _ (set_rlcn (s_free_rgn_start s)) Hl1) as (h2 & Hm2 & Hl2 & _).
  erewrite st_bind_ret by exact Hm2.
  destruct (is_list_update _ _ _ _ _ _ (set_rlength (u64 (pos - s_free_rgn_start s))) Hl2)
    as (h3 & Hm3 & Hl3 & _).
  erewrite st_bind_ret by exact Hm3.
  rewrite u64_small in Hl3 by (unfold LLINVALID in *; lia). unfold set_rlength, set_rlcn in Hl3. simpl in Hl3.
  assert (Hd : (l ++ [(x, Region (s_free_rgn_start s) (pos - s_free_rgn_start s))]).*2 =
    l.*2 ++ [Region (s_free_rgn_start s) (pos - s_free_rgn_start s)]) by by rewrite fmap_app.
  destruct cb as [f|] eqn:Ecb.
  - erewrite st_bind_ret by (apply load_ok; by eapply is_list_lookup). simpl.
    pose proof (cb_continues f (Region (s_free_rgn_start s) (pos - s_free_rgn_start s)) (s_data s) eq_refl) as Hs.
    destruct (f _ (s_data s)) as [stop d]. simpl in Hs. subst stop.
    eexists h3, _, _. split_and!; [done | exact Hl3 | by rewrite lst_ptr_snoc | done | done].
  - eexists h3, _, _. split_and!; [done | exact Hl3 | by rewrite lst_ptr_snoc | done | done].
Qed.

(** The invariant after a region has been closed in front of cluster [pos]. *)
Lemma close_inv pos h l s h' l' s' :
  scan_inv pos h l s → s_free_rgn_start s ≠ LLINVALID →
  is_list h' (s_rlist s') l' → s_rgn s' = lst_ptr l' None → s_free_rgn_start s' = LLINVALID →
  l'.*2 = l.*2 ++ [Region (s_free_rgn_start s) (pos - s_free_rgn_start s)] →
  regions_wf N l'.*2 ∧ Forall (fun r => rend r ≤ pos) l'.*2 ∧
  (∀ c, covers l'.*2 c ↔ 0 ≤ c < pos ∧ free c = true).
Proof.
  intros (Hl & Hrgn & Hwf & Hb & HpN & Hfs & Hf & Hc & Hbp) Hne Hl' Hr' Hs' E.
  unfold bound in *. rewrite (proj2 (Z.eqb_neq _ _)) in * by done. specialize (Hfs Hne).
  rewrite E. split_and!.
  - apply regions_wf_app. split_and!; [done| |].
    + apply regions_wf_cons. split_and!; [|constructor|split; constructor].
      unfold region_ok, rend. simpl. lia.
    + eapply Forall_impl; [exact Hf|]. intros r Hr. simpl in *. by repeat constructor.
  - apply Forall_app. split; [eapply Forall_impl; [exact Hf|]; simpl; lia|].
    repeat constructor. unfold rend. simpl. lia.
  - intros c. rewrite covers_app, Hc, covers_cons, covers_nil. unfold rend. simpl.
    specialize (Hbp c). destruct (decide (s_free_rgn_start s ≤ c < pos)); naive_solver lia.
Qed.

Lemma scan_portion_run n i start map h l s :
  scan_inv (start + i) h l s → 0 ≤ i → 0 ≤ start → start + i + Z.of_nat n ≤ N →
  (∀ j, i ≤ j < i + Z.of_nat n → ∃ byte, map !! Z.to_nat (j / 8) = Some byte ∧
          Z.testbit byte (j mod 8) = negb (free (start + j))) →
  ∃ h' l' s', scan_portion cb n i start map s h = Ret ((false, s'), h') ∧
              scan_inv (start + i + Z.of_nat n) h' l' s'.
Proof.
  revert i h l s. induction n as [|n IH]; intros i h l s Hinv Hi Hst Hle Hmap.
  { exists h, l, s. split; [done|]. by rewrite Z.add_0_r. }
  cbn [scan_portion]. destruct (Hmap i) as (b & Hb & Ht); [lia|]. rewrite Hb.
  assert (HL : N < 2 ^ 64 - 1) by (unfold LLINVALID in HN; lia).
  unfold bitshift. rewrite land_bit, Ht, negb_involutive by (apply Z.mod_pos_bound; lia).
  words.
  assert (Hgo : ∀ h1 l1 s1, scan_inv (start + (i + 1)) h1 l1 s1 →
    ∃ h' l' s', scan_portion cb n (i + 1) start map s1 h1 = Ret ((false, s'), h') ∧
                scan_inv (start + i + Z.of_nat (S n)) h' l' s').
  { intros h1 l1 s1 H1. destruct (IH (i + 1) h1 l1 s1 H1) as (h' & l' & s' & ? & Hx); try lia.
    - intros j Hj. apply Hmap. lia.
    - exists h', l', s'. split; [done|].
      by replace (start + i + Z.of_nat (S n)) with (start + (i + 1) + Z.of_nat n) by lia. }
  pose proof Hinv as (Hl & Hrgn & Hwf & Hbd & HpN & Hfs & Hf & Hc & Hbp).
  destruct (free (start + i)) eqn:Efree.
  - (* cluster is free *)
    destruct (Z.eqb_spec (s_free_rgn_start s) LLINVALID) as [E|E].
    + apply (Hgo h l). unfold scan_inv, bound in *. cbn [s_free_rgn_start s_rlist s_rgn].
      rewrite E in *. rewrite Z.eqb_refl in *.
      rewrite (proj2 (Z.eqb_neq (start + i) _)) by (unfold LLINVALID; lia).
      split_and!; try done; try lia.
      intros c Hc'. by replace c with (start + i) by lia.
    + apply (Hgo h l). unfold scan_inv, bound in *.
      rewrite (proj2 (Z.eqb_neq _ _)) in * by done. specialize (Hfs E).
      split_and!; try done; try lia. intros c Hc'.
      destruct (decide (c = start + i)) as [->|]; [done | apply Hbp; lia].
  - (* cluster is not free *)
    destruct (Z.eqb_spec (s_free_rgn_start s) LLINVALID) as [E|E].
    + apply (Hgo h l). unfold scan_inv, bound in *. rewrite E in *. rewrite Z.eqb_refl in *.
      split_and!; try done; try lia.
      * eapply Forall_impl; [exact Hf|]. simpl. lia.
      * intros c. rewrite Hc. destruct (decide (c = start + i)) as [->|];
          [rewrite Efree; naive_solver lia | naive_solver lia].
    + destruct (add_free_region_run (start + i) h l s Hinv E) as (h1 & l1 & s1 & Hadd & Hl1 & Hr1 & Hs1 & E1).
      destruct (close_inv _ _ _ _ h1 l1 s1 Hinv E Hl1 Hr1 Hs1 E1) as (Hw1 & Hf1 & Hc1).
      erewrite st_bind_ret by exact Hadd. cbn beta iota.
      apply (Hgo h1 l1). unfold scan_inv, bound. rewrite Hs1, Z.eqb_refl.
      split_and!; try done; try lia.
      * eapply Forall_impl; [exact Hf1|]. simpl. lia.
      * intros c. rewrite Hc1. destruct (decide (c = start + i)) as [->|];
          [rewrite Efree; naive_solver lia | naive_solver lia].
Qed.

Lemma bitmap_loop_run fuel lfuel flags nxt h l s :
  scan_inv nxt h l s → 0 ≤ nxt < N → nxt mod 8 = 0 →
  N - nxt < 8 * BITMAPBYTES * Z.of_nat fuel →
  ∃ h' head' d' l', bitmap_loop get_volume_bitmap cb fuel lfuel flags nxt s h = Ret ((head', d'), h') ∧
    is_list h' head' l' ∧ regions_wf N l'.*2 ∧
    (∀ c, covers l'.*2 c ↔ 0 ≤ c < N ∧ free c = true).
Proof.
  revert nxt h l s. induction fuel as [|fuel IH]; intros nxt h l s Hinv Hn Hm8 Hfuel; [lia|].
  cbn [bitmap_loop]. pose proof (Hget nxt Hn Hm8) as Hg.
  destruct (get_volume_bitmap nxt) as [status b]. destruct Hg as (Hst & Hto & Hstat & Hbits).
  assert (HL : N < 2 ^ 64 - 1) by (unfold LLINVALID in HN; lia).
  assert (Hps : portion_size b = Z.min (N - nxt) 32768) by (unfold portion_size; rewrite Hto; done).
  assert (negb (status =? STATUS_SUCCESS) && negb (status =? STATUS_BUFFER_OVERFLOW) = false) as ->.
  { rewrite Hstat. by destruct (_ <=? _). }
  rewrite Hst.
  destruct (scan_portion_run (Z.to_nat (portion_size b)) 0 nxt (Map b) h l s)
    as (h1 & l1 & s1 & Hscan & Hinv1); try lia.
  { by rewrite Z.add_0_r. }
  { intros j Hj. apply Hbits. lia. }
  erewrite st_bind_ret by exact Hscan. cbn beta iota.
  rewrite Z2Nat.id, Z.add_0_r in Hinv1 by lia. words.
  change (8 * BITMAPBYTES) with 32768 in *.
  destruct (Z.leb_spec (N - nxt) 32768) as [Hlast|Hmore]; rewrite Hstat; cbn [negb].
  - replace (nxt + portion_size b) with N in * by lia. simpl.
    pose proof Hinv1 as (Hl1 & Hr1 & Hw1 & Hb1 & _ & Hfs1 & Hf1 & Hc1 & Hbp1).
    destruct (Z.eqb_spec (s_free_rgn_start s1) LLINVALID) as [E|E].
    + unfold bound in *. rewrite E, Z.eqb_refl in *. by eexists _, _, _, _.
    + destruct (add_free_region_run N h1 l1 s1 Hinv1 E) as (h2 & l2 & s2 & Hadd & Hl2 & Hr2 & Hs2 & E2).
      destruct (close_inv _ _ _ _ h2 l2 s2 Hinv1 E Hl2 Hr2 Hs2 E2) as (Hw2 & _ & Hc2).
      erewrite st_bind_ret by exact Hadd. by eexists _, _, _, _.
  - simpl. replace (portion_size b) with 32768 in * by lia.
    apply (IH (nxt + 32768) h1 l1 s1); [done | lia | | lia].
    change 32768 with (4096 * 8). by rewrite Z.mod_add.
Qed.

Lemma free_regions_run fuel lfuel flags d h :
  N < 8 * BITMAPBYTES * Z.of_nat fuel →
  ∃ h' head' d' l',
    winx_get_free_volume_regions get_volume_bitmap cb fuel lfuel true flags d h
      = Ret ((head', d'), h') ∧
    is_list h' head' l' ∧ regions_wf N l'.*2 ∧
    (∀ c, covers l'.*2 c ↔ 0 ≤ c < N ∧ free c = true).
Proof.
  intros Hf. eapply (bitmap_loop_run _ _ _ 0 h []); [|lia|done|lia].
  unfold scan_inv, bound. cbn [s_rlist s_rgn s_free_rgn_start]. rewrite Z.eqb_refl.
  change (([] : list (loc * winx_volume_region)).*2) with ([] : list winx_volume_region).
  split_and!; try done; try lia.
  - by apply is_list_nil.
  - split; constructor.
  - intros c. simpl. rewrite covers_nil. lia.
Qed.
End correctness.

(** C18: on a volume of [N] clusters, for every answer of the file system that
    obeys [bitmap_service] and every callback that does not stop the scan,
    [winx_get_free_volume_regions] returns a well-formed list of regions whose
    clusters are exactly the free clusters of the volume: portions are joined
    without losing or inventing a cluster, runs that cross a portion boundary
    become one region and the run at the end of the volume is not forgotten.
    The loop needs one iteration per portion. *)
Theorem winx_get_free_volume_regions_exact `{!Allocator (node winx_volume_region)} {U : Type}
    (cb : option (winx_volume_region → U → bool * U)) N (free : Z → bool)
    (get_volume_bitmap : Z → Z * BITMAP_DESCRIPTOR) fuel lfuel flags (d : U) h :
  (∀ h : gmap loc (node winx_volume_region), is_Some (alloc h)) →
  (∀ f r d, cb = Some f → (f r d).1 = false) →
  0 < N < LLINVALID → bitmap_service N free get_volume_bitmap →
  N < 8 * BITMAPBYTES * Z.of_nat fuel →
  ∃ h' head' d' l',
    winx_get_free_volume_regions get_volume_bitmap cb fuel lfuel true flags d h
      = Ret ((head', d'), h') ∧
    is_list h' head' l' ∧ regions_wf N l'.*2 ∧
    (∀ c, covers l'.*2 c ↔ 0 ≤ c < N ∧ free c = true).
Proof. intros. by apply free_regions_run. Qed.

(** A volume of 20 clusters, clusters 3, 4 and 10 to 15 in use. *)
Definition demo_free (c : Z) : bool :=
  negb (((3 <=? c) && (c <=? 4)) || ((10 <=? c) && (c <=? 15))).

Definition demo_bitmap (nxt : Z) : Z * BITMAP_DESCRIPTOR :=
  (STATUS_SUCCESS,
   {| StartLcn := nxt;
      ClustersToEndOfVol := 20 - nxt;
      Map := drop (Z.to_nat (nxt / 8)) ([0x18; 0xfc; 0x00] ++ replicate 4093 0) |}).

Lemma demo_bitmap_service : bitmap_service 20 demo_free demo_bitmap.
Proof.
  intros nxt Hn Hm. simpl. split_and!; [done | done | by rewrite (proj2 (Z.leb_le _ _)) by (unfold BITMAPBYTES; lia) |].
  unfold portion_size. simpl. intros i Hi.
  assert (nxt = 0 ∨ nxt = 8 ∨ nxt = 16) as Hnx.
  { apply Z.mod_divide in Hm as [k ->]; lia. }
  assert (Hs : i ∈ seqZ 0 20) by (apply elem_of_seqZ; lia).
  destruct Hnx as [->|[->| ->]]; vm_compute (seqZ 0 20) in Hs;
    repeat (apply elem_of_cons in Hs as [->|Hs]; [by eexists; split; vm_compute | ]);
    try (by apply elem_of_nil in Hs).
Qed.

Lemma winx_get_free_volume_regions_exact_witness :
  let A := bump_allocator (node winx_volume_region) in
  ∃ h' head' d' l',
    winx_get_free_volume_regions demo_bitmap (Some (fun _ n => (false, S n))) 1 1 true 0 0%nat ∅
      = Ret ((head', d'), h') ∧
    is_list h' head' l' ∧ regions_wf 20 l'.*2 ∧
    (∀ c, covers l'.*2 c ↔ 0 ≤ c < 20 ∧ demo_free c = true).
Proof.
  apply (winx_get_free_volume_regions_exact (Allocator0 := bump_allocator _));
    [by eexists | by intros f r d [= <-] | unfold LLINVALID; lia | apply demo_bitmap_service
    | vm_compute; done].
Defined.
