(* ===== verification/CString.v ===== *)
(** * string.c: strings, wildcard masks, pattern lists, UTF-8

    A C string that is only read is the list of its characters before the
    terminating zero; a pointer into it is a suffix, and reading at the end
    gives 0 ([ch]).  Buffers that are written are lists of a fixed length.
    Characters are code units: [wchar_t] values below 2^16, [char] values as
    unsigned bytes.  The NULL pointer is [None]. *)
From S2P Require Import Prelude CaseTables.
From stdpp Require Import prelude gmap.
Open Scope Z_scope.

Abbreviation str := (list Z).

(** [*s]. *)
Definition ch (s : str) : Z := match s with [] => 0 | c :: _ => c end.

(** A zero-terminated string of [wchar_t]. *)
Definition wstr (s : str) : Prop := Forall (fun c => 0 < c < 2 ^ 16) s.

(** ** Case conversion *)

(** An entry of a table: initialisers that are not listed are zero. *)
Definition entry (t : gmap Z Z) (i : Z) : Z := default 0 (t !! i).

(** One iteration of [winx_init_case_tables], for one table. *)
Definition init_case_entry (i : Z) (t : gmap Z Z) : gmap Z Z :=
  if entry t i =? 0 then <[i := u16 i]> t else t.

(** Its loop: [n] iterations from index [i]. *)
Fixpoint init_case_loop (n : nat) (i : Z) (upper lower : gmap Z Z) : gmap Z Z * gmap Z Z :=
  match n with
  | O => (upper, lower)
  | S n => init_case_loop n (i + 1) (init_case_entry i upper) (init_case_entry i lower)
  end.

Definition winx_init_case_tables (upper lower : gmap Z Z) : gmap Z Z * gmap Z Z :=
  init_case_loop (Z.to_nat 0x10000) 0 upper lower.

(** The tables as they are after the library has been initialised. *)
Definition case_tables : gmap Z Z * gmap Z Z :=
  winx_init_case_tables u16_uppercase u16_lowercase.

Definition fast_toupper (c : Z) : Z := nth (Z.to_nat (u8 c)) ascii_uppercase 0.

Definition fast_tolower (c : Z) : Z := nth (Z.to_nat (u8 c)) ascii_lowercase 0.

Definition fast_towupper (c : Z) : Z := entry case_tables.1 c.

Definition fast_towlower (c : Z) : Z := entry case_tables.2 c.

Definition winx_wcsupr (s : option str) : option str := map fast_towupper <$> s.

Definition winx_wcslwr (s : option str) : option str := map fast_towlower <$> s.

(** ** Comparison and search *)

(** The loop of [winx_wcsicmp], with the conversion as an argument. *)
Fixpoint wcsicmp_loop (fold : Z → Z) (s1 s2 : str) : Z :=
  let result := fold (ch s1) - fold (ch s2) in
  if negb (result =? 0) then result else
  match s1 with
  | [] => result
  | _ :: s1' => wcsicmp_loop fold s1' (tail s2)
  end.

Definition winx_wcsicmp (s1 s2 : option str) : Z :=
  match s1, s2 with
  | Some s1, Some s2 => wcsicmp_loop fast_towlower s1 s2
  | None, None => 0
  | _, _ => 1
  end.

(** The inner loop of the substring searches: [s2] is used up before a
    difference is found. *)
Fixpoint prefix_loop (fold : Z → Z) (s1 s2 : str) : bool :=
  match s1, s2 with
  | c1 :: s1', c2 :: s2' =>
      if fold c1 - fold c2 =? 0 then prefix_loop fold s1' s2' else false
  | _, [] => true
  | [], _ => false
  end.

(** The outer loop: the suffix of [s1] at the first occurrence. *)
Fixpoint search_loop (fold : Z → Z) (cp s2 : str) : option str :=
  match cp with
  | [] => None
  | _ :: cp' => if prefix_loop fold cp s2 then Some cp else search_loop fold cp' s2
  end.

Definition winx_wcsistr (s1 s2 : option str) : option str :=
  s1 ← s1; s2 ← s2; search_loop fast_towlower s1 s2.

Definition winx_stristr (s1 s2 : option str) : option str :=
  s1 ← s1; s2 ← s2; search_loop fast_tolower s1 s2.

(** [wcsstr] of the C library: an empty pattern is found at once. *)
Definition wcsstr (s1 s2 : str) : option str :=
  match s2 with [] => Some s1 | _ => search_loop id s1 s2 end.

(** ** Wildcard masks *)
Definition STAR : Z := 0x2A.

Definition QUEST : Z := 0x3F.

(** [while( *mask == '*') mask ++]. *)
Fixpoint skip_stars (mask : str) : str :=
  match mask with
  | c :: mask' => if c =? STAR then skip_stars mask' else mask
  | [] => []
  end.

(** [for(; *string; string++)] with a matcher called where [guard] holds. *)
Fixpoint scan_suffixes (guard : Z → bool) (f : str → bool) (string : str) : bool :=
  match string with
  | [] => false
  | c :: string' =>
      if guard c then if f string then true else scan_suffixes guard f string'
      else scan_suffixes guard f string'
  end.

(** [wcsmatch_helper] ([fold] the identity) and [wcsmatch_icase_helper]
    ([fold] the conversion to lower case) share their text.  The inner [fix]
    skips the asterisks that follow the current one. *)
Fixpoint wcsmatch_loop (fold : Z → Z) (mask string : str) {struct mask} : bool :=
  match string, mask with
  | s :: string', m :: mask' =>
      let cs := fold s in
      let cm := fold m in
      if negb (cs =? cm) && negb (cm =? QUEST) then
        (* the current pair of characters differs *)
        if negb (cm =? STAR) then false else
        (fix after_stars (mk : str) : bool :=
           match mk with
           | [] => true
           | c :: mk' =>
               if c =? STAR then after_stars mk' else
               let cm := fold c in
               if cm =? QUEST
               then scan_suffixes (fun _ => true) (wcsmatch_loop fold mk) string
               else scan_suffixes (fun s => fold s =? cm) (wcsmatch_loop fold mk) string
           end) mask'
      else wcsmatch_loop fold mask' string'
  | _, _ =>
      match string, skip_stars mask with
      | [], [] => true
      | _, _ => false
      end
  end.

Definition wcsmatch_helper (string mask : str) : bool := wcsmatch_loop id mask string.

Definition wcsmatch_icase_helper (string mask : str) : bool :=
  wcsmatch_loop fast_towlower mask string.

Definition WINX_PAT_ICASE : Z := 0x1.

Definition winx_wcsmatch (string mask : option str) (flags : Z) : bool :=
  match string, mask with
  | Some string, Some mask =>
      if decide (mask = [STAR]) then true
      else if negb (Z.land flags WINX_PAT_ICASE =? 0)
      then wcsmatch_icase_helper string mask
      else wcsmatch_helper string mask
  | _, _ => false
  end.

(** ** Copies and pattern lists *)

(** [winx_tmalloc] and [winx_malloc] are seen here only through whether they
    succeed for a number of bytes. *)
Definition winx_strdup (tmalloc : Z → bool) (s : option str) : option str :=
  s ← s; if tmalloc (Z.of_nat (length s) + 1) then Some s else None.

Definition winx_wcsdup (tmalloc : Z → bool) (s : option str) : option str :=
  s ← s; if tmalloc ((Z.of_nat (length s) + 1) * 2) then Some s else None.

(** [winx_patlist]: [array] holds offsets into the buffer [string] (shown
    without its final zero), in which delimiters have become zeros. *)
Record winx_patlist : Type := Patlist {
  pat_count : Z;
  pat_array : option (list nat);
  pat_flags : Z;
  pat_string : option str;
}.

(** The loop that replaces all delimiters by zeros. *)
Definition replace_delims (delim s : str) : str :=
  map (fun c => if decide (c ∈ delim) then 0 else c) s.

(** The loop that counts the patterns. *)
Fixpoint count_patterns (s : str) (pattern_detected : bool) (count : Z) : Z :=
  match s with
  | [] => count
  | c :: s' =>
      if negb (c =? 0)
      then if negb pattern_detected then count_patterns s' true (count + 1)
           else count_patterns s' pattern_detected count
      else count_patterns s' false count
  end.

(** The loop that fills the array: writing past its end is a fault. *)
Fixpoint build_patterns (s : str) (i j : nat) (pattern_detected : bool)
    (array : list nat) : outcome (list nat) :=
  match s with
  | [] => mret array
  | c :: s' =>
      if negb (c =? 0)
      then if negb pattern_detected
           then if bool_decide (j < length array)%nat
                then build_patterns s' (S i) (S j) true (<[j := i]> array)
                else Fault
           else build_patterns s' (S i) j pattern_detected array
      else build_patterns s' (S i) j false array
  end.

(** [winx_patcomp]: the result and the structure filled in (NULL arguments
    leave it alone and are not represented).  [malloc] returning NULL makes
    the array an object of no elements. *)
Definition winx_patcomp (tmalloc malloc : Z → bool) (string delim : str) (flags : Z)
  : outcome (Z * winx_patlist) :=
  let patterns := Patlist 0 None flags None in
  if ch string =? 0 then mret (0, patterns) else
  match winx_wcsdup tmalloc (Some string) with
  | None => mret (-1, patterns)
  | Some s =>
      let s := replace_delims delim s in
      let count := count_patterns s false 0 in
      let size := if malloc (count * 8) then Z.to_nat count else O in
      array ← build_patterns s 0 0 false (replicate size O);
      mret (0, Patlist count (Some array) flags (Some s))
  end.

(** The characters of [s] before its first zero. *)
Fixpoint cstr (s : str) : str :=
  match s with
  | [] => []
  | c :: s' => if c =? 0 then [] else c :: cstr s'
  end.

(** [patterns->array[i]], as a string. *)
Definition pat_at (p : winx_patlist) (i : nat) : outcome str :=
  match pat_array p, pat_string p with
  | Some a, Some s => match a !! i with
                      | Some off => mret (cstr (drop off s))
                      | None => Fault
                      end
  | _, _ => Fault
  end.

(** The loop both searches share: the first pattern [f] accepts ends it. *)
Fixpoint pat_loop (p : winx_patlist) (f : str → bool) (n i : nat) : outcome bool :=
  match n with
  | O => mret false
  | S n => pat ← pat_at p i; if f pat then mret true else pat_loop p f n (S i)
  end.

Definition winx_patfind (string : str) (p : winx_patlist) : outcome bool :=
  pat_loop p (fun pat =>
    if negb (Z.land (pat_flags p) WINX_PAT_ICASE =? 0)
    then bool_decide (is_Some (winx_wcsistr (Some string) (Some pat)))
    else bool_decide (is_Some (wcsstr string pat))) (Z.to_nat (pat_count p)) 0.

Definition winx_patcmp (string : str) (p : winx_patlist) : outcome bool :=
  pat_loop p (fun pat => winx_wcsmatch (Some string) (Some pat) (pat_flags p))
    (Z.to_nat (pat_count p)) 0.

Definition winx_patfree (p : winx_patlist) : winx_patlist := Patlist 0 None 0 None.

(** ** Formatted output *)
Definition WINX_VSPRINTF_BUFFER_SIZE : Z := 128.

(** The loop of [winx_vsprintf] and [winx_vswprintf].  [vsnprintf size] is the
    result of the formatting function for a zeroed buffer of [size]
    characters: its return value and the characters it stored.  The returned
    string is the buffer up to its first zero.  [size] is an [int]; shifting
    it past 2^30 makes it negative. *)
Fixpoint vsprintf_loop (tmalloc : Z → bool) (width : Z) (vsnprintf : Z → Z * str)
    (fuel : nat) (size : Z) : outcome (option str) :=
  match fuel with
  | O => NoFuel
  | S fuel =>
      if negb (tmalloc (size * width)) then mret None else
      let '(result, stored) := vsnprintf size in
      if negb (result =? -1) && negb (result =? size) then mret (Some (cstr stored)) else
      let size := let x := u32 (size * 2) in if x <? 2 ^ 31 then x else x - 2 ^ 32 in
      if 0 <? size then vsprintf_loop tmalloc width vsnprintf fuel size else mret None
  end.

Section printf.
(** The formatting functions of the C library, with their arguments fixed. *)
Context (tmalloc : Z → bool) (vsnprintf : str → Z → Z * str).

Definition winx_vsprintf (format : option str) : outcome (option str) :=
  match format with
  | None => mret None
  | Some f => vsprintf_loop tmalloc 1 (vsnprintf f) 25 WINX_VSPRINTF_BUFFER_SIZE
  end.

Definition winx_sprintf (format : option str) : outcome (option str) :=
  match format with
  | Some f => winx_vsprintf (Some f)
  | None => mret None
  end.

Definition winx_vswprintf (format : option str) : outcome (option str) :=
  match format with
  | None => mret None
  | Some f => vsprintf_loop tmalloc 2 (vsnprintf f) 25 WINX_VSPRINTF_BUFFER_SIZE
  end.

Definition winx_swprintf (format : option str) : outcome (option str) :=
  match format with
  | Some f => winx_vswprintf (Some f)
  | None => mret None
  end.
End printf.

(** ** UTF-8 *)

(** Storing bytes at [dst[j]], [dst[j+1]], ...: an index outside the buffer is
    a fault. *)
Fixpoint put_bytes (dst : list Z) (j : nat) (bs : list Z) : outcome (list Z) :=
  match bs with
  | [] => mret dst
  | b :: bs => if bool_decide (j < length dst)%nat
               then put_bytes (<[j := u8 b]> dst) (S j) bs else Fault
  end.

(** The loop of [winx_to_utf8], which returns the buffer and [j]. *)
Fixpoint to_utf8_loop (dst : list Z) (size : Z) (src : str) (j : nat)
  : outcome (list Z * nat) :=
  match src with
  | [] => mret (dst, j)
  | c :: src' =>
      if c <? 0x80 then
        if size - 2 <? Z.of_nat j then mret (dst, j) else
        dst ← put_bytes dst j [c];
        to_utf8_loop dst size src' (j + 1)
      else if c <? 0x800 then
        if size - 3 <? Z.of_nat j then mret (dst, j) else
        let b2 := Z.lor 0x80 (Z.land c 0x3F) in
        let c := Z.shiftr c 6 in
        let b1 := Z.lor 0xC0 c in
        dst ← put_bytes dst j [b1; b2];
        to_utf8_loop dst size src' (j + 2)
      else
        if size - 4 <? Z.of_nat j then mret (dst, j) else
        let b3 := Z.lor 0x80 (Z.land c 0x3F) in
        let c := Z.shiftr c 6 in
        let b2 := Z.lor 0x80 (Z.land c 0x3F) in
        let c := Z.shiftr c 6 in
        let b1 := Z.lor 0xE0 c in
        dst ← put_bytes dst j [b1; b2; b3];
        to_utf8_loop dst size src' (j + 3)
  end.

(** [winx_to_utf8]: returns the buffer. *)
Definition winx_to_utf8 (dst : list Z) (size : Z) (src : option str) : outcome (list Z) :=
  match src with
  | None => mret dst
  | Some src =>
      if size <=? 0 then mret dst else
      '(dst, j) ← to_utf8_loop dst size src 0;
      put_bytes dst j [0]
  end.

(** ** What the case tables contain *)

Lemma init_case_entry_lookup i t j :
  entry (init_case_entry i t) j =
  if decide (i = j ∧ entry t i = 0) then u16 i else entry t j.
Proof.
  unfold init_case_entry. destruct (Z.eqb_spec (entry t i) 0) as [E|E].
  - unfold entry. destruct (decide (i = j)) as [->|Hij].
    + rewrite lookup_insert_eq, decide_True by done. done.
    + by rewrite lookup_insert_ne, decide_False by naive_solver.
  - by rewrite decide_False by naive_solver.
Qed.

Lemma init_case_loop_lookup n i upper lower j :
  0 ≤ i →
  let f t := if decide (i ≤ j < i + Z.of_nat n ∧ entry t j = 0) then u16 j else entry t j in
  entry (init_case_loop n i upper lower).1 j = f upper ∧
  entry (init_case_loop n i upper lower).2 j = f lower.
Proof.
  revert i upper lower. induction n as [|n IH]; intros i upper lower Hi; simpl.
  - split; by rewrite decide_False by lia.
  - destruct (IH (i + 1) (init_case_entry i upper) (init_case_entry i lower)) as [-> ->]; [lia|].
    rewrite !init_case_entry_lookup.
    assert (Hd : ∀ t, (if decide (i + 1 ≤ j < i + 1 + Z.of_nat n ∧
        (if decide (i = j ∧ entry t i = 0) then u16 i else entry t j) = 0)
      then u16 j else if decide (i = j ∧ entry t i = 0) then u16 i else entry t j) =
      if decide (i ≤ j < i + Z.of_nat (S n) ∧ entry t j = 0) then u16 j else entry t j); [|done].
    intros t. destruct (decide (i = j)) as [<-|Hij].
    + rewrite decide_False by lia. apply decide_ext. split; [split; [lia|naive_solver]|naive_solver].
    + rewrite (decide_False (P := i = j ∧ entry t i = 0)) by naive_solver.
      apply decide_ext. lia.
Qed.

(** The conversion once the tables are initialised: characters without an
    entry are kept. *)
Lemma case_tables_lookup c :
  let f t := if decide (0 ≤ c < 2 ^ 16 ∧ entry t c = 0) then c else entry t c in
  fast_towupper c = f u16_uppercase ∧ fast_towlower c = f u16_lowercase.
Proof.
  unfold fast_towupper, fast_towlower, case_tables, winx_init_case_tables.
  destruct (init_case_loop_lookup (Z.to_nat 0x10000) 0 u16_uppercase u16_lowercase c)
    as [-> ->]; [done|].
  replace (0 + Z.of_nat (Z.to_nat 0x10000)) with (2 ^ 16) by (vm_compute; done).
  generalize (entry u16_uppercase c), (entry u16_lowercase c). intros x y.
  split; repeat case_decide; first [done | apply u16_small; naive_solver | naive_solver].
Qed.

#[global] Opaque case_tables u16_lowercase_entries u16_uppercase_entries.

Lemma entry_spec (l : list (Z * Z)) c (P : Z → Z → bool) :
  forallb (fun e => P e.1 e.2) l = true →
  entry (list_to_map l) c = 0 ∨ P c (entry (list_to_map l) c) = true.
Proof.
  intros H. unfold entry. destruct (_ !! c) as [x|] eqn:E; [right|by left]. simpl.
  apply elem_of_list_to_map_2 in E. rewrite forallb_forall in H.
  apply (H (c, x)), list_elem_of_In, E.
Qed.

(** A property of every character and its lower case follows from the entries
    of the table. *)
Lemma fast_towlower_spec (P : Z → Z → bool) c :
  forallb (fun e => P e.1 e.2) u16_lowercase_entries = true →
  (fast_towlower c = c ∧ 0 ≤ c < 2 ^ 16) ∨ fast_towlower c = 0 ∨ P c (fast_towlower c) = true.
Proof.
  intros H. destruct (case_tables_lookup c) as [_ ->]. cbn zeta.
  pose proof (entry_spec u16_lowercase_entries c P H) as E. fold u16_lowercase in E.
  revert E. clear H. generalize (entry u16_lowercase c). intros x E. case_decide; naive_solver.
Qed.

Lemma fast_towlower_special c d :
  d = STAR ∨ d = QUEST → fast_towlower c = d ↔ c = d.
Proof.
  intros Hd. split.
  - intros E. destruct (fast_towlower_spec (fun _ x => negb (x =? STAR) && negb (x =? QUEST)) c)
      as [[? _]|[?|HP]]; [vm_compute; reflexivity | congruence | |].
    + unfold STAR, QUEST in *. lia.
    + revert E HP. generalize (fast_towlower c). intros x E HP.
      rewrite andb_true_iff, !negb_true_iff, !Z.eqb_neq in HP. destruct HP as [H1 H2].
      destruct Hd as [-> | ->]; [by destruct (H1 E) | by destruct (H2 E)].
  - intros ->. destruct Hd as [-> | ->]; by vm_compute.
Qed.

#[global] Opaque fast_towlower fast_towupper.

(** ** The meaning of masks *)
Inductive glob (fold : Z → Z) : str → str → Prop :=
| glob_nil : glob fold [] []
| glob_star_none s m : glob fold s m → glob fold s (STAR :: m)
| glob_star_one c s m : glob fold s (STAR :: m) → glob fold (c :: s) (STAR :: m)
| glob_quest c s m : glob fold s m → glob fold (c :: s) (QUEST :: m)
| glob_char c d s m :
    d ≠ STAR → d ≠ QUEST → fold c = fold d → glob fold s m → glob fold (c :: s) (d :: m).

Section masks.
Context (fold : Z → Z).
Context (Hstar : ∀ c, fold c = STAR ↔ c = STAR) (Hquest : ∀ c, fold c = QUEST ↔ c = QUEST).

Definition mask_guard (c s : Z) : bool := (fold c =? QUEST) || (fold s =? fold c).

Lemma scan_suffixes_ext g1 g2 f s :
  (∀ c, g1 c = g2 c) → scan_suffixes g1 f s = scan_suffixes g2 f s.
Proof. intros E. induction s as [|c s IH]; simpl; [done|]. by rewrite E, IH. Qed.

Lemma scan_suffixes_true g f s :
  scan_suffixes g f s = true ↔
  ∃ s1 c s2, s = s1 ++ c :: s2 ∧ g c = true ∧ f (c :: s2) = true.
Proof.
  induction s as [|c s IH]; simpl.
  - split; [done|]. by intros ([|??] & ? & ? & ? & _).
  - transitivity ((g c = true ∧ f (c :: s) = true) ∨ scan_suffixes g f s = true).
    { destruct (g c), (f (c :: s)); naive_solver. }
    rewrite IH. split.
    + intros [[??]|(s1 & d & s2 & -> & ? & ?)]; [by exists [], c, s|by exists (c :: s1), d, s2].
    + intros ([|e s1] & d & s2 & E & ? & ?); simplify_eq/=; [by left|]. right. eauto 8.
Qed.

(** The equation of the loop when both strings have characters left. *)
Lemma wcsmatch_loop_cons m mask s string :
  wcsmatch_loop fold (m :: mask) (s :: string) =
  if negb (fold s =? fold m) && negb (fold m =? QUEST) then
    if negb (fold m =? STAR) then false else
    match skip_stars mask with
    | [] => true
    | (c :: _) as mk => scan_suffixes (mask_guard c) (wcsmatch_loop fold mk) (s :: string)
    end
  else wcsmatch_loop fold mask string.
Proof.
  lazymatch goal with |- _ = ?r => set (R := r) end. cbn [wcsmatch_loop]. subst R.
  destruct (negb _ && negb _); [|done]. destruct (negb _); [done|].
  induction mask as [|c mk IH]; [done|].
  rewrite IH. clear IH. cbn [skip_stars]. destruct (c =? STAR); [done|].
  destruct (fold c =? QUEST) eqn:E; apply scan_suffixes_ext; intros d; unfold mask_guard;
    by rewrite E.
Qed.

Lemma wcsmatch_loop_end mask string :
  mask = [] ∨ string = [] →
  wcsmatch_loop fold mask string = bool_decide (string = [] ∧ skip_stars mask = []).
Proof.
  intros H. destruct mask as [|m mask]; [by destruct string|].
  destruct H as [| ->]; [done|]. cbn [wcsmatch_loop]. by destruct (skip_stars _).
Qed.

Lemma skip_stars_length mask : (length (skip_stars mask) ≤ length mask)%nat.
Proof. induction mask as [|c mk IH]; simpl; [done|]. destruct (_ =? _); simpl; lia. Qed.

Lemma skip_stars_head mask c mk : skip_stars mask = c :: mk → c ≠ STAR.
Proof.
  induction mask as [|d mk' IH]; simpl; [done|].
  destruct (Z.eqb_spec d STAR); naive_solver.
Qed.

Lemma glob_skip s mask : glob fold s (skip_stars mask) → glob fold s mask.
Proof.
  induction mask as [|d mk IH]; simpl; [done|].
  destruct (Z.eqb_spec d STAR) as [->|]; [|done]. intros ?. by apply glob_star_none, IH.
Qed.

Lemma glob_star_app s1 s2 m : glob fold s2 m → glob fold (s1 ++ s2) (STAR :: m).
Proof. intros ?. induction s1 as [|c s1 IH]; [by constructor | by apply glob_star_one]. Qed.

Lemma glob_star_inv s m :
  glob fold s (STAR :: m) → ∃ s1 s2, s = s1 ++ s2 ∧ glob fold s2 m.
Proof.
  intros H. remember (STAR :: m) as M eqn:E.
  induction H as [|s m' H _|c s m' _ IH| |]; simplify_eq/=.
  - by exists [], s.
  - destruct (IH eq_refl) as (s1 & s2 & -> & ?). by exists (c :: s1), s2.
Qed.

Lemma glob_unskip s mask :
  glob fold s mask → ∃ s1 s2, s = s1 ++ s2 ∧ glob fold s2 (skip_stars mask).
Proof.
  revert s. induction mask as [|d mk IH]; intros s Hs; simpl; [by exists [], s|].
  destruct (Z.eqb_spec d STAR) as [->|]; [|by exists [], s].
  apply glob_star_inv in Hs as (s1 & s2 & -> & Hs). destruct (IH _ Hs) as (s3 & s4 & -> & ?).
  exists (s1 ++ s3), s4. by rewrite app_assoc.
Qed.

Lemma glob_empty mask : glob fold [] mask → skip_stars mask = [].
Proof.
  intros H. apply glob_unskip in H as (s1 & s2 & E & H).
  symmetry in E. apply app_eq_nil in E as [_ ->].
  destruct (skip_stars mask) as [|c mk] eqn:Em; [done|].
  apply skip_stars_head in Em. by inversion H; subst.
Qed.

#[local] Arguments wcsmatch_loop : simpl never.
#[local] Arguments scan_suffixes : simpl never.

(** A mask that the loop accepts matches, whatever the string. *)
Lemma wcsmatch_loop_sound n mask string :
  (length mask ≤ n)%nat → wcsmatch_loop fold mask string = true → glob fold string mask.
Proof.
  revert mask string. induction n as [|n IH]; intros mask string Hn;
    (destruct mask as [|m mask]; [|destruct string as [|s string]]).
  1, 2, 4, 5: rewrite wcsmatch_loop_end by auto; rewrite bool_decide_eq_true;
    intros [? E]; subst; apply glob_skip; replace (skip_stars _) with (@nil Z) by done; constructor.
  { simpl in Hn. lia. }
  simpl in Hn. rewrite wcsmatch_loop_cons.
  destruct (Z.eqb_spec (fold m) QUEST) as [Eq|Eq].
  { apply Hquest in Eq as ->. rewrite andb_false_r. intros H.
    apply glob_quest, IH; [lia|done]. }
  destruct (Z.eqb_spec (fold s) (fold m)) as [E|E]; simpl.
  - intros H. apply IH in H; [|lia]. destruct (decide (m = STAR)) as [->|Hm].
    + by apply (glob_star_app [s]).
    + apply glob_char; [done | | done | done]. intros ->. by apply Eq, Hquest.
  - destruct (Z.eqb_spec (fold m) STAR) as [Em|]; [|done]. apply Hstar in Em as ->. simpl.
    pose proof (skip_stars_length mask). destruct (skip_stars mask) as [|c mk] eqn:Emk.
    + intros _. rewrite <- (app_nil_r (s :: string)). apply glob_star_app, glob_skip.
      rewrite Emk. constructor.
    + intros (s1 & d & s2 & -> & _ & Hd)%scan_suffixes_true.
      apply glob_star_app, glob_skip. rewrite Emk. apply IH; [simpl in *; lia|done].
Qed.

(** A mask that matches a string without asterisks is accepted. *)
Lemma wcsmatch_loop_complete n mask string :
  (length mask ≤ n)%nat → STAR ∉ string →
  glob fold string mask → wcsmatch_loop fold mask string = true.
Proof.
  revert mask string. induction n as [|n IH]; intros mask string Hn Hs Hg;
    (destruct mask as [|m mask]; [|destruct string as [|s string]]).
  1, 2, 4, 5: rewrite wcsmatch_loop_end by auto; apply bool_decide_eq_true.
  1, 3: by inversion Hg. 1, 2: split; [done | by apply glob_empty].
  { simpl in Hn. lia. }
  simpl in Hn. rewrite wcsmatch_loop_cons.
  destruct (Z.eqb_spec (fold m) QUEST) as [Eq|Eq].
  { apply Hquest in Eq as ->. rewrite andb_false_r. apply IH; [lia | set_solver |].
    by inversion Hg. }
  destruct (decide (m = STAR)) as [->|Hm].
  - rewrite (proj2 (Z.eqb_eq (fold STAR) STAR)) by (by apply Hstar).
    rewrite (proj2 (Z.eqb_neq (fold s) (fold STAR))); cycle 1.
    { rewrite (proj2 (Hstar STAR) eq_refl), Hstar. set_solver. }
    simpl. apply glob_star_inv in Hg as (s1 & s2 & E & Hg). rewrite E in Hs |- *.
    apply glob_unskip in Hg as (s3 & s4 & -> & Hg). pose proof (skip_stars_length mask).
    destruct (skip_stars mask) as [|c mk] eqn:Emk; [done|]. apply skip_stars_head in Emk as Hc.
    apply scan_suffixes_true. destruct s4 as [|d s4]; [by inversion Hg; subst|].
    exists (s1 ++ s3), d, s4. rewrite <- app_assoc. split_and!; [done | | apply IH].
    + unfold mask_guard. apply orb_true_iff. rewrite !Z.eqb_eq, Hquest.
      inversion Hg; subst; naive_solver.
    + simpl in *. lia.
    + set_solver.
    + done.
  - assert (m ≠ QUEST) by (intros ->; by apply Eq, Hquest).
    inversion Hg as [|? ? ?| | |? ? ? ? ? ? E]; subst; try done.
    rewrite (proj2 (Z.eqb_eq _ _) E). simpl. apply IH; [lia | set_solver | done].
Qed.
End masks.

(** The character comparison a call of [winx_wcsmatch] uses. *)
Definition mask_fold (flags : Z) : Z → Z :=
  if Z.land flags WINX_PAT_ICASE =? 0 then id else fast_towlower.

Lemma winx_wcsmatch_loop string mask flags :
  winx_wcsmatch (Some string) (Some mask) flags = true ↔
  mask = [STAR] ∨ wcsmatch_loop (mask_fold flags) mask string = true.
Proof.
  unfold winx_wcsmatch, mask_fold, wcsmatch_helper, wcsmatch_icase_helper.
  case_decide; [naive_solver|]. destruct (_ =? _); simpl; naive_solver.
Qed.

Lemma mask_fold_special flags c d :
  d = STAR ∨ d = QUEST → mask_fold flags c = d ↔ c = d.
Proof. unfold mask_fold. destruct (_ =? _); [done | apply fast_towlower_special]. Qed.

Lemma winx_wcsmatch_sound string mask flags :
  winx_wcsmatch (Some string) (Some mask) flags = true → glob (mask_fold flags) string mask.
Proof.
  rewrite winx_wcsmatch_loop. intros [->|H].
  - rewrite <- (app_nil_r string). apply glob_star_app. constructor.
  - eapply wcsmatch_loop_sound; [.. | done | done];
      intros; apply mask_fold_special; auto.
Qed.

Lemma winx_wcsmatch_complete string mask flags :
  STAR ∉ string → glob (mask_fold flags) string mask →
  winx_wcsmatch (Some string) (Some mask) flags = true.
Proof.
  intros Hs Hg. apply winx_wcsmatch_loop. right.
  eapply wcsmatch_loop_complete; [.. | done | done | done];
    intros; apply mask_fold_special; auto.
Qed.

(** ** Comparison without case *)
Lemma wcsicmp_loop_sign fold s1 s2 :
  fold 0 = 0 →
  Forall (fun c => 0 < fold c) s1 → Forall (fun c => 0 < fold c) s2 →
  (wcsicmp_loop fold s1 s2 = 0 ↔ fold <$> s1 = fold <$> s2) ∧
  wcsicmp_loop fold s2 s1 = - wcsicmp_loop fold s1 s2.
Proof.
  intros H0 H1. revert s2. induction H1 as [|c s1 Hc H1 IH]; intros s2 H2.
  - destruct H2 as [|d s2 Hd H2]; simpl; rewrite H0; [done|].
    destruct (Z.eqb_spec (0 - fold d) 0); [lia|].
    destruct (Z.eqb_spec (fold d - 0) 0); [lia|]. simpl. split; [naive_solver|lia].
  - destruct H2 as [|d s2 Hd H2]; simpl; rewrite ?H0.
    + destruct (Z.eqb_spec (fold c - 0) 0); [lia|].
      destruct (Z.eqb_spec (0 - fold c) 0); [lia|]. simpl. split; [naive_solver|lia].
    + destruct (IH s2 H2) as [IH1 IH2].
      destruct (Z.eqb_spec (fold c - fold d) 0) as [E|E],
        (Z.eqb_spec (fold d - fold c) 0) as [E'|E']; try lia; simpl.
      * split; [|done]. rewrite IH1. split; [intros Es; f_equal; [lia|done] | by intros [= _ ?]].
      * split; [|lia]. split; [lia|]. intros [= ? ?]. lia.
Qed.

Lemma fast_towlower_pos c : 0 < c < 2 ^ 16 → 0 < fast_towlower c.
Proof.
  intros Hc. pose proof (case_tables_lookup c) as [_ E]. cbn zeta in E.
  destruct (entry_spec u16_lowercase_entries c (fun _ x => 0 <? x)) as [E0|E0];
    [vm_compute; reflexivity|..]; fold u16_lowercase in E0; revert E E0;
    generalize (entry u16_lowercase c), (fast_towlower c); intros x y; case_decide; lia.
Qed.

Lemma wstr_lower s : wstr s → Forall (fun c => 0 < fast_towlower c) s.
Proof. intros H. eapply Forall_impl; [exact H | apply fast_towlower_pos]. Qed.

(** ** Substring search *)
Lemma prefix_loop_true fold s1 s2 :
  prefix_loop fold s1 s2 = true ↔ (fold <$> s2) `prefix_of` (fold <$> s1).
Proof.
  revert s2. induction s1 as [|c s1 IH]; intros [|d s2]; simpl.
  - split; [intros _; apply prefix_nil | done].
  - split; [done|]. by intros ?%prefix_nil_inv.
  - split; [intros _; apply prefix_nil | done].
  - destruct (Z.eqb_spec (fold c - fold d) 0) as [E|E].
    + rewrite IH. replace (fold c) with (fold d) by lia. split.
      * apply prefix_cons.
      * apply prefix_cons_inv_2.
    + split; [done|]. intros ?%prefix_cons_inv_1. lia.
Qed.

(** [s2] occurs in [s1] after the characters [p], up to [fold]. *)
Definition occurs (fold : Z → Z) (s1 s2 : str) (p : nat) : Prop :=
  (p < length s1)%nat ∧ (fold <$> s2) `prefix_of` (fold <$> drop p s1).

(** The search finds the first occurrence. *)
Lemma search_loop_spec fold s1 s2 :
  match search_loop fold s1 s2 with
  | Some r => ∃ p, r = drop p s1 ∧ occurs fold s1 s2 p ∧ ∀ q, occurs fold s1 s2 q → (p ≤ q)%nat
  | None => ∀ p, ¬ occurs fold s1 s2 p
  end.
Proof.
  induction s1 as [|c s1 IH]; cbn [search_loop].
  { intros p [Hp _]. simpl in Hp. lia. }
  destruct (prefix_loop fold (c :: s1) s2) eqn:E.
  - apply prefix_loop_true in E. exists O. split; [done|]. split; [split; [simpl; lia|done] | lia].
  - assert (Hno : ¬ occurs fold (c :: s1) s2 0).
    { intros [_ Hp%prefix_loop_true]. rewrite drop_0 in Hp. congruence. }
    assert (HS : ∀ p, occurs fold (c :: s1) s2 (S p) ↔ occurs fold s1 s2 p).
    { intros p. unfold occurs. simpl. split; intros [H1 H2]; split; (done || lia). }
    destruct (search_loop fold s1 s2) as [r|].
    + destruct IH as (p & -> & Hp & Hmin). exists (S p). split; [done|]. split; [by apply HS|].
      intros [|q] Hq; [done|]. apply HS, Hmin in Hq. lia.
    + intros [|p]; [done|]. rewrite HS. apply IH.
Qed.

Lemma search_loop_found fold s1 s2 :
  is_Some (search_loop fold s1 s2) ↔ ∃ p, occurs fold s1 s2 p.
Proof.
  pose proof (search_loop_spec fold s1 s2) as H. destruct (search_loop _ _ _) as [r|].
  - split; [|eauto]. destruct H as (p & _ & H & _). eauto.
  - split; [by intros []|]. intros [p Hp]. by destruct (H p).
Qed.

(** ** Pattern lists *)

(** The fields of [s] between characters of [delim]. *)
Fixpoint fields (delim s : str) : list str :=
  match s with
  | [] => [[]]
  | c :: s' => if decide (c ∈ delim) then [] :: fields delim s'
               else match fields delim s' with
                    | f :: fs => (c :: f) :: fs
                    | [] => [[c]]
                    end
  end.

(** The patterns a string denotes: its nonempty fields. *)
Definition patterns_of (delim s : str) : list str :=
  base.filter (fun f => f ≠ []) (fields delim s).

(** Offsets of the starts of runs of nonzero characters. *)
Fixpoint run_starts (det : bool) (i : nat) (z : str) : list nat :=
  match z with
  | [] => []
  | c :: z' => if c =? 0 then run_starts false (S i) z'
               else if det then run_starts true (S i) z' else i :: run_starts true (S i) z'
  end.

Lemma count_patterns_length z det n i :
  count_patterns z det n = n + Z.of_nat (length (run_starts det i z)).
Proof.
  revert det n i. induction z as [|c z IH]; intros det n i; simpl; [lia|].
  destruct (c =? 0); simpl; [apply IH|]. destruct det; simpl; [apply IH|].
  rewrite (IH _ _ (S i)). lia.
Qed.

Lemma build_patterns_run z i j det array :
  (length (run_starts det i z) + j = length array)%nat →
  build_patterns z i j det array = Ret (take j array ++ run_starts det i z).
Proof.
  revert i j det array. induction z as [|c z IH]; intros i j det array; simpl.
  { intros Hj. rewrite take_ge by lia. by rewrite app_nil_r. }
  destruct (c =? 0); simpl; [apply IH|]. destruct det; simpl; [apply IH|].
  intros Hlen. rewrite bool_decide_true by lia. rewrite IH by (rewrite length_insert; lia).
  f_equal. rewrite (take_S_r _ _ i) by (rewrite list_lookup_insert_eq by lia; done).
  rewrite take_insert_ge by lia. by rewrite <- app_assoc.
Qed.

Lemma fields_nonempty delim s : fields delim s ≠ [].
Proof. destruct s as [|c s]; simpl; [done|]. case_decide; [done|]. by destruct (fields _ _). Qed.

(** The strings at the offsets are the fields; inside a run the current field
    has been accounted for. *)
Lemma run_starts_fields delim s pre det :
  wstr s →
  let z := pre ++ replace_delims delim s in
  (fun off => cstr (drop off z)) <$> run_starts det (length pre) (replace_delims delim s) =
  base.filter (fun f => f ≠ []) (if det then tail (fields delim s) else fields delim s) ∧
  cstr (replace_delims delim s) = default [] (head (fields delim s)).
Proof.
  intros Hs. revert pre det. induction Hs as [|c s Hc Hs IH]; intros pre det; cbn zeta.
  { by destruct det. }
  pose proof (IH (pre ++ [if decide (c ∈ delim) then 0 else c])) as IH'.
  rewrite length_app in IH'. simpl in IH'.
  replace (length pre + 1)%nat with (S (length pre)) in IH' by lia.
  assert (Happ : ∀ x, pre ++ x :: replace_delims delim s = (pre ++ [x]) ++ replace_delims delim s)
    by (intros; by rewrite <- app_assoc).
  simpl. rewrite Happ. case_decide as Hd.
  - simpl. destruct (IH' false) as [IH1 _]. rewrite IH1. by destruct det.
  - rewrite (proj2 (Z.eqb_neq c 0)) by lia. destruct (IH' true) as [IH1 IH2]. simpl in IH1.
    pose proof (fields_nonempty delim s).
    destruct (fields delim s) as [|f fs] eqn:Ef; [done|]. simpl in *.
    rewrite IH2. split; [|done]. destruct det; simpl; [done|].
    rewrite filter_cons_True by done. f_equal; [|done].
    rewrite <- Happ, drop_app_length. simpl. rewrite (proj2 (Z.eqb_neq c 0)) by lia. by rewrite IH2.
Qed.

(** What a successful compilation yields. *)
Lemma winx_patcomp_ok tmalloc malloc string delim flags :
  wstr string → string ≠ [] →
  tmalloc ((Z.of_nat (length string) + 1) * 2) = true → (∀ n, malloc n = true) →
  ∃ starts,
    winx_patcomp tmalloc malloc string delim flags =
      Ret (0, Patlist (Z.of_nat (length starts)) (Some starts) flags
                      (Some (replace_delims delim string))) ∧
    (fun off => cstr (drop off (replace_delims delim string))) <$> starts =
      patterns_of delim string.
Proof.
  intros Hs Hne Ht Hm. exists (run_starts false 0 (replace_delims delim string)). split.
  - unfold winx_patcomp, winx_wcsdup. simpl. rewrite Ht, Hm.
    destruct string as [|c s]; [done|]. inversion Hs; subst. simpl ch.
    rewrite (proj2 (Z.eqb_neq c 0)) by lia.
    rewrite (count_patterns_length _ _ _ 0), build_patterns_run; [done|].
    rewrite length_replicate. lia.
  - destruct (run_starts_fields delim string [] false Hs) as [E _]. exact E.
Qed.

Lemma pat_loop_spec p f starts s n i :
  pat_array p = Some starts → pat_string p = Some s → (i + n = length starts)%nat →
  pat_loop p f n i =
  Ret (bool_decide (Exists (fun off => f (cstr (drop off s)) = true) (drop i starts))).
Proof.
  intros Ha Hs. revert i. induction n as [|n IH]; intros i Hi; simpl.
  - rewrite drop_ge by lia. by rewrite bool_decide_false by (by intros ?%Exists_nil).
  - destruct (lookup_lt_is_Some_2 starts i) as [off Eo]; [lia|].
    unfold pat_at. rewrite Ha, Hs, Eo. simpl. rewrite (drop_S _ off) by done.
    destruct (f _) eqn:Ef.
    + by rewrite bool_decide_true by (by left).
    + rewrite IH by lia. f_equal. apply bool_decide_ext. rewrite Exists_cons, Ef.
      split; [by right | by intros [|]].
Qed.

(** ** UTF-8 *)

(** The encoding of one code unit, as the three branches store it. *)
Definition utf8_char (c : Z) : list Z :=
  if c <? 0x80 then [c]
  else if c <? 0x800 then [Z.lor 0xC0 (Z.shiftr c 6); Z.lor 0x80 (Z.land c 0x3F)]
  else [Z.lor 0xE0 (Z.shiftr (Z.shiftr c 6) 6); Z.lor 0x80 (Z.land (Z.shiftr c 6) 0x3F);
        Z.lor 0x80 (Z.land c 0x3F)].

Definition utf8 (s : str) : list Z := s ≫= utf8_char.

(** A decoder for sequences of one to three bytes. *)
Fixpoint utf8_decode (bs : list Z) : str :=
  match bs with
  | [] => []
  | b1 :: r1 =>
      if b1 <? 0x80 then b1 :: utf8_decode r1 else
      match r1 with
      | [] => []
      | b2 :: r2 =>
          if b1 <? 0xE0
          then Z.lor (Z.shiftl (Z.land b1 0x1F) 6) (Z.land b2 0x3F) :: utf8_decode r2 else
          match r2 with
          | [] => []
          | b3 :: r3 =>
              Z.lor (Z.shiftl (Z.land b1 0x0F) 12)
                (Z.lor (Z.shiftl (Z.land b2 0x3F) 6) (Z.land b3 0x3F)) :: utf8_decode r3
          end
      end
  end.

(** The facts about one code unit, checked for all 65535 of them. *)
Definition utf8_char_ok (c : Z) : bool :=
  forallb (fun b => (0 <? b) && (b <? 256)) (utf8_char c) &&
  match utf8_char c with
  | [b] => (b <? 0x80) && (b =? c)
  | [b1; b2] => negb (b1 <? 0x80) && (b1 <? 0xE0) &&
      (Z.lor (Z.shiftl (Z.land b1 0x1F) 6) (Z.land b2 0x3F) =? c)
  | [b1; b2; b3] => negb (b1 <? 0xE0) &&
      (Z.lor (Z.shiftl (Z.land b1 0x0F) 12)
         (Z.lor (Z.shiftl (Z.land b2 0x3F) 6) (Z.land b3 0x3F)) =? c)
  | _ => false
  end.

Fixpoint all_from (n : nat) (i : Z) (f : Z → bool) : bool :=
  match n with
  | O => true
  | S n => if f i then all_from n (i + 1) f else false
  end.

Lemma all_from_spec n i f c :
  all_from n i f = true → i ≤ c < i + Z.of_nat n → f c = true.
Proof.
  revert i. induction n as [|n IH]; intros i; simpl; [lia|].
  destruct (f i) eqn:E; [|done]. intros H Hc.
  destruct (decide (c = i)) as [->|]; [done|]. apply (IH (i + 1)); [done|lia].
Qed.

Lemma utf8_char_all_ok c : 0 < c < 2 ^ 16 → utf8_char_ok c = true.
Proof.
  intros Hc. apply (all_from_spec (Z.to_nat 65535) 1); [vm_compute; reflexivity|].
  rewrite Z2Nat.id by done. lia.
Qed.

Lemma utf8_decode_char c rest :
  0 < c < 2 ^ 16 → utf8_decode (utf8_char c ++ rest) = c :: utf8_decode rest.
Proof.
  intros Hc%utf8_char_all_ok. unfold utf8_char_ok in Hc. apply andb_true_iff in Hc as [_ Hc].
  destruct (utf8_char c) as [|b1 [|b2 [|b3 [|]]]]; try done;
    rewrite ?andb_true_iff, ?negb_true_iff, Z.eqb_eq in Hc; simpl.
  - destruct Hc as [-> ->]. done.
  - destruct Hc as [[-> ->] ->]. done.
  - destruct Hc as [H1%Z.ltb_ge ->]. by rewrite !(proj2 (Z.ltb_ge _ _)) by lia.
Qed.

Lemma utf8_roundtrip s : wstr s → utf8_decode (utf8 s) = s.
Proof.
  induction 1 as [|c s Hc Hs IH]; [done|].
  cbn [utf8 mbind list_bind]. rewrite utf8_decode_char by done. by f_equal.
Qed.

Lemma utf8_char_bytes c : 0 < c < 2 ^ 16 → Forall (fun b => 0 < b < 256) (utf8_char c).
Proof.
  intros Hc%utf8_char_all_ok. unfold utf8_char_ok in Hc. apply andb_true_iff in Hc as [Hc _].
  rewrite forallb_forall in Hc. apply Forall_forall. intros b Hb%list_elem_of_In%Hc.
  apply andb_true_iff in Hb. lia.
Qed.

Lemma utf8_bytes s : wstr s → Forall (fun b => 0 < b < 256) (utf8 s).
Proof.
  induction 1 as [|c s Hc Hs IH]; [constructor|].
  cbn [utf8 mbind list_bind]. apply Forall_app. split; [by apply utf8_char_bytes | done].
Qed.

Lemma cstr_app_zero bs rest : Forall (fun b => 0 < b < 256) bs → cstr (bs ++ 0 :: rest) = bs.
Proof.
  induction 1 as [|b bs Hb _ IH]; [done|]. simpl.
  rewrite (proj2 (Z.eqb_neq b 0)) by lia. by f_equal.
Qed.

Lemma put_bytes_run dst j bs :
  (j + length bs ≤ length dst)%nat → Forall (fun b => 0 ≤ b < 256) bs →
  put_bytes dst j bs = Ret (take j dst ++ bs ++ drop (j + length bs) dst).
Proof.
  intros Hlen Hbs. revert dst j Hlen. induction Hbs as [|b bs Hb _ IH]; intros dst j Hlen.
  - simpl. by rewrite Nat.add_0_r, take_drop.
  - simpl in Hlen |- *. rewrite bool_decide_true by lia.
    rewrite IH by (rewrite length_insert; lia). f_equal.
    rewrite (take_S_r _ _ b); cycle 1.
    { rewrite list_lookup_insert_eq by lia. f_equal. by apply Z.mod_small. }
    rewrite take_insert_ge, drop_insert_lt by lia. rewrite <- app_assoc. simpl.
    by rewrite Nat.add_succ_r.
Qed.

Lemma utf8_cons c s : utf8 (c :: s) = utf8_char c ++ utf8 s.
Proof. done. Qed.

(** One iteration stores the encoding of the character or stops. *)
Lemma to_utf8_loop_cons dst size c src j :
  to_utf8_loop dst size (c :: src) j =
  if size - 1 - Z.of_nat (length (utf8_char c)) <? Z.of_nat j then Ret (dst, j) else
  put_bytes dst j (utf8_char c) ≫= fun dst =>
    to_utf8_loop dst size src (j + length (utf8_char c)).
Proof.
  cbn [to_utf8_loop]. unfold utf8_char.
  destruct (c <? 0x80); [|destruct (c <? 0x800)]; simpl length;
    match goal with |- context [size - 1 - Z.of_nat ?n] =>
      let k := eval vm_compute in (1 + Z.of_nat n) in
      replace (size - 1 - Z.of_nat n) with (size - k) by lia
    end; done.
Qed.

(** The loop stores the longest prefix whose encoding leaves room for the
    terminating zero. *)
Lemma to_utf8_loop_spec size src pre dst :
  wstr src → Z.of_nat (length pre + length dst) = size → dst ≠ [] →
  ∃ k dst', to_utf8_loop (pre ++ dst) size src (length pre) =
         Ret ((pre ++ utf8 (take k src)) ++ dst', length (pre ++ utf8 (take k src))) ∧
       dst' ≠ [] ∧ (length (utf8 (take k src)) + length dst' = length dst)%nat ∧
       (k ≤ length src)%nat ∧
       ∀ k', (k < k' ≤ length src)%nat → (length dst ≤ length (utf8 (take k' src)))%nat.
Proof.
  intros Hs. revert pre dst. induction Hs as [|c src Hc Hs IH]; intros pre dst Hsz Hd.
  { exists O, dst. simpl. rewrite app_nil_r. split_and!; try done; simpl; intros; lia. }
  rewrite to_utf8_loop_cons. destruct (Z.ltb_spec (size - 1 - Z.of_nat (length (utf8_char c)))
    (Z.of_nat (length pre))) as [Hlt|Hge].
  - exists O, dst. simpl. rewrite app_nil_r. split_and!; try done; try lia.
    intros [|k'] Hk'; [lia|]. cbn [take]. rewrite utf8_cons, length_app. lia.
  - pose proof (utf8_char_bytes c Hc) as Hb.
    rewrite put_bytes_run; [| rewrite length_app; lia |
      eapply Forall_impl; [exact Hb | simpl; lia]].
    rewrite take_app_length, drop_app_ge by lia.
    replace (length pre + length (utf8_char c) - length pre)%nat with (length (utf8_char c)) by lia.
    rewrite outcome_bind_ret, <- length_app, app_assoc.
    destruct (IH (pre ++ utf8_char c) (drop (length (utf8_char c)) dst))
      as (k & dst' & Hr & Hd' & Hl & Hk & Hmax).
    { rewrite length_app, length_drop. lia. }
    { intros E%(f_equal length). rewrite length_drop in E. simpl in E. lia. }
    rewrite length_drop in Hl, Hmax. exists (S k), dst'. rewrite Hr. cbn [take].
    rewrite utf8_cons, !app_assoc. split_and!; [done | done | rewrite length_app; lia | simpl; lia |].
    intros [|k'] Hk'; [lia|]. simpl in Hk'. cbn [take]. rewrite utf8_cons, length_app. specialize (Hmax k'). lia.
Qed.

(** ** Formatting into a growing buffer *)

(** The contract of [_vsnprintf] for a text: the whole text with its zero when
    it fits, the text without a zero when it fits exactly, -1 otherwise. *)
Definition formats (text : str) (vsnprintf : Z → Z * str) : Prop :=
  ∀ size, 0 < size →
    let n := Z.of_nat (length text) in
    (n < size → vsnprintf size = (n, text ++ replicate (Z.to_nat (size - n)) 0)) ∧
    (n = size → (vsnprintf size).1 = size) ∧ (size < n → (vsnprintf size).1 = -1).

Lemma cstr_zeros text n : Forall (fun c => c ≠ 0) text → (0 < n)%nat →
  cstr (text ++ replicate n 0) = text.
Proof.
  intros Ht Hn. destruct n as [|n]; [lia|]. simpl.
  induction Ht as [|c text Hc _ IH]; [done|]. simpl.
  rewrite (proj2 (Z.eqb_neq c 0)) by done. by f_equal.
Qed.

(** With [k + 1] doublings left the loop finds a buffer that is large enough,
    or gives up when the size overflows. *)
Lemma vsprintf_loop_spec tmalloc width vsnprintf text k fuel :
  formats text vsnprintf → Forall (fun c => c ≠ 0) text → (∀ n, tmalloc n = true) →
  (k < 24)%nat → (k < fuel)%nat →
  vsprintf_loop tmalloc width vsnprintf fuel (2 ^ (30 - Z.of_nat k)) =
  Ret (if Z.of_nat (length text) <? 2 ^ 30 then Some text else None).
Proof.
  intros Hf Ht Hm. revert fuel. induction k as [|k IH]; intros [|fuel] Hk Hfuel; try lia;
    cbn [vsprintf_loop]; rewrite Hm; simpl negb; cbn iota;
    match goal with |- context [vsnprintf ?s] => set (size := s) end;
    assert (Hsz : 0 < size) by (apply Z.pow_pos_nonneg; lia);
    destruct (Hf size Hsz) as (H1 & H2 & H3);
    destruct (vsnprintf size) as [r stored]; simpl in H2, H3;
    (destruct (decide (Z.of_nat (length text) < size)) as [Hlt|Hge]; [|
      replace (negb (r =? -1) && negb (r =? size)) with false by
       (destruct (decide (Z.of_nat (length text) = size)) as [E|E];
        [rewrite H2 by done; by rewrite Z.eqb_refl, andb_false_r
        |rewrite H3 by lia; done])]).
  1, 3: injection (H1 Hlt) as -> ->;
    rewrite (proj2 (Z.eqb_neq _ (-1))), (proj2 (Z.eqb_neq _ size)) by lia; simpl;
    rewrite cstr_zeros by (done || lia);
    rewrite (proj2 (Z.ltb_lt _ _)); [done|]; eapply Z.lt_le_trans; [exact Hlt|];
    apply Z.pow_le_mono_r; lia.
  - assert (size = 2 ^ 30) as E by done. clearbody size. subst size.
    rewrite (proj2 (Z.ltb_ge (Z.of_nat (length text)) (2 ^ 30))) by lia. done.
  - assert (Hd : size * 2 = 2 ^ (30 - Z.of_nat k)).
    { unfold size. replace (30 - Z.of_nat k) with (30 - Z.of_nat (S k) + 1) by lia.
      rewrite Z.pow_add_r by lia. done. }
    assert (2 ^ (30 - Z.of_nat k) ≤ 2 ^ 30) by (apply Z.pow_le_mono_r; lia).
    rewrite u32_small by lia. rewrite (proj2 (Z.ltb_lt _ (2 ^ 31))) by lia.
    rewrite (proj2 (Z.ltb_lt 0 _)) by lia. rewrite Hd. apply IH; lia.
Qed.

(** ** Properties *)

(** C20: a string that [winx_wcsmatch] accepts matches the mask ([*] any
    sequence, [?] any character, other characters themselves, up to case when
    WINX_PAT_ICASE is set), and every string without asterisks (all file
    names) that matches is accepted. *)
Theorem winx_wcsmatch_correct string mask flags :
  (winx_wcsmatch (Some string) (Some mask) flags = true → glob (mask_fold flags) string mask) ∧
  (STAR ∉ string → glob (mask_fold flags) string mask →
   winx_wcsmatch (Some string) (Some mask) flags = true).
Proof. split; [apply winx_wcsmatch_sound | apply winx_wcsmatch_complete]. Qed.

Lemma winx_wcsmatch_correct_witness :
  glob (mask_fold 1) [0x41; 0x42; 0x2E; 0x43] [STAR; 0x2E; QUEST].
Proof. apply winx_wcsmatch_correct. vm_compute. reflexivity. Defined.

(** An asterisk in the string is compared with the asterisk of the mask
    before the latter is read as a wildcard: ["*ab"] matches the mask ["*b"]
    but is rejected. *)
Theorem winx_wcsmatch_literal_star :
  glob id [STAR; 0x61; 0x62] [STAR; 0x62] ∧
  winx_wcsmatch (Some [STAR; 0x61; 0x62]) (Some [STAR; 0x62]) 0 = false.
Proof.
  split; [|by vm_compute]. apply (glob_star_app id [STAR; 0x61] [0x62]).
  repeat constructor; done.
Qed.

(** A compiled list of patterns accepts exactly the strings that match one
    of the nonempty fields of the source string; neither the compilation nor
    the search leaves the array of patterns. *)
Theorem winx_patcmp_compiled tmalloc malloc patterns delim flags string :
  wstr patterns → patterns ≠ [] → STAR ∉ string →
  tmalloc ((Z.of_nat (length patterns) + 1) * 2) = true → (∀ n, malloc n = true) →
  ∃ p b, winx_patcomp tmalloc malloc patterns delim flags = Ret (0, p) ∧
    pat_count p = Z.of_nat (length (patterns_of delim patterns)) ∧
    winx_patcmp string p = Ret b ∧
    (b = true ↔ Exists (glob (mask_fold flags) string) (patterns_of delim patterns)).
Proof.
  intros Hp Hne Hs Ht Hm.
  destruct (winx_patcomp_ok tmalloc malloc patterns delim flags Hp Hne Ht Hm)
    as (starts & -> & E).
  eexists _, _. split; [done|]. split; [by rewrite <- E, length_fmap|].
  unfold winx_patcmp. simpl. rewrite Nat2Z.id.
  split; [by apply (pat_loop_spec _ _ starts (replace_delims delim patterns))|].
  rewrite bool_decide_eq_true, drop_0, <- E, Exists_fmap. apply Exists_ext_in. intros off _.
  split; [apply winx_wcsmatch_sound | by apply winx_wcsmatch_complete].
Qed.

Lemma winx_patcmp_compiled_witness :
  ∃ p b, winx_patcomp (fun _ => true) (fun _ => true)
           [0x3B; STAR; 0x61; 0x3B; 0x3B; 0x62] [0x3B] 0 = Ret (0, p) ∧
    pat_count p = 2 ∧ winx_patcmp [0x63; 0x61] p = Ret b ∧
    (b = true ↔ Exists (glob (mask_fold 0) [0x63; 0x61]) [[STAR; 0x61]; [0x62]]).
Proof.
  apply (winx_patcmp_compiled (fun _ => true) (fun _ => true)
    [0x3B; STAR; 0x61; 0x3B; 0x3B; 0x62] [0x3B] 0 [0x63; 0x61]); try done.
  - unfold wstr, STAR. repeat constructor; done.
  - unfold STAR. set_solver.
Defined.

(** The test [winx_patfind] makes for one pattern. *)
Lemma patfind_test flags string t :
  t ≠ [] →
  (if negb (Z.land flags WINX_PAT_ICASE =? 0)
   then bool_decide (is_Some (winx_wcsistr (Some string) (Some t)))
   else bool_decide (is_Some (wcsstr string t))) = true ↔
  ∃ i, occurs (mask_fold flags) string t i.
Proof.
  intros Ht. unfold mask_fold. destruct (_ =? _); simpl; rewrite bool_decide_eq_true.
  - unfold wcsstr. destruct t; [done|]. apply search_loop_found.
  - apply search_loop_found.
Qed.

(** A compiled list of patterns is found in a string exactly when one of
    the nonempty fields occurs in it, up to case when WINX_PAT_ICASE is set. *)
Theorem winx_patfind_compiled tmalloc malloc patterns delim flags string :
  wstr patterns → patterns ≠ [] →
  tmalloc ((Z.of_nat (length patterns) + 1) * 2) = true → (∀ n, malloc n = true) →
  ∃ p b, winx_patcomp tmalloc malloc patterns delim flags = Ret (0, p) ∧
    winx_patfind string p = Ret b ∧
    (b = true ↔ Exists (fun t => ∃ i, occurs (mask_fold flags) string t i)
                       (patterns_of delim patterns)).
Proof.
  intros Hp Hne Ht Hm.
  destruct (winx_patcomp_ok tmalloc malloc patterns delim flags Hp Hne Ht Hm)
    as (starts & -> & E).
  eexists _, _. split; [done|]. unfold winx_patfind. simpl. rewrite Nat2Z.id.
  split; [by apply (pat_loop_spec _ _ starts (replace_delims delim patterns))|].
  rewrite bool_decide_eq_true, drop_0.
  assert (Hnil : Forall (fun t => t ≠ []) (patterns_of delim patterns))
    by (apply Forall_forall; by intros t [? _]%list_elem_of_filter).
  revert Hnil. rewrite <- E. rewrite Exists_fmap, Forall_fmap. intros Hnil.
  rewrite Forall_forall in Hnil. apply Exists_ext_in. intros off Hin.
  by apply patfind_test, Hnil.
Qed.

Lemma winx_patfind_compiled_witness :
  ∃ p b, winx_patcomp (fun _ => true) (fun _ => true) [0x62; 0x3B; 0x43] [0x3B] 1 = Ret (0, p) ∧
    winx_patfind [0x61; 0x63] p = Ret b ∧
    (b = true ↔ Exists (fun t => ∃ i, occurs (mask_fold 1) [0x61; 0x63] t i) [[0x62]; [0x43]]).
Proof.
  apply (winx_patfind_compiled (fun _ => true) (fun _ => true) [0x62; 0x3B; 0x43] [0x3B] 1);
    try done.
  unfold wstr. repeat constructor; done.
Defined.

(** [winx_wcsicmp] is zero exactly for strings with the same lower case,
    and swapping its arguments negates it. *)
Theorem winx_wcsicmp_order s1 s2 :
  wstr s1 → wstr s2 →
  (winx_wcsicmp (Some s1) (Some s2) = 0 ↔ winx_wcslwr (Some s1) = winx_wcslwr (Some s2)) ∧
  winx_wcsicmp (Some s2) (Some s1) = - winx_wcsicmp (Some s1) (Some s2).
Proof.
  intros H1%wstr_lower H2%wstr_lower.
  destruct (wcsicmp_loop_sign fast_towlower s1 s2) as [H3 H4]; [by vm_compute | done | done |].
  split; [|exact H4]. unfold winx_wcsicmp, winx_wcslwr. rewrite H3.
  split; [intros E; exact (f_equal Some E) | intros E; injection E; done].
Qed.

Lemma winx_wcsicmp_order_witness :
  (winx_wcsicmp (Some [0x41; 0xC4]) (Some [0x61; 0xE4]) = 0 ↔
   winx_wcslwr (Some [0x41; 0xC4]) = winx_wcslwr (Some [0x61; 0xE4])) ∧
  winx_wcsicmp (Some [0x61; 0xE4]) (Some [0x41; 0xC4]) =
  - winx_wcsicmp (Some [0x41; 0xC4]) (Some [0x61; 0xE4]).
Proof. apply winx_wcsicmp_order; unfold wstr; repeat constructor; done. Defined.

(** [winx_wcsistr] returns the rest of the string at the first place where
    the pattern occurs up to case, and NULL when there is none. *)
Theorem winx_wcsistr_first s1 s2 :
  match winx_wcsistr (Some s1) (Some s2) with
  | Some r => ∃ p, r = drop p s1 ∧ occurs fast_towlower s1 s2 p ∧
                   ∀ q, occurs fast_towlower s1 s2 q → (p ≤ q)%nat
  | None => ∀ p, ¬ occurs fast_towlower s1 s2 p
  end.
Proof. apply search_loop_spec. Qed.

(** [winx_to_utf8] never writes outside a destination buffer of [size]
    bytes; it stores a zero-terminated string, the encoding of the longest
    prefix of the source that fits, which decodes to that prefix. *)
Theorem winx_to_utf8_correct dst size src :
  wstr src → 0 < size → Z.of_nat (length dst) = size →
  ∃ k dst', winx_to_utf8 dst size (Some src) = Ret dst' ∧
    length dst' = length dst ∧ cstr dst' = utf8 (take k src) ∧
    utf8_decode (cstr dst') = take k src ∧
    ∀ k', (k < k' ≤ length src)%nat → size ≤ Z.of_nat (length (utf8 (take k' src))).
Proof.
  intros Hs Hsz Hd.
  destruct (to_utf8_loop_spec size src [] dst) as (k & dst' & Hr & Hne & Hl & Hk & Hmax);
    [done | simpl; lia | intros ->; simpl in Hd; lia |].
  destruct dst' as [|b dst']; [done|]. unfold winx_to_utf8. simpl in Hr, Hl.
  rewrite (proj2 (Z.leb_gt _ _)) by lia. rewrite Hr, outcome_bind_ret.
  assert (Hw : wstr (take k src)) by (by apply Forall_take).
  eexists k, _. split_and!.
  - apply put_bytes_run; [|by constructor]. rewrite length_app. simpl. lia.
  - rewrite take_app_length. simpl. rewrite !length_app. simpl.
    rewrite length_drop, length_app. simpl. lia.
  - rewrite take_app_length. apply cstr_app_zero, utf8_bytes, Hw.
  - rewrite take_app_length. cbn [app]. rewrite cstr_app_zero by (by apply utf8_bytes).
    by apply utf8_roundtrip.
  - intros k' Hk'. specialize (Hmax k' Hk'). lia.
Qed.

Lemma winx_to_utf8_correct_witness :
  ∃ k dst', winx_to_utf8 (replicate 6 1) 6 (Some [0x41; 0x416; 0x20AC; 0x42]) = Ret dst' ∧
    length dst' = 6%nat ∧ cstr dst' = utf8 (take k [0x41; 0x416; 0x20AC; 0x42]) ∧
    utf8_decode (cstr dst') = take k [0x41; 0x416; 0x20AC; 0x42] ∧
    ∀ k', (k < k' ≤ 4)%nat →
      6 ≤ Z.of_nat (length (utf8 (take k' [0x41; 0x416; 0x20AC; 0x42]))).
Proof.
  apply (winx_to_utf8_correct (replicate 6 1)); [|done..].
  unfold wstr. repeat constructor; done.
Defined.

(** [winx_vsprintf] returns the whole formatted text, whatever its length
    below 2^30 characters, and NULL for longer texts; the doubling of the
    buffer always ends. *)
Theorem winx_vsprintf_complete tmalloc vsnprintf format text :
  formats text (vsnprintf format) → Forall (fun c => c ≠ 0) text → (∀ n, tmalloc n = true) →
  winx_vsprintf tmalloc vsnprintf (Some format) =
  Ret (if Z.of_nat (length text) <? 2 ^ 30 then Some text else None).
Proof. intros Hf Ht Hm. apply (vsprintf_loop_spec tmalloc 1 _ text 23 25); (done || lia). Qed.

Lemma winx_vsprintf_complete_witness :
  let text := replicate 300 0x61 in
  let vsnprintf (_ : str) (size : Z) :=
    if 300 <? size then (300, text ++ replicate (Z.to_nat (size - 300)) 0)
    else if size =? 300 then (300, text) else (-1, take (Z.to_nat size) text) in
  winx_vsprintf (fun _ => true) vsnprintf (Some [0x25; 0x73]) = Ret (Some text).
Proof.
  intros text vsnprintf.
  apply (winx_vsprintf_complete (fun _ => true) vsnprintf [0x25; 0x73] text); [|by apply Forall_replicate|done].
  intros size Hsz. unfold vsnprintf. replace (Z.of_nat (length text)) with 300 by done.
  cbn zeta. split_and!; intros H.
  - by rewrite (proj2 (Z.ltb_lt _ _)) by lia.
  - subst. done.
  - rewrite (proj2 (Z.ltb_ge _ _)), (proj2 (Z.eqb_neq _ _)) by lia. done.
Defined.
