(* ===== verification/FileInfo.v ===== *)
(** * File information shared by the two file tree walkers

    [winx_file_info], [winx_file_disposition] and [winx_blockmap] of zenwinx.h.
    The circular lists they are linked into are represented by the sequences
    of their items ([DList.is_list] is the relation between the two); pointers
    to items are positions.  The file also holds what ftw.c and ftw_ntfs.c do
    alike with a block map: appending a block and validating the map. *)
From S2P Require Import Prelude CString.
From stdpp Require Import prelude.
Open Scope Z_scope.

Record winx_blockmap : Type := Block {
  bk_vcn : Z;
  bk_lcn : Z;
  bk_length : Z;
}.

Record winx_file_disposition : Type := Disp {
  clusters : Z;
  fragments : Z;
  blockmap : list winx_blockmap;
}.

Record winx_file_info : Type := FileInfo {
  fi_name : str;
  fi_path : option str;
  fi_flags : Z;
  disp : winx_file_disposition;
  user_defined_flags : Z;
  BaseMftId : Z;
  ParentDirectoryMftId : Z;
  creation_time : Z;
  last_modification_time : Z;
  last_access_time : Z;
}.

#[export] Instance winx_blockmap_eq_dec : EqDecision winx_blockmap.
Proof. solve_decision. Defined.

#[export] Instance winx_file_disposition_eq_dec : EqDecision winx_file_disposition.
Proof. solve_decision. Defined.

#[export] Instance winx_file_info_eq_dec : EqDecision winx_file_info.
Proof. solve_decision. Defined.

Definition set_path (p : option str) (f : winx_file_info) : winx_file_info :=
  FileInfo (fi_name f) p (fi_flags f) (disp f) (user_defined_flags f) (BaseMftId f)
    (ParentDirectoryMftId f) (creation_time f) (last_modification_time f) (last_access_time f).

Definition set_flags (x : Z) (f : winx_file_info) : winx_file_info :=
  FileInfo (fi_name f) (fi_path f) x (disp f) (user_defined_flags f) (BaseMftId f)
    (ParentDirectoryMftId f) (creation_time f) (last_modification_time f) (last_access_time f).

Definition set_disp (d : winx_file_disposition) (f : winx_file_info) : winx_file_info :=
  FileInfo (fi_name f) (fi_path f) (fi_flags f) d (user_defined_flags f) (BaseMftId f)
    (ParentDirectoryMftId f) (creation_time f) (last_modification_time f) (last_access_time f).

(** Attribute flags of winnt.h. *)
Definition FILE_ATTRIBUTE_DIRECTORY : Z := 0x10.

Definition FILE_ATTRIBUTE_REPARSE_POINT : Z := 0x400.

Definition FILE_ATTRIBUTE_COMPRESSED : Z := 0x800.

Definition WINX_FTW_RECURSIVE : Z := 0x1.

Definition WINX_FTW_DUMP_FILES : Z := 0x2.

Definition WINX_FTW_ALLOW_PARTIAL_SCAN : Z := 0x4.

Definition WINX_FTW_SKIP_RESIDENT_STREAMS : Z := 0x8.

Definition has_flag (flags f : Z) : bool := negb (Z.land flags f =? 0).

(** The condition under which a block starts a new fragment: it is the first
    one, or it does not follow the block before it on the disk. *)
Definition starts_fragment (prev_block : option winx_blockmap) (lcn : Z) : bool :=
  match prev_block with
  | None => true
  | Some p => negb (lcn =? u64 (bk_lcn p + bk_length p))
  end.

(** Appending a block to a file's map and counting it. *)
Definition append_block (vcn lcn length : Z) (d : winx_file_disposition)
  : winx_file_disposition :=
  Disp (u64 (clusters d + length))
       (if starts_fragment (last (blockmap d)) lcn then u64 (fragments d + 1) else fragments d)
       (blockmap d ++ [Block vcn lcn length]).

(** The disposition with all fields zero. *)
Definition empty_disp : winx_file_disposition := Disp 0 0 [].

(** [validate_blockmap]: the blocks are destroyed when the first two have the
    same virtual cluster number. *)
Definition validate_blockmap (f : winx_file_info) : winx_file_info :=
  match blockmap (disp f) with
  | b1 :: b2 :: _ =>
      if bk_vcn b1 =? bk_vcn b2
      then set_disp (Disp (clusters (disp f)) (fragments (disp f)) []) f
      else f
  | _ => f
  end.

(** ** Counting clusters and fragments *)
Fixpoint sum_lengths (bs : list winx_blockmap) : Z :=
  match bs with
  | [] => 0
  | b :: bs => bk_length b + sum_lengths bs
  end.

(** The number of maximal runs of blocks that follow each other on the disk. *)
Fixpoint count_fragments (prev : option winx_blockmap) (bs : list winx_blockmap) : Z :=
  match bs with
  | [] => 0
  | b :: bs => (if starts_fragment prev (bk_lcn b) then 1 else 0) + count_fragments (Some b) bs
  end.

(** The counters of a disposition agree with its map. *)
Definition disp_ok (d : winx_file_disposition) : Prop :=
  clusters d = u64 (sum_lengths (blockmap d)) ∧
  fragments d = u64 (count_fragments None (blockmap d)).

Lemma sum_lengths_app bs1 bs2 : sum_lengths (bs1 ++ bs2) = sum_lengths bs1 + sum_lengths bs2.
Proof. induction bs1 as [|b bs1 IH]; simpl; lia. Qed.

Lemma count_fragments_snoc prev bs b :
  count_fragments prev (bs ++ [b]) =
  count_fragments prev bs +
  (if starts_fragment (match last bs with Some p => Some p | None => prev end) (bk_lcn b)
   then 1 else 0).
Proof.
  revert prev. induction bs as [|c bs IH]; intros prev; [simpl; lia|].
  cbn [app count_fragments]. rewrite IH, last_cons. destruct (last bs); lia.
Qed.

Lemma u64_add a b : u64 (u64 a + b) = u64 (a + b).
Proof. unfold u64. apply Zplus_mod_idemp_l. Qed.

Lemma empty_disp_ok : disp_ok empty_disp.
Proof. by split. Qed.

Lemma append_block_ok vcn lcn length d : disp_ok d → disp_ok (append_block vcn lcn length d).
Proof.
  intros [Hc Hf]. split; simpl.
  - rewrite sum_lengths_app, Hc, u64_add. simpl. f_equal. lia.
  - rewrite count_fragments_snoc, Hf. simpl.
    replace (match last (blockmap d) with Some p => Some p | None => None end)
      with (last (blockmap d)) by (by destruct (last _)).
    destruct (starts_fragment _ _); [by rewrite u64_add | by rewrite Z.add_0_r].
Qed.
