(* ===== verification/Ntfs.v ===== *)
(** * ftw_ntfs.c: the fast NTFS scanner

    The scanner reads file records of the MFT, walks their attributes, follows
    attribute lists into child records, decodes run lists and builds the list
    of files with their block maps and full paths.

    Records and clusters are buffers of bytes, pointers into them are offsets,
    and every access is checked: reading outside a buffer is [Fault].  The
    scan parameters are the state of a state monad.  The volume (file records,
    sectors, volume data), the memory allocator's failures, the terminator and
    the callbacks are parameters.  Loops that advance through a buffer get its
    size as fuel; the recursion through attribute lists and the walk to the
    root directory get a fuel of their own, because on damaged volumes they
    need not end. *)
From S2P Require Import Prelude CString FileInfo.
From stdpp Require Import prelude strings.
Open Scope Z_scope.

(** ** Structures of ntfs.h (packed): offsets of the fields *)
Definition GetMftIdFromFRN (n : Z) : Z := Z.land n 0xffffffffffff.

Definition FILE_MFT : Z := 0.

Definition FILE_root : Z := 5.

Definition FILE_tag : Z := 0x454C4946.

Module FILE_RECORD_HEADER.
Definition Type_ (r : list Z) : outcome Z := rd 4 r 0.
Definition AttributeOffset (r : list Z) : outcome Z := rd 2 r 20.
Definition Flags (r : list Z) : outcome Z := rd 2 r 22.
Definition BytesInUse (r : list Z) : outcome Z := rd 4 r 24.
Definition BaseFileRecord (r : list Z) : outcome Z := rd 8 r 32.
End FILE_RECORD_HEADER.

Module ATTRIBUTE.
Definition size : Z := 16.
Definition AttributeType (r : list Z) (a : Z) : outcome Z := rd 4 r a.
Definition Length (r : list Z) (a : Z) : outcome Z := rd 4 r (a + 4).
Definition Nonresident (r : list Z) (a : Z) : outcome Z := rd 1 r (a + 8).
Definition NameLength (r : list Z) (a : Z) : outcome Z := rd 1 r (a + 9).
Definition NameOffset (r : list Z) (a : Z) : outcome Z := rd 2 r (a + 10).
Definition Flags (r : list Z) (a : Z) : outcome Z := rd 2 r (a + 12).
Definition AttributeNumber (r : list Z) (a : Z) : outcome Z := rd 2 r (a + 14).
End ATTRIBUTE.

Module RESIDENT_ATTRIBUTE.
Definition size : Z := 24.
Definition ValueLength (r : list Z) (a : Z) : outcome Z := rd 4 r (a + 16).
Definition ValueOffset (r : list Z) (a : Z) : outcome Z := rd 2 r (a + 20).
End RESIDENT_ATTRIBUTE.

Module NONRESIDENT_ATTRIBUTE.
Definition size : Z := 72.
Definition LowVcn (r : list Z) (a : Z) : outcome Z := rd 8 r (a + 16).
Definition RunArrayOffset (r : list Z) (a : Z) : outcome Z := rd 2 r (a + 32).
Definition DataSize (r : list Z) (a : Z) : outcome Z := rd 8 r (a + 48).
Definition InitializedSize (r : list Z) (a : Z) : outcome Z := rd 8 r (a + 56).
End NONRESIDENT_ATTRIBUTE.

Module STANDARD_INFORMATION.
Definition CreationTime (r : list Z) (s : Z) : outcome Z := rd 8 r s.
Definition LastWriteTime (r : list Z) (s : Z) : outcome Z := rd 8 r (s + 16).
Definition LastAccessTime (r : list Z) (s : Z) : outcome Z := rd 8 r (s + 24).
Definition FileAttributes (r : list Z) (s : Z) : outcome Z := rd 4 r (s + 32).
End STANDARD_INFORMATION.

Module FILENAME_ATTRIBUTE.
Definition size : Z := 68.
Definition DirectoryFileReferenceNumber (r : list Z) (f : Z) : outcome Z := rd 8 r f.
Definition NameLength (r : list Z) (f : Z) : outcome Z := rd 1 r (f + 64).
Definition NameType (r : list Z) (f : Z) : outcome Z := rd 1 r (f + 65).
Definition Name : Z := 66.
End FILENAME_ATTRIBUTE.

Module VOLUME_INFORMATION.
Definition size : Z := 12.
Definition Flags (r : list Z) (v : Z) : outcome Z := rd 2 r (v + 10).
End VOLUME_INFORMATION.

Module ATTRIBUTE_LIST.
Definition size_without_alignment : Z := 26.
Definition AttributeType (r : list Z) (e : Z) : outcome Z := rd 4 r e.
Definition Length (r : list Z) (e : Z) : outcome Z := rd 2 r (e + 4).
Definition NameLength (r : list Z) (e : Z) : outcome Z := rd 1 r (e + 6).
Definition NameOffset (r : list Z) (e : Z) : outcome Z := rd 1 r (e + 7).
Definition FileReferenceNumber (r : list Z) (e : Z) : outcome Z := rd 8 r (e + 16).
Definition AttributeNumber (r : list Z) (e : Z) : outcome Z := rd 2 r (e + 24).
End ATTRIBUTE_LIST.

(** Values of ATTRIBUTE_TYPE. *)
Definition AttributeStandardInformation : Z := 0x10.

Definition AttributeAttributeList : Z := 0x20.

Definition AttributeFileName : Z := 0x30.

Definition AttributeSecurityDescriptor : Z := 0x50.

Definition AttributeVolumeInformation : Z := 0x70.

Definition AttributeData : Z := 0x80.

Definition AttributeIndexRoot : Z := 0x90.

Definition AttributeIndexAllocation : Z := 0xA0.

Definition AttributeBitmap : Z := 0xB0.

Definition AttributeReparsePoint : Z := 0xC0.

Definition AttributeEAInformation : Z := 0xD0.

Definition AttributeEA : Z := 0xE0.

Definition AttributeLoggedUtulityStream : Z := 0x100.

Definition FILENAME_POSIX : Z := 0.

Definition FILENAME_WIN32 : Z := 1.

Definition FILENAME_DOS : Z := 2.

Definition MAX_PATH : nat := 260.

(** ** The scan parameters *)
Record mft_layout : Type := MftLayout {
  file_record_size : Z;
  file_record_buffer_size : Z;
  number_of_file_records : Z;
  total_clusters : Z;
  cluster_size : Z;
  sectors_per_cluster : Z;
  sector_size : Z;
}.

Inductive scan_direction : Type := MFT_SCAN_RTL | MFT_SCAN_LTR.

Record my_file_information : Type := Mfi {
  mfi_BaseMftId : Z;
  mfi_ParentDirectoryMftId : Z;
  mfi_Flags : Z;
  mfi_NameType : Z;
  mfi_Name : str;
  mfi_CreationTime : Z;
  mfi_LastWriteTime : Z;
  mfi_LastAccessTime : Z;
}.

(** [ticks] counts the calls of the terminator. *)
Record mft_scan_parameters : Type := Sp {
  mft_scan_direction : scan_direction;
  ml : mft_layout;
  volume_letter : Z;
  sp_flags : Z;
  mfi : my_file_information;
  processed_attr_list_entries : Z;
  errors : Z;
  filelist : list winx_file_info;
  ticks : nat;
}.

Definition set_ml (x : mft_layout) (s : mft_scan_parameters) : mft_scan_parameters :=
  Sp (mft_scan_direction s) x (volume_letter s) (sp_flags s) (mfi s)
     (processed_attr_list_entries s) (errors s) (filelist s) (ticks s).

Definition set_direction (x : scan_direction) (s : mft_scan_parameters) : mft_scan_parameters :=
  Sp x (ml s) (volume_letter s) (sp_flags s) (mfi s)
     (processed_attr_list_entries s) (errors s) (filelist s) (ticks s).

Definition set_mfi (x : my_file_information) (s : mft_scan_parameters) : mft_scan_parameters :=
  Sp (mft_scan_direction s) (ml s) (volume_letter s) (sp_flags s) x
     (processed_attr_list_entries s) (errors s) (filelist s) (ticks s).

Definition set_filelist (x : list winx_file_info) (s : mft_scan_parameters)
  : mft_scan_parameters :=
  Sp (mft_scan_direction s) (ml s) (volume_letter s) (sp_flags s) (mfi s)
     (processed_attr_list_entries s) (errors s) x (ticks s).

Definition add_error (s : mft_scan_parameters) : mft_scan_parameters :=
  Sp (mft_scan_direction s) (ml s) (volume_letter s) (sp_flags s) (mfi s)
     (processed_attr_list_entries s) (u32 (errors s + 1)) (filelist s) (ticks s).

Definition add_processed (s : mft_scan_parameters) : mft_scan_parameters :=
  Sp (mft_scan_direction s) (ml s) (volume_letter s) (sp_flags s) (mfi s)
     (u32 (processed_attr_list_entries s + 1)) (errors s) (filelist s) (ticks s).

Definition add_tick (s : mft_scan_parameters) : mft_scan_parameters :=
  Sp (mft_scan_direction s) (ml s) (volume_letter s) (sp_flags s) (mfi s)
     (processed_attr_list_entries s) (errors s) (filelist s) (S (ticks s)).

Definition M (A : Type) : Type := ST mft_scan_parameters A.
#[export] Instance M_ret : MRet M := st_ret mft_scan_parameters.
#[export] Instance M_bind : MBind M := st_bind mft_scan_parameters.

(** A read in the monad, and access to the scan parameters. *)
Definition lift {A} (o : outcome A) : M A := fun s =>
  match o with
  | Ret a => Ret (a, s)
  | Fault => Fault
  | NoFuel => NoFuel
  end.

Definition get {A} (f : mft_scan_parameters → A) : M A := fun s => Ret (f s, s).

Definition upd (f : mft_scan_parameters → mft_scan_parameters) : M unit := fun s => Ret (tt, f s).

Definition upd_mfi (f : my_file_information → my_file_information) : M unit :=
  upd (fun s => set_mfi (f (mfi s)) s).

(** Changing the file at a position of the list. *)
Definition upd_file (i : nat) (f : winx_file_info → winx_file_info) : M unit :=
  upd (fun s => set_filelist (alter f i (filelist s)) s).

(** ** Reading names *)

(** [n] wide characters. *)
Fixpoint rd_wchars (n : nat) (r : list Z) (off : Z) : outcome str :=
  match n with
  | O => Ret []
  | S n => c ← rd 2 r off; s ← rd_wchars n r (off + 2); Ret (c :: s)
  end.

(** What [wcsncpy(dst,src,n)] followed by [dst[n] = 0] leaves in [dst]: it
    stops reading at a zero. *)
Fixpoint wcsncpy (n : nat) (r : list Z) (off : Z) : outcome str :=
  match n with
  | O => Ret []
  | S n => c ← rd 2 r off;
           if c =? 0 then Ret [] else s ← wcsncpy n r (off + 2); Ret (c :: s)
  end.

(** [default_attribute_names]. *)
Definition default_attribute_names : list (Z * str) :=
  [(AttributeAttributeList, text ":$ATTRIBUTE_LIST");
   (AttributeEA, text ":$EA");
   (AttributeEAInformation, text ":$EA_INFORMATION");
   (AttributeSecurityDescriptor, text ":$SECURITY_DESCRIPTOR");
   (AttributeData, text ":$DATA");
   (AttributeIndexRoot, text ":$INDEX_ROOT");
   (AttributeIndexAllocation, text ":$INDEX_ALLOCATION");
   (AttributeBitmap, text ":$BITMAP");
   (AttributeReparsePoint, text ":$REPARSE_POINT");
   (AttributeLoggedUtulityStream, text ":$LOGGED_UTILITY_STREAM")].

Fixpoint default_name_loop (l : list (Z * str)) (attr_type : Z) : option str :=
  match l with
  | [] => None
  | (t, n) :: l => if t =? attr_type then Some n else default_name_loop l attr_type
  end.

Definition get_default_attribute_name (attr_type : Z) : option str :=
  default_name_loop default_attribute_names attr_type.

(** The names that are never appended to the name of the file. *)
Definition dropped_names : list str :=
  [text "$DATA"; text ":$DATA"; text "$I30"; text ":$I30";
   text "$INDEX_ALLOCATION"; text ":$INDEX_ALLOCATION"].

(** [get_attribute_name]: [None] for attributes that are not streams. *)
Definition get_attribute_name (r : list Z) (attr : Z) : outcome (option str) :=
  attr_type ← ATTRIBUTE.AttributeType r attr;
  match get_default_attribute_name attr_type with
  | None => Ret None
  | Some default_attr_name =>
      nlen ← ATTRIBUTE.NameLength r attr;
      attr_name ← (if negb (nlen =? 0)
                   then noff ← ATTRIBUTE.NameOffset r attr;
                        wcsncpy (Z.to_nat nlen) r (attr + noff)
                   else Ret []);
      let attr_name := if decide (attr_name = []) then default_attr_name else attr_name in
      Ret (Some (if decide (attr_name ∈ dropped_names) then [] else attr_name))
  end.

(** ** Run lists *)
Definition RunLength (r : list Z) (run : Z) : outcome Z :=
  b ← rd8 r run; Ret (Z.land b 0xf + Z.land (Z.shiftr b 4) 0xf + 1).

(** A [signed char], and 64-bit signed integers. *)
Definition s8 (z : Z) : Z := let x := u8 z in if x <? 2 ^ 7 then x else x - 2 ^ 8.

Definition s64 (z : Z) : Z := let x := u64 z in if x <? 2 ^ 63 then x else x - 2 ^ 64.

(** [for(i = n1 + n2 - 1; i > n1; i--) lcn = (lcn << 8) + run[i]]: [k] counts
    the remaining iterations, [i = n1 + k]. *)
Fixpoint run_lcn_loop (r : list Z) (run n1 : Z) (k : nat) (lcn : Z) : outcome Z :=
  match k with
  | O => Ret lcn
  | S k' => b ← rd8 r (run + n1 + Z.of_nat k);
            run_lcn_loop r run n1 k' (s64 (Z.shiftl lcn 8 + b))
  end.

Definition RunLCN (r : list Z) (run : Z) : outcome Z :=
  b ← rd8 r run;
  let n1 := Z.land b 0xf in
  let n2 := Z.land (Z.shiftr b 4) 0xf in
  lcn ← (if n2 =? 0 then Ret 0 else x ← rd8 r (run + n1 + n2); Ret (s8 x));
  run_lcn_loop r run n1 (Z.to_nat (n2 - 1)) lcn.

(** [for(i = n; i > 0; i--) count = (count << 8) + run[i]]. *)
Fixpoint run_count_loop (r : list Z) (run : Z) (i : nat) (count : Z) : outcome Z :=
  match i with
  | O => Ret count
  | S i' => b ← rd8 r (run + Z.of_nat i);
            run_count_loop r run i' (u64 (Z.shiftl count 8 + b))
  end.

Definition RunCount (r : list Z) (run : Z) : outcome Z :=
  b ← rd8 r run; run_count_loop r run (Z.to_nat (Z.land b 0xf)) 0.

Definition check_run (lcn length : Z) (l : mft_layout) : bool :=
  (lcn <? total_clusters l) && (u64 (lcn + length) <=? total_clusters l).

(** The loop through runs: it extends the disposition of the file.  It is the
    only part of [process_run_list] that touches the block map, and [process_run]
    is [append_block]. *)
Fixpoint run_loop (fuel : nat) (l : mft_layout) (r : list Z) (run lcn vcn : Z)
    (d : winx_file_disposition) : outcome winx_file_disposition :=
  match fuel with
  | O => NoFuel
  | S fuel =>
      b ← rd8 r run;
      if b =? 0 then Ret d else
      delta ← RunLCN r run;
      let lcn := u64 (lcn + delta) in
      length ← RunCount r run;
      let next d :=
        n ← RunLength r run;
        run_loop fuel l r (run + n) lcn (u64 (vcn + length)) d in
      (* skip virtual runs *)
      if negb (delta =? 0) then
        (* check for data consistency *)
        if negb (check_run lcn length l) then Ret d
        else next (append_block vcn lcn length d)
      else next d
  end.

(** ** Environment of the scanner *)
Record NTFS_DATA : Type := NtfsData {
  BytesPerFileRecordSegment : Z;
  TotalClusters : Z;
  BytesPerCluster : Z;
  BytesPerSector : Z;
}.

Section scanner.
(** Whether [winx_tmalloc] succeeds for a number of bytes. *)
Context (tmalloc : Z → bool).
(** FSCTL_GET_NTFS_FILE_RECORD: the file reference number and the record
    buffer, or a failure. *)
Context (get_file_record : Z → option (Z * list Z)).
(** [read_sectors lsn length]. *)
Context (read_sectors : Z → Z → option (list Z)).
(** The terminator, NULL or its answers in sequence. *)
Context (terminator : option (nat → bool)).
(** The effect of the progress callback on the file passed to it. *)
Context (pcb : option (winx_file_info → winx_file_info)).

Definition ftw_ntfs_check_for_termination : M bool := fun s =>
  if negb (has_flag (sp_flags s) WINX_FTW_ALLOW_PARTIAL_SCAN) && negb (errors s =? 0)
  then Ret (true, s)
  else match terminator with
       | None => Ret (false, s)
       | Some t => Ret (t (ticks s), add_tick s)
       end.

(** ** Attributes *)

(** The checks both attribute loops make before they use the attribute at
    [attr]: [attr_offset] is a USHORT, [attr_offset + Length] an unsigned
    32-bit sum. *)
Definition valid_attribute (r : list Z) (attr_offset attr : Z) : M bool :=
  in_use ← lift (FILE_RECORD_HEADER.BytesInUse r);
  rsize ← get (fun s => file_record_size (ml s));
  if (in_use <? attr_offset + ATTRIBUTE.size) || (rsize <? attr_offset + ATTRIBUTE.size)
  then mret false else
  type ← lift (ATTRIBUTE.AttributeType r attr);
  if (type =? 0xffffffff) || (type =? 0) then mret false else
  len ← lift (ATTRIBUTE.Length r attr);
  if len =? 0 then mret false else
  if (in_use <? u32 (attr_offset + len)) || (rsize <? u32 (attr_offset + len))
  then mret false else
  nonres ← lift (ATTRIBUTE.Nonresident r attr);
  if negb (nonres =? 0)
  then mret (negb (len <? NONRESIDENT_ATTRIBUTE.size - 8))
  else mret (negb (len <? RESIDENT_ATTRIBUTE.size)).

(** [enumerate_attributes]. *)
Fixpoint enumerate_loop (fuel : nat) (r : list Z) (ah : Z → M unit)
    (attr_offset pattr : Z) : M unit :=
  match fuel with
  | O => st_nofuel
  | S fuel =>
      stop ← ftw_ntfs_check_for_termination;
      if (stop : bool) then mret tt else
      ok ← valid_attribute r attr_offset pattr;
      if negb ok then mret tt else
      _ ← ah pattr;
      attr_length ← lift (ATTRIBUTE.Length r pattr);
      enumerate_loop fuel r ah (u16 (attr_offset + u16 attr_length)) (pattr + attr_length)
  end.

Definition enumerate_attributes (r : list Z) (ah : Z → M unit) : M unit :=
  attr_offset ← lift (FILE_RECORD_HEADER.AttributeOffset r);
  enumerate_loop (S (length r)) r ah attr_offset attr_offset.

(** ** The file list *)

(** The walk of [find_filelist_entry] over the list, [i] the position. *)
Fixpoint find_entry_loop (dir : scan_direction) (base : Z) (attr_name : str) (i : nat)
    (l : list winx_file_info) : option nat :=
  match l with
  | [] => None
  | f :: l =>
      if match dir with
         | MFT_SCAN_RTL => base <? BaseMftId f
         | MFT_SCAN_LTR => BaseMftId f <? base
         end then None
      else if bool_decide (fi_name f = attr_name) && (BaseMftId f =? base) then Some i
      else find_entry_loop dir base attr_name (S i) l
  end.

(** A new entry for a stream of the current file. *)
Definition new_entry (attr_name : str) (base : Z) : winx_file_info :=
  FileInfo attr_name None 0 empty_disp 0 base FILE_root 0 0 0.

(** [find_filelist_entry]: the position of the entry, a new one at the head
    when there is none.  When its name cannot be copied the new item is
    removed again. *)
Definition find_filelist_entry (attr_name : str) : M (option nat) :=
  l ← get filelist;
  dir ← get mft_scan_direction;
  base ← get (fun s => mfi_BaseMftId (mfi s));
  match find_entry_loop dir base attr_name 0 l with
  | Some i => mret (Some i)
  | None =>
      match winx_wcsdup tmalloc (Some attr_name) with
      | None => _ ← upd add_error; mret None
      | Some name => _ ← upd (set_filelist (new_entry name base :: l)); mret (Some O)
      end
  end.

(** ** Resident streams *)
Definition get_file_flags (r : list Z) (pr_attr : Z) : M unit :=
  voff ← lift (RESIDENT_ATTRIBUTE.ValueOffset r pr_attr);
  let si := pr_attr + voff in
  vlen ← lift (RESIDENT_ATTRIBUTE.ValueLength r pr_attr);
  if vlen <? 48 then mret tt else
  x ← lift (STANDARD_INFORMATION.FileAttributes r si);
  upd_mfi (fun m => Mfi (mfi_BaseMftId m) (mfi_ParentDirectoryMftId m) (Z.lor (mfi_Flags m) x)
    (mfi_NameType m) (mfi_Name m) (mfi_CreationTime m) (mfi_LastWriteTime m)
    (mfi_LastAccessTime m)).

Definition get_file_access_times (r : list Z) (pr_attr : Z) : M unit :=
  voff ← lift (RESIDENT_ATTRIBUTE.ValueOffset r pr_attr);
  let si := pr_attr + voff in
  vlen ← lift (RESIDENT_ATTRIBUTE.ValueLength r pr_attr);
  if vlen <? 48 then mret tt else
  c ← lift (STANDARD_INFORMATION.CreationTime r si);
  w ← lift (STANDARD_INFORMATION.LastWriteTime r si);
  a ← lift (STANDARD_INFORMATION.LastAccessTime r si);
  upd_mfi (fun m => Mfi (mfi_BaseMftId m) (mfi_ParentDirectoryMftId m) (mfi_Flags m)
    (mfi_NameType m) (mfi_Name m) c w a).

(** Whether a name of type [new] replaces the name held so far. *)
Definition replaces_name (m : my_file_information) (new : Z) : bool :=
  if decide (mfi_Name m = []) then true
  else if mfi_NameType m =? FILENAME_DOS then true
  else (mfi_NameType m =? FILENAME_WIN32) && (new =? FILENAME_POSIX).

Definition update_file_name (r : list Z) (pr_attr : Z) : M unit :=
  voff ← lift (RESIDENT_ATTRIBUTE.ValueOffset r pr_attr);
  let fn := pr_attr + voff in
  vlen ← lift (RESIDENT_ATTRIBUTE.ValueLength r pr_attr);
  if vlen <? FILENAME_ATTRIBUTE.size then mret tt else
  nlen ← lift (FILENAME_ATTRIBUTE.NameLength r fn);
  if nlen =? 0 then mret tt else
  c ← lift (rd 2 r (fn + FILENAME_ATTRIBUTE.Name));
  if c =? 0 then mret tt else
  frn ← lift (FILENAME_ATTRIBUTE.DirectoryFileReferenceNumber r fn);
  let parent_mft_id := GetMftIdFromFRN frn in
  base ← get (fun s => mfi_BaseMftId (mfi s));
  if (parent_mft_id =? base) && negb (base =? FILE_root) then mret tt else
  _ ← upd_mfi (fun m => Mfi (mfi_BaseMftId m) parent_mft_id (mfi_Flags m) (mfi_NameType m)
    (mfi_Name m) (mfi_CreationTime m) (mfi_LastWriteTime m) (mfi_LastAccessTime m));
  ntype ← lift (FILENAME_ATTRIBUTE.NameType r fn);
  update_name ← get (fun s => replaces_name (mfi s) ntype);
  if negb update_name then mret tt else
  name ← lift (wcsncpy (Z.to_nat nlen) r (fn + FILENAME_ATTRIBUTE.Name));
  upd_mfi (fun m => Mfi (mfi_BaseMftId m) (mfi_ParentDirectoryMftId m) (mfi_Flags m) ntype
    name (mfi_CreationTime m) (mfi_LastWriteTime m) (mfi_LastAccessTime m)).

Definition add_flag (f : Z) : M unit :=
  upd_mfi (fun m => Mfi (mfi_BaseMftId m) (mfi_ParentDirectoryMftId m) (Z.lor (mfi_Flags m) f)
    (mfi_NameType m) (mfi_Name m) (mfi_CreationTime m) (mfi_LastWriteTime m)
    (mfi_LastAccessTime m)).

Definition handle_reparse_point (r : list Z) (pr_attr : Z) : M unit :=
  voff ← lift (RESIDENT_ATTRIBUTE.ValueOffset r pr_attr);
  vlen ← lift (RESIDENT_ATTRIBUTE.ValueLength r pr_attr);
  _ ← (if 4 <=? vlen then lift (rd 4 r (pr_attr + voff)) else mret 0);
  add_flag FILE_ATTRIBUTE_REPARSE_POINT.

(** The version and the dirty flag are read for the log only. *)
Definition get_volume_information (r : list Z) (pr_attr : Z) : M unit :=
  voff ← lift (RESIDENT_ATTRIBUTE.ValueOffset r pr_attr);
  vlen ← lift (RESIDENT_ATTRIBUTE.ValueLength r pr_attr);
  if vlen <? VOLUME_INFORMATION.size then mret tt else
  _ ← lift (VOLUME_INFORMATION.Flags r (pr_attr + voff));
  mret tt.

(** ** Attribute lists

    The functions from here to [analyze_single_attribute] are mutually
    recursive in C: an attribute list entry leads to a child record, whose
    attribute may itself be an attribute list.  They take the analysis of a
    child record as the argument [child], and [analyze_attribute_from_mft_record]
    ties the knot. *)
Section lists.
Context (child : Z → Z → option str → Z → M unit).

Definition analyze_attribute_from_attribute_list (b : list Z) (entry : Z) : M unit :=
  (* 1. save the name of the attribute *)
  length ← lift (ATTRIBUTE_LIST.NameLength b entry);
  noff ← lift (ATTRIBUTE_LIST.NameOffset b entry);
  let name_src := entry + noff in
  empty_name ← (if length =? 0 then mret true
                else if noff =? 0 then mret true
                else c ← lift (rd 2 b name_src); mret (c =? 0));
  attr_name ← (if (empty_name : bool) then mret None
               else n ← lift (wcsncpy (Z.to_nat length) b name_src); mret (Some n));
  (* 2. save the attribute type *)
  attr_type ← lift (ATTRIBUTE_LIST.AttributeType b entry);
  (* 3. save the identifier of the child record containing the attribute *)
  frn ← lift (ATTRIBUTE_LIST.FileReferenceNumber b entry);
  let child_record_mft_id := GetMftIdFromFRN frn in
  (* 4. save the AttributeNumber *)
  attr_number ← lift (ATTRIBUTE_LIST.AttributeNumber b entry);
  (* 5. analyze a single attribute *)
  child child_record_mft_id attr_type attr_name attr_number.

(** The loop through the entries of a list that ends at offset [list_end]. *)
Fixpoint attribute_list_loop (fuel : nat) (b : list Z) (entry list_end : Z) : M unit :=
  match fuel with
  | O => st_nofuel
  | S fuel =>
      stop ← ftw_ntfs_check_for_termination;
      if (stop : bool) then mret tt else
      if list_end <? entry + ATTRIBUTE_LIST.size_without_alignment then mret tt else
      type ← lift (ATTRIBUTE_LIST.AttributeType b entry);
      if (type =? 0xffffffff) || (type =? 0) then mret tt else
      length ← lift (ATTRIBUTE_LIST.Length b entry);
      if length =? 0 then mret tt else
      _ ← analyze_attribute_from_attribute_list b entry;
      attribute_list_loop fuel b (entry + length) list_end
  end.

Definition analyze_resident_attribute_list (r : list Z) (pr_attr : Z) : M unit :=
  voff ← lift (RESIDENT_ATTRIBUTE.ValueOffset r pr_attr);
  vlen ← lift (RESIDENT_ATTRIBUTE.ValueLength r pr_attr);
  attribute_list_loop (S (length r)) r (pr_attr + voff) (pr_attr + voff + vlen).

Definition analyze_resident_stream (r : list Z) (pr_attr : Z) : M unit :=
  (* add resident streams to sp->filelist *)
  attr_name ← lift (get_attribute_name r pr_attr);
  _ ← (match attr_name with
       | Some n => find_filelist_entry n
       | None => mret None
       end);
  voff ← lift (RESIDENT_ATTRIBUTE.ValueOffset r pr_attr);
  vlen ← lift (RESIDENT_ATTRIBUTE.ValueLength r pr_attr);
  if (voff =? 0) || (vlen =? 0) then mret tt else
  type ← lift (ATTRIBUTE.AttributeType r pr_attr);
  if type =? AttributeStandardInformation then
    _ ← get_file_flags r pr_attr; get_file_access_times r pr_attr
  else if type =? AttributeFileName then update_file_name r pr_attr
  else if type =? AttributeVolumeInformation then get_volume_information r pr_attr
  else if type =? AttributeAttributeList then analyze_resident_attribute_list r pr_attr
  else if type =? AttributeReparsePoint then handle_reparse_point r pr_attr
  else mret tt.

(** Reading the clusters of a nonresident list: [n] clusters are left to read,
    [i] is the index in the first block, [acc] what has been read.  The result
    is [None] when a read fails and otherwise the number of clusters left with
    the bytes read. *)
Fixpoint read_clusters (n : nat) (l : mft_layout) (blocks : list winx_blockmap) (i : Z)
    (acc : list Z) {struct n} : option (nat * list Z) :=
  match n with
  | O => Some (O, acc)
  | S n' =>
      (fix next_block (blocks : list winx_blockmap) (i : Z) : option (nat * list Z) :=
         match blocks with
         | [] => Some (n, acc)
         | b :: blocks' =>
             if i <? bk_length b then
               let lsn := u64 (u64 (bk_lcn b + i) * sectors_per_cluster l) in
               match read_sectors lsn (u32 (cluster_size l)) with
               | None => None
               | Some bytes => read_clusters n' l blocks (i + 1) (acc ++ bytes)
               end
             else next_block blocks' 0
         end) blocks i
  end.

Definition analyze_non_resident_attribute_list (blocks : list winx_blockmap) (list_size : Z)
  : M unit :=
  if list_size =? 0 then mret tt else
  l ← get ml;
  let csize := cluster_size l in
  let clusters_to_read :=
    u64 (list_size / csize + (if negb (list_size mod csize =? 0) then 1 else 0)) in
  if negb (tmalloc (u64 (csize * clusters_to_read))) then upd add_error else
  match read_clusters (Z.to_nat clusters_to_read) l blocks 0 [] with
  | None => mret tt
  | Some (S _, _) => mret tt
  | Some (O, cluster) => attribute_list_loop (S (length cluster)) cluster 0 list_size
  end.

(** ** Nonresident streams *)
Definition process_run_list (attr_name : str) (r : list Z) (pnr_attr : Z) (is_attr_list : bool)
  : M unit :=
  (* add file stream to the file list *)
  pos ← find_filelist_entry attr_name;
  match pos with
  | None => mret tt
  | Some i =>
      aflags ← lift (ATTRIBUTE.Flags r pnr_attr);
      _ ← (if has_flag aflags 1
           then upd_file i (fun f => set_flags (Z.lor (fi_flags f) FILE_ATTRIBUTE_COMPRESSED) f)
           else mret tt);
      (* don't analyze $BadClus file *)
      name ← get (fun s => mfi_Name (mfi s));
      if bool_decide (is_Some (winx_wcsistr (Some name) (Some (text "$BadClus"))))
      then mret tt else
      flags ← get sp_flags;
      _ ← (if is_attr_list || has_flag flags WINX_FTW_DUMP_FILES then
             low ← lift (NONRESIDENT_ATTRIBUTE.LowVcn r pnr_attr);
             roff ← lift (NONRESIDENT_ATTRIBUTE.RunArrayOffset r pnr_attr);
             l ← get ml;
             fl ← get filelist;
             match fl !! i with
             | None => st_fault
             | Some f =>
                 d ← lift (run_loop (S (length r)) l r (pnr_attr + roff) 0 low (disp f));
                 upd_file i (set_disp d)
             end
           else mret tt);
      (* analyze nonresident attribute lists *)
      if is_attr_list then
        size ← lift (NONRESIDENT_ATTRIBUTE.InitializedSize r pnr_attr);
        fl ← get filelist;
        match fl !! i with
        | None => st_fault
        | Some f => analyze_non_resident_attribute_list (blockmap (disp f)) size
        end
      else mret tt
  end.

Definition analyze_non_resident_stream (r : list Z) (pnr_attr : Z) : M unit :=
  attr_type ← lift (ATTRIBUTE.AttributeType r pnr_attr);
  _ ← (if attr_type =? AttributeReparsePoint then add_flag FILE_ATTRIBUTE_REPARSE_POINT
       else mret tt);
  attr_name ← lift (get_attribute_name r pnr_attr);
  match attr_name with
  | None => mret tt
  | Some n => process_run_list n r pnr_attr (attr_type =? AttributeAttributeList)
  end.

Definition analyze_attribute (r : list Z) (pattr : Z) : M unit :=
  nonres ← lift (ATTRIBUTE.Nonresident r pattr);
  if negb (nonres =? 0) then analyze_non_resident_stream r pattr
  else analyze_resident_stream r pattr.

(** [name] keeps its value from one iteration to the next. *)
Fixpoint single_attribute_loop (fuel : nat) (r : list Z) (attr_type : Z)
    (attr_name : option str) (attr_number : Z) (name : option Z) (attr_offset attr : Z)
  : M unit :=
  match fuel with
  | O => st_nofuel
  | S fuel =>
      stop ← ftw_ntfs_check_for_termination;
      if (stop : bool) then mret tt else
      ok ← valid_attribute r attr_offset attr;
      if negb ok then mret tt else
      type ← lift (ATTRIBUTE.AttributeType r attr);
      '(name, attribute_found) ←
        (if type =? attr_type then
           noff ← lift (ATTRIBUTE.NameOffset r attr);
           nlen ← lift (ATTRIBUTE.NameLength r attr);
           name ← (if negb (noff =? 0) && negb (nlen =? 0)
                   then c ← lift (rd 2 r (attr + noff));
                        mret (if c =? 0 then None else Some (attr + noff))
                   else mret name);
           match attr_name, name with
           | None, None =>
               number ← lift (ATTRIBUTE.AttributeNumber r attr);
               mret (name, number =? attr_number)
           | None, Some _ => mret (name, false)
           | Some _, None => mret (name, false)
           | Some n, Some p =>
               if Z.of_nat (length n) =? nlen then
                 s ← lift (rd_wchars (length n) r p);
                 if bool_decide (s = n) then
                   number ← lift (ATTRIBUTE.AttributeNumber r attr);
                   mret (name, number =? attr_number)
                 else mret (name, false)
               else mret (name, false)
           end
         else mret (name, false));
      if (attribute_found : bool) then
        _ ← analyze_attribute r attr;
        upd add_processed
      else
        attr_length ← lift (ATTRIBUTE.Length r attr);
        single_attribute_loop fuel r attr_type attr_name attr_number name
          (u16 (attr_offset + u16 attr_length)) (attr + attr_length)
  end.

Definition analyze_single_attribute (r : list Z) (attr_type : Z) (attr_name : option str)
    (attr_number : Z) : M unit :=
  attr_offset ← lift (FILE_RECORD_HEADER.AttributeOffset r);
  single_attribute_loop (S (length r)) r attr_type attr_name attr_number None
    attr_offset attr_offset.
End lists.

(** [analyze_attribute_from_mft_record]: [fuel] bounds the depth of the
    recursion through attribute lists. *)
Fixpoint analyze_attribute_from_mft_record (fuel : nat) (mft_id attr_type : Z)
    (attr_name : option str) (attr_number : Z) : M unit :=
  match fuel with
  | O => st_nofuel
  | S fuel =>
      (* skip attributes stored in the base mft record *)
      base ← get (fun s => mfi_BaseMftId (mfi s));
      if mft_id =? base then mret tt else
      bsize ← get (fun s => file_record_buffer_size (ml s));
      if negb (tmalloc bsize) then upd add_error else
      match get_file_record mft_id with
      | None => mret tt
      | Some (frn, r) =>
          if negb (GetMftIdFromFRN frn =? mft_id) then mret tt else
          (* validate file record *)
          type ← lift (FILE_RECORD_HEADER.Type_ r);
          if negb (type =? FILE_tag) then mret tt else
          flags ← lift (FILE_RECORD_HEADER.Flags r);
          if negb (has_flag flags 1) then mret tt else
          bfr ← lift (FILE_RECORD_HEADER.BaseFileRecord r);
          if bfr =? 0 then mret tt else
          (* search for a specified attribute *)
          analyze_single_attribute (analyze_attribute_from_mft_record fuel)
            r attr_type attr_name attr_number
      end
  end.

(** ** Single file analysis *)
Section files.
(** The bounds on the recursion through attribute lists and on the walk to the
    root directory. *)
Context (fuel : nat).

Definition analyze_attribute_callback (r : list Z) (pattr : Z) : M unit :=
  type ← lift (ATTRIBUTE.AttributeType r pattr);
  if negb (type =? AttributeAttributeList)
  then analyze_attribute (analyze_attribute_from_mft_record fuel) r pattr else mret tt.

Definition analyze_attribute_list_callback (r : list Z) (pattr : Z) : M unit :=
  type ← lift (ATTRIBUTE.AttributeType r pattr);
  if type =? AttributeAttributeList
  then analyze_attribute (analyze_attribute_from_mft_record fuel) r pattr else mret tt.

(** [update_stream_name]: the name of the file, then the name of the stream. *)
Definition update_stream_name (m : my_file_information) (name : str) : str :=
  if decide (name = []) then mfi_Name m else mfi_Name m ++ text ":" ++ name.

(** The update of one entry of the current file. *)
Definition update_entry (m : my_file_information) (f : winx_file_info) : winx_file_info :=
  FileInfo (update_stream_name m (fi_name f)) (fi_path f) (mfi_Flags m) (disp f)
    (user_defined_flags f) (BaseMftId f) (mfi_ParentDirectoryMftId m)
    (mfi_CreationTime m) (mfi_LastWriteTime m) (mfi_LastAccessTime m).

(** The loop at the end of [analyze_file_record]. *)
Fixpoint update_loop (dir : scan_direction) (m : my_file_information)
    (l : list winx_file_info) : list winx_file_info :=
  match l with
  | [] => []
  | f :: l' =>
      if match dir with
         | MFT_SCAN_RTL => mfi_BaseMftId m <? BaseMftId f
         | MFT_SCAN_LTR => BaseMftId f <? mfi_BaseMftId m
         end then l
      else
        (if BaseMftId f =? mfi_BaseMftId m
         then match pcb with
              | Some cb => cb (update_entry m f)
              | None => update_entry m f
              end
         else f) :: update_loop dir m l'
  end.

Definition analyze_file_record (frn : Z) (r : list Z) : M unit :=
  (* validate header *)
  type ← lift (FILE_RECORD_HEADER.Type_ r);
  if negb (type =? FILE_tag) then mret tt else
  flags ← lift (FILE_RECORD_HEADER.Flags r);
  if negb (has_flag flags 1) then mret tt else
  (* skip child records *)
  bfr ← lift (FILE_RECORD_HEADER.BaseFileRecord r);
  if negb (bfr =? 0) then mret tt else
  (* initialize mfi structure *)
  _ ← upd (set_mfi (Mfi (GetMftIdFromFRN frn) FILE_root
             (if has_flag flags 2 then FILE_ATTRIBUTE_DIRECTORY else 0) 0 [] 0 0 0));
  (* skip attribute lists *)
  _ ← enumerate_attributes r (analyze_attribute_callback r);
  (* analyze attribute lists *)
  _ ← enumerate_attributes r (analyze_attribute_list_callback r);
  (* add the name of the file to its streams *)
  upd (fun s => set_filelist (update_loop (mft_scan_direction s) (mfi s) (filelist s)) s).

(** ** Full paths *)

(** The name of a stream contains [":$"]. *)
Definition is_named_stream (name : str) : bool :=
  bool_decide (is_Some (wcsstr name (text ":$"))).

(** The linear search of [find_directory_by_mft_id]. *)
Fixpoint find_directory_linear (mft_id : Z) (i : nat) (l : list winx_file_info) : option nat :=
  match l with
  | [] => None
  | f :: l =>
      if (BaseMftId f =? mft_id) && negb (is_named_stream (fi_name f)) then Some i
      else find_directory_linear mft_id (S i) l
  end.

(** An element of the array used in the binary search. *)
Definition entry_id (l : list winx_file_info) (k : nat) : outcome Z :=
  match l !! k with
  | Some f => Ret (BaseMftId f)
  | None => Fault
  end.

(** [for(m = k; m >= 0; m --) if(f_array[m].mft_id != mft_id) break], then
    [m + 1]. *)
Fixpoint scan_down (l : list winx_file_info) (mft_id : Z) (m : nat) : outcome nat :=
  x ← entry_id l m;
  if negb (x =? mft_id) then Ret (S m) else
  match m with
  | O => Ret O
  | S m' => scan_down l mft_id m'
  end.

(** [for(; m < n_entries; m ++)], [todo] elements being left. *)
Fixpoint scan_up (l : list winx_file_info) (mft_id : Z) (m todo : nat) : outcome (option nat) :=
  match todo with
  | O => Ret None
  | S todo =>
      match l !! m with
      | None => Fault
      | Some f =>
          if negb (BaseMftId f =? mft_id) then Ret None
          else if negb (is_named_stream (fi_name f)) then Ret (Some m)
          else scan_up l mft_id (S m) todo
      end
  end.

(** [for(lim = n_entries; lim != 0; lim >>= 1)]. *)
Fixpoint bsearch_loop (fuel : nat) (dir : scan_direction) (l : list winx_file_info)
    (mft_id : Z) (i lim : nat) : outcome (option nat) :=
  match fuel with
  | O => NoFuel
  | S fuel =>
      if decide (lim = O) then Ret None else
      let k := (i + lim / 2)%nat in
      x ← entry_id l k;
      if x =? mft_id then
        m ← scan_down l mft_id k;
        scan_up l mft_id m (length l - m)
      else if match dir with
              | MFT_SCAN_RTL => x <? mft_id
              | MFT_SCAN_LTR => mft_id <? x
              end
      then bsearch_loop fuel dir l mft_id (S k) ((lim - 1) / 2)
      else bsearch_loop fuel dir l mft_id i (lim / 2)
  end.

(** [find_directory_by_mft_id]: [have_array] tells whether the array, which
    lists the files in the order of the list, could be allocated. *)
Definition find_directory_by_mft_id (have_array : bool) (mft_id : Z) : M (option nat) :=
  l ← get filelist;
  dir ← get mft_scan_direction;
  if negb have_array then mret (find_directory_linear mft_id 0 l)
  else lift (bsearch_loop (S (length l)) dir l mft_id 0 (length l)).

(** [get_directory_information]: whether the path is a full path, the path and
    the parent. *)
Definition get_directory_information (have_array : bool) (mft_id : Z)
  : M (bool * option str * Z) :=
  pos ← find_directory_by_mft_id have_array mft_id;
  l ← get filelist;
  match (pos : option nat) with
  | None => _ ← upd add_error; mret (false, None, FILE_root)
  | Some i =>
      match l !! i with
      | None => st_fault
      | Some f =>
          match fi_path f with
          | Some p => mret (true, Some p, ParentDirectoryMftId f)
          | None => mret (false, Some (fi_name f), ParentDirectoryMftId f)
          end
      end
  end.

(** Formatting into a buffer of MAX_PATH characters whose last one is set to
    zero. *)
Definition clip (s : str) : str := take (MAX_PATH - 1) s.

(** The loop through parent directories: the path gathered, or [None] when
    termination was requested. *)
Fixpoint parents_loop (n : nat) (have_array : bool) (parent_mft_id : Z)
    (full_path_retrieved : bool) (child : str) : M (option str) :=
  match n with
  | O => st_nofuel
  | S n =>
      if (parent_mft_id =? FILE_root) || full_path_retrieved then mret (Some child) else
      stop ← ftw_ntfs_check_for_termination;
      if (stop : bool) then mret None else
      '(full, parent_path, parent) ← get_directory_information have_array parent_mft_id;
      let child := match parent_path with
                   | Some p => clip (p ++ text "\" ++ child)
                   | None => clip (text "\" ++ child)
                   end in
      parents_loop n have_array parent full child
  end.

Definition build_file_path (have_array : bool) (i : nat) : M unit :=
  l ← get filelist;
  match l !! i with
  | None => st_fault
  | Some f =>
      child ← parents_loop fuel have_array (ParentDirectoryMftId f) false (clip (fi_name f));
      match child with
      | None => mret tt
      | Some child =>
          letter ← get volume_letter;
          let src := if nth 1 child 0 =? 0x3F then child
                     else clip (text "\??\" ++ [letter] ++ text ":\" ++ child) in
          match winx_wcsdup tmalloc (Some src) with
          | None => _ ← upd_file i (set_path None); upd add_error
          | Some p => upd_file i (set_path (Some p))
          end
      end
  end.

(** The last loop of [build_full_paths], from position [i]. *)
Fixpoint build_paths_loop (have_array : bool) (i todo : nat) : M unit :=
  match todo with
  | O => mret tt
  | S todo =>
      stop ← ftw_ntfs_check_for_termination;
      if (stop : bool) then mret tt else
      _ ← build_file_path have_array i;
      build_paths_loop have_array (S i) todo
  end.

Definition build_full_paths : M Z :=
  n_entries ← get (fun s => length (filelist s));
  let have_array := negb (n_entries =? 0)%nat && tmalloc (Z.of_nat n_entries * 16) in
  _ ← build_paths_loop have_array 0 n_entries;
  mret 0.

(** ** MFT layout *)
Definition get_number_of_file_records_callback (r : list Z) (pattr : Z) : M unit :=
  nonres ← lift (ATTRIBUTE.Nonresident r pattr);
  if nonres =? 0 then mret tt else
  type ← lift (ATTRIBUTE.AttributeType r pattr);
  if negb (type =? AttributeData) then mret tt else
  l ← get ml;
  if file_record_size l =? 0 then mret tt else
  dsize ← lift (NONRESIDENT_ATTRIBUTE.DataSize r pattr);
  upd (set_ml (MftLayout (file_record_size l) (file_record_buffer_size l)
    (dsize / file_record_size l) (total_clusters l) (cluster_size l)
    (sectors_per_cluster l) (sector_size l))).

Definition get_number_of_file_records : M Z :=
  _ ← upd (fun s => let l := ml s in set_ml (MftLayout (file_record_size l)
    (file_record_buffer_size l) 0 (total_clusters l) (cluster_size l)
    (sectors_per_cluster l) (sector_size l)) s);
  bsize ← get (fun s => file_record_buffer_size (ml s));
  if negb (tmalloc bsize) then mret (-1) else
  match get_file_record FILE_MFT with
  | None => mret (-1)
  | Some (frn, r) =>
      if negb (GetMftIdFromFRN frn =? FILE_MFT) then mret (-1) else
      type ← lift (FILE_RECORD_HEADER.Type_ r);
      if negb (type =? FILE_tag) then mret (-1) else
      flags ← lift (FILE_RECORD_HEADER.Flags r);
      if negb (has_flag flags 1) then mret (-1) else
      _ ← enumerate_attributes r (get_number_of_file_records_callback r);
      n ← get (fun s => number_of_file_records (ml s));
      mret (if n =? 0 then -1 else 0)
  end.

(** [sizeof(NTFS_FILE_RECORD_OUTPUT_BUFFER)]. *)
Definition sizeof_output_buffer : Z := 16.

Section volume.
(** FSCTL_GET_NTFS_VOLUME_DATA, and whether the volume can be opened. *)
Context (ntfs_data : option NTFS_DATA) (volume_opens : bool).
(** The effect of the filter callback on the file passed to it. *)
Context (fcb : option (winx_file_info → winx_file_info)).

Definition get_mft_layout : M Z :=
  match ntfs_data with
  | None => _ ← upd (set_ml (MftLayout 0 0 0 0 0 0 0)); mret (-1)
  | Some d =>
      let rsize := u32 (BytesPerFileRecordSegment d) in
      let spc := if BytesPerSector d =? 0 then 0 else BytesPerCluster d / BytesPerSector d in
      _ ← upd (set_ml (MftLayout rsize (u32 (sizeof_output_buffer + rsize - 1)) 0
        (TotalClusters d) (BytesPerCluster d) spc (BytesPerSector d)));
      if BytesPerSector d =? 0 then mret (-1) else
      if rsize =? 0 then mret (-1) else
      if BytesPerCluster d =? 0 then mret (-1) else
      if spc =? 0 then mret (-1) else
      x ← get_number_of_file_records;
      if x <? 0 then mret (-1) else mret 0
  end.

(** ** The scan *)

(** The loop through file records: [false] when the record of the MFT itself
    cannot be read. *)
Fixpoint scan_loop (n : nat) (mft_id : Z) : M bool :=
  match n with
  | O => st_nofuel
  | S n =>
      stop ← ftw_ntfs_check_for_termination;
      if (stop : bool) then mret true else
      match get_file_record mft_id with
      | None =>
          if mft_id =? 0 then mret false
          else scan_loop n (mft_id - 1)
      | Some (frn, r) =>
          (* analyze file record *)
          let ret_mft_id := GetMftIdFromFRN frn in
          _ ← analyze_file_record frn r;
          (* go to the next record *)
          if (ret_mft_id =? 0) || (mft_id =? 0) then mret true
          else if mft_id <? ret_mft_id then scan_loop n (mft_id - 1)
          else scan_loop n (ret_mft_id - 1)
      end
  end.

Definition scan_mft : M Z :=
  x ← get_mft_layout;
  if x <? 0 then mret (-1) else
  bsize ← get (fun s => file_record_buffer_size (ml s));
  if negb (tmalloc bsize) then mret (-1) else
  n ← get (fun s => number_of_file_records (ml s));
  _ ← upd (set_direction MFT_SCAN_RTL);
  ok ← scan_loop (Z.to_nat n) (n - 1);
  if negb ok then mret (-1) else
  build_full_paths.

(** The loop that validates the maps and calls the filter, from position [i]. *)
Fixpoint filter_loop (i todo : nat) : M unit :=
  match todo with
  | O => mret tt
  | S todo =>
      stop ← ftw_ntfs_check_for_termination;
      if (stop : bool) then mret tt else
      _ ← upd_file i validate_blockmap;
      _ ← upd_file i (match fcb with Some cb => cb | None => id end);
      filter_loop (S i) todo
  end.

Definition ntfs_scan_disk_helper : M Z :=
  if negb volume_opens then mret (-1) else
  result ← scan_mft;
  if result <? 0 then mret result else
  n ← get (fun s => length (filelist s));
  _ ← filter_loop 0 n;
  flags ← get sp_flags;
  errs ← get errors;
  mret (if negb (has_flag flags WINX_FTW_ALLOW_PARTIAL_SCAN) && negb (errs =? 0)
        then -1 else 0).

(** [ntfs_scan_disk]: the list of files, empty when the scan failed. *)
Definition ntfs_scan_disk (letter flags : Z) : outcome (list winx_file_info) :=
  let sp := Sp MFT_SCAN_RTL (MftLayout 0 0 0 0 0 0 0) letter flags
               (Mfi 0 0 0 0 [] 0 0 0) 0 0 [] O in
  '(result, s) ← ntfs_scan_disk_helper sp;
  Ret (if (result =? -1) && negb (has_flag flags WINX_FTW_ALLOW_PARTIAL_SCAN)
       then [] else filelist s).
End volume.
End files.
End scanner.
