(* ===== verification/NtfsRuns.v ===== *)
(** * Run lists of nonresident attributes

    [RunCount], [RunLCN] and [RunLength] decode the variable-length encoding
    NTFS uses for the extents of a stream.  This file gives the encoding,
    proves that the loop of [process_run_list] inverts it, and that whatever
    the bytes are, the blocks it appends lie inside the volume and the counters
    of the disposition agree with its map. *)
From S2P Require Import Prelude CString FileInfo Ntfs.
From stdpp Require Import prelude.
Open Scope Z_scope.

(** ** Little-endian numbers *)
Fixpoint val (bs : list Z) : Z :=
  match bs with
  | [] => 0
  | b :: bs => b + 256 * val bs
  end.

Lemma enc_val n x : val (enc n x) = x mod 256 ^ Z.of_nat n.
Proof.
  revert x. induction n as [|n IH]; intros x; simpl; [by rewrite Z.mod_1_r|].
  rewrite IH, Nat2Z.inj_succ, Z.pow_succ_r by lia.
  rewrite Z.rem_mul_r by lia. done.
Qed.

Lemma enc_snoc n x : enc (S n) x = enc n x ++ [(x / 256 ^ Z.of_nat n) mod 256].
Proof.
  revert x. induction n as [|n IH]; intros x.
  - simpl. by rewrite Z.div_1_r.
  - rewrite Nat2Z.inj_succ, Z.pow_succ_r by lia.
    rewrite <- Z.div_div by lia. change (enc (S (S n)) x) with (x mod 256 :: enc (S n) (x / 256)).
    by rewrite IH.
Qed.

Lemma val_snoc bs b : val (bs ++ [b]) = val bs + 256 ^ Z.of_nat (length bs) * b.
Proof.
  induction bs as [|c bs IH]; [simpl; lia|].
  cbn [app val length]. rewrite IH, Nat2Z.inj_succ, Z.pow_succ_r by lia. lia.
Qed.

(** ** Reading inside a buffer *)
Lemma rd8_app pre b post : rd8 (pre ++ b :: post) (Z.of_nat (length pre)) = Ret b.
Proof.
  unfold rd8. rewrite length_app. simpl.
  rewrite (proj2 (Z.ltb_ge _ _)), (proj2 (Z.leb_gt _ _)) by lia. simpl.
  by rewrite Nat2Z.id, list_lookup_middle.
Qed.

Lemma rd8_at pre bs b bs' post off :
  off = Z.of_nat (length pre + length bs) →
  rd8 (pre ++ (bs ++ b :: bs') ++ post) off = Ret b.
Proof.
  intros ->. rewrite <- app_assoc, app_assoc, <- length_app. simpl. apply rd8_app.
Qed.

Lemma run_count_loop_run pre bs post run c :
  run = Z.of_nat (length pre) - 1 → 0 ≤ c < 2 ^ 64 →
  run_count_loop (pre ++ bs ++ post) run (length bs) c =
  Ret (u64 (c * 256 ^ Z.of_nat (length bs) + val bs)).
Proof.
  intros Hrun. revert c post. induction bs as [|b bs IH] using rev_ind; intros c post Hc.
  { simpl. rewrite Z.mul_1_r, Z.add_0_r, u64_small by done. done. }
  rewrite length_app, Nat.add_1_r. cbn [run_count_loop].
  rewrite (rd8_at pre bs b []) by lia. rewrite outcome_bind_ret, <- app_assoc.
  rewrite IH by apply u64_range. f_equal. rewrite val_snoc, Z.shiftl_mul_pow2 by lia.
  rewrite Nat2Z.inj_succ, Z.pow_succ_r by lia. unfold u64.
  rewrite <- Z.add_mod_idemp_l, Z.mul_mod_idemp_l, Z.add_mod_idemp_l by lia.
  f_equal. lia.
Qed.

Lemma s64_mod z : s64 z mod 2 ^ 64 = z mod 2 ^ 64.
Proof.
  unfold s64, u64. destruct (_ <? _); [by rewrite Z.mod_mod|].
  rewrite <- (Z.mod_add (z mod 2 ^ 64 - 2 ^ 64) 1) by lia.
  replace (z mod 2 ^ 64 - 2 ^ 64 + 1 * 2 ^ 64) with (z mod 2 ^ 64) by lia. by rewrite Z.mod_mod.
Qed.

Lemma s64_eq z : -2 ^ 63 ≤ z < 2 ^ 63 → s64 z = z.
Proof.
  intros Hz. unfold s64, u64. destruct (decide (0 ≤ z)).
  - rewrite Z.mod_small by lia. by rewrite (proj2 (Z.ltb_lt _ _)) by lia.
  - rewrite <- (Z.mod_add z 1), Z.mod_small by lia.
    rewrite (proj2 (Z.ltb_ge _ _)) by lia. lia.
Qed.

Lemma s64_cong a b : a mod 2 ^ 64 = b mod 2 ^ 64 → s64 a = s64 b.
Proof. intros E. unfold s64, u64. by rewrite E. Qed.

Lemma run_lcn_loop_run pre bs post run n1 c :
  run + n1 = Z.of_nat (length pre) - 1 → -2 ^ 63 ≤ c < 2 ^ 63 →
  run_lcn_loop (pre ++ bs ++ post) run n1 (length bs) c =
  Ret (s64 (c * 256 ^ Z.of_nat (length bs) + val bs)).
Proof.
  intros Hrun. revert c post. induction bs as [|b bs IH] using rev_ind; intros c post Hc.
  { simpl. rewrite Z.mul_1_r, Z.add_0_r, s64_eq by done. done. }
  rewrite length_app, Nat.add_1_r. cbn [run_lcn_loop].
  rewrite (rd8_at pre bs b []) by lia. rewrite outcome_bind_ret, <- app_assoc.
  rewrite IH; cycle 1.
  { pose proof (u64_range (Z.shiftl c 8 + b)) as Hr. unfold s64.
    destruct (Z.ltb_spec (u64 (Z.shiftl c 8 + b)) (2 ^ 63)); lia. }
  f_equal. apply s64_cong. rewrite val_snoc, Z.shiftl_mul_pow2 by lia.
  rewrite Nat2Z.inj_succ, Z.pow_succ_r by lia.
  rewrite <- Z.add_mod_idemp_l, <- Z.mul_mod_idemp_l, s64_mod by lia.
  rewrite Z.mul_mod_idemp_l, Z.add_mod_idemp_l by lia. f_equal. lia.
Qed.

(** ** The encoding of extents *)

(** An extent of a stream: a run at [ex_lcn], or a virtual run, of [ex_length]
    clusters, and the widths in bytes of the two numbers of its encoding. *)
Record extent : Type := Extent {
  ex_lcn : option Z;
  ex_length : Z;
  ex_n1 : nat;
  ex_n2 : nat;
}.

Definition ex_delta (prev : Z) (e : extent) : Z :=
  match ex_lcn e with Some lcn => lcn - prev | None => 0 end.

Definition encode_run (n1 n2 : nat) (delta count : Z) : list Z :=
  (Z.of_nat n1 + 16 * Z.of_nat n2) :: enc n1 count ++ enc n2 delta.

(** The bytes of a run list: locations are relative to the previous run. *)
Fixpoint encode_extents (prev : Z) (es : list extent) : list Z :=
  match es with
  | [] => [0]
  | e :: es =>
      encode_run (ex_n1 e) (ex_n2 e) (ex_delta prev e) (ex_length e) ++
      encode_extents (prev + ex_delta prev e) es
  end.

(** The blocks the extents stand for. *)
Fixpoint extent_blocks (vcn : Z) (es : list extent) : list winx_blockmap :=
  match es with
  | [] => []
  | e :: es =>
      match ex_lcn e with
      | Some lcn => [Block vcn lcn (ex_length e)]
      | None => []
      end ++ extent_blocks (vcn + ex_length e) es
  end.

(** Extents a volume of [total] clusters can hold: the numbers fit their
    widths, a run lies inside the volume and does not start where the run
    before it does; a virtual run has no location bytes. *)
Definition extent_valid (total prev : Z) (e : extent) : Prop :=
  (1 ≤ ex_n1 e ≤ 8)%nat ∧ 0 ≤ ex_length e < 256 ^ Z.of_nat (ex_n1 e) ∧
  match ex_lcn e with
  | None => ex_n2 e = O
  | Some lcn => (1 ≤ ex_n2 e ≤ 8)%nat ∧ lcn ≠ prev ∧ 0 ≤ lcn < total ∧ lcn + ex_length e ≤ total ∧
      - 256 ^ Z.of_nat (ex_n2 e) ≤ 2 * (lcn - prev) < 256 ^ Z.of_nat (ex_n2 e)
  end.

Fixpoint extents_valid (total prev vcn : Z) (es : list extent) : Prop :=
  match es with
  | [] => True
  | e :: es =>
      extent_valid total prev e ∧ vcn + ex_length e < 2 ^ 64 ∧
      extents_valid total (prev + ex_delta prev e) (vcn + ex_length e) es
  end.

(** ** Decoding one run *)
Lemma run_header n1 n2 :
  (n1 ≤ 15)%nat → (n2 ≤ 15)%nat →
  Z.land (Z.of_nat n1 + 16 * Z.of_nat n2) 0xf = Z.of_nat n1 ∧
  Z.land (Z.shiftr (Z.of_nat n1 + 16 * Z.of_nat n2) 4) 0xf = Z.of_nat n2.
Proof.
  intros H1 H2. change 0xf with (Z.ones 4). rewrite !Z.land_ones, Z.shiftr_div_pow2 by lia.
  change (2 ^ 4) with 16. split.
  - rewrite Z.mul_comm, Z.mod_add, Z.mod_small by lia. done.
  - rewrite Z.mul_comm, Z.div_add, Z.div_small, Z.mod_small by lia. done.
Qed.

Section decode.
Context (pre post : list Z) (n1 n2 : nat) (delta count : Z).
Context (Hn1 : (n1 ≤ 8)%nat) (Hn2 : (n2 ≤ 8)%nat).
Abbreviation run := (Z.of_nat (length pre)).
Abbreviation buf := (pre ++ encode_run n1 n2 delta count ++ post).

Lemma run_first : rd8 buf run = Ret (Z.of_nat n1 + 16 * Z.of_nat n2).
Proof. unfold encode_run. simpl. apply rd8_app. Qed.

Lemma RunLength_ok : RunLength buf run = Ret (Z.of_nat n1 + Z.of_nat n2 + 1).
Proof.
  unfold RunLength. rewrite run_first, outcome_bind_ret.
  by destruct (run_header n1 n2) as [-> ->]; [lia..|].
Qed.

Lemma RunCount_ok : 0 ≤ count < 256 ^ Z.of_nat n1 → RunCount buf run = Ret count.
Proof.
  intros Hc. unfold RunCount. rewrite run_first, outcome_bind_ret.
  destruct (run_header n1 n2) as [-> _]; [lia..|]. rewrite Nat2Z.id.
  unfold encode_run. simpl app. rewrite cons_middle, app_assoc, <- (app_assoc (enc n1 count)).
  pose proof (run_count_loop_run (pre ++ [Z.of_nat n1 + 16 * Z.of_nat n2]) (enc n1 count)
    (enc n2 delta ++ post) run 0) as H.
  rewrite enc_length, enc_val, Z.mod_small in H by done. rewrite H.
  - f_equal. simpl. apply u64_small.
    assert (256 ^ Z.of_nat n1 ≤ 256 ^ 8) by (apply Z.pow_le_mono_r; lia). lia.
  - rewrite length_app. simpl. lia.
  - lia.
Qed.

Lemma RunLCN_virtual : n2 = O → RunLCN buf run = Ret 0.
Proof.
  intros E. unfold RunLCN. rewrite run_first, outcome_bind_ret.
  destruct (run_header n1 n2) as [-> ->]; [lia..|]. by rewrite E.
Qed.

Lemma RunLCN_ok :
  (1 ≤ n2)%nat → - 256 ^ Z.of_nat n2 ≤ 2 * delta < 256 ^ Z.of_nat n2 →
  RunLCN buf run = Ret delta.
Proof.
  intros H1 Hd. unfold RunLCN. rewrite run_first, outcome_bind_ret.
  destruct (run_header n1 n2) as [-> ->]; [lia..|].
  rewrite (proj2 (Z.eqb_neq _ 0)) by lia. unfold encode_run.
  destruct n2 as [|k]; [lia|]. rewrite enc_snoc.
  set (top := (delta / 256 ^ Z.of_nat k) mod 256).
  replace (Z.to_nat (Z.of_nat (S k) - 1)) with k by lia.
  set (hdr := Z.of_nat n1 + 16 * Z.of_nat (S k)).
  replace (pre ++ (hdr :: enc n1 count ++ enc k delta ++ [top]) ++ post)
    with ((pre ++ hdr :: enc n1 count) ++ (enc k delta ++ top :: []) ++ post)
    by (rewrite <- !app_assoc; simpl; by rewrite <- !app_assoc).
  rewrite (rd8_at _ (enc k delta) top []); cycle 1.
  { rewrite length_app. simpl. rewrite !enc_length. lia. }
  rewrite !outcome_bind_ret, <- (app_assoc (enc k delta)).
  rewrite Nat2Z.inj_succ, Z.pow_succ_r in Hd by lia.
  assert (Hp : 0 < 256 ^ Z.of_nat k) by (apply Z.pow_pos_nonneg; lia).
  assert (Hp7 : 256 ^ Z.of_nat k ≤ 256 ^ 7) by (apply Z.pow_le_mono_r; lia).
  pose proof (Z.div_mod delta (256 ^ Z.of_nat k)) as Hdm.
  pose proof (Z.mod_pos_bound delta (256 ^ Z.of_nat k) Hp) as Hm.
  assert (Htop : s8 top = delta / 256 ^ Z.of_nat k).
  { assert (-128 ≤ delta / 256 ^ Z.of_nat k < 128).
    { split; [apply Z.div_le_lower_bound | apply Z.div_lt_upper_bound]; lia. }
    unfold s8, u8, top. rewrite Z.mod_mod by lia. destruct (decide (0 ≤ delta / 256 ^ Z.of_nat k)).
    - rewrite Z.mod_small by lia. by rewrite (proj2 (Z.ltb_lt _ _)) by lia.
    - rewrite <- (Z.mod_add _ 1), Z.mod_small by lia.
      rewrite (proj2 (Z.ltb_ge _ _)) by lia. lia. }
  rewrite Htop. pose proof (run_lcn_loop_run (pre ++ hdr :: enc n1 count) (enc k delta)
    ([top] ++ post) run (Z.of_nat n1) (delta / 256 ^ Z.of_nat k)) as H.
  rewrite enc_length, enc_val in H. rewrite H.
  - f_equal. rewrite s64_eq; lia.
  - rewrite length_app. simpl. rewrite enc_length. lia.
  - nia.
Qed.
End decode.

(** ** The loop *)
Lemma encode_extents_length prev es :
  (forall e, e ∈ es → (1 ≤ ex_n1 e)%nat) → (length es < length (encode_extents prev es))%nat.
Proof.
  revert prev. induction es as [|e es IH]; intros prev He; simpl; [lia|].
  rewrite !length_app, !enc_length.
  pose proof (IH (prev + ex_delta prev e) ltac:(set_solver)). lia.
Qed.

Lemma run_loop_zero fuel l pre post lcn vcn d :
  run_loop (S fuel) l (pre ++ 0 :: post) (Z.of_nat (length pre)) lcn vcn d = Ret d.
Proof. cbn [run_loop]. by rewrite rd8_app. Qed.

(** One valid run: a block is appended unless the run is virtual. *)
Lemma run_loop_step fuel l pre post prev vcn e d :
  extent_valid (total_clusters l) prev e → 0 ≤ prev < 2 ^ 63 → total_clusters l < 2 ^ 63 →
  0 ≤ vcn → vcn + ex_length e < 2 ^ 64 →
  let enc := encode_run (ex_n1 e) (ex_n2 e) (ex_delta prev e) (ex_length e) in
  run_loop (S fuel) l (pre ++ enc ++ post) (Z.of_nat (length pre)) prev vcn d =
  run_loop fuel l ((pre ++ enc) ++ post) (Z.of_nat (length (pre ++ enc)))
    (prev + ex_delta prev e) (vcn + ex_length e)
    (match ex_lcn e with Some lcn => append_block vcn lcn (ex_length e) d | None => d end).
Proof.
  intros (Hn1 & Hlen & Hlcn) Hprev Htot Hvcn Hend enc. cbn [run_loop]. subst enc.
  rewrite run_first, outcome_bind_ret, (proj2 (Z.eqb_neq _ 0)) by lia.
  assert (Hn2 : (ex_n2 e ≤ 8)%nat) by (destruct (ex_lcn e); lia).
  assert (HL : RunLCN (pre ++ encode_run (ex_n1 e) (ex_n2 e) (ex_delta prev e) (ex_length e) ++ post)
    (Z.of_nat (length pre)) = Ret (ex_delta prev e)).
  { unfold ex_delta. destruct (ex_lcn e) as [lcn|]; [apply RunLCN_ok | apply RunLCN_virtual]; lia. }
  rewrite HL, outcome_bind_ret, RunCount_ok by (done || lia).
  rewrite outcome_bind_ret, RunLength_ok, !outcome_bind_ret by lia.
  rewrite <- app_assoc, length_app. unfold encode_run at 2 4.
  cbn [length]. rewrite length_app, !enc_length.
  replace (Z.of_nat (length pre + S (ex_n1 e + ex_n2 e)))
    with (Z.of_nat (length pre) + (Z.of_nat (ex_n1 e) + Z.of_nat (ex_n2 e) + 1)) by lia.
  rewrite (u64_small (vcn + _)) by lia.
  unfold ex_delta in *. destruct (ex_lcn e) as [lcn|].
  - replace (prev + (lcn - prev)) with lcn by lia. words.
    rewrite (proj2 (Z.eqb_neq _ 0)) by lia. unfold check_run. words.
    rewrite (proj2 (Z.ltb_lt _ _)), (proj2 (Z.leb_le _ _)) by lia. done.
  - rewrite Z.add_0_r, u64_small by lia. done.
Qed.

(** What the loop makes of a disposition. *)
Lemma run_loop_decode es fuel l pre post prev vcn d :
  extents_valid (total_clusters l) prev vcn es → 0 ≤ prev < 2 ^ 63 →
  total_clusters l < 2 ^ 63 → 0 ≤ vcn → (length es < fuel)%nat →
  ∃ d', run_loop fuel l (pre ++ encode_extents prev es ++ post) (Z.of_nat (length pre))
          prev vcn d = Ret d' ∧
        blockmap d' = blockmap d ++ extent_blocks vcn es ∧ (disp_ok d → disp_ok d').
Proof.
  revert fuel pre prev vcn d. induction es as [|e es IH]; intros [|fuel] pre prev vcn d;
    simpl length; intros Hes Hprev Htot Hvcn Hf; try lia.
  - exists d. cbn [encode_extents app]. rewrite run_loop_zero. simpl. by rewrite app_nil_r.
  - destruct Hes as (He & Hend & Hes). cbn [encode_extents]. rewrite <- app_assoc.
    rewrite run_loop_step by done.
    destruct (IH fuel (pre ++ encode_run (ex_n1 e) (ex_n2 e) (ex_delta prev e) (ex_length e))
      (prev + ex_delta prev e) (vcn + ex_length e)
      (match ex_lcn e with Some lcn => append_block vcn lcn (ex_length e) d | None => d end))
      as (d' & Hr & Hb & Hok); [done | | done | | lia |].
    + destruct He as (_ & _ & He). unfold ex_delta. destruct (ex_lcn e); lia.
    + destruct He as (_ & ? & _). lia.
    + exists d'. split; [exact Hr|]. rewrite Hb. simpl. destruct (ex_lcn e); simpl.
      * split; [by rewrite <- app_assoc|]. intros. by apply Hok, append_block_ok.
      * done.
Qed.

(** Blocks that passed [check_run]. *)
Definition block_in_volume (l : mft_layout) (b : winx_blockmap) : Prop :=
  bk_lcn b < total_clusters l ∧
  (bk_lcn b + bk_length b ≤ total_clusters l ∨ 2 ^ 64 ≤ bk_lcn b + bk_length b).

Lemma check_run_spec lcn length l :
  0 ≤ lcn → 0 ≤ length → check_run lcn length l = true →
  lcn < total_clusters l ∧ (lcn + length ≤ total_clusters l ∨ 2 ^ 64 ≤ lcn + length).
Proof.
  unfold check_run. rewrite andb_true_iff, Z.ltb_lt, Z.leb_le. intros Hl Hn [H1 H2].
  split; [done|]. destruct (decide (lcn + length < 2 ^ 64)); [|lia].
  rewrite u64_small in H2 by lia. lia.
Qed.

Lemma land_nibble_nonneg b : 0 ≤ Z.land b 0xf.
Proof. change 0xf with (Z.ones 4). rewrite Z.land_ones by lia. by apply Z.mod_pos_bound. Qed.

Lemma RunCount_range r run c : RunCount r run = Ret c → 0 ≤ c < 2 ^ 64.
Proof.
  unfold RunCount. intros (b & _ & H)%outcome_bind_inv.
  assert (Hgen : ∀ i x, 0 ≤ x < 2 ^ 64 → run_count_loop r run i x = Ret c → 0 ≤ c < 2 ^ 64).
  { induction i as [|i IH]; intros x Hx; cbn [run_count_loop]; [by intros [= <-]|].
    intros (y & _ & Hy)%outcome_bind_inv. eapply IH, Hy. apply u64_range. }
  by eapply Hgen, H.
Qed.

Lemma rd8_lt r off b : rd8 r off = Ret b → 0 ≤ off < Z.of_nat (length r).
Proof.
  unfold rd8. destruct (_ || _) eqn:E0; [done|]. apply orb_false_iff in E0.
  destruct (r !! Z.to_nat off) eqn:E; [|done]. apply lookup_lt_Some in E. lia.
Qed.

Lemma outcome_bind_fuel {A B} (m : outcome A) (f : A → outcome B) :
  m ≠ NoFuel → (∀ a, m = Ret a → f a ≠ NoFuel) → (m ≫= f) ≠ NoFuel.
Proof. destruct m; simpl; naive_solver. Qed.

Lemma rd8_fuel r off : rd8 r off ≠ NoFuel.
Proof. unfold rd8. destruct (_ || _); [done|]. by destruct (_ !! _). Qed.

Lemma run_count_fuel r run i c : run_count_loop r run i c ≠ NoFuel.
Proof.
  revert c. induction i as [|i IH]; intros c; [done|]. cbn [run_count_loop].
  apply outcome_bind_fuel; [apply rd8_fuel | intros; apply IH].
Qed.

Lemma run_lcn_fuel r run n1 k c : run_lcn_loop r run n1 k c ≠ NoFuel.
Proof.
  revert c. induction k as [|k IH]; intros c; [done|]. cbn [run_lcn_loop].
  apply outcome_bind_fuel; [apply rd8_fuel | intros; apply IH].
Qed.

Lemma RunLCN_fuel r run : RunLCN r run ≠ NoFuel.
Proof.
  unfold RunLCN. apply outcome_bind_fuel; [apply rd8_fuel|]. intros b _.
  apply outcome_bind_fuel; [|intros; apply run_lcn_fuel].
  destruct (_ =? 0); [done|]. apply outcome_bind_fuel; [apply rd8_fuel | done].
Qed.

Lemma RunCount_fuel r run : RunCount r run ≠ NoFuel.
Proof.
  unfold RunCount. apply outcome_bind_fuel; [apply rd8_fuel | intros; apply run_count_fuel].
Qed.

(** The fuel the code's caller gives is enough: the position moves forward by
    at least one byte per run and the buffer ends. *)
Lemma run_loop_fuel fuel l r run lcn vcn d :
  Z.of_nat (length r) - run ≤ Z.of_nat fuel → run_loop (S fuel) l r run lcn vcn d ≠ NoFuel.
Proof.
  revert run lcn vcn d. induction fuel as [|fuel IH]; intros run lcn vcn d Hf.
  all: cbn [run_loop]; apply outcome_bind_fuel; [apply rd8_fuel|]; intros b Hb%rd8_lt.
  { lia. }
  destruct (b =? 0); [done|]. apply outcome_bind_fuel; [apply RunLCN_fuel|]. intros delta _.
  apply outcome_bind_fuel; [apply RunCount_fuel|]. intros count _.
  assert (Hn : ∀ d lcn, (n ← RunLength r run;
      run_loop (S fuel) l r (run + n) lcn (u64 (vcn + count)) d) ≠ NoFuel).
  { intros d' lcn'. apply outcome_bind_fuel.
    - unfold RunLength. apply outcome_bind_fuel; [apply rd8_fuel | done].
    - unfold RunLength. intros n (b' & _ & [= <-])%outcome_bind_inv. apply IH.
      pose proof (land_nibble_nonneg b'). pose proof (land_nibble_nonneg (Z.shiftr b' 4)). lia. }
  destruct (negb _); [|apply Hn]. destruct (negb _); [done | apply Hn].
Qed.

(** Whatever the bytes, the blocks added passed the check and the counters
    stay in agreement with the map. *)
Lemma run_loop_inv fuel l r run lcn vcn d d' :
  run_loop fuel l r run lcn vcn d = Ret d' →
  (disp_ok d → disp_ok d') ∧
  ∃ new, blockmap d' = blockmap d ++ new ∧ Forall (block_in_volume l) new.
Proof.
  revert run lcn vcn d. induction fuel as [|fuel IH]; intros run lcn vcn d; [done|].
  cbn [run_loop]. intros (b & _ & H)%outcome_bind_inv.
  assert (Hdone : Ret d = Ret d' → (disp_ok d → disp_ok d') ∧
    ∃ new, blockmap d' = blockmap d ++ new ∧ Forall (block_in_volume l) new).
  { intros [= <-]. split; [done|]. exists []. by rewrite app_nil_r. }
  destruct (b =? 0); [by apply Hdone|].
  apply outcome_bind_inv in H as (delta & _ & H).
  apply outcome_bind_inv in H as (count & Hc & H). apply RunCount_range in Hc.
  destruct (negb (delta =? 0)).
  - destruct (check_run (u64 (lcn + delta)) count l) eqn:Ecr; [|by apply Hdone].
    apply outcome_bind_inv in H as (n & _ & H).
    apply IH in H as [Hok (new & Hb & Hnew)]. split.
    + intros Hd. by apply Hok, append_block_ok.
    + eexists (_ :: new). rewrite Hb. simpl. rewrite <- app_assoc. split; [done|].
      constructor; [|done]. pose proof (u64_range (lcn + delta)).
      apply check_run_spec in Ecr; [done | lia..].
  - apply outcome_bind_inv in H as (n & _ & H). by apply IH in H.
Qed.

(** The run list that starts at [run] has its terminating zero in the record:
    the header of each run leads to the next one. *)
Inductive run_list_ends (r : list Z) : Z → Prop :=
  | ends_zero run : rd8 r run = Ret 0 → run_list_ends r run
  | ends_run run b n : rd8 r run = Ret b → b ≠ 0 → RunLength r run = Ret n →
      run_list_ends r (run + n) → run_list_ends r run.

Fixpoint run_list_endsb (fuel : nat) (r : list Z) (run : Z) : bool :=
  match fuel, rd8 r run, RunLength r run with
  | S fuel, Ret b, Ret n => (b =? 0) || run_list_endsb fuel r (run + n)
  | _, _, _ => false
  end.

Lemma run_list_ends_bool fuel r run : run_list_endsb fuel r run = true → run_list_ends r run.
Proof.
  revert run. induction fuel as [|fuel IH]; intros run; [done|]. cbn [run_list_endsb].
  destruct (rd8 r run) as [b| |] eqn:Eb; [|done..].
  destruct (RunLength r run) as [n| |] eqn:En; [|done..].
  destruct (Z.eqb_spec b 0) as [->|Hb]; [by constructor|]. intros H. eapply ends_run; eauto.
Qed.

Lemma rd8_inside r off : 0 ≤ off < Z.of_nat (length r) → ∃ b, rd8 r off = Ret b.
Proof.
  intros Ho. unfold rd8. rewrite (proj2 (Z.ltb_ge _ _)), (proj2 (Z.leb_gt _ _)) by lia. simpl.
  destruct (lookup_lt_is_Some_2 r (Z.to_nat off)) as [b ->]; [lia | by exists b].
Qed.

Lemma run_list_ends_lt r run : run_list_ends r run → 0 ≤ run < Z.of_nat (length r).
Proof. by intros [? Hb | ? ? ? Hb]; apply rd8_lt in Hb. Qed.

Lemma run_count_inside r run i c :
  0 ≤ run → run + Z.of_nat i < Z.of_nat (length r) → run_count_loop r run i c ≠ Fault.
Proof.
  intros H0. revert c. induction i as [|i IH]; intros c Hi; [done|]. cbn [run_count_loop].
  destruct (rd8_inside r (run + Z.of_nat (S i))) as [b ->]; [lia|].
  rewrite outcome_bind_ret. apply IH. lia.
Qed.

Lemma run_lcn_inside r run n1 k c :
  0 ≤ run + n1 → run + n1 + Z.of_nat k < Z.of_nat (length r) → run_lcn_loop r run n1 k c ≠ Fault.
Proof.
  intros H0. revert c. induction k as [|k IH]; intros c Hk; [done|]. cbn [run_lcn_loop].
  destruct (rd8_inside r (run + n1 + Z.of_nat (S k))) as [b ->]; [lia|].
  rewrite outcome_bind_ret. apply IH. lia.
Qed.

(** The numbers of a run that ends inside the record are read inside it. *)
Lemma run_inside r run n :
  0 ≤ run → RunLength r run = Ret n → run + n < Z.of_nat (length r) →
  (∃ delta, RunLCN r run = Ret delta) ∧ ∃ count, RunCount r run = Ret count.
Proof.
  intros H0 Hn Hlen. pose proof (RunLCN_fuel r run) as Hf1. pose proof (RunCount_fuel r run) as Hf2.
  unfold RunLength in Hn. apply outcome_bind_inv in Hn as (b & Eb & [= <-]).
  pose proof (land_nibble_nonneg b). pose proof (land_nibble_nonneg (Z.shiftr b 4)).
  assert (RunCount r run ≠ Fault).
  { unfold RunCount. rewrite Eb, outcome_bind_ret. apply run_count_inside; lia. }
  assert (RunLCN r run ≠ Fault).
  { unfold RunLCN. rewrite Eb, outcome_bind_ret. cbv zeta.
    destruct (Z.eqb_spec (Z.land (Z.shiftr b 4) 15) 0) as [E|E].
    - rewrite outcome_bind_ret. apply run_lcn_inside; lia.
    - destruct (rd8_inside r (run + Z.land b 15 + Z.land (Z.shiftr b 4) 15)) as [x ->]; [lia|].
      rewrite !outcome_bind_ret. apply run_lcn_inside; lia. }
  destruct (RunLCN r run), (RunCount r run); eauto; done.
Qed.

(** A run list with its terminating zero in the record is decoded without a
    read outside of it. *)
Lemma run_loop_inside fuel l r run lcn vcn d :
  run_list_ends r run → run_loop fuel l r run lcn vcn d ≠ Fault.
Proof.
  intros He. revert fuel lcn vcn d. induction He as [run Eb|run b n Eb Hb En He IH];
    intros [|fuel] lcn vcn d; try done; cbn [run_loop]; rewrite Eb, outcome_bind_ret; [done|].
  rewrite (proj2 (Z.eqb_neq _ _)) by done. apply rd8_lt in Eb.
  pose proof (run_list_ends_lt _ _ He) as Hlt.
  destruct (run_inside r run n) as [[delta ->] [count ->]]; [lia | done | lia |].
  rewrite !outcome_bind_ret, En. destruct (negb _); [destruct (negb _); [done|]|];
    rewrite outcome_bind_ret; apply IH.
Qed.

(** ** Properties *)

(** C23: decoding inverts encoding: on the run list of any valid sequence of
    extents the loop of [process_run_list] ends within the fuel its caller
    gives and appends exactly the blocks of the extents. *)
Theorem run_loop_roundtrip es l pre post vcn d :
  extents_valid (total_clusters l) 0 vcn es → total_clusters l < 2 ^ 63 → 0 ≤ vcn →
  let r := pre ++ encode_extents 0 es ++ post in
  ∃ d', run_loop (S (length r)) l r (Z.of_nat (length pre)) 0 vcn d = Ret d' ∧
        blockmap d' = blockmap d ++ extent_blocks vcn es ∧ (disp_ok d → disp_ok d').
Proof.
  intros Hes Htot Hvcn r. apply run_loop_decode; [done | lia | done | done |].
  subst r. rewrite !length_app.
  assert (Hn1 : ∀ prev vcn, extents_valid (total_clusters l) prev vcn es →
    (length es < length (encode_extents prev es))%nat).
  { clear. induction es as [|e es IH]; intros prev vcn; simpl; [lia|].
    intros ((? & _) & _ & Hl%IH). rewrite !length_app, !enc_length. lia. }
  specialize (Hn1 _ _ Hes). lia.
Qed.

Lemma run_loop_roundtrip_witness :
  let l := MftLayout 1024 1039 16 100000 4096 8 512 in
  let es := [Extent (Some 300) 16 1 2; Extent None 4 1 0; Extent (Some 100) 300 2 2] in
  let r := [9; 9] ++ encode_extents 0 es ++ [7] in
  ∃ d', run_loop (S (length r)) l r 2 0 5 empty_disp = Ret d' ∧
        blockmap d' = [Block 5 300 16; Block 25 100 300] ∧ (disp_ok empty_disp → disp_ok d').
Proof.
  intros l es. apply (run_loop_roundtrip es l [9; 9] [7] 5 empty_disp); [|done..].
  subst es l. cbn -[Z.pow Z.add]. unfold extent_valid. cbn. lia.
Defined.

(** C24: on any bytes the loop of [process_run_list] ends.  It reads outside of
    the record only when the run list has no terminating zero inside it.
    Otherwise it returns: every block it added starts inside the volume and,
    unless its end wraps past 2^64, ends inside it, and the counters of
    clusters and fragments still agree with the map. *)
Theorem run_loop_any_bytes l r run lcn vcn d :
  0 ≤ run → disp_ok d →
  match run_loop (S (length r)) l r run lcn vcn d with
  | Ret d' => disp_ok d' ∧
      ∃ new, blockmap d' = blockmap d ++ new ∧ Forall (block_in_volume l) new
  | Fault => ¬ run_list_ends r run
  | NoFuel => False
  end.
Proof.
  intros Hrun Hd. pose proof (run_loop_fuel (length r) l r run lcn vcn d ltac:(lia)) as Hf.
  destruct (run_loop _ _ _ _ _ _ _) as [d'| |] eqn:E; [| |done].
  - apply run_loop_inv in E as [Hok Hn]. auto.
  - intros He. by apply (run_loop_inside (S (length r)) l r run lcn vcn d He).
Qed.

(** A list of a run inside the volume, a virtual run and a run that lies behind
    the end of the volume, at which the loop stops. *)
Lemma run_loop_any_bytes_witness :
  let l := MftLayout 1024 1039 16 100 4096 8 512 in
  let r := [7; 0x11; 5; 3; 0x01; 9; 0x21; 4; 0xC8; 0; 0; 7] in
  run_list_ends r 1 ∧
  ∃ d', run_loop (S (length r)) l r 1 0 0 empty_disp = Ret d' ∧
    blockmap d' = [Block 0 3 5] ∧ disp_ok d' ∧ Forall (block_in_volume l) (blockmap d').
Proof.
  intros l r. split; [apply (run_list_ends_bool 4 r); reflexivity|].
  pose proof (run_loop_any_bytes l r 1 0 0 empty_disp ltac:(done) empty_disp_ok) as H.
  eassert (E : run_loop (S (length r)) l r 1 0 0 empty_disp = Ret _) by (vm_compute; reflexivity).
  rewrite E in H. destruct H as (Hok & new & Hb & Hnew). rewrite E. eexists.
  split; [reflexivity|]. split; [reflexivity|]. split; [exact Hok|].
  rewrite Hb. exact Hnew.
Defined.

(** A run list without a terminating zero is read past the end of the record. *)
Theorem run_loop_unterminated :
  run_loop 4 (MftLayout 1024 1039 16 100000 4096 8 512) [0x11; 5; 3] 0 0 0 empty_disp = Fault.
Proof. by vm_compute. Qed.

(** The end of a run is computed modulo 2^64, so that a length close to 2^64
    passes the check of the volume's bounds. *)
Theorem check_run_wraps :
  check_run 10 (2 ^ 64 - 5) (MftLayout 1024 1039 16 100000 4096 8 512) = true.
Proof. by vm_compute. Qed.

(** A run at cluster 0, like the one of $Boot, has a zero location and is
    skipped as if it were virtual. *)
Theorem run_at_cluster_zero_skipped :
  run_loop 5 (MftLayout 1024 1039 16 100000 4096 8 512) [0x11; 2; 0; 0] 0 0 0 empty_disp =
  Ret empty_disp.
Proof. by vm_compute. Qed.
