(* ===== verification/NtfsAttrs.v ===== *)
(** * The attributes of a file record

    The walk of [enumerate_attributes] stays inside the record and ends,
    unless an attribute's length is so close to 2^32 that the sum of offset
    and length wraps; following attribute lists ends when their entries do not
    point to attribute lists themselves, and may otherwise recurse forever. *)
From S2P Require Import Prelude CString FileInfo Ntfs NtfsRuns.
From stdpp Require Import prelude strings.
Open Scope Z_scope.

(** ** Stepping through the monad *)
Lemma lift_ret {A} (o : outcome A) a s : o = Ret a → lift o s = Ret (a, s).
Proof. intros ->. done. Qed.

Lemma M_bind_ret {A B} (m : M A) (f : A → M B) s a s' :
  m s = Ret (a, s') → (m ≫= f) s = f a s'.
Proof. apply st_bind_ret. Qed.

Lemma M_bind_inv {A B} (m : M A) (f : A → M B) s b s' :
  (m ≫= f) s = Ret (b, s') → ∃ a s1, m s = Ret (a, s1) ∧ f a s1 = Ret (b, s').
Proof.
  unfold mbind, M_bind, st_bind. destruct (m s) as [[a s1]| |]; [eauto | done | done].
Qed.

Lemma lift_inv {A} (o : outcome A) a s s' : lift o s = Ret (a, s') → o = Ret a ∧ s' = s.
Proof. unfold lift. destruct o; by intros [= <- <-]. Qed.

(** Runs a read whose result is known. *)
Ltac mstep := erewrite M_bind_ret by (first [apply lift_ret; eassumption | reflexivity]);
  cbn beta iota.

(** ** The walk *)

(** An attribute that lies inside the first [rsize] bytes of a record. *)
Definition attribute_inside (r : list Z) (rsize a : Z) : Prop :=
  0 ≤ a ∧ ∃ len, ATTRIBUTE.Length r a = Ret len ∧
    RESIDENT_ATTRIBUTE.size ≤ len ∧ a + len ≤ rsize.

(** A record buffer as the file system driver fills it: bytes, at least the
    record itself, which is shorter than 64 KB. *)
Definition record_ok (r : list Z) (rsize : Z) : Prop :=
  Forall (fun c => 0 ≤ c < 256) r ∧ 28 ≤ rsize < 2 ^ 16 ∧ rsize ≤ Z.of_nat (length r).

(** No attribute in the chain from offset [a] is so long that adding its length
    to its offset wraps at 32 bits. *)
Fixpoint lengths_ok (fuel : nat) (r : list Z) (rsize a : Z) : bool :=
  match fuel with
  | O => true
  | S fuel =>
      if rsize <? a + ATTRIBUTE.size then true else
      match ATTRIBUTE.AttributeType r a, ATTRIBUTE.Length r a with
      | Ret type, Ret len =>
          if (type =? 0xffffffff) || (type =? 0) || (len =? 0) then true
          else (len <? 2 ^ 32 - 2 ^ 16) && lengths_ok fuel r rsize (a + len)
      | _, _ => true
      end
  end.

Lemma check_for_termination_run term s :
  ∃ stop s', ftw_ntfs_check_for_termination term s = Ret (stop, s') ∧
             (s' = s ∨ s' = add_tick s).
Proof.
  unfold ftw_ntfs_check_for_termination. destruct (_ && _); [eauto|].
  destruct term as [t|]; eauto 6.
Qed.

(** What the checks of one iteration establish. *)
Lemma valid_attribute_run r a s fuel :
  record_ok r (file_record_size (ml s)) → 0 ≤ a < 2 ^ 16 →
  lengths_ok (S fuel) r (file_record_size (ml s)) a = true →
  ∃ ok, valid_attribute r a a s = Ret (ok, s) ∧
        (ok = true → attribute_inside r (file_record_size (ml s)) a ∧
          ∀ len, ATTRIBUTE.Length r a = Ret len →
            lengths_ok fuel r (file_record_size (ml s)) (a + len) = true).
Proof.
  intros (Hb & Hsz & Hlen) Ha Hwrap. cbn [lengths_ok] in Hwrap. set (rsize := file_record_size (ml s)) in *.
  assert (Hrd : ∀ n off, 0 ≤ off → off + Z.of_nat n ≤ rsize →
    ∃ x, rd n r off = Ret x ∧ 0 ≤ x < 256 ^ Z.of_nat n).
  { intros n off H1 H2. destruct (rd_ok n r off) as [x Hx]; [lia..|].
    exists x. split; [done|]. by eapply rd_range. }
  unfold valid_attribute. destruct (Hrd 4%nat 24) as (in_use & Hu & _); [lia..|].
  erewrite M_bind_ret by (by apply lift_ret). erewrite M_bind_ret by reflexivity. fold rsize.
  cbn beta. destruct (_ || _) eqn:E1; [by exists false|].
  apply orb_false_iff in E1 as [_ E1]. apply Z.ltb_ge in E1. unfold ATTRIBUTE.size in E1.
  destruct (Hrd 4%nat a) as (ty & Ht & _); [lia..|].
  destruct (Hrd 4%nat (a + 4)) as (len & Hl & Hlr); [lia..|].
  rewrite (proj2 (Z.ltb_ge _ _)) in Hwrap by (unfold ATTRIBUTE.size; lia).
  unfold ATTRIBUTE.AttributeType, ATTRIBUTE.Length in Hwrap. rewrite Ht, Hl in Hwrap.
  erewrite M_bind_ret by (by apply lift_ret). cbn beta.
  destruct ((ty =? _) || _); [by exists false|]. cbn [orb] in Hwrap.
  erewrite M_bind_ret by (by apply lift_ret). cbn beta.
  destruct (len =? 0); [by exists false|]. apply andb_true_iff in Hwrap as [Hwrap Hnext].
  apply Z.ltb_lt in Hwrap.
  destruct (_ || _) eqn:E2; [by exists false|].
  apply orb_false_iff in E2 as [_ E2]. apply Z.ltb_ge in E2.
  rewrite u32_small in E2 by lia.
  destruct (Hrd 1%nat (a + 8)) as (nr & Hn & _); [lia..|].
  erewrite M_bind_ret by (by apply lift_ret). cbn beta.
  assert (Hin : RESIDENT_ATTRIBUTE.size ≤ len → attribute_inside r rsize a ∧
    ∀ len, ATTRIBUTE.Length r a = Ret len → lengths_ok fuel r rsize (a + len) = true).
  { intros ?. split; [split; [lia|]; exists len; split; [done|]; lia|].
    intros len' Hl'. unfold ATTRIBUTE.Length in Hl'. rewrite Hl in Hl'. by injection Hl' as <-. }
  unfold NONRESIDENT_ATTRIBUTE.size, RESIDENT_ATTRIBUTE.size in *.
  destruct (negb _); eexists; (split; [reflexivity|]); intros Hok%negb_true_iff%Z.ltb_ge;
    apply Hin; lia.
Qed.

Lemma enumerate_loop_S term fuel r ah attr_offset a :
  enumerate_loop term (S fuel) r ah attr_offset a =
  (stop ← ftw_ntfs_check_for_termination term;
   if (stop : bool) then mret tt else
   ok ← valid_attribute r attr_offset a;
   if negb ok then mret tt else
   _ ← ah a;
   attr_length ← lift (ATTRIBUTE.Length r a);
   enumerate_loop term fuel r ah (u16 (attr_offset + u16 attr_length)) (a + attr_length)).
Proof. reflexivity. Qed.

(** The rule for the walk: a handler that keeps [P] on every attribute inside
    the record makes the walk end with [P]. *)
Section walk.
Context (term : option (nat → bool)) (r : list Z) (rsize : Z).
Context (P : mft_scan_parameters → Prop) (ah : Z → M unit).
Context (Hr : record_ok r rsize).
Context (HPsize : ∀ s, P s → file_record_size (ml s) = rsize).
Context (HPtick : ∀ s, P s → P (add_tick s)).
Context (Hah : ∀ a s, attribute_inside r rsize a → P s → ∃ s', ah a s = Ret (tt, s') ∧ P s').

Lemma enumerate_loop_rule fuel a s :
  0 ≤ a < 2 ^ 16 → rsize - a ≤ Z.of_nat fuel → lengths_ok (S fuel) r rsize a = true → P s →
  ∃ s', enumerate_loop term (S fuel) r ah a a s = Ret (tt, s') ∧ P s'.
Proof.
  revert a s. induction fuel as [|fuel IH]; intros a s Ha Hf Hw HP.
  all: rewrite enumerate_loop_S; destruct (check_for_termination_run term s) as (stop & s1 & Hs1 & Heq);
    assert (HP1 : P s1) by (destruct Heq as [-> | ->]; auto);
    erewrite M_bind_ret by exact Hs1; cbn beta; destruct stop; [by exists s1|];
    
    edestruct (valid_attribute_run r a s1) as (ok & Hok & Hin);
    [by rewrite (HPsize _ HP1) | done | by rewrite (HPsize _ HP1) |]; erewrite M_bind_ret by exact Hok; cbn beta;
    rewrite (HPsize _ HP1) in Hin; destruct ok; cbn [negb]; [|by exists s1];
    destruct (Hin eq_refl) as [Hins Hnext]; pose proof Hins as (_ & len & Hlen & Hmin & Hmax);
    unfold RESIDENT_ATTRIBUTE.size in Hmin.
  { lia. }
  destruct (Hah a s1) as (s2 & Hs2 & HP2); [done..|].
  erewrite M_bind_ret by exact Hs2. erewrite M_bind_ret by (by apply lift_ret). cbn beta.
  destruct Hr as (_ & Hsz & _).
  replace (u16 (a + u16 len)) with (a + len) by (rewrite !u16_small; [done | lia | rewrite u16_small; lia]).
  apply IH; [lia | lia | by apply Hnext | done].
Qed.
End walk.

(** ** Records for concrete runs *)
Definition make_header (flags in_use base : Z) : list Z :=
  enc 4 FILE_tag ++ enc 2 0 ++ enc 2 0 ++ enc 8 0 ++ enc 2 0 ++ enc 2 1 ++ enc 2 48 ++ enc 2 flags ++
  enc 4 in_use ++ enc 4 1024 ++ enc 8 base ++ enc 2 9 ++ replicate 6 0.

Definition make_attribute (type len nonres nlen noff flags number : Z) : list Z :=
  enc 4 type ++ enc 4 len ++ [nonres; nlen] ++ enc 2 noff ++ enc 2 flags ++ enc 2 number.

(** A resident attribute with its name before its value. *)
Definition make_resident (type number : Z) (name : str) (value : list Z) : list Z :=
  let nlen := Z.of_nat (length name) in
  let vlen := Z.of_nat (length value) in
  make_attribute type (24 + 2 * nlen + vlen) 0 nlen 24 0 number ++
  enc 4 vlen ++ enc 2 (24 + 2 * nlen) ++ enc 2 0 ++ (name ≫= enc 2) ++ value.

(** A nonresident attribute with its run list at the end. *)
Definition make_nonresident (type number : Z) (name : str) (low size : Z) (runs : list Z)
  : list Z :=
  let nlen := Z.of_nat (length name) in
  make_attribute type (72 + 2 * nlen + Z.of_nat (length runs)) 1 nlen 72 0 number ++
  enc 8 low ++ enc 8 0 ++ enc 2 (72 + 2 * nlen) ++ [0] ++ replicate 5 0 ++
  enc 8 size ++ enc 8 size ++ enc 8 size ++ enc 8 0 ++ (name ≫= enc 2) ++ runs.

(** A record of 1024 bytes in a buffer with three bytes more. *)
Definition make_record (flags base : Z) (attrs : list Z) : list Z :=
  let body := make_header flags (56 + Z.of_nat (length attrs)) base ++ attrs ++
              enc 4 0xffffffff ++ enc 4 0 in
  body ++ replicate (1027 - length body) 0.

Definition make_list_entry (type frn number : Z) : list Z :=
  enc 4 type ++ enc 2 32 ++ [0; 26] ++ enc 8 0 ++ enc 8 frn ++ enc 2 number ++ replicate 6 0.

(** Scan parameters during the analysis of the file with the given index. *)
Definition make_sp (base : Z) (fl : list winx_file_info) : mft_scan_parameters :=
  Sp MFT_SCAN_RTL (MftLayout 1024 1039 100 100000 4096 8 512) 0x43 0
     (Mfi base FILE_root 0 0 [] 0 0 0) 0 0 fl O.

Lemma make_sp_size base fl : file_record_size (ml (make_sp base fl)) = 1024.
Proof. done. Qed.

(** ** Attribute lists *)
Section recursion.
Context (tmalloc : Z → bool) (mft : Z → option (Z * list Z))
        (sectors : Z → Z → option (list Z)) (term : option (nat → bool)).
Implicit Types child : Z → Z → option str → Z → M unit.

Lemma bind_ext {A B} (m : M A) (f g : A → M B) s :
  (∀ a s', m s = Ret (a, s') → f a s' = g a s') → (m ≫= f) s = (m ≫= g) s.
Proof. unfold mbind, M_bind, st_bind. destruct (m s) as [[a s']| |]; auto. Qed.

(** The analysis of anything but an attribute list does not look at child
    records. *)
Lemma process_run_list_child child1 child2 name r a :
  process_run_list tmalloc sectors term child1 name r a false =
  process_run_list tmalloc sectors term child2 name r a false.
Proof. reflexivity. Qed.

Lemma analyze_attribute_child child1 child2 r a ty s :
  ATTRIBUTE.AttributeType r a = Ret ty → ty ≠ AttributeAttributeList →
  analyze_attribute tmalloc sectors term child1 r a s =
  analyze_attribute tmalloc sectors term child2 r a s.
Proof.
  intros Hty Hne. unfold analyze_attribute.
  assert (Eb : (ty =? AttributeAttributeList) = false) by (by apply Z.eqb_neq).
  apply bind_ext. intros nr s1 _. destruct (negb _).
  - unfold analyze_non_resident_stream.
    apply bind_ext. intros ty' s2 [Hty' _]%lift_inv. rewrite Hty in Hty'. injection Hty' as <-. cbn beta. rewrite Eb.
    apply bind_ext. intros u s3 _. apply bind_ext. intros [n|] s4 _; reflexivity.
  - unfold analyze_resident_stream. do 4 (apply bind_ext; intros ? ? _).
    destruct (_ || _); [done|]. apply bind_ext. intros ty' s2 [Hty' _]%lift_inv. rewrite Hty in Hty'. injection Hty' as <-. cbn beta.
    by rewrite Eb.
Qed.

Lemma single_attribute_child child1 child2 fuel r ty name number p off a s :
  ty ≠ AttributeAttributeList →
  single_attribute_loop tmalloc sectors term child1 fuel r ty name number p off a s =
  single_attribute_loop tmalloc sectors term child2 fuel r ty name number p off a s.
Proof.
  intros Hne. revert p off a s. induction fuel as [|fuel IH]; intros p off a s; [done|].
  cbn [single_attribute_loop]. apply bind_ext. intros stop s1 _. destruct stop; [done|].
  apply bind_ext. intros ok s2 _. destruct (negb ok); [done|].
  apply bind_ext. intros ty' s3 Hty. apply lift_inv in Hty as [Hty _].
  apply bind_ext. intros [name' found] s4 Hfound. destruct found; [|by apply bind_ext; auto].
  assert (ty' = ty) as ->.
  { destruct (Z.eqb_spec ty' ty) as [E|]; [done|]. by apply (f_equal (fun x => x)) in Hfound. }
  unfold mbind, M_bind, st_bind. by erewrite analyze_attribute_child.
Qed.

(** A child record looked up for anything but an attribute list needs no
    further recursion. *)
Lemma analyze_child_depth fuel id ty name number s :
  ty ≠ AttributeAttributeList →
  analyze_attribute_from_mft_record tmalloc mft sectors term (S fuel) id ty name number s =
  analyze_attribute_from_mft_record tmalloc mft sectors term 1 id ty name number s.
Proof.
  intros Hne. cbn [analyze_attribute_from_mft_record].
  apply bind_ext. intros base s1 _. destruct (_ =? _); [done|].
  apply bind_ext. intros bsize s2 _. destruct (negb _); [done|].
  destruct (mft id) as [[frn r]|]; [|done]. destruct (negb _); [done|].
  apply bind_ext. intros t s3 _. destruct (negb _); [done|].
  apply bind_ext. intros fl s4 _. destruct (negb _); [done|].
  apply bind_ext. intros b s5 _. destruct (_ =? _); [done|].
  apply bind_ext. intros off s6 _. by apply single_attribute_child.
Qed.
End recursion.

(** ** Properties *)

(** The chain of attributes of a record. *)
Definition attributes_ok (r : list Z) (rsize : Z) : Prop :=
  record_ok r rsize ∧ ∀ off, FILE_RECORD_HEADER.AttributeOffset r = Ret off →
    lengths_ok (S (length r)) r rsize off = true.

(** C25: on a record whose attribute lengths do not wrap, the walk over the
    attributes ends, reads nothing outside the record, calls its handler for
    attributes inside the record only, and so keeps every property that the
    handler keeps. *)
Theorem enumerate_attributes_safe term r rsize (P : mft_scan_parameters → Prop) ah s :
  attributes_ok r rsize →
  (∀ s, P s → file_record_size (ml s) = rsize) → (∀ s, P s → P (add_tick s)) →
  (∀ a s, attribute_inside r rsize a → P s → ∃ s', ah a s = Ret (tt, s') ∧ P s') →
  P s →
  ∃ s', enumerate_attributes term r ah s = Ret (tt, s') ∧ P s'.
Proof.
  intros [Hr Hw] Hsz Htick Hah HP. unfold enumerate_attributes.
  pose proof Hr as (Hb & Hrs & Hlen).
  destruct (rd_ok 2 r 20) as [off Hoff]; [lia..|].
  pose proof (rd_range 2 r 20 off Hb Hoff) as Hrange.
  erewrite M_bind_ret by (by apply lift_ret).
  change (256 ^ Z.of_nat 2) with (2 ^ 16) in Hrange.
  apply (enumerate_loop_rule term r rsize P ah); auto; lia.
Qed.

(** A walk over the attributes of a record that counts them. *)
Lemma enumerate_attributes_safe_witness :
  let r := make_record 1 0 (make_resident AttributeData 1 [] [1; 2] ++
                            make_resident AttributeData 2 (text "s") []) in
  ∃ s', enumerate_attributes None r (fun _ => upd add_processed) (make_sp 30 []) = Ret (tt, s') ∧
        file_record_size (ml s') = 1024.
Proof.
  intros r.
  assert (Hbytes : forallb (fun c => (0 <=? c) && (c <? 256)) r = true) by (by vm_compute).
  apply (enumerate_attributes_safe None r 1024 (fun s => file_record_size (ml s) = 1024));
    [|done|done| |done].
  - split; [split_and!; [|done..]|].
    + apply Forall_forall. intros c Hc%list_elem_of_In. rewrite forallb_forall in Hbytes.
      apply Hbytes, andb_true_iff in Hc as [? ?]. lia.
    + intros off Hoff. vm_compute in Hoff. injection Hoff as <-. by vm_compute.
  - intros a s _ Hs. by eexists.
Defined.

(** Looking up an attribute other than an attribute list in a child record
    never recurses: one level is enough, so the analysis of an attribute list
    whose entries are not attribute lists ends. *)
Theorem child_lookup_depth tmalloc mft sectors term fuel id ty name number s :
  ty ≠ AttributeAttributeList →
  analyze_attribute_from_mft_record tmalloc mft sectors term (S fuel) id ty name number s =
  analyze_attribute_from_mft_record tmalloc mft sectors term 1 id ty name number s.
Proof. apply analyze_child_depth. Qed.

(** The volume with a child record 50 of file 40 that holds the unnamed stream
    of the file. *)
Definition child_volume (id : Z) : option (Z * list Z) :=
  if id =? 50 then Some (50, make_record 1 40
    (make_nonresident AttributeData 3 [] 0 4096 [0x11; 1; 9; 0])) else None.

Lemma child_lookup_depth_witness :
  let run fuel := analyze_attribute_from_mft_record (fun _ => true) child_volume (fun _ _ => None)
    None fuel 50 AttributeData None 3 (make_sp 40 []) in
  run 10%nat = run 1%nat ∧
  match run 1%nat with
  | Ret (_, s) => processed_attr_list_entries s = 1 ∧ length (filelist s) = 1%nat
  | _ => False
  end.
Proof.
  split; [|by vm_compute].
  apply (child_lookup_depth (fun _ => true) child_volume (fun _ _ => None) None 9). done.
Defined.

(** A volume whose child record 50 holds an attribute list with an entry for
    that very attribute list. *)
Definition cyclic_volume (id : Z) : option (Z * list Z) :=
  if id =? 50 then Some (50, make_record 1 40
    (make_resident AttributeAttributeList 0 [] (make_list_entry AttributeAttributeList 50 0)))
  else None.

Lemma M_bind_nofuel {A B} (m : M A) (f : A → M B) s : m s = NoFuel → (m ≫= f) s = NoFuel.
Proof. unfold mbind, M_bind, st_bind. by intros ->. Qed.

(** Evaluates the steps of a closed run that do not involve the function [c]. *)
Ltac mrun_step c :=
  match goal with
  | |- (?m ≫= ?f) ?s = _ =>
      lazymatch m with
      | context [c] => fail
      | _ => let x := eval vm_compute in (m s) in
             lazymatch x with
             | Ret (?a, ?s') =>
                 rewrite (M_bind_ret m f s a s' ltac:(vm_compute; reflexivity)); cbn beta iota
             end
      end
  | |- (if ?b then _ else _) _ = _ =>
      let x := eval vm_compute in b in change b with x; cbn iota
  end.

Lemma cyclic_step child s :
  s = make_sp 40 [] ∨ s = make_sp 40 [new_entry (text ":$ATTRIBUTE_LIST") 40] →
  child 50 AttributeAttributeList None 0
    (make_sp 40 [new_entry (text ":$ATTRIBUTE_LIST") 40]) = NoFuel →
  analyze_single_attribute (fun _ => true) (fun _ _ => None) None child
    (make_record 1 40
      (make_resident AttributeAttributeList 0 [] (make_list_entry AttributeAttributeList 50 0)))
    AttributeAttributeList None 0 s = NoFuel.
Proof.
  intros Hs H. unfold analyze_single_attribute.
  generalize (length (make_record 1 40 (make_resident AttributeAttributeList 0 []
    (make_list_entry AttributeAttributeList 50 0)))). intros n. vm_compute in H.
  destruct Hs as [-> | ->]; repeat mrun_step child.
  all: cbn [single_attribute_loop]; repeat mrun_step child; apply M_bind_nofuel;
    unfold analyze_attribute; repeat mrun_step child;
    unfold analyze_resident_stream; repeat mrun_step child;
    unfold analyze_resident_attribute_list; repeat mrun_step child;
    generalize (length (make_record 1 40 (make_resident AttributeAttributeList 0 []
      (make_list_entry AttributeAttributeList 50 0)))); intros k;
    cbn [attribute_list_loop]; repeat mrun_step child; apply M_bind_nofuel;
    unfold analyze_attribute_from_attribute_list; repeat mrun_step child; exact H.
Qed.

(** An attribute list that refers to itself makes the scanner recurse
    without end: no depth of recursion is enough. *)
Theorem attribute_list_recursion fuel :
  analyze_attribute_from_mft_record (fun _ => true) cyclic_volume (fun _ _ => None) None
    fuel 50 AttributeAttributeList None 0 (make_sp 40 []) = NoFuel.
Proof.
  enough (Hgen : ∀ s,
    s = make_sp 40 [] ∨ s = make_sp 40 [new_entry (text ":$ATTRIBUTE_LIST") 40] →
    analyze_attribute_from_mft_record (fun _ => true) cyclic_volume (fun _ _ => None) None
      fuel 50 AttributeAttributeList None 0 s = NoFuel) by auto.
  induction fuel as [|fuel IH]; intros s Hs; [done|].
  transitivity (analyze_single_attribute (fun _ => true) (fun _ _ => None) None
    (analyze_attribute_from_mft_record (fun _ => true) cyclic_volume (fun _ _ => None) None fuel)
    (make_record 1 40
      (make_resident AttributeAttributeList 0 [] (make_list_entry AttributeAttributeList 50 0)))
    AttributeAttributeList None 0 s).
  - by destruct Hs as [-> | ->].
  - apply cyclic_step; auto.
Qed.

(** The sum of offset and length wraps at 32 bits: an attribute of length
    2^32 - 8 passes the bounds checks and the walk leaves the record. *)
Theorem enumerate_attributes_wraps :
  enumerate_attributes None
    (make_record 1 0 (make_resident AttributeData 1 [] [] ++
                      make_attribute AttributeData (2 ^ 32 - 8) 0 0 0 0 2))
    (fun _ => mret tt) (make_sp 30 []) = Fault.
Proof. by vm_compute. Qed.

(** The name of an attribute that was passed over is not forgotten: the
    unnamed stream 2 is not found behind the named stream 1, though it is
    found when it comes first. *)
Theorem single_attribute_stale_name :
  let named := make_nonresident AttributeData 1 (text "ab") 0 4096 [0x11; 1; 9; 0] in
  let unnamed := make_nonresident AttributeData 2 [] 0 4096 [0x11; 1; 9; 0] in
  let found attrs :=
    match analyze_single_attribute (fun _ => true) (fun _ _ => None) None
            (fun _ _ _ _ => mret tt) (make_record 1 40 attrs) AttributeData None 2 (make_sp 40 [])
    with
    | Ret (_, s) => processed_attr_list_entries s
    | _ => -1
    end in
  found (unnamed ++ named) = 1 ∧ found (named ++ unnamed) = 0.
Proof. by vm_compute. Qed.

(** The location of an attribute's name is not checked: a name offset past the
    end of the record makes [get_attribute_name] read outside the buffer. *)
Theorem attribute_name_unchecked :
  get_attribute_name
    (make_record 1 0 (make_attribute AttributeData 24 0 4 0xfff0 0 1 ++ replicate 8 0)) 48 = Fault.
Proof. by vm_compute. Qed.
