(* ===== verification/NtfsEnds.v ===== *)
(** * What of the scanner ends

    The loops over attributes, lists of attributes and run lists move forward
    inside a buffer and end.  What need not end is the recursion from an entry
    of an attribute list to an attribute list in a child record
    ([list_recursion]); the analysis of a file record ends unless that does not. *)
From S2P Require Import Prelude CString FileInfo Ntfs NtfsRuns NtfsAttrs.
From stdpp Require Import prelude.
Open Scope Z_scope.

(** ** What ends

    [ends Q m]: a run of [m] that does not end implies [Q].  With [Q] saying that
    the recursion through attribute lists does not end, the rules below show that
    nothing else of the scanner is endless. *)
Definition ends (Q : Prop) {A} (m : M A) : Prop := ∀ s, m s = NoFuel → Q.

Definition bytes (b : list Z) : Prop := Forall (fun c => 0 ≤ c < 256) b.

Lemma rd_nofuel n b off : rd n b off ≠ NoFuel.
Proof.
  revert off. induction n as [|n IH]; intros off; [done|]. cbn [rd].
  apply outcome_bind_fuel; [apply rd8_fuel|]. intros x _. apply outcome_bind_fuel; [apply IH | done].
Qed.

Lemma rd_inside n b off x : rd (S n) b off = Ret x → 0 ≤ off < Z.of_nat (length b).
Proof. cbn [rd]. intros (y & Hy & _)%outcome_bind_inv. by apply rd8_lt in Hy. Qed.

Lemma wcsncpy_nofuel n r off : wcsncpy n r off ≠ NoFuel.
Proof.
  revert off. induction n as [|n IH]; intros off; [done|]. cbn [wcsncpy].
  apply outcome_bind_fuel; [apply rd_nofuel|]. intros c _. destruct (_ =? 0); [done|].
  apply outcome_bind_fuel; [apply IH | done].
Qed.

Lemma rd_wchars_nofuel n r off : rd_wchars n r off ≠ NoFuel.
Proof.
  revert off. induction n as [|n IH]; intros off; [done|]. cbn [rd_wchars].
  apply outcome_bind_fuel; [apply rd_nofuel|]. intros c _. apply outcome_bind_fuel; [apply IH | done].
Qed.

Lemma get_attribute_name_nofuel r a : get_attribute_name r a ≠ NoFuel.
Proof.
  unfold get_attribute_name. apply outcome_bind_fuel; [apply rd_nofuel|]. intros t _.
  destruct (get_default_attribute_name t); [|done].
  apply outcome_bind_fuel; [apply rd_nofuel|]. intros n _.
  apply outcome_bind_fuel; [|done]. destruct (negb _); [|done].
  apply outcome_bind_fuel; [apply rd_nofuel|]. intros noff _. apply wcsncpy_nofuel.
Qed.

Lemma run_loop_nofuel l r run lcn vcn d : run_loop (S (length r)) l r run lcn vcn d ≠ NoFuel.
Proof.
  destruct (decide (0 ≤ run)); [apply run_loop_fuel; lia|]. cbn [run_loop].
  unfold rd8. by rewrite (proj2 (Z.ltb_lt _ _)) by lia.
Qed.

Section ends.
Context (Q : Prop).

Lemma ends_ret {A} (a : A) : ends Q (mret a).
Proof. by intros s. Qed.

Lemma ends_get {A} (f : mft_scan_parameters → A) : ends Q (get f).
Proof. by intros s. Qed.

Lemma ends_upd f : ends Q (upd f).
Proof. by intros s. Qed.

Lemma ends_fault {A} : ends Q (st_fault : M A).
Proof. by intros s. Qed.

Lemma ends_lift {A} (o : outcome A) : o ≠ NoFuel → ends Q (lift o).
Proof. intros Ho s. unfold lift. by destruct o. Qed.

Lemma ends_check term : ends Q (ftw_ntfs_check_for_termination term).
Proof. intros s. by destruct (check_for_termination_run term s) as (b & s' & -> & _). Qed.

(** A bind whose continuation may use what the first command returned. *)
Lemma ends_bind_ret {A B} (m : M A) (f : A → M B) :
  ends Q m → (∀ s a s', m s = Ret (a, s') → ends Q (f a)) → ends Q (m ≫= f).
Proof.
  intros Hm Hf s. unfold mbind, M_bind, st_bind. destruct (m s) as [[a s1]| |] eqn:E; [|done|].
  - by eapply Hf.
  - intros _. by eapply Hm.
Qed.

Lemma ends_bind {A B} (m : M A) (f : A → M B) : ends Q m → (∀ a, ends Q (f a)) → ends Q (m ≫= f).
Proof. intros Hm Hf. apply ends_bind_ret; auto. Qed.

Lemma ends_lift_bind {A B} (o : outcome A) (f : A → M B) :
  o ≠ NoFuel → (∀ a, o = Ret a → ends Q (f a)) → ends Q (lift o ≫= f).
Proof.
  intros Ho Hf. apply ends_bind_ret; [by apply ends_lift|]. intros s a s' [E _]%lift_inv. by apply Hf.
Qed.

Lemma ends_find tmalloc name : ends Q (find_filelist_entry tmalloc name).
Proof.
  intros s. unfold find_filelist_entry, mbind, M_bind, st_bind, get.
  destruct (find_entry_loop _ _ _ _ _); [done|]. by destruct (winx_wcsdup _ _).
Qed.
End ends.

Create HintDb ends.
#[export] Hint Resolve ends_ret ends_get ends_upd ends_fault ends_check ends_find : ends.
#[export] Hint Extern 1 (ends _ (lift _)) =>
  apply ends_lift; first [apply rd_nofuel | apply wcsncpy_nofuel | apply rd_wchars_nofuel |
    apply get_attribute_name_nofuel | apply run_loop_nofuel] : ends.

(** Splits a program into its operations and solves each by the rules known
    for it. *)
Ltac go_ends :=
  repeat first
    [ progress intros
    | solve [eauto with ends]
    | apply ends_bind
    | lazymatch goal with
      | |- ends _ (if ?b then _ else _) => destruct b
      | |- ends _ (match ?x with _ => _ end) => destruct x
      end ].

Section endings.
Context (Q : Prop) (tmalloc : Z → bool) (sectors : Z → Z → option (list Z)) (term : option (nat → bool)).
Context (Hsectors : ∀ lsn n b, sectors lsn n = Some b → bytes b).

Lemma ends_valid_attribute r off a : ends Q (valid_attribute r off a).
Proof. unfold valid_attribute. go_ends. Qed.
#[local] Hint Resolve ends_valid_attribute : ends.

(** An attribute that passed the checks has a length. *)
Lemma valid_attribute_length r off a s s' :
  bytes r → valid_attribute r off a s = Ret (true, s') →
  0 ≤ a < Z.of_nat (length r) ∧ ∃ len, ATTRIBUTE.Length r a = Ret len ∧ 0 < len.
Proof.
  intros Hb E. unfold valid_attribute in E.
  apply M_bind_inv in E as (u & s1 & _ & E). apply M_bind_inv in E as (rs & s2 & _ & E).
  destruct (_ || _); [done|]. apply M_bind_inv in E as (ty & s3 & [Hty _]%lift_inv & E).
  destruct (_ || _); [done|]. apply M_bind_inv in E as (len & s4 & [Hl _]%lift_inv & E).
  destruct (Z.eqb_spec len 0); [done|]. split; [by eapply rd_inside|]. exists len. split; [done|].
  unfold ATTRIBUTE.Length in Hl.
  assert (0 ≤ a + 4) by (apply rd_inside in Hl; lia).
  pose proof (rd_range 4 r (a + 4) len Hb Hl). lia.
Qed.

Section child.
Context (child : Z → Z → option str → Z → M unit).
Context (Hchild : ∀ id ty name number, ends Q (child id ty name number)).
#[local] Hint Resolve Hchild : ends.

Lemma ends_list_entry b e : ends Q (analyze_attribute_from_attribute_list child b e).
Proof. unfold analyze_attribute_from_attribute_list. go_ends. Qed.
#[local] Hint Resolve ends_list_entry : ends.

(** Each entry of a list is at least one byte long and inside the buffer. *)
Lemma ends_list_loop fuel b e list_end :
  bytes b → (0 < fuel)%nat → (0 ≤ e → Z.of_nat (length b) - e < Z.of_nat fuel) →
  ends Q (attribute_list_loop term child fuel b e list_end).
Proof.
  intros Hb. revert e. induction fuel as [|fuel IH]; intros e Hf He; [lia|]. cbn [attribute_list_loop].
  apply ends_bind; [go_ends|]. intros stop. destruct stop; [go_ends|]. destruct (_ <? _); [go_ends|].
  apply ends_lift_bind; [apply rd_nofuel|]. intros ty Hty. apply rd_inside in Hty.
  destruct (_ || _); [go_ends|]. apply ends_lift_bind; [apply rd_nofuel|]. intros len Hlen.
  destruct (Z.eqb_spec len 0); [go_ends|]. apply ends_bind; [go_ends|]. intros _.
  pose proof (rd_range 2 b (e + 4) len Hb Hlen). apply IH; lia.
Qed.

Lemma read_clusters_bytes n l blocks i acc k b :
  bytes acc → read_clusters sectors n l blocks i acc = Some (k, b) → bytes b.
Proof.
  revert blocks i acc. induction n as [|n IH]; intros blocks i acc Ha; [by intros [= <- <-]|].
  revert i. induction blocks as [|bl blocks IHb]; intros i; [by intros [= <- <-]|].
  cbn [read_clusters]. destruct (i <? bk_length bl).
  - destruct (sectors _ _) as [s|] eqn:E; [|done]. apply IH. apply Forall_app. split; [done|].
    by eapply Hsectors.
  - exact (IHb 0).
Qed.

Lemma ends_non_resident_list blocks size :
  ends Q (analyze_non_resident_attribute_list tmalloc sectors term child blocks size).
Proof.
  unfold analyze_non_resident_attribute_list. destruct (size =? 0); [go_ends|].
  apply ends_bind; [go_ends|]. intros l. destruct (negb _); [go_ends|].
  destruct (read_clusters _ _ _ _ _ _) as [[[|k] b]|] eqn:E; [|go_ends|go_ends].
  apply ends_list_loop; [by eapply read_clusters_bytes; [|exact E]; constructor | lia | lia].
Qed.
#[local] Hint Resolve ends_non_resident_list : ends.

Lemma ends_resident_list r a : bytes r → ends Q (analyze_resident_attribute_list term child r a).
Proof.
  intros Hb. unfold analyze_resident_attribute_list. do 2 (apply ends_bind; [go_ends|]; intros ?).
  apply ends_list_loop; [done | lia | lia].
Qed.

Lemma ends_upd_file i f : ends Q (upd_file i f).
Proof. unfold upd_file. go_ends. Qed.
#[local] Hint Resolve ends_upd_file : ends.

Lemma ends_upd_mfi f : ends Q (upd_mfi f).
Proof. unfold upd_mfi. go_ends. Qed.
#[local] Hint Resolve ends_upd_mfi : ends.

Lemma ends_attribute r a : bytes r → ends Q (analyze_attribute tmalloc sectors term child r a).
Proof.
  intros Hb. pose proof (ends_resident_list r a Hb).
  unfold analyze_attribute, analyze_non_resident_stream, process_run_list, analyze_resident_stream,
    get_file_flags, get_file_access_times, update_file_name, get_volume_information,
    handle_reparse_point, add_flag. go_ends.
Qed.
#[local] Hint Resolve ends_attribute : ends.

Lemma ends_single_loop fuel r ty name number p off a :
  bytes r → (0 < fuel)%nat → (0 ≤ a → Z.of_nat (length r) - a < Z.of_nat fuel) →
  ends Q (single_attribute_loop tmalloc sectors term child fuel r ty name number p off a).
Proof.
  intros Hb. revert p off a. induction fuel as [|fuel IH]; intros p off a Hf Ha; [lia|].
  cbn [single_attribute_loop]. apply ends_bind; [go_ends|]. intros stop. destruct stop; [go_ends|].
  apply ends_bind_ret; [go_ends|]. intros s ok s' Hok. destruct ok; cbn [negb]; [|go_ends].
  apply valid_attribute_length in Hok as (Hin & len & Hlen & Hpos); [|done].
  apply ends_bind; [go_ends|]. intros t. apply ends_bind; [go_ends|]. intros [p' found].
  destruct found; [go_ends|]. apply ends_lift_bind; [apply rd_nofuel|]. intros len' Hlen'.
  assert (len' = len) as -> by congruence. apply IH; lia.
Qed.

Lemma ends_single r ty name number :
  bytes r → ends Q (analyze_single_attribute tmalloc sectors term child r ty name number).
Proof.
  intros Hb. unfold analyze_single_attribute. apply ends_bind; [go_ends|]. intros off.
  apply ends_single_loop; [done | lia | lia].
Qed.
End child.

Lemma ends_enumerate r ah : bytes r → (∀ a, ends Q (ah a)) → ends Q (enumerate_attributes term r ah).
Proof.
  intros Hb Hah. unfold enumerate_attributes. apply ends_bind; [go_ends|]. intros off.
  assert (H : ∀ fuel off a, (0 < fuel)%nat → (0 ≤ a → Z.of_nat (length r) - a < Z.of_nat fuel) →
    ends Q (enumerate_loop term fuel r ah off a)); [|apply H; lia].
  clear off. induction fuel as [|fuel IH]; intros off a Hf Ha; [lia|]. rewrite enumerate_loop_S.
  apply ends_bind; [go_ends|]. intros stop. destruct stop; [go_ends|].
  apply ends_bind_ret; [go_ends|]. intros s ok s' Hok. destruct ok; cbn [negb]; [|go_ends].
  apply valid_attribute_length in Hok as (Hin & len & Hlen & Hpos); [|done].
  apply ends_bind; [apply Hah|]. intros _. apply ends_lift_bind; [apply rd_nofuel|]. intros len' Hlen'.
  assert (len' = len) as -> by congruence. apply IH; lia.
Qed.
End endings.

(** A file record is analysed in finitely many steps unless an entry of an
    attribute list that is itself an attribute list is followed without end. *)
Definition list_recursion tmalloc mft sectors term (fuel : nat) : Prop :=
  ∃ id name number s, analyze_attribute_from_mft_record tmalloc mft sectors term fuel id
    AttributeAttributeList name number s = NoFuel.

Lemma ends_child tmalloc mft sectors term fuel id ty name number :
  (∀ id frn r, mft id = Some (frn, r) → bytes r) →
  (∀ lsn n b, sectors lsn n = Some b → bytes b) →
  ends (list_recursion tmalloc mft sectors term (S fuel))
    (analyze_attribute_from_mft_record tmalloc mft sectors term (S fuel) id ty name number).
Proof.
  intros Hmft Hsec. destruct (decide (ty = AttributeAttributeList)) as [->|Hne].
  { intros s Hs. by exists id, name, number, s. }
  cbn [analyze_attribute_from_mft_record].
  do 2 (apply ends_bind; [go_ends|]; intros ?; destruct (_ : bool); [go_ends|]).
  destruct (mft id) as [[frn r]|] eqn:Er; [|go_ends]. apply Hmft in Er.
  destruct (negb _); [go_ends|].
  do 3 (apply ends_bind; [go_ends|]; intros ?; destruct (_ : bool); [go_ends|]).
  unfold analyze_single_attribute. apply ends_bind; [go_ends|]. intros off s.
  rewrite (single_attribute_child _ _ _ _ (fun _ _ _ _ => mret tt)) by done.
  apply ends_single_loop; [done | go_ends | done | lia | lia].
Qed.

Lemma analyze_file_record_ends tmalloc mft sectors term pcb fuel frn r s :
  (∀ id frn r, mft id = Some (frn, r) → bytes r) →
  (∀ lsn n b, sectors lsn n = Some b → bytes b) → bytes r → (0 < fuel)%nat →
  analyze_file_record tmalloc mft sectors term pcb fuel frn r s = NoFuel →
  list_recursion tmalloc mft sectors term fuel.
Proof.
  intros Hmft Hsec Hr Hf. destruct fuel as [|fuel]; [lia|]. revert s.
  pose proof (fun id ty name number => ends_child tmalloc mft sectors term fuel id ty name number Hmft Hsec)
    as Hchild.
  set (Q := list_recursion _ _ _ _ _) in *. fold (ends Q (analyze_file_record tmalloc mft sectors term pcb (S fuel) frn r)).
  pose proof (fun a => ends_attribute Q tmalloc sectors term Hsec _ Hchild r a Hr) as Ha.
  unfold analyze_file_record.
  do 3 (apply ends_bind; [go_ends|]; intros ?; destruct (negb _); [go_ends|]).
  apply ends_bind; [go_ends|]. intros _.
  do 2 (apply ends_bind; [apply ends_enumerate; [done|]; intros pattr;
    unfold analyze_attribute_callback, analyze_attribute_list_callback; go_ends|]; intros _).
  go_ends.
Qed.
