(* ===== verification/NtfsScan.v ===== *)
(** * The scan of the MFT

    Analysing a file record adds entries of that file in front of the list and
    touches no entry of another file; scanning the records from the last to
    the first therefore leaves the list sorted by file index.  The proofs use
    a small program logic: [hoare P m R] says that a run of [m] from a state
    with [P] that returns does so with [R], and the hint database [scan] holds
    the rules for the operations of the scanner. *)
From S2P Require Import Prelude CString FileInfo Ntfs NtfsRuns NtfsAttrs NtfsEnds.
From stdpp Require Import prelude strings sorting.
Open Scope Z_scope.

Definition hoare {A} (P : mft_scan_parameters → Prop) (m : M A)
    (R : A → mft_scan_parameters → Prop) : Prop :=
  ∀ s a s', P s → m s = Ret (a, s') → R a s'.

Abbreviation preserves Q m := (hoare Q m (fun _ => Q)).

Lemma hoare_bind {A B} P (m : M A) (f : A → M B) R R' :
  hoare P m R → (∀ a, hoare (R a) (f a) R') → hoare P (m ≫= f) R'.
Proof. intros Hm Hf s b s' HP (a & s1 & H1 & H2)%M_bind_inv. eapply Hf; [|exact H2]. eauto. Qed.

Lemma preserves_bind {A B} Q (m : M A) (f : A → M B) :
  preserves Q m → (∀ a, preserves Q (f a)) → preserves Q (m ≫= f).
Proof. apply hoare_bind. Qed.

Lemma preserves_ret {A} Q (a : A) : preserves Q (mret a).
Proof. intros s b s' HQ [= <- <-]. done. Qed.

Lemma preserves_lift {A} Q (o : outcome A) : preserves Q (lift o).
Proof. intros s a s' HQ [_ ->]%lift_inv. done. Qed.

Lemma preserves_get {A} Q (f : mft_scan_parameters → A) : preserves Q (get f).
Proof. intros s a s' HQ [= <- <-]. done. Qed.

Lemma preserves_fault {A} Q : preserves Q (st_fault : M A).
Proof. by intros s a s' HQ. Qed.

Lemma preserves_nofuel {A} Q : preserves Q (st_nofuel : M A).
Proof. by intros s a s' HQ. Qed.

Lemma preserves_upd (Q : mft_scan_parameters → Prop) f :
  (∀ s, Q s → Q (f s)) → preserves Q (upd f).
Proof. intros Hf s a s' HQ [= <- <-]. auto. Qed.

Create HintDb scan.
#[export] Hint Resolve preserves_ret preserves_lift preserves_get preserves_fault
  preserves_nofuel : scan.

(** Splits a program into its operations and solves each by the rules known
    for it. *)
Ltac pres :=
  repeat first
    [ progress intros
    | solve [eauto with scan]
    | apply preserves_bind
    | lazymatch goal with
      | |- hoare _ (if ?b then _ else _) _ => destruct b
      | |- hoare _ (match ?x with _ => _ end) _ => destruct x
      end ].

(** ** The entries of the file that is being analysed *)
Section current.
Context (base : Z) (old : list winx_file_info).
Context (Hold : Forall (fun f => base < BaseMftId f) old).

(** The list is the entries of the current file followed by [old]. *)
Definition own (s : mft_scan_parameters) : Prop :=
  mft_scan_direction s = MFT_SCAN_RTL ∧ mfi_BaseMftId (mfi s) = base ∧
  ∃ new, filelist s = new ++ old ∧ Forall (fun f => BaseMftId f = base) new.

(** The position holds an entry of the current file. *)
Definition own_at (i : nat) (s : mft_scan_parameters) : Prop :=
  own s ∧ ∃ f, filelist s !! i = Some f ∧ BaseMftId f = base.

Lemma own_upd_mfi f : (∀ m, mfi_BaseMftId (f m) = mfi_BaseMftId m) → preserves own (upd_mfi f).
Proof. intros Hf. apply preserves_upd. intros s (H1 & H2 & H3). split_and!; simpl; [done | | done]. by rewrite Hf. Qed.

Lemma own_add_error : preserves own (upd add_error).
Proof. by apply preserves_upd. Qed.

Lemma own_add_processed : preserves own (upd add_processed).
Proof. by apply preserves_upd. Qed.

Lemma own_check term : preserves own (ftw_ntfs_check_for_termination term).
Proof.
  intros s a s' HQ E. destruct (check_for_termination_run term s) as (b & s1 & E1 & Hs).
  rewrite E in E1. injection E1 as -> ->. by destruct Hs as [-> | ->].
Qed.

(** An entry of the current file sits before [old]. *)
Lemma own_at_lt new i f :
  (new ++ old) !! i = Some f → BaseMftId f = base → (i < length new)%nat.
Proof.
  intros Hi Hf. destruct (decide (i < length new)%nat) as [|Hge]; [done|].
  rewrite lookup_app_r in Hi by lia. apply list_elem_of_lookup_2 in Hi.
  rewrite Forall_forall in Hold. apply Hold in Hi. lia.
Qed.

Lemma own_at_upd i g :
  (∀ f, BaseMftId (g f) = BaseMftId f) → hoare (own_at i) (upd_file i g) (fun _ => own_at i).
Proof.
  intros Hg s [] s' ((H1 & H2 & new & Hl & Hnew) & f & Hf & Hfb) [= <-].
  rewrite Hl in Hf. pose proof (own_at_lt new i f Hf Hfb) as Hi.
  rewrite lookup_app_l in Hf by done. split; [split_and!; [done | done |]|].
  - exists (alter g i new). simpl. rewrite Hl. split.
    + by apply alter_app_l.
    + apply Forall_alter; [done|]. intros x _ Hx. by rewrite Hg.
  - exists (g f). simpl. rewrite Hl, list_lookup_alter_eq, lookup_app_l, Hf by done.
    by rewrite Hg.
Qed.

Lemma find_entry_loop_base dir b name k l i :
  find_entry_loop dir b name k l = Some i →
  ∃ f, l !! (i - k)%nat = Some f ∧ BaseMftId f = b ∧ fi_name f = name ∧ (k ≤ i)%nat.
Proof.
  revert k. induction l as [|f l IH]; intros k; cbn [find_entry_loop]; [done|].
  destruct (match dir with MFT_SCAN_RTL => _ | MFT_SCAN_LTR => _ end); [done|].
  destruct (_ && _) eqn:E.
  - intros [= <-]. apply andb_true_iff in E as [?%bool_decide_eq_true ?%Z.eqb_eq].
    exists f. by rewrite Nat.sub_diag.
  - intros (g & Hg & ? & ? & ?)%IH. exists g. split_and!; [|done|done|lia].
    by replace (i - k)%nat with (S (i - S k))%nat by lia.
Qed.

Lemma own_find tmalloc name :
  hoare own (find_filelist_entry tmalloc name)
    (fun pos s => own s ∧ ∀ i, pos = Some i → own_at i s).
Proof.
  intros s pos s' Hs E. pose proof Hs as (H1 & H2 & new & Hl & Hnew).
  unfold find_filelist_entry in E. unfold mbind, M_bind, st_bind, get in E.
  rewrite H1, H2 in E. destruct (find_entry_loop _ _ _ _ _) as [i|] eqn:Ef.
  - injection E as <- <-. split; [done|]. intros j [= <-].
    apply find_entry_loop_base in Ef as (f & Hf & Hb & _ & _).
    split; [done|]. exists f. by rewrite Nat.sub_0_r in Hf.
  - destruct (winx_wcsdup _ _) as [nm|]; injection E as <- <-; [|split; [done|by intros]].
    assert (Ho : own (set_filelist (new_entry nm base :: filelist s) s)).
    { split_and!; [done..|]. exists (new_entry nm base :: new). simpl. rewrite Hl.
      split; [done|]. by constructor. }
    split; [exact Ho|]. intros i [= <-]. split; [exact Ho|]. by eexists.
Qed.

#[local] Hint Resolve own_add_error own_add_processed own_check : scan.
#[local] Hint Extern 2 (hoare _ (upd_mfi _) _) => apply own_upd_mfi; done : scan.

#[local] Hint Extern 2 (hoare _ (upd_file _ _) _) => apply own_at_upd; done : scan.

Lemma hoare_pre {A} (P P' : mft_scan_parameters → Prop) (m : M A) R :
  (∀ s, P s → P' s) → hoare P' m R → hoare P m R.
Proof. unfold hoare. eauto. Qed.

Lemma hoare_weaken {A} (P : mft_scan_parameters → Prop) (m : M A) R R' :
  hoare P m R → (∀ a s, R a s → R' a s) → hoare P m R'.
Proof. unfold hoare. eauto. Qed.

Lemma own_find_entry tmalloc name : preserves own (find_filelist_entry tmalloc name).
Proof. eapply hoare_weaken; [apply own_find|]. by intros ? ? []. Qed.
#[local] Hint Resolve own_find_entry : scan.

(** Resident streams. *)
Lemma own_add_flag f : preserves own (add_flag f).
Proof. apply own_upd_mfi. done. Qed.
#[local] Hint Resolve own_add_flag : scan.

Lemma own_get_file_flags r a : preserves own (get_file_flags r a).
Proof. unfold get_file_flags. pres. Qed.

Lemma own_get_file_access_times r a : preserves own (get_file_access_times r a).
Proof. unfold get_file_access_times. pres. Qed.

Lemma own_update_file_name r a : preserves own (update_file_name r a).
Proof. unfold update_file_name. pres. Qed.

Lemma own_handle_reparse_point r a : preserves own (handle_reparse_point r a).
Proof. unfold handle_reparse_point. pres. Qed.

Lemma own_get_volume_information r a : preserves own (get_volume_information r a).
Proof. unfold get_volume_information. pres. Qed.
#[local] Hint Resolve own_get_file_flags own_get_file_access_times own_update_file_name
  own_handle_reparse_point own_get_volume_information : scan.

Section child.
Context (tmalloc : Z → bool) (sectors : Z → Z → option (list Z))
        (term : option (nat → bool)) (child : Z → Z → option str → Z → M unit).
Context (Hchild : ∀ id ty name number, preserves own (child id ty name number)).
#[local] Hint Resolve Hchild : scan.

Lemma own_attribute_list_entry b e :
  preserves own (analyze_attribute_from_attribute_list child b e).
Proof. unfold analyze_attribute_from_attribute_list. pres. Qed.
#[local] Hint Resolve own_attribute_list_entry : scan.

Lemma own_attribute_list_loop fuel b e list_end :
  preserves own (attribute_list_loop term child fuel b e list_end).
Proof.
  revert e. induction fuel as [|fuel IH]; intros e; cbn [attribute_list_loop]; pres.
Qed.
#[local] Hint Resolve own_attribute_list_loop : scan.

Lemma own_resident_stream r a :
  preserves own (analyze_resident_stream tmalloc term child r a).
Proof. unfold analyze_resident_stream, analyze_resident_attribute_list. pres. Qed.

Lemma own_non_resident_list blocks size :
  preserves own (analyze_non_resident_attribute_list tmalloc sectors term child blocks size).
Proof. unfold analyze_non_resident_attribute_list. pres. Qed.
#[local] Hint Resolve own_resident_stream own_non_resident_list : scan.

(** Reads do not move the position of an entry. *)
Lemma own_at_bind {A B} i (m : M A) (f : A → M B) :
  hoare (own_at i) m (fun _ => own_at i) → (∀ a, hoare (own_at i) (f a) (fun _ => own)) →
  hoare (own_at i) (m ≫= f) (fun _ => own).
Proof. apply hoare_bind. Qed.

Lemma own_at_own {A} i (m : M A) : preserves own m → hoare (own_at i) m (fun _ => own).
Proof. intros Hm s a s' [Hs _] E. by eapply Hm. Qed.

Lemma own_process_run_list name r a is_list :
  preserves own (process_run_list tmalloc sectors term child name r a is_list).
Proof.
  unfold process_run_list. eapply hoare_bind; [apply own_find|]. intros [i|]; cycle 1.
  { intros s [] s' [Hs _] [= <-]. done. }
  apply (hoare_pre _ (own_at i)); [by intros s [_ Hs]; apply Hs|].
  apply own_at_bind; [pres|]. intros aflags. apply own_at_bind; [pres|]. intros _.
  apply own_at_bind; [pres|]. intros nm. destruct (bool_decide _).
  { apply own_at_own. pres. }
  apply own_at_bind; [pres|]. intros flags. apply own_at_bind; [pres|]. intros _.
  apply own_at_own. pres.
Qed.
#[local] Hint Resolve own_process_run_list : scan.

Lemma own_non_resident_stream r a :
  preserves own (analyze_non_resident_stream tmalloc sectors term child r a).
Proof. unfold analyze_non_resident_stream. pres. Qed.
#[local] Hint Resolve own_non_resident_stream : scan.

Lemma own_analyze_attribute r a :
  preserves own (analyze_attribute tmalloc sectors term child r a).
Proof. unfold analyze_attribute. pres. Qed.
#[local] Hint Resolve own_analyze_attribute : scan.

Lemma preserves_valid_attribute Q r off a : preserves Q (valid_attribute r off a).
Proof. unfold valid_attribute. pres. Qed.
#[local] Hint Resolve preserves_valid_attribute : scan.

Lemma own_single_attribute_loop fuel r ty name number p off a :
  preserves own (single_attribute_loop tmalloc sectors term child fuel r ty name number p off a).
Proof.
  revert p off a. induction fuel as [|fuel IH]; intros p off a; cbn [single_attribute_loop]; pres.
Qed.
#[local] Hint Resolve own_single_attribute_loop : scan.

Lemma own_single_attribute r ty name number :
  preserves own (analyze_single_attribute tmalloc sectors term child r ty name number).
Proof. unfold analyze_single_attribute. pres. Qed.
End child.
#[local] Hint Resolve preserves_valid_attribute : scan.

Section record.
Context (tmalloc : Z → bool) (mft : Z → option (Z * list Z))
        (sectors : Z → Z → option (list Z)) (term : option (nat → bool)).

Lemma own_child_record fuel id ty name number :
  preserves own (analyze_attribute_from_mft_record tmalloc mft sectors term fuel id ty name number).
Proof.
  revert id ty name number. induction fuel as [|fuel IH]; intros id ty name number;
    cbn [analyze_attribute_from_mft_record]; [pres|].
  pose proof (own_single_attribute tmalloc sectors term
    (analyze_attribute_from_mft_record tmalloc mft sectors term fuel) IH). pres.
Qed.

Lemma own_enumerate r ah :
  (∀ a, preserves own (ah a)) → preserves own (enumerate_attributes term r ah).
Proof.
  intros Hah. unfold enumerate_attributes. apply preserves_bind; [pres|]. intros off.
  generalize (S (length r)), off at 2. intros fuel. revert off.
  induction fuel as [|fuel IH]; intros off a; cbn [enumerate_loop]; pres.
Qed.

Lemma own_callbacks fuel r a :
  preserves own (analyze_attribute_callback tmalloc mft sectors term fuel r a) ∧
  preserves own (analyze_attribute_list_callback tmalloc mft sectors term fuel r a).
Proof.
  pose proof (own_analyze_attribute tmalloc sectors term _ (own_child_record fuel)).
  unfold analyze_attribute_callback, analyze_attribute_list_callback. split; pres.
Qed.
End record.
End current.

(** ** One file record *)
Section scan.
Context (tmalloc : Z → bool) (mft : Z → option (Z * list Z))
        (sectors : Z → Z → option (list Z)) (term : option (nat → bool))
        (pcb : option (winx_file_info → winx_file_info)) (fuel : nat).
Context (Hpcb : ∀ cb f, pcb = Some cb → BaseMftId (cb f) = BaseMftId f).

Definition before (id : Z) (f : winx_file_info) : Prop := id < BaseMftId f.

Lemma update_loop_own m new old :
  Forall (fun f => BaseMftId f = mfi_BaseMftId m) new → Forall (before (mfi_BaseMftId m)) old →
  ∃ new', update_loop pcb MFT_SCAN_RTL m (new ++ old) = new' ++ old ∧
          Forall (fun f => BaseMftId f = mfi_BaseMftId m) new'.
Proof.
  intros Hnew Hold. induction Hnew as [|f new Hf Hnew IH].
  - exists []. split; [|done]. destruct Hold as [|g old Hg Hold]; [done|].
    cbn [app update_loop]. by rewrite (proj2 (Z.ltb_lt _ _)) by exact Hg.
  - destruct IH as (new' & E & Hnew'). cbn [app update_loop].
    rewrite (proj2 (Z.ltb_ge _ _)), (proj2 (Z.eqb_eq _ _)), E by lia.
    eexists (_ :: new'). split; [reflexivity|]. constructor; [|done].
    destruct pcb as [cb|] eqn:Ecb; [|done]. by rewrite (Hpcb cb).
Qed.

Lemma analyze_file_record_own frn r s s' :
  let id := GetMftIdFromFRN frn in
  mft_scan_direction s = MFT_SCAN_RTL → Forall (before id) (filelist s) →
  analyze_file_record tmalloc mft sectors term pcb fuel frn r s = Ret (tt, s') →
  mft_scan_direction s' = MFT_SCAN_RTL ∧
  ∃ new, filelist s' = new ++ filelist s ∧ Forall (fun f => BaseMftId f = id) new.
Proof.
  intros id Hdir Hold E. unfold analyze_file_record in E.
  apply M_bind_inv in E as (ty & s1 & [_ ->]%lift_inv & E).
  assert (Hret : Ret ((), s) = Ret ((), s') → mft_scan_direction s' = MFT_SCAN_RTL ∧
    ∃ new, filelist s' = new ++ filelist s ∧ Forall (fun f => BaseMftId f = id) new).
  { intros [= <-]. split; [done|]. by exists []. }
  destruct (negb _); [by apply Hret|].
  apply M_bind_inv in E as (fl & s1 & [_ ->]%lift_inv & E). destruct (negb _); [by apply Hret|].
  apply M_bind_inv in E as (bf & s1 & [_ ->]%lift_inv & E). destruct (negb _); [by apply Hret|].
  apply M_bind_inv in E as ([] & s1 & [= <-] & E).
  assert (Hown : own id (filelist s) (set_mfi (Mfi id FILE_root
    (if has_flag fl 2 then FILE_ATTRIBUTE_DIRECTORY else 0) 0 [] 0 0 0) s)).
  { split_and!; [done..|]. by exists []. }
  pose proof (own_callbacks id (filelist s) Hold tmalloc mft sectors term fuel r) as Hcb.
  apply M_bind_inv in E as ([] & s1 & E1 & E).
  apply (own_enumerate id (filelist s) term r _ (fun a => proj1 (Hcb a)) _ _ _ Hown) in E1.
  apply M_bind_inv in E as ([] & s2 & E2 & E).
  apply (own_enumerate id (filelist s) term r _ (fun a => proj2 (Hcb a)) _ _ _ E1) in E2.
  injection E as <-. destruct E2 as (Hd & Hb & new & Hl & Hnew).
  split; [exact Hd|]. simpl. rewrite Hd, Hl. rewrite <- Hb in *. by apply update_loop_own.
Qed.

(** ** The loop *)
Definition by_id (f g : winx_file_info) : Prop := BaseMftId f ≤ BaseMftId g.

Definition id_sorted (l : list winx_file_info) : Prop := StronglySorted by_id l.

Lemma id_sorted_app id new old :
  Forall (fun f => BaseMftId f = id) new → Forall (before id) old → id_sorted old →
  id_sorted (new ++ old).
Proof.
  intros Hnew Hold Hs. induction Hnew as [|f new Hf Hnew IH]; [done|].
  constructor; [exact IH|]. apply Forall_app. split.
  - eapply Forall_impl; [exact Hnew|]. unfold by_id. simpl. lia.
  - eapply Forall_impl; [exact Hold|]. unfold by_id, before. simpl. lia.
Qed.

(** The contract of FSCTL_GET_NTFS_FILE_RECORD: it returns the record asked
    for or, when that one is not in use, one before it. *)
Definition returns_preceding : Prop :=
  ∀ id frn r, mft id = Some (frn, r) → GetMftIdFromFRN frn ≤ id.

Definition scan_inv (id : Z) (s : mft_scan_parameters) : Prop :=
  mft_scan_direction s = MFT_SCAN_RTL ∧ id_sorted (filelist s) ∧ Forall (before id) (filelist s).

Lemma scan_inv_le id id' s : id' ≤ id → scan_inv id s → scan_inv id' s.
Proof.
  intros Hle (H1 & H2 & H3). split_and!; [done..|].
  eapply Forall_impl; [exact H3|]. unfold before. simpl. lia.
Qed.

Lemma scan_loop_sorted n id s ok s' :
  returns_preceding → scan_inv id s →
  scan_loop tmalloc mft sectors term pcb fuel n id s = Ret (ok, s') →
  mft_scan_direction s' = MFT_SCAN_RTL ∧ id_sorted (filelist s').
Proof.
  intros Hmft. revert id s. induction n as [|n IH]; intros id s Hs; [done|]. cbn [scan_loop].
  intros (stop & s1 & E1 & E)%M_bind_inv.
  assert (Hs1 : scan_inv id s1).
  { destruct (check_for_termination_run term s) as (b & s1' & E2 & Heq).
    rewrite E1 in E2. injection E2 as <- <-. by destruct Heq as [-> | ->]. }
  clear E1 Hs s. destruct stop; [injection E as <- <-; destruct Hs1 as (? & ? & _); done|].
  destruct (mft id) as [[frn r]|] eqn:Er; cycle 1.
  { destruct (id =? 0); [injection E as <- <-; destruct Hs1 as (? & ? & _); done|].
    eapply IH, E. eapply scan_inv_le, Hs1. lia. }
  apply Hmft in Er. apply M_bind_inv in E as ([] & s2 & E2 & E).
  destruct (scan_inv_le id (GetMftIdFromFRN frn) s1 Er Hs1) as (Hd & Hsort & Hb).
  apply analyze_file_record_own in E2 as (Hd2 & new & Hl & Hnew); [|done..].
  assert (Hsort2 : id_sorted (filelist s2)) by (rewrite Hl; by eapply id_sorted_app).
  destruct (_ || _); [injection E as <- <-; done|].
  assert (Hb2 : ∀ k, k < GetMftIdFromFRN frn → scan_inv k s2).
  { intros k Hk. split_and!; [done..|]. rewrite Hl. apply Forall_app.
    split; (eapply Forall_impl; [eassumption|]); unfold before; simpl; lia. }
  destruct (Z.ltb_spec id (GetMftIdFromFRN frn)); [lia|]. eapply IH, E. apply Hb2. lia.
Qed.

(** A run of the loop that does not return stops in the analysis of a record
    that the driver returned: [id + 1] requests are enough. *)
Lemma scan_loop_fails n id s :
  returns_preceding → 0 ≤ id < Z.of_nat n →
  let failing o := ∃ k frn r s1, 0 ≤ k ≤ id ∧ mft k = Some (frn, r) ∧
    analyze_file_record tmalloc mft sectors term pcb fuel frn r s1 = o in
  match scan_loop tmalloc mft sectors term pcb fuel n id s with
  | Ret _ => True
  | Fault => failing Fault
  | NoFuel => failing NoFuel
  end.
Proof.
  intros Hmft. revert id s. induction n as [|n IH]; intros id s Hid; [lia|]. cbn zeta.
  assert (Hgo : ∀ id' s', 0 ≤ id' < id →
    match scan_loop tmalloc mft sectors term pcb fuel n id' s' with
    | Ret _ => True
    | o => ∃ k frn r s1, 0 ≤ k ≤ id ∧ mft k = Some (frn, r) ∧
        analyze_file_record tmalloc mft sectors term pcb fuel frn r s1 =
        match o with NoFuel => NoFuel | _ => Fault end
    end).
  { intros id' s' Hid'. specialize (IH id' s' ltac:(lia)). cbn zeta in IH.
    destruct (scan_loop _ _ _ _ _ _ _ _ _); [done|..];
      destruct IH as (k & frn & r & s1 & ? & ? & ?); exists k, frn, r, s1; split_and!; (done || lia). }
  cbn [scan_loop]. unfold mbind, M_bind, st_bind.
  destruct (check_for_termination_run term s) as (b & s1 & -> & _). destruct b; [done|].
  destruct (mft id) as [[frn r]|] eqn:Er; cycle 1.
  { destruct (Z.eqb_spec id 0); [done|]. specialize (Hgo (id - 1) s1 ltac:(lia)).
    by destruct (scan_loop _ _ _ _ _ _ _ _ _). }
  pose proof (Hmft _ _ _ Er) as Hle.
  destruct (analyze_file_record _ _ _ _ _ _ _ _ s1) as [[[] s2]| |] eqn:Ea;
    [| exists id, frn, r, s1; split_and!; (done || lia) ..].
  assert (Hfrn : 0 ≤ GetMftIdFromFRN frn).
  { unfold GetMftIdFromFRN. change 0xffffffffffff with (Z.ones 48).
    rewrite Z.land_ones by lia. by apply Z.mod_pos_bound. }
  destruct (Z.eqb_spec (GetMftIdFromFRN frn) 0), (Z.eqb_spec id 0); try done.
  cbn [orb]. destruct (Z.ltb_spec id (GetMftIdFromFRN frn)); [lia|].
  specialize (Hgo (GetMftIdFromFRN frn - 1) s2 ltac:(lia)).
  by destruct (scan_loop _ _ _ _ _ _ _ _ _).
Qed.

(** The loop asks for smaller and smaller records: unless the analysis of a
    record recurses forever, [id + 1] iterations are enough. *)
Lemma scan_loop_ends n id s :
  (∀ id frn r s, mft id = Some (frn, r) →
    analyze_file_record tmalloc mft sectors term pcb fuel frn r s ≠ NoFuel) →
  0 ≤ id < Z.of_nat n → scan_loop tmalloc mft sectors term pcb fuel n id s ≠ NoFuel.
Proof.
  intros Ha. revert id s. induction n as [|n IH]; intros id s Hid; [lia|]. cbn [scan_loop].
  unfold mbind, M_bind, st_bind.
  destruct (check_for_termination_run term s) as (b & s1 & -> & _). destruct b; [done|].
  destruct (mft id) as [[frn r]|] eqn:Er; cycle 1.
  { destruct (Z.eqb_spec id 0); [done|]. apply IH. lia. }
  specialize (Ha id frn r s1 Er).
  destruct (analyze_file_record _ _ _ _ _ _ _ _ s1) as [[[] s2]| |]; [|done..].
  assert (Hfrn : 0 ≤ GetMftIdFromFRN frn).
  { unfold GetMftIdFromFRN. change 0xffffffffffff with (Z.ones 48).
    rewrite Z.land_ones by lia. by apply Z.mod_pos_bound. }
  destruct (Z.eqb_spec (GetMftIdFromFRN frn) 0), (Z.eqb_spec id 0); try done.
  cbn [orb]. destruct (Z.ltb_spec id (GetMftIdFromFRN frn)); apply IH; lia.
Qed.
End scan.

(** ** A small volume *)
Definition make_file_name (number parent type : Z) (name : str) : list Z :=
  make_resident AttributeFileName number []
    (enc 8 parent ++ replicate 56 0 ++ [Z.of_nat (length name); type] ++ (name ≫= enc 2)).

Definition make_std_info (number flags : Z) : list Z :=
  make_resident AttributeStandardInformation number []
    (enc 8 1 ++ enc 8 2 ++ enc 8 3 ++ enc 8 4 ++ enc 4 flags ++ replicate 12 0).

(** The record of the directory. *)
Definition dir_record : list Z :=
  make_record 3 0
    (make_std_info 0 32 ++ make_file_name 1 5 3 (text "dir") ++
     make_nonresident AttributeIndexAllocation 2 (text "$I30") 0 4096 [0x11; 1; 50; 0]).

(** Records 0 ($MFT), 5 (the root directory), 6 (a directory), 8 (a file in it)
    and 9 (a child record of 8); other requests get the record before. *)
Definition sample_volume (id : Z) : option (Z * list Z) :=
  if id <? 0 then None else
  if id <? 5 then Some (0, make_record 1 0
    (make_std_info 0 6 ++ make_file_name 1 5 3 (text "$MFT") ++
     make_nonresident AttributeData 2 [] 0 10240 [0x11; 10; 4; 0]))
  else if id <? 6 then Some (5, make_record 3 0
    (make_std_info 0 6 ++ make_file_name 1 5 3 (text ".") ++
     make_resident AttributeIndexRoot 2 (text "$I30") [0; 0]))
  else if id <? 8 then Some (6 + 2 ^ 48, dir_record)
  else if id <? 9 then Some (8, make_record 1 0
    (make_std_info 0 32 ++
     make_resident AttributeAttributeList 4 [] (make_list_entry AttributeData 9 7) ++
     make_file_name 1 (6 + 2 ^ 48) 2 (text "FILE~1") ++
     make_file_name 2 (6 + 2 ^ 48) 1 (text "file.txt") ++
     make_resident AttributeData 3 (text "ads") [1; 2; 3]))
  else Some (9, make_record 1 8
    (make_nonresident AttributeData 7 [] 0 20480 [0x11; 3; 100; 0x11; 2; 3; 0x11; 1; 100; 0])).

Definition sample_data : NTFS_DATA := NtfsData 1024 100000 4096 512.

Definition sample_scan : outcome (list winx_file_info) :=
  ntfs_scan_disk (fun _ => true) sample_volume (fun _ _ => None) None None 100
    (Some sample_data) true None 0x43 WINX_FTW_DUMP_FILES.

(** The files found, with their full paths and maps. *)
Example sample_scan_result :
  match sample_scan with
  | Ret fl => map (fun f => (BaseMftId f, fi_path f, clusters (disp f), fragments (disp f))) fl
  | _ => []
  end =
  [(0, Some (text "\??\C:\$MFT"), 10, 1);
   (5, Some (text "\??\C:\."), 0, 0);
   (6, Some (text "\??\C:\dir"), 1, 1);
   (8, Some (text "\??\C:\dir\file.txt"), 6, 2);
   (8, Some (text "\??\C:\dir\file.txt::$ATTRIBUTE_LIST"), 0, 0);
   (8, Some (text "\??\C:\dir\file.txt:ads"), 0, 0)].
Proof. vm_compute. reflexivity. Qed.

(** ** Properties *)

(** Evaluates a closed run of the scanner and binds its result. *)
Ltac run_to E run :=
  let x := eval vm_compute in run in
  assert (E : run = x) by (vm_compute; reflexivity).

(** Analysing a file record, with everything it leads to (names, streams,
    attribute lists, child records), only puts entries of that file in front
    of the list: the entries of files with larger indexes are left alone. *)
Theorem analyze_file_record_frame tmalloc mft sectors term pcb fuel frn r s s' :
  (∀ cb f, pcb = Some cb → BaseMftId (cb f) = BaseMftId f) →
  mft_scan_direction s = MFT_SCAN_RTL →
  Forall (before (GetMftIdFromFRN frn)) (filelist s) →
  analyze_file_record tmalloc mft sectors term pcb fuel frn r s = Ret (tt, s') →
  mft_scan_direction s' = MFT_SCAN_RTL ∧
  ∃ new, filelist s' = new ++ filelist s ∧
         Forall (fun f => BaseMftId f = GetMftIdFromFRN frn) new.
Proof. intros. by eapply analyze_file_record_own. Qed.

(** The state of the sample scan when it reaches record 6. *)
Definition sample_state : mft_scan_parameters :=
  Sp MFT_SCAN_RTL (MftLayout 1024 1039 10 100000 4096 8 512) 0x43 WINX_FTW_DUMP_FILES
     (Mfi 0 0 0 0 [] 0 0 0) 0 0 [new_entry (text "file.txt") 8] O.

Lemma analyze_file_record_frame_witness :
  let run := analyze_file_record (fun _ => true) sample_volume (fun _ _ => None) None None 100
    (6 + 2 ^ 48) dir_record sample_state in
  ∃ s', run = Ret (tt, s') ∧ length (filelist s') = 2%nat ∧ mft_scan_direction s' = MFT_SCAN_RTL ∧
      ∃ new, filelist s' = new ++ filelist sample_state ∧ Forall (fun f => BaseMftId f = 6) new.
Proof.
  intros run. run_to E run. eexists. split; [exact E|].
  split; [vm_compute; reflexivity|].
  apply (analyze_file_record_frame (fun _ => true) sample_volume (fun _ _ => None) None None 100
    (6 + 2 ^ 48) dir_record sample_state _); [done | done | | exact E].
  repeat constructor.
Defined.

(** C22: when the file system driver returns the record asked for or one before
    it, and the buffers it fills hold bytes, the loop over all file records
    returns with the list of files sorted by their indexes in the MFT, unless the analysis of one of the
    records the driver returned reads outside of the record, or an entry of an
    attribute list leads to an attribute list again and so on, more than [fuel]
    times ([list_recursion]; as [attribute_list_recursion] shows, without an end
    for some volumes).  One request per record is enough. *)
Theorem scan_loop_sorts tmalloc mft sectors term pcb fuel n id s :
  (∀ cb f, pcb = Some cb → BaseMftId (cb f) = BaseMftId f) →
  (∀ id frn r, mft id = Some (frn, r) → bytes r) → (∀ lsn n b, sectors lsn n = Some b → bytes b) →
  returns_preceding mft → (0 < fuel)%nat → 0 ≤ id < Z.of_nat n →
  mft_scan_direction s = MFT_SCAN_RTL → filelist s = [] →
  match scan_loop tmalloc mft sectors term pcb fuel n id s with
  | Ret (ok, s') => mft_scan_direction s' = MFT_SCAN_RTL ∧ id_sorted (filelist s')
  | Fault => ∃ k frn r s1, 0 ≤ k ≤ id ∧ mft k = Some (frn, r) ∧
      analyze_file_record tmalloc mft sectors term pcb fuel frn r s1 = Fault
  | NoFuel => list_recursion tmalloc mft sectors term fuel
  end.
Proof.
  intros Hpcb Hb Hsec Hmft Hfuel Hid Hdir Hl.
  pose proof (scan_loop_fails tmalloc mft sectors term pcb fuel n id s Hmft Hid) as Hf.
  destruct (scan_loop _ _ _ _ _ _ _ _ _) as [[ok s']| |] eqn:E; [| exact Hf |].
  - eapply scan_loop_sorted; [done | exact Hmft | | exact E].
    split_and!; [done | | ]; rewrite Hl; constructor.
  - destruct Hf as (k & frn & r & s1 & _ & Er & Ea).
    apply (analyze_file_record_ends tmalloc mft sectors term pcb fuel frn r s1); eauto.
Qed.

Lemma sample_volume_preceding : returns_preceding sample_volume.
Proof.
  intros id frn r E%(f_equal (option_map fst)). unfold sample_volume in E.
  destruct (Z.ltb_spec id 0); [done|]. destruct (Z.ltb_spec id 5); [|destruct (Z.ltb_spec id 6);
    [|destruct (Z.ltb_spec id 8); [|destruct (Z.ltb_spec id 9)]]];
    cbn [option_map fst] in E; injection E as <-;
    match goal with |- ?x ≤ _ => let y := eval vm_compute in x in change x with y end; lia.
Qed.

Lemma sample_volume_bytes id frn r : sample_volume id = Some (frn, r) → bytes r.
Proof.
  intros E%(f_equal (option_map snd)). unfold sample_volume in E.
  destruct (Z.ltb_spec id 0); [done|]. destruct (Z.ltb_spec id 5); [|destruct (Z.ltb_spec id 6);
    [|destruct (Z.ltb_spec id 8); [|destruct (Z.ltb_spec id 9)]]];
    cbn [option_map snd] in E; injection E as <-;
    apply (bool_decide_unpack _); vm_compute; exact I.
Qed.

Lemma scan_loop_sorts_witness :
  let s := set_filelist [] sample_state in
  let run := scan_loop (fun _ => true) sample_volume (fun _ _ => None) None None 100 10 9 s in
  ∃ ok s', run = Ret (ok, s') ∧ length (filelist s') = 6%nat ∧ id_sorted (filelist s').
Proof.
  intros s run. run_to E run. eexists _, _. split; [exact E|].
  split; [vm_compute; reflexivity|].
  pose proof (scan_loop_sorts (fun _ => true) sample_volume (fun _ _ => None) None None 100
    10 9 s ltac:(done) sample_volume_bytes ltac:(done) sample_volume_preceding ltac:(lia) ltac:(lia)
    ltac:(done) ltac:(done)) as H.
  fold run in H. rewrite E in H. apply H.
Defined.

(** The scan of the MFT asks for smaller and smaller records and so ends
    after at most as many steps as there are records, whatever the driver
    returns, as long as the analysis of each single record ends. *)
Theorem scan_loop_terminates tmalloc mft sectors term pcb fuel n s :
  (∀ id frn r s, mft id = Some (frn, r) →
    analyze_file_record tmalloc mft sectors term pcb fuel frn r s ≠ NoFuel) →
  0 < n → scan_loop tmalloc mft sectors term pcb fuel (Z.to_nat n) (n - 1) s ≠ NoFuel.
Proof. intros Ha Hn. apply scan_loop_ends; [exact Ha | lia]. Qed.

(** A driver that answers every request with a free record of a large index. *)
Lemma scan_loop_terminates_witness :
  let mft (id : Z) := Some (77, make_record 0 0 []) in
  scan_loop (fun _ => true) mft (fun _ _ => None) None None 0 (Z.to_nat 10) (10 - 1)
    sample_state ≠ NoFuel.
Proof.
  intros mft.
  apply (scan_loop_terminates (fun _ => true) mft (fun _ _ => None) None None 0 10); [|done].
  intros id frn r s E. change (Some (77, make_record 0 0 []) = Some (frn, r)) in E.
  assert (frn = 77 ∧ r = make_record 0 0 []) as [-> ->]
    by (split; [exact (f_equal (fun o => match o with Some (x, _) => x | None => frn end) (eq_sym E))
               |exact (f_equal (fun o => match o with Some (_, y) => y | None => r end) (eq_sym E))]).
  vm_compute. discriminate.
Defined.
