(* ===== verification/NtfsPaths.v ===== *)
(** * Searching directories and building full paths

    On a list sorted by file index (what the scan leaves, see [NtfsScan]) the
    binary search of [find_directory_by_mft_id] finds what the linear search
    finds.  On a list in which every parent chain reaches the root directory
    [build_full_paths] gives every file its full path; on a list with a cycle
    of parents it does not end. *)
From S2P Require Import Prelude CString FileInfo Ntfs NtfsRuns NtfsAttrs NtfsScan.
From stdpp Require Import prelude strings sorting.
Open Scope Z_scope.

(** ** Binary search *)
Definition is_directory_entry (mft_id : Z) (f : winx_file_info) : bool :=
  (BaseMftId f =? mft_id) && negb (is_named_stream (fi_name f)).

Lemma linear_skip mft_id i l1 l2 :
  Forall (fun f => is_directory_entry mft_id f = false) l1 →
  find_directory_linear mft_id i (l1 ++ l2) = find_directory_linear mft_id (i + length l1) l2.
Proof.
  intros H. revert i. induction H as [|f l1 Hf _ IH]; intros i; simpl.
  - f_equal. lia.
  - unfold is_directory_entry in Hf. rewrite Hf, IH. f_equal. lia.
Qed.

Lemma linear_none mft_id i l :
  Forall (fun f => is_directory_entry mft_id f = false) l →
  find_directory_linear mft_id i l = None.
Proof. intros H. rewrite <- (app_nil_r l). by rewrite linear_skip. Qed.

Lemma not_entry mft_id f : BaseMftId f ≠ mft_id → is_directory_entry mft_id f = false.
Proof. intros H. unfold is_directory_entry. by rewrite (proj2 (Z.eqb_neq _ _)). Qed.

Lemma linear_found mft_id i l j :
  find_directory_linear mft_id i l = Some j →
  ∃ f, l !! (j - i)%nat = Some f ∧ is_directory_entry mft_id f = true ∧ (i ≤ j)%nat.
Proof.
  revert i. induction l as [|f l IH]; intros i; cbn [find_directory_linear]; [done|].
  destruct (_ && _) eqn:E.
  - intros [= <-]. exists f. by rewrite Nat.sub_diag.
  - intros (g & Hg & ? & ?)%IH. exists g. split_and!; [|done|lia].
    by replace (j - i)%nat with (S (j - S i))%nat by lia.
Qed.

Lemma id_sorted_nth l i j f g :
  id_sorted l → l !! i = Some f → l !! j = Some g → (i ≤ j)%nat → BaseMftId f ≤ BaseMftId g.
Proof.
  intros Hl. revert i j. induction Hl as [|h l _ IH Hh]; intros i j; [done|].
  destruct i as [|i], j as [|j]; simpl; intros Hi Hj Hij; simplify_eq; [lia | | lia |].
  - rewrite Forall_forall in Hh. eapply Hh, list_elem_of_lookup_2, Hj.
  - eapply IH; [exact Hi | exact Hj | lia].
Qed.

Section search.
Context (l : list winx_file_info) (Hl : id_sorted l) (mft_id : Z).

Lemma id_sorted_lookup i j f g :
  l !! i = Some f → l !! j = Some g → (i ≤ j)%nat → BaseMftId f ≤ BaseMftId g.
Proof. by apply id_sorted_nth. Qed.

Lemma entry_id_ok k : (k < length l)%nat → ∃ f, l !! k = Some f ∧ entry_id l k = Ret (BaseMftId f).
Proof.
  intros Hk. destruct (lookup_lt_is_Some_2 l k Hk) as [f E]. exists f. unfold entry_id.
  by rewrite E.
Qed.

(** The scan downwards stops at the first entry with the index. *)
Lemma scan_down_ok k f :
  l !! k = Some f → BaseMftId f ≤ mft_id →
  ∃ m, scan_down l mft_id k = Ret m ∧ (m ≤ S k)%nat ∧
    (∀ j g, l !! j = Some g → (j < m)%nat → BaseMftId g ≠ mft_id) ∧
    (∀ j g, l !! j = Some g → (m ≤ j ≤ k)%nat → BaseMftId g = mft_id).
Proof.
  revert f. induction k as [|k IH]; intros f Hk Hf; cbn [scan_down].
  all: unfold entry_id; rewrite Hk; rewrite outcome_bind_ret;
    destruct (Z.eqb_spec (BaseMftId f) mft_id) as [E|E]; cbn [negb].
  - exists O. split_and!; [done | lia | lia |]. intros j g Hj Hjk.
    replace j with O in Hj by lia. by simplify_eq.
  - exists 1%nat. split_and!; [done | lia | |lia].
    intros j g Hj Hj1. replace j with O in Hj by lia. by simplify_eq.
  - destruct (lookup_lt_is_Some_2 l k) as [g Hg]; [apply lookup_lt_Some in Hk; lia|].
    pose proof (id_sorted_lookup k (S k) g f Hg Hk ltac:(lia)).
    destruct (IH g Hg ltac:(lia)) as (m & -> & Hm & H1 & H2).
    exists m. split_and!; [done | lia | done |]. intros j h Hj Hjk.
    destruct (decide (j = S k)) as [->|]; [by simplify_eq|]. apply (H2 j h Hj). lia.
  - exists (S (S k)). split_and!; [done | lia | | lia]. intros j g Hj Hjk.
    pose proof (id_sorted_lookup j (S k) g f Hj Hk ltac:(lia)). lia.
Qed.

(** The scan upwards is the linear search from where the index starts. *)
Lemma scan_up_ok m :
  (m ≤ length l)%nat → (∀ j g, l !! j = Some g → (m ≤ j)%nat → mft_id ≤ BaseMftId g) →
  scan_up l mft_id m (length l - m) = Ret (find_directory_linear mft_id m (drop m l)).
Proof.
  intros Hm. remember (length l - m)%nat as n eqn:En. revert m Hm En.
  induction n as [|n IH]; intros m Hm En Hge; cbn [scan_up].
  { by rewrite drop_ge by lia. }
  destruct (lookup_lt_is_Some_2 l m) as [f Hf]; [lia|].
  rewrite Hf, (drop_S l f m) by done. cbn [find_directory_linear].
  destruct (Z.eqb_spec (BaseMftId f) mft_id) as [E|E]; cbn [negb andb].
  - destruct (negb _); [done|]. apply IH; [lia | lia |]. intros j g Hj Hmj. apply (Hge j g Hj). lia.
  - f_equal. symmetry. apply linear_none, Forall_forall. intros g [j Hj]%list_elem_of_lookup.
    rewrite lookup_drop in Hj. apply not_entry.
    pose proof (id_sorted_lookup m (S m + j) f g Hf Hj ltac:(lia)).
    specialize (Hge m f Hf ltac:(lia)). lia.
Qed.

(** The invariant of the bisection: outside the interval of [lim] entries from
    [i] no entry has the index. *)
Lemma bsearch_loop_ok fuel i lim :
  (lim < fuel)%nat → (i + lim ≤ length l)%nat →
  (∀ j g, l !! j = Some g → (j < i)%nat → BaseMftId g < mft_id) →
  (∀ j g, l !! j = Some g → (i + lim ≤ j)%nat → mft_id < BaseMftId g) →
  bsearch_loop fuel MFT_SCAN_RTL l mft_id i lim = Ret (find_directory_linear mft_id 0 l).
Proof.
  revert i lim. induction fuel as [|fuel IH]; intros i lim Hf Hlen Hlo Hhi; [lia|].
  cbn [bsearch_loop]. destruct (decide (lim = O)) as [->|Hlim].
  { f_equal. symmetry. apply linear_none, Forall_forall. intros g [j Hj]%list_elem_of_lookup.
    apply not_entry. destruct (decide (j < i)%nat) as [Hji|Hji].
    - specialize (Hlo j g Hj Hji). lia.
    - specialize (Hhi j g Hj ltac:(lia)). lia. }
  assert (Hdiv : (lim / 2 < lim)%nat) by (apply Nat.div_lt; lia).
  destruct (entry_id_ok (i + lim / 2)) as (f & Hk & ->); [lia|]. rewrite outcome_bind_ret.
  destruct (Z.eqb_spec (BaseMftId f) mft_id) as [E|E].
  - destruct (scan_down_ok _ f Hk ltac:(lia)) as (m & -> & Hm & Hbelow & Hblock).
    rewrite outcome_bind_ret. apply lookup_lt_Some in Hk as Hklen.
    rewrite scan_up_ok; [| lia |].
    + f_equal. rewrite <- (take_drop m l) at 2. rewrite linear_skip.
      * rewrite length_take. f_equal. lia.
      * apply Forall_forall. intros g [j Hj]%list_elem_of_lookup.
        apply lookup_take_Some in Hj as [Hj Hjm]. apply not_entry. by eapply Hbelow.
    + intros j g Hj Hmj. destruct (decide (j ≤ i + lim / 2)%nat).
      * rewrite (Hblock j g Hj); lia.
      * pose proof (id_sorted_lookup _ j f g Hk Hj ltac:(lia)). lia.
  - destruct (Z.ltb_spec (BaseMftId f) mft_id) as [Hlt|Hge].
    + assert (Hdiv' : ((lim - 1) / 2 = lim - 1 - lim / 2)%nat).
      { pose proof (Nat.div_mod_eq lim 2). pose proof (Nat.mod_upper_bound lim 2).
        pose proof (Nat.div_mod_eq (lim - 1) 2). pose proof (Nat.mod_upper_bound (lim - 1) 2). lia. }
      apply IH; [lia | lia | |].
      * intros j g Hj Hjk. pose proof (id_sorted_lookup j _ g f Hj Hk ltac:(lia)). lia.
      * intros j g Hj Hjk. apply (Hhi j g Hj). lia.
    + apply IH; [lia | lia | done |]. intros j g Hj Hjk.
      pose proof (id_sorted_lookup _ j f g Hk Hj ltac:(lia)). lia.
Qed.
End search.

(** ** Paths *)

(** [parents l id ps]: following parents from the directory [id] reaches the
    root through directories called [ps], outermost first. *)
Inductive parents (l : list winx_file_info) : Z → list str → Prop :=
| parents_root : parents l FILE_root []
| parents_dir id i f ps :
    id ≠ FILE_root → find_directory_linear id 0 l = Some i → l !! i = Some f →
    parents l (ParentDirectoryMftId f) ps → parents l id (ps ++ [fi_name f]).

Lemma parents_fun l id ps qs : parents l id ps → parents l id qs → ps = qs.
Proof.
  intros Hp. revert qs. induction Hp as [|id i f ps Hid Hi Hf _ IH]; intros qs Hq;
    inversion Hq as [|? j g qs' ? Hj Hg Hq']; subst; try done.
  assert (i = j) as -> by congruence. assert (f = g) as -> by congruence.
  by rewrite (IH qs').
Qed.

(** A name behind the directories it is in. *)
Definition rel_path (ps : list str) (n : str) : str :=
  foldr (fun p acc => p ++ text "\" ++ acc) n ps.

Definition full_path (letter : Z) (ps : list str) (n : str) : str :=
  text "\??\" ++ [letter] ++ text ":\" ++ rel_path ps n.

Lemma rel_path_snoc ps d n : rel_path (ps ++ [d]) n = rel_path ps (d ++ text "\" ++ n).
Proof. unfold rel_path. by rewrite foldr_app. Qed.

Lemma rel_path_app ps a b : rel_path ps (a ++ b) = rel_path ps a ++ b.
Proof. induction ps as [|p ps IH]; simpl; [done|]. rewrite IH. by rewrite <- app_assoc. Qed.

Lemma full_path_dir letter ps d n :
  full_path letter ps d ++ text "\" ++ n = full_path letter (ps ++ [d]) n.
Proof. unfold full_path. rewrite rel_path_snoc, rel_path_app, <- !app_assoc. done. Qed.

Lemma rel_path_length ps n : (length n ≤ length (rel_path ps n))%nat.
Proof. induction ps as [|p ps IH]; simpl; [lia|]. rewrite length_app. simpl. lia. Qed.

Lemma clip_short s : (length s < MAX_PATH)%nat → clip s = s.
Proof. intros H. apply take_ge. unfold MAX_PATH in *. lia. Qed.

(** The paths already in the list are full paths. *)
Definition paths_ok (letter : Z) (l : list winx_file_info) : Prop :=
  ∀ i f p, l !! i = Some f → fi_path f = Some p →
    ∃ ps, parents l (ParentDirectoryMftId f) ps ∧
          p = clip (full_path letter ps (fi_name f)).

Section build.
Context (have : bool).

Lemma find_directory_run id s :
  mft_scan_direction s = MFT_SCAN_RTL → id_sorted (filelist s) →
  find_directory_by_mft_id have id s = Ret (find_directory_linear id 0 (filelist s), s).
Proof.
  intros Hdir Hs. unfold find_directory_by_mft_id. unfold mbind, M_bind, st_bind, get. rewrite Hdir.
  destruct have; cbn [negb]; [|done].
  rewrite (bsearch_loop_ok (filelist s) Hs id); [done | lia | lia | lia |].
  intros j g Hj%lookup_lt_Some. lia.
Qed.

Lemma no_termination s :
  has_flag (sp_flags s) WINX_FTW_ALLOW_PARTIAL_SCAN = true ∨ errors s = 0 →
  ftw_ntfs_check_for_termination None s = Ret (false, s).
Proof.
  intros H. unfold ftw_ntfs_check_for_termination.
  destruct H as [-> | ->]; [done|]. by rewrite andb_false_r.
Qed.

(** The states in which paths are built. *)
Definition build_state (s : mft_scan_parameters) : Prop :=
  mft_scan_direction s = MFT_SCAN_RTL ∧ id_sorted (filelist s) ∧
  (has_flag (sp_flags s) WINX_FTW_ALLOW_PARTIAL_SCAN = true ∨ errors s = 0) ∧
  paths_ok (volume_letter s) (filelist s).

Lemma parents_loop_step n id full child s :
  parents_loop None (S n) have id full child s =
  (if (id =? FILE_root) || full then Ret (Some child, s) else
   (stop ← ftw_ntfs_check_for_termination None;
    if (stop : bool) then mret None else
    '(full, parent_path, parent) ← get_directory_information have id;
    parents_loop None n have parent full
      (match parent_path with
       | Some p => clip (p ++ text "\" ++ child)
       | None => clip (text "\" ++ child)
       end)) s).
Proof. cbn [parents_loop]. by destruct (_ || _). Qed.

Lemma parents_loop_ok s id ps n child :
  build_state s → parents (filelist s) id ps → (length ps < n)%nat →
  (length (full_path (volume_letter s) ps child) < MAX_PATH)%nat →
  parents_loop None n have id false child s = Ret (Some (rel_path ps child), s) ∨
  parents_loop None n have id false child s = Ret (Some (full_path (volume_letter s) ps child), s).
Proof.
  intros (Hdir & Hsort & Hterm & Hok) Hp. revert n child.
  induction Hp as [|id i f ps Hid Hi Hf Hp IH]; intros [|n] child Hn Hlen; try (simpl in Hn; lia).
  { left. done. }
  rewrite length_app in Hn. simpl in Hn. rewrite parents_loop_step, (proj2 (Z.eqb_neq _ _)) by done.
  cbn [orb]. rewrite (M_bind_ret _ _ _ _ _ (no_termination s Hterm)).
  assert (Hinfo : get_directory_information have id s =
    Ret (match fi_path f with
         | Some p => (true, Some p, ParentDirectoryMftId f)
         | None => (false, Some (fi_name f), ParentDirectoryMftId f)
         end, s)).
  { unfold get_directory_information. rewrite (M_bind_ret _ _ _ _ _ (find_directory_run id s Hdir Hsort)).
    erewrite M_bind_ret by reflexivity. rewrite Hi, Hf. by destruct (fi_path f). }
  rewrite (M_bind_ret _ _ _ _ _ Hinfo). rewrite <- full_path_dir in *.
  destruct (fi_path f) as [p|] eqn:Ep.
  - right. destruct (Hok i f p Hf Ep) as (qs & Hqs & ->).
    rewrite (parents_fun _ _ _ _ Hqs Hp) in *. rewrite length_app in Hlen.
    destruct n as [|n]; [lia|]. rewrite parents_loop_step, orb_true_r.
    rewrite (clip_short (full_path _ _ _)) by lia.
    rewrite clip_short by (by rewrite length_app). done.
  - assert (Hshort : (length (fi_name f ++ text "\" ++ child) < MAX_PATH)%nat).
    { rewrite !length_app in Hlen |- *. unfold full_path in Hlen. rewrite !length_app in Hlen.
      pose proof (rel_path_length ps (fi_name f)). lia. }
    rewrite clip_short by done. rewrite full_path_dir, rel_path_snoc in *.
    unfold full_path in *. rewrite rel_path_snoc in *.
    apply IH; [lia|done].
Qed.
End build.

(** Setting a path changes neither the order of the list nor any parent
    chain. *)
Lemma find_directory_alter id k i q l :
  find_directory_linear id k (alter (set_path q) i l) = find_directory_linear id k l.
Proof.
  revert k i. induction l as [|f l IH]; intros k i; [done|].
  destruct i as [|i]; [done|].
  change (alter (set_path q) (S i) (f :: l)) with (f :: alter (set_path q) i l).
  cbn [find_directory_linear]. by rewrite IH.
Qed.

Lemma parents_alter l i q id ps : parents l id ps → parents (alter (set_path q) i l) id ps.
Proof.
  induction 1 as [|id j f ps Hid Hj Hf _ IH]; [constructor|].
  destruct (decide (i = j)) as [->|Hne].
  - change (fi_name f) with (fi_name (set_path q f)). apply (parents_dir _ id j); [done | | | done].
    + by rewrite find_directory_alter.
    + by rewrite list_lookup_alter_eq, Hf.
  - apply (parents_dir _ id j); [done | | | done].
    + by rewrite find_directory_alter.
    + by rewrite list_lookup_alter_ne.
Qed.

Lemma id_sorted_alter l i q : id_sorted l → id_sorted (alter (set_path q) i l).
Proof.
  intros H. revert i. induction H as [|f l Hl IH Hf]; intros i; [constructor|].
  destruct i as [|i]; simpl; constructor; [done.. | apply IH |].
  apply Forall_alter; [done|]. by intros.
Qed.

Lemma paths_ok_alter letter l i f ps :
  paths_ok letter l → l !! i = Some f → parents l (ParentDirectoryMftId f) ps →
  paths_ok letter (alter (set_path (Some (clip (full_path letter ps (fi_name f))))) i l).
Proof.
  intros Hok Hf Hp j g p Hj Hgp. destruct (decide (i = j)) as [->|Hne].
  - rewrite list_lookup_alter_eq, Hf in Hj. injection Hj as <-. injection Hgp as <-.
    exists ps. split; [by apply parents_alter | done].
  - rewrite list_lookup_alter_ne in Hj by done. destruct (Hok j g p Hj Hgp) as (qs & Hq & ->).
    exists qs. split; [by apply parents_alter | done].
Qed.

(** Files the scanner can build a path for: directories up to the root, fewer
    than [fuel] of them, a full path that fits its buffer, and a relative path
    that does not look like a full one. *)
Definition file_ok (fuel : nat) (letter : Z) (l : list winx_file_info) (f : winx_file_info)
  : Prop :=
  ∃ ps, parents l (ParentDirectoryMftId f) ps ∧ (length ps < fuel)%nat ∧
    (length (full_path letter ps (fi_name f)) < MAX_PATH)%nat ∧
    nth 1 (rel_path ps (fi_name f)) 0 ≠ 0x3F.

Section all.
Context (tmalloc : Z → bool) (Htm : ∀ n, n ≤ 2 * Z.of_nat MAX_PATH → tmalloc n = true).
Context (fuel : nat).

Lemma build_file_path_ok have s i f ps :
  build_state s → filelist s !! i = Some f → parents (filelist s) (ParentDirectoryMftId f) ps →
  (length ps < fuel)%nat →
  (length (full_path (volume_letter s) ps (fi_name f)) < MAX_PATH)%nat →
  nth 1 (rel_path ps (fi_name f)) 0 ≠ 0x3F →
  build_file_path tmalloc None fuel have i s =
  Ret (tt, set_filelist
    (alter (set_path (Some (full_path (volume_letter s) ps (fi_name f)))) i (filelist s)) s).
Proof.
  intros Hs Hf Hp Hn Hlen Hq. unfold build_file_path. erewrite M_bind_ret by reflexivity.
  cbn beta. rewrite Hf.
  assert (Hname : clip (fi_name f) = fi_name f).
  { apply clip_short. unfold full_path in Hlen. rewrite !length_app in Hlen.
    pose proof (rel_path_length ps (fi_name f)). lia. }
  rewrite Hname.
  assert (Hdup : ∀ p : str, (length p < MAX_PATH)%nat → winx_wcsdup tmalloc (Some p) = Some p)
    by (intros; unfold winx_wcsdup; simpl; by rewrite Htm by lia).
  destruct (parents_loop_ok have s _ ps fuel (fi_name f) Hs Hp Hn Hlen) as [E|E];
    rewrite (M_bind_ret _ _ _ _ _ E); cbn beta iota; erewrite M_bind_ret by reflexivity; cbn beta.
  - rewrite (proj2 (Z.eqb_neq _ _)) by done.
    rewrite clip_short by exact Hlen. by rewrite Hdup.
  - by rewrite Hdup.
Qed.

(** After [k] files: the first [k] have their paths. *)
Definition built (l : list winx_file_info) (letter : Z) (k : nat) (s : mft_scan_parameters)
  : Prop :=
  build_state s ∧ volume_letter s = letter ∧ length (filelist s) = length l ∧
  (∀ id ps, parents l id ps → parents (filelist s) id ps) ∧
  ∀ j f, l !! j = Some f → ∃ q, filelist s !! j = Some (set_path q f) ∧
    ((j < k)%nat → ∃ ps, parents l (ParentDirectoryMftId f) ps ∧
                        q = Some (full_path letter ps (fi_name f))).

Lemma build_paths_loop_ok l letter have k n s :
  Forall (file_ok fuel letter l) l → (k + n = length l)%nat → built l letter k s →
  ∃ s', build_paths_loop tmalloc None fuel have k n s = Ret (tt, s') ∧
        built l letter (length l) s'.
Proof.
  intros Hfiles. revert k s. induction n as [|n IH]; intros k s Hk Hb; cbn [build_paths_loop].
  { exists s. split; [done|]. by replace (length l) with k by lia. }
  destruct Hb as (Hs & Hletter & Hlen & Hpar & Hpaths). pose proof Hs as (Hd & Hsort & Hterm & Hok).
  rewrite (M_bind_ret _ _ _ _ _ (no_termination s Hterm)). cbn beta iota.
  destruct (lookup_lt_is_Some_2 l k) as [f Hf]; [lia|].
  destruct (Hpaths k f Hf) as (q & Hq & _).
  pose proof Hfiles as HF. rewrite Forall_forall in HF.
  destruct (HF f (list_elem_of_lookup_2 _ _ _ Hf)) as (ps & Hp & Hps & Hfull & Hquest).
  pose proof (build_file_path_ok have s k (set_path q f) ps Hs Hq (Hpar _ _ Hp) Hps) as E.
  rewrite Hletter in E. specialize (E Hfull Hquest). rewrite (M_bind_ret _ _ _ _ _ E).
  set (p := full_path letter ps (fi_name f)) in *. apply IH; [lia|].
  split; [split_and!; simpl; [done | by apply id_sorted_alter | done |]|
    split_and!; simpl; [done | by rewrite length_alter | |]].
  - rewrite Hletter. subst p. rewrite <- (clip_short (full_path _ _ _)) by exact Hfull.
    rewrite Hletter in Hok. apply (paths_ok_alter letter _ k (set_path q f)); [done..|].
    by apply Hpar.
  - intros id qs Hqs. by apply parents_alter, Hpar.
  - intros j g Hg. destruct (decide (k = j)) as [<-|Hne].
    + rewrite list_lookup_alter_eq, Hq. rewrite Hf in Hg. injection Hg as <-.
      exists (Some p). split; [done|]. intros _. by exists ps.
    + rewrite list_lookup_alter_ne by done. destruct (Hpaths j g Hg) as (q' & Hq' & Hj').
      exists q'. split; [done|]. intros Hj. apply Hj'. lia.
Qed.
End all.

(** ** Properties *)

(** On a list sorted by file index the binary search for a directory ends
    within its fuel, never leaves the array, and finds what the linear search
    over the list finds: the first entry with the index that is not a named
    stream. *)
Theorem bsearch_linear l mft_id :
  id_sorted l →
  bsearch_loop (S (length l)) MFT_SCAN_RTL l mft_id 0 (length l) =
  Ret (find_directory_linear mft_id 0 l).
Proof.
  intros Hl. apply bsearch_loop_ok; [done | lia | lia | lia |].
  intros j g Hj%lookup_lt_Some. lia.
Qed.

(** Entries for the witnesses. *)
Definition sample_entry (name : str) (id parent : Z) : winx_file_info :=
  FileInfo name None 0 empty_disp 0 id parent 0 0 0.

Definition sample_list : list winx_file_info :=
  [sample_entry (text "$MFT") 0 5; sample_entry (text "dir") 6 5;
   sample_entry (text "f:$ATTRIBUTE_LIST") 8 6; sample_entry (text "f") 8 6;
   sample_entry (text "sub") 9 6; sample_entry (text "g") 12 9].

Lemma sample_list_sorted : id_sorted sample_list.
Proof. unfold id_sorted, sample_list, by_id. repeat constructor; simpl; lia. Qed.

Lemma bsearch_linear_witness :
  bsearch_loop 7 MFT_SCAN_RTL sample_list 8 0 6 = Ret (Some 3%nat).
Proof. apply (bsearch_linear sample_list 8). apply sample_list_sorted. Defined.

(** C21: when all files of the list are [file_ok] -- their parents lead to the
    root directory in fewer than [fuel] steps, their full path is shorter than
    the buffer of [MAX_PATH] characters, and the second character of their path
    below the root is not a question mark, by which the code recognises full
    paths -- and the list is sorted, there is memory for the paths, nobody
    terminates the scan and no error happened so far unless partial scans are
    allowed, [build_full_paths] returns and sets the path of every file to the
    volume, the names of its directories and its name, whether or not the array
    for the binary search could be allocated.  [question_mark_path] shows what
    becomes of a name with a question mark. *)
Theorem build_full_paths_correct tmalloc fuel s :
  (∀ n, n ≤ 2 * Z.of_nat MAX_PATH → tmalloc n = true) → build_state s →
  Forall (file_ok fuel (volume_letter s) (filelist s)) (filelist s) →
  ∃ s', build_full_paths tmalloc None fuel s = Ret (0, s') ∧
    length (filelist s') = length (filelist s) ∧
    ∀ i f, filelist s !! i = Some f →
      ∃ ps, parents (filelist s) (ParentDirectoryMftId f) ps ∧
        filelist s' !! i = Some (set_path (Some (full_path (volume_letter s) ps (fi_name f))) f).
Proof.
  intros Htm Hs Hfiles. unfold build_full_paths. erewrite M_bind_ret by reflexivity. cbn beta.
  set (have := _ && _).
  destruct (build_paths_loop_ok tmalloc Htm fuel (filelist s) (volume_letter s) have 0
    (length (filelist s)) s Hfiles) as (s' & E & Hb); [done | |].
  - split; [exact Hs|]. split_and!; [done..|].
    intros j f Hf. exists (fi_path f). split; [|lia]. rewrite Hf. f_equal. by destruct f.
  - rewrite (M_bind_ret _ _ _ _ _ E). exists s'. destruct Hb as (_ & _ & Hlen & _ & Hp).
    split; [done|]. split; [done|]. intros i f Hf. destruct (Hp i f Hf) as (q & Hq & Hps).
    destruct Hps as (ps & Hps & ->); [by eapply lookup_lt_Some|]. eauto.
Qed.

Lemma build_full_paths_correct_witness :
  let s := set_filelist sample_list (make_sp 0 []) in
  ∃ s', build_full_paths (fun n => n <? 4096) None 4 s = Ret (0, s') ∧
    length (filelist s') = 6%nat ∧
    ∀ i f, filelist s !! i = Some f →
      ∃ ps, parents (filelist s) (ParentDirectoryMftId f) ps ∧
        filelist s' !! i = Some (set_path (Some (full_path 0x43 ps (fi_name f))) f).
Proof.
  intros s. apply (build_full_paths_correct (fun n => n <? 4096) 4 s).
  - intros n Hn. apply Z.ltb_lt. unfold MAX_PATH in Hn. lia.
  - split_and!; [done | apply sample_list_sorted | by right |].
    intros i f p Hi Hp. apply list_elem_of_lookup_2 in Hi.
    assert (HF : Forall (fun f => fi_path f = None) (filelist s)) by (by repeat constructor).
    rewrite Forall_forall in HF. specialize (HF f Hi). congruence.
  - assert (H6 : parents sample_list 6 [text "dir"]).
    { apply (parents_dir sample_list 6 1 (sample_entry (text "dir") 6 5) []);
        [done | by vm_compute | done | constructor]. }
    assert (H9 : parents sample_list 9 [text "dir"; text "sub"]).
    { apply (parents_dir sample_list 9 4 (sample_entry (text "sub") 9 6) [text "dir"]);
        [done | by vm_compute | done | exact H6]. }
    repeat constructor.
    + exists []. split_and!; [constructor | vm_compute; lia | vm_compute; lia | by vm_compute].
    + exists []. split_and!; [constructor | vm_compute; lia | vm_compute; lia | by vm_compute].
    + exists [text "dir"]. split_and!; [exact H6 | vm_compute; lia | vm_compute; lia | by vm_compute].
    + exists [text "dir"]. split_and!; [exact H6 | vm_compute; lia | vm_compute; lia | by vm_compute].
    + exists [text "dir"]. split_and!; [exact H6 | vm_compute; lia | vm_compute; lia | by vm_compute].
    + exists [text "dir"; text "sub"].
      split_and!; [exact H9 | vm_compute; lia | vm_compute; lia | by vm_compute].
Defined.

(** Two directories that name each other as parents make the walk to the
    root endless: no number of steps is enough. *)
Theorem parent_cycle_hangs fuel :
  let s := set_filelist [sample_entry (text "a") 20 21; sample_entry (text "b") 21 20]
             (make_sp 0 []) in
  build_file_path (fun _ => true) None fuel true 0 s = NoFuel.
Proof.
  intros s. unfold build_file_path. erewrite M_bind_ret by reflexivity. cbn beta.
  change (filelist s !! 0%nat) with (Some (sample_entry (text "a") 20 21)). cbn iota.
  apply M_bind_nofuel. change (ParentDirectoryMftId _) with 21.
  enough (H : ∀ n child, parents_loop None n true 21 false child s = NoFuel ∧
                         parents_loop None n true 20 false child s = NoFuel) by apply H.
  induction n as [|n IH]; intros child; [done|]. rewrite !parents_loop_step.
  change (21 =? FILE_root) with false. change (20 =? FILE_root) with false. cbn [orb].
  rewrite !(M_bind_ret _ _ _ _ _ (no_termination s (or_intror eq_refl))). cbn beta iota.
  split; (erewrite M_bind_ret by (vm_compute; reflexivity)); apply IH.
Qed.

(** A relative path whose second character is a question mark, as POSIX names
    allow, is taken for a full path and gets no volume in front. *)
Theorem question_mark_path :
  let s := set_filelist [sample_entry (text "a?b") 20 5] (make_sp 0 []) in
  match build_full_paths (fun _ => true) None 10 s with
  | Ret (_, s') => map fi_path (filelist s') = [Some (text "a?b")]
  | _ => False
  end.
Proof. by vm_compute. Qed.
