(* ===== verification/Ftw.v ===== *)
(** * ftw.c: the portable file tree walk

    Dumping the fragments of a file through FSCTL_GET_RETRIEVAL_POINTERS,
    walking a directory tree through directory listings, and removing entries
    from the list of files.

    Opening and listing directories, the file system control, the allocator's
    failures, the terminator and the callbacks are parameters; a directory
    listing is the sequence of its entries; [FtwDir] reads it out of the buffer.
    The list of files is a sequence (see [FileInfo]), except in the two loops
    that remove entries while they walk the circular list, which are modelled
    on the heap of nodes. *)
From S2P Require Import Prelude DList Bitmap CString FileInfo.
From stdpp Require Import prelude gmap strings.
Open Scope Z_scope.

Definition STATUS_END_OF_FILE : Z := 0xC0000011.

(** ** File dumps *)

(** GET_RETRIEVAL_DESCRIPTOR in a zeroed buffer with room for 512 pairs of the
    virtual cluster number that follows a run and its location. *)
Record GET_RETRIEVAL_DESCRIPTOR : Type := RetrievalDescriptor {
  NumberOfPairs : Z;
  StartVcn : Z;
  Pair : list (Z * Z);
}.

Definition pair_at (m : GET_RETRIEVAL_DESCRIPTOR) (i : nat) : outcome (Z * Z) :=
  if bool_decide (i < 512)%nat then Ret (default (0, 0) (Pair m !! i)) else Fault.

Definition LLINVALID : Z := 2 ^ 64 - 1.

(** The loop through the buffer of pairs: the disposition and the next start,
    or [None] when the map is wrong. *)
Fixpoint pairs_loop (n : nat) (m : GET_RETRIEVAL_DESCRIPTOR) (i : nat) (startVcn : Z)
    (d : winx_file_disposition) : outcome (option (winx_file_disposition * Z)) :=
  match n with
  | O => Ret (Some (d, startVcn))
  | S n =>
      '(vcn, lcn) ← pair_at m i;
      (* virtual runs are identified with LCN == -1 *)
      if lcn =? LLINVALID then pairs_loop n m (S i) vcn d else
      if vcn =? 0 then Ret None else
      pairs_loop n m (S i) vcn (append_block startVcn lcn (u64 (vcn - startVcn)) d)
  end.

Section dump.
(** The terminator, NULL or its answers in sequence. *)
Context (terminator : option (nat → bool)).

Definition ftw_check_for_termination (ticks : nat) : bool * nat :=
  match terminator with
  | None => (false, ticks)
  | Some t => (t ticks, S ticks)
  end.

(** How the loop over the portions of the map ends. *)
Inductive dump_end : Type :=
| DumpDone (d : winx_file_disposition)
| DumpEmpty
| DumpFailed.

(** FSCTL_GET_RETRIEVAL_POINTERS: the status for a start and the map. *)
Context (retrieve : Z → Z * GET_RETRIEVAL_DESCRIPTOR).

Fixpoint dump_loop (fuel : nat) (startVcn : Z) (d : winx_file_disposition) (ticks : nat)
  : outcome (dump_end * nat) :=
  match fuel with
  | O => NoFuel
  | S fuel =>
      let '(status, filemap) := retrieve startVcn in
      if negb (status =? STATUS_SUCCESS) && negb (status =? STATUS_BUFFER_OVERFLOW) then
        (* always STATUS_END_OF_FILE for small files placed inside MFT *)
        Ret (if status =? STATUS_END_OF_FILE then DumpEmpty else DumpFailed, ticks)
      else
      let '(stop, ticks) := ftw_check_for_termination ticks in
      if (stop : bool) then Ret (DumpEmpty, ticks) else
      (* check for an empty map *)
      if (NumberOfPairs filemap =? 0) && negb (status =? STATUS_SUCCESS)
      then Ret (DumpEmpty, ticks) else
      r ← pairs_loop (Z.to_nat (NumberOfPairs filemap)) filemap 0 (StartVcn filemap) d;
      match r with
      | None => Ret (DumpFailed, ticks)
      | Some (d, startVcn) =>
          if negb (status =? STATUS_SUCCESS) then dump_loop fuel startVcn d ticks
          else Ret (DumpDone d, ticks)
      end
  end.

(** [winx_ftw_dump_file]: the result and the file.  [opens] tells whether the
    file can be opened. *)
Definition winx_ftw_dump_file (fuel : nat) (opens : bool) (f : winx_file_info) (ticks : nat)
  : outcome (Z * winx_file_info * nat) :=
  (* reset disposition related fields *)
  let f := set_disp empty_disp f in
  if negb opens then Ret (0, f, ticks) else
  '(e, ticks) ← dump_loop fuel 0 empty_disp ticks;
  Ret match e with
      | DumpDone d => (0, validate_blockmap (set_disp d f), ticks)
      | DumpEmpty => (0, set_disp empty_disp f, ticks)
      | DumpFailed => (-1, set_disp empty_disp f, ticks)
      end.
End dump.

(** ** The tree walk *)

(** FILE_BOTH_DIR_INFORMATION. *)
Record dir_entry : Type := DirEntry {
  FileName : list Z;
  FileAttributes : Z;
  de_CreationTime : Z;
  de_LastWriteTime : Z;
  de_LastAccessTime : Z;
}.

Section walk.
Context (tmalloc : Z → bool) (terminator : option (nat → bool)).
(** The retrieval pointers of the file with a path, if it can be opened. *)
Context (file_map : str → option (Z → Z * GET_RETRIEVAL_DESCRIPTOR)).
(** The entries of the directory with a path, if it can be opened. *)
Context (list_directory : str → option (list dir_entry)).
(** The callbacks: the effect on the file and, for the filter, whether to skip
    the children of the file. *)
Context (fcb : option (winx_file_info → Z * winx_file_info)).
Context (pcb : option (winx_file_info → winx_file_info)).
(** The bound on the number of portions of a file's map. *)
Context (dump_fuel : nat).

Definition dump (flags : Z) (f : winx_file_info) (ticks : nat)
  : outcome (Z * winx_file_info * nat) :=
  if has_flag flags WINX_FTW_DUMP_FILES then
    match file_map (default [] (fi_path f)) with
    | Some retrieve => winx_ftw_dump_file terminator retrieve dump_fuel true f ticks
    | None => winx_ftw_dump_file terminator (fun _ => (0, RetrievalDescriptor 0 0 [])) dump_fuel
                false f ticks
    end
  else Ret (0, f, ticks).

Definition is_rootdir (path : str) : bool := bool_decide (last path = Some 0x5C).

(** The path of an entry of the directory. *)
Definition entry_path (path name : str) : str :=
  if is_rootdir path then path ++ name else path ++ text "\" ++ name.

(** The entry before its disposition is filled in. *)
Definition entry_info (path : str) (e : dir_entry) : winx_file_info :=
  let name := cstr (FileName e) in
  FileInfo name (Some (entry_path path name)) (FileAttributes e) empty_disp 0 0 0
    (de_CreationTime e) (de_LastWriteTime e) (de_LastAccessTime e).

(** [ftw_add_entry_to_filelist]: the new entry, already in front of the list,
    or [None]. *)
Definition ftw_add_entry_to_filelist (path : str) (flags : Z) (filelist : list winx_file_info)
    (ticks : nat) (e : dir_entry)
  : outcome (option winx_file_info * list winx_file_info * nat) :=
  if decide (path = []) then Ret (None, filelist, ticks) else
  if negb (tmalloc (2 * Z.of_nat (length (FileName e)) + 2)) then Ret (None, filelist, ticks) else
  let f := entry_info path e in
  let len := Z.of_nat (length path) + Z.of_nat (length (fi_name f)) + 1 +
             (if is_rootdir path then 0 else 1) in
  if negb (tmalloc (len * 2)) then Ret (None, filelist, ticks) else
  '(r, f, ticks) ← dump flags f ticks;
  if r <? 0 then Ret (None, filelist, ticks) else Ret (Some f, f :: filelist, ticks).

(** Callbacks change the file in front of the list. *)
Definition set_head (f : winx_file_info) (l : list winx_file_info) : list winx_file_info :=
  match l with [] => [] | _ :: l => f :: l end.

(** "." and "..", and entries without a name. *)
Definition skip_entry (e : dir_entry) : bool :=
  bool_decide (FileName e = text ".") || bool_decide (FileName e = text "..") ||
  bool_decide (FileName e = []).

(** [ftw_helper]: the result, the list and the calls of the terminator.
    [fuel] bounds the depth of the directories. *)
Fixpoint ftw_helper (fuel : nat) (path : str) (flags : Z) (filelist : list winx_file_info)
    (ticks : nat) : outcome (Z * list winx_file_info * nat) :=
  match fuel with
  | O => NoFuel
  | S fuel =>
      match list_directory path with
      | None => Ret (0, filelist, ticks)
      | Some entries =>
          (fix next (entries : list dir_entry) (filelist : list winx_file_info) (ticks : nat)
             : outcome (Z * list winx_file_info * nat) :=
             let '(stop, ticks) := ftw_check_for_termination terminator ticks in
             if (stop : bool) then Ret (-2, filelist, ticks) else
             match entries with
             | [] => Ret (0, filelist, ticks)
             | e :: entries =>
                 if skip_entry e then next entries filelist ticks else
                 (* add entry to the file list *)
                 '(f, filelist, ticks) ← ftw_add_entry_to_filelist path flags filelist ticks e;
                 match f with
                 | None => Ret (-1, filelist, ticks)
                 | Some f =>
                     (* check for termination *)
                     let '(stop, ticks) := ftw_check_for_termination terminator ticks in
                     if (stop : bool) then Ret (-2, filelist, ticks) else
                     (* call the callback routines *)
                     let f := match pcb with Some cb => cb f | None => f end in
                     let '(skip_children, f) := match fcb with Some cb => cb f | None => (0, f) end in
                     let filelist := set_head f filelist in
                     (* scan subdirectories if requested *)
                     if has_flag (fi_flags f) FILE_ATTRIBUTE_DIRECTORY &&
                        has_flag flags WINX_FTW_RECURSIVE && (skip_children =? 0) &&
                        negb (has_flag (fi_flags f) FILE_ATTRIBUTE_REPARSE_POINT)
                     then
                       '(result, filelist, ticks) ←
                          ftw_helper fuel (default [] (fi_path f)) flags filelist ticks;
                       if result <? 0 then Ret (result, filelist, ticks)
                       else next entries filelist ticks
                     else next entries filelist ticks
                 end
             end) entries filelist ticks
      end
  end.
End walk.

(** ** Removing entries from the list *)

(** The loop of [ftw_remove_resident_streams] and [ftw_remove_invalid_streams],
    which differ in the test: [next] is read before the item is removed, and
    the walk is over when it is the head at the start of the iteration. *)
Fixpoint remove_loop (fuel : nat) (test : winx_file_info → bool) (filelist f : ptr)
  : ST (gmap loc (node winx_file_info)) ptr :=
  match fuel with
  | O => st_nofuel
  | S fuel =>
      match f with
      | None => mret filelist
      | Some _ =>
          let head := filelist in
          nd ← load f;
          let nxt := next nd in
          filelist ← (if test (data nd) then winx_list_remove filelist f else mret filelist);
          if decide (filelist = None) then mret filelist
          else if decide (nxt = head) then mret filelist
          else remove_loop fuel test filelist nxt
      end
  end.

Definition is_resident_stream (f : winx_file_info) : bool := fragments (disp f) =? 0.

Definition is_invalid_stream (f : winx_file_info) : bool :=
  match fi_path f with None => true | Some p => bool_decide (p = []) end.

Definition ftw_remove_resident_streams (fuel : nat) (filelist : ptr)
  : ST (gmap loc (node winx_file_info)) ptr :=
  remove_loop fuel is_resident_stream filelist filelist.

Definition ftw_remove_invalid_streams (fuel : nat) (filelist : ptr)
  : ST (gmap loc (node winx_file_info)) ptr :=
  remove_loop fuel is_invalid_stream filelist filelist.

(** What they do to the sequence of files (proved below). *)
Definition without (test : winx_file_info → bool) (l : list winx_file_info)
  : list winx_file_info :=
  base.filter (fun f => test f = false) l.

(** ** Entry points *)

(** FILE_BASIC_INFORMATION. *)
Record basic_information : Type := BasicInformation {
  bi_FileAttributes : Z;
  bi_CreationTime : Z;
  bi_LastWriteTime : Z;
  bi_LastAccessTime : Z;
}.

(** WINX_FTW_SKIP_RESIDENT_STREAMS needs WINX_FTW_DUMP_FILES. *)
Definition effective_flags (flags : Z) : Z :=
  if has_flag flags WINX_FTW_SKIP_RESIDENT_STREAMS && negb (has_flag flags WINX_FTW_DUMP_FILES)
  then Z.ldiff flags WINX_FTW_SKIP_RESIDENT_STREAMS else flags.

Definition cleanup_list (flags : Z) (filelist : list winx_file_info) : list winx_file_info :=
  without is_invalid_stream
    (if has_flag flags WINX_FTW_SKIP_RESIDENT_STREAMS
     then without is_resident_stream filelist else filelist).

Section entry.
Context (tmalloc : Z → bool) (terminator : option (nat → bool)).
Context (file_map : str → option (Z → Z * GET_RETRIEVAL_DESCRIPTOR)).
Context (list_directory : str → option (list dir_entry)).
Context (fcb : option (winx_file_info → Z * winx_file_info)).
Context (pcb : option (winx_file_info → winx_file_info)).
Context (dump_fuel fuel : nat).
(** NtQueryInformationFile on the root directory, if it can be opened and
    queried. *)
Context (root_information : option basic_information).
(** The name of the file system on the volume, and the scan of NTFS volumes
    ([Ntfs.ntfs_scan_disk] in its environment). *)
Context (fs_name : option str) (ntfs_scan_disk : Z → Z → outcome (list winx_file_info)).

Definition ftw_add_root_directory (path : str) (flags : Z) (filelist : list winx_file_info)
    (ticks : nat) : outcome (Z * list winx_file_info * nat) :=
  if decide (path = []) then Ret (-1, filelist, ticks) else
  let f := match root_information with
           | Some i => FileInfo (text ".") (Some path) (bi_FileAttributes i) empty_disp 0 0 0
                         (bi_CreationTime i) (bi_LastWriteTime i) (bi_LastAccessTime i)
           | None => FileInfo (text ".") (Some path) FILE_ATTRIBUTE_DIRECTORY empty_disp 0 0 0 0 0 0
           end in
  '(r, f, ticks) ← dump terminator file_map dump_fuel flags f ticks;
  if r <? 0 then Ret (-1, filelist, ticks) else
  let f := match pcb with Some cb => cb f | None => f end in
  let f := match fcb with Some cb => (cb f).2 | None => f end in
  Ret (0, f :: filelist, ticks).

(** [winx_ftw]: the list of files, empty for NULL. *)
Definition winx_ftw (path : str) (flags : Z) : outcome (list winx_file_info) :=
  let flags := effective_flags flags in
  '(result, filelist, _) ← ftw_helper tmalloc terminator file_map list_directory fcb pcb dump_fuel
                             fuel path flags [] 0;
  if (result =? -1) && negb (has_flag flags WINX_FTW_ALLOW_PARTIAL_SCAN) then Ret []
  else Ret (cleanup_list flags filelist).

(** [winx_scan_disk]. *)
Definition winx_scan_disk (letter flags : Z) : outcome (list winx_file_info) :=
  let letter := fast_toupper letter in
  let flags := effective_flags flags in
  if bool_decide (fs_name = Some (text "NTFS")) then
    filelist ← ntfs_scan_disk letter flags;
    Ret (cleanup_list flags filelist)
  else
    let rootpath := text "\??\" ++ [letter] ++ text ":\" in
    '(result, filelist, ticks) ← ftw_add_root_directory rootpath flags [] 0;
    if (result =? -1) && negb (has_flag flags WINX_FTW_ALLOW_PARTIAL_SCAN) then Ret [] else
    let flags := Z.lor flags WINX_FTW_RECURSIVE in
    '(result, filelist, _) ← ftw_helper tmalloc terminator file_map list_directory fcb pcb dump_fuel
                               fuel rootpath flags filelist ticks;
    if (result =? -1) && negb (has_flag flags WINX_FTW_ALLOW_PARTIAL_SCAN) then Ret []
    else Ret (cleanup_list flags filelist).
End entry.

(** ** The retrieval pointers of a file *)

(** The contract of FSCTL_GET_RETRIEVAL_POINTERS for a file whose runs are
    [map]: from a start it returns the runs that end behind it, at most [n] of
    them (what its buffer holds), and STATUS_BUFFER_OVERFLOW when there are
    more. *)
Definition runs_after (v : Z) (map : list (Z * Z)) : list (Z * Z) :=
  base.filter (fun p => v < p.1) map.

Definition retrieves (n : nat) (map : list (Z * Z)) (retrieve : Z → Z * GET_RETRIEVAL_DESCRIPTOR)
  : Prop :=
  ∀ v, retrieve v =
    (if decide (length (runs_after v map) ≤ n)%nat then STATUS_SUCCESS else STATUS_BUFFER_OVERFLOW,
     RetrievalDescriptor (Z.of_nat (Nat.min n (length (runs_after v map)))) v
       (take n (runs_after v map))).

(** A map: the runs follow each other, none ends at zero. *)
Fixpoint map_ok (v : Z) (map : list (Z * Z)) : Prop :=
  match map with
  | [] => True
  | (vcn, _) :: map => v < vcn ∧ map_ok vcn map
  end.

(** The disposition the map stands for. *)
Fixpoint map_disp (v : Z) (map : list (Z * Z)) (d : winx_file_disposition)
  : winx_file_disposition :=
  match map with
  | [] => d
  | (vcn, lcn) :: map =>
      map_disp vcn map (if lcn =? LLINVALID then d else append_block v lcn (u64 (vcn - v)) d)
  end.

Definition map_end (v : Z) (map : list (Z * Z)) : Z :=
  match last map with Some p => p.1 | None => v end.

Lemma map_ok_after v map : map_ok v map → runs_after v map = map.
Proof.
  revert v. induction map as [|[vcn lcn] map IH]; intros v; [done|]. intros [Hv Hm].
  unfold runs_after. rewrite filter_cons_True by done. f_equal.
  assert (Hgen : ∀ w m, v < w → map_ok w m → base.filter (fun p : Z * Z => v < p.1) m = m).
  { clear. intros w m. revert w. induction m as [|[x y] m IH]; intros w Hw; [done|].
    intros [Hx Hm]. rewrite filter_cons_True by (simpl; lia). f_equal. apply (IH x); [lia|done]. }
  by apply (Hgen vcn).
Qed.

Lemma map_ok_app v m1 m2 :
  map_ok v (m1 ++ m2) ↔ map_ok v m1 ∧ map_ok (map_end v m1) m2.
Proof.
  revert v. induction m1 as [|[x y] m1 IH]; intros v; [by split; [|intros []]|].
  assert (E : map_end v ((x, y) :: m1) = map_end x m1).
  { unfold map_end. rewrite last_cons. by destruct (last m1). }
  rewrite E. simpl. rewrite IH. tauto.
Qed.

Lemma map_disp_app v m1 m2 d :
  map_disp v (m1 ++ m2) d = map_disp (map_end v m1) m2 (map_disp v m1 d).
Proof.
  revert v d. induction m1 as [|[x y] m1 IH]; intros v d; [done|].
  assert (E : map_end v ((x, y) :: m1) = map_end x m1).
  { unfold map_end. rewrite last_cons. by destruct (last m1). }
  rewrite E. simpl. apply IH.
Qed.

Lemma map_end_ge v m : map_ok v m → v ≤ map_end v m.
Proof.
  revert v. induction m as [|[x y] m IH]; intros v; [unfold map_end; simpl; lia|].
  intros [Hx Hm]. specialize (IH x Hm). unfold map_end in *. rewrite last_cons.
  destruct (last m); simpl in *; lia.
Qed.

(** Behind a prefix of the map only the rest is left. *)
Lemma runs_after_app v m1 m2 :
  map_ok v (m1 ++ m2) → runs_after (map_end v m1) (m1 ++ m2) = m2.
Proof.
  rewrite map_ok_app. intros [H1 H2]. unfold runs_after. rewrite filter_app.
  change (base.filter _ m2) with (runs_after (map_end v m1) m2). rewrite map_ok_after by done.
  replace (base.filter _ m1) with (@nil (Z * Z)); [done|]. symmetry.
  clear H2. revert v H1. induction m1 as [|[x y] m1 IH]; intros v; [done|]. intros [Hx Hm].
  assert (E : map_end v ((x, y) :: m1) = map_end x m1).
  { unfold map_end. rewrite last_cons. by destruct (last m1). }
  rewrite E. pose proof (map_end_ge x m1 Hm). rewrite filter_cons_False by (simpl; lia).
  by apply IH.
Qed.

Lemma pairs_loop_ok m k n d v cells :
  cells = take n (drop k (Pair m)) → (n + k ≤ length (Pair m))%nat → (n + k ≤ 512)%nat →
  0 ≤ v → map_ok v cells →
  pairs_loop n m k v d = Ret (Some (map_disp v cells d, map_end v cells)).
Proof.
  intros ->. revert k v d. induction n as [|n IH]; intros k v d Hl H512 Hv; [done|].
  destruct (lookup_lt_is_Some_2 (Pair m) k) as [[vcn lcn] E]; [lia|].
  rewrite (drop_S _ _ _ E). intros Hok. cbn [take] in *. destruct Hok as [Hvcn Hok].
  cbn [pairs_loop]. unfold pair_at. rewrite bool_decide_true, E by lia. simpl.
  assert (Hend : map_end v ((vcn, lcn) :: take n (drop (S k) (Pair m))) =
                 map_end vcn (take n (drop (S k) (Pair m)))).
  { unfold map_end. rewrite last_cons. by destruct (last _). }
  rewrite Hend. destruct (lcn =? LLINVALID); [|rewrite (proj2 (Z.eqb_neq _ _)) by lia];
    apply IH; (done || lia).
Qed.

(** One portion after another, the loop collects the whole map. *)
Lemma dump_loop_ok n map retrieve fuel m1 m2 ticks :
  (1 ≤ n ≤ 512)%nat → retrieves n map retrieve → map = m1 ++ m2 → map_ok 0 map →
  (length m2 < fuel)%nat →
  dump_loop None retrieve fuel (map_end 0 m1) (map_disp 0 m1 empty_disp) ticks =
  Ret (DumpDone (map_disp 0 map empty_disp), ticks).
Proof.
  intros Hn Hret Hmap Hok. revert m1 m2 Hmap. induction fuel as [|fuel IH]; intros m1 m2 Hmap Hf; [lia|].
  cbn [dump_loop]. rewrite Hret. rewrite Hmap, runs_after_app by (by rewrite <- Hmap).
  set (rest := m2). set (k := Nat.min n (length rest)).
  assert (Hp : pairs_loop (Z.to_nat (Z.of_nat k))
      (RetrievalDescriptor (Z.of_nat k) (map_end 0 m1) (take n rest)) 0 (map_end 0 m1)
      (map_disp 0 m1 empty_disp) =
    Ret (Some (map_disp (map_end 0 m1) (take k rest) (map_disp 0 m1 empty_disp),
               map_end (map_end 0 m1) (take k rest)))).
  { rewrite Nat2Z.id. subst k. apply pairs_loop_ok; cbn [Pair]; rewrite ?length_take; try lia.
    - rewrite drop_0, take_take. f_equal. lia.
    - apply (map_end_ge 0). rewrite Hmap, map_ok_app in Hok. apply Hok.
    - rewrite Hmap, map_ok_app in Hok. destruct Hok as [_ H2]. fold rest in H2.
      rewrite <- (take_drop (Nat.min n (length rest)) rest), map_ok_app in H2. apply H2. }
  destruct (decide (length rest ≤ n)%nat) as [Hall|Hmore].
  - cbn [ftw_check_for_termination]. rewrite andb_false_l, andb_false_r.
    cbn [NumberOfPairs StartVcn]. rewrite Hp. rewrite outcome_bind_ret. cbn iota.
    rewrite map_disp_app. subst k rest. rewrite take_ge by lia. done.
  - cbn [ftw_check_for_termination]. cbn [NumberOfPairs StartVcn].
    rewrite (proj2 (Z.eqb_neq (Z.of_nat k) 0)) by (subst k; lia). simpl.
    rewrite Hp. rewrite outcome_bind_ret. cbn iota.
    assert (k = n) as Hk by (subst k; lia).
    specialize (IH (m1 ++ take k rest) (drop k rest)).
    assert (Hend : map_end 0 (m1 ++ take k rest) = map_end (map_end 0 m1) (take k rest)).
    { unfold map_end. rewrite last_app. by destruct (last (take k rest)). }
    rewrite <- Hend, <- map_disp_app. rewrite IH; [by rewrite Hmap | |].
    + by rewrite <- app_assoc, take_drop.
    + rewrite length_drop. subst rest. lia.
Qed.

Fixpoint map_blocks (v : Z) (map : list (Z * Z)) : list winx_blockmap :=
  match map with
  | [] => []
  | (vcn, lcn) :: map =>
      if lcn =? LLINVALID then map_blocks vcn map
      else Block v lcn (u64 (vcn - v)) :: map_blocks vcn map
  end.

Lemma map_disp_blocks v map d : blockmap (map_disp v map d) = blockmap d ++ map_blocks v map.
Proof.
  revert v d. induction map as [|[vcn lcn] map IH]; intros v d; simpl; [by rewrite app_nil_r|].
  rewrite IH. destruct (lcn =? LLINVALID); [done|]. simpl. by rewrite <- app_assoc.
Qed.

Lemma map_blocks_vcn v map : map_ok v map → Forall (fun b => v ≤ bk_vcn b) (map_blocks v map).
Proof.
  revert v. induction map as [|[vcn lcn] map IH]; intros v; simpl; [constructor|].
  intros [Hv Hok]. assert (Forall (fun b => v ≤ bk_vcn b) (map_blocks vcn map)) as Hf.
  { eapply Forall_impl; [by apply IH|]. simpl. lia. }
  destruct (lcn =? LLINVALID); [done|]. by constructor.
Qed.

(** The runs of a map start at different clusters of the file. *)
Lemma map_blocks_first v map b1 b2 bs :
  map_ok v map → map_blocks v map = b1 :: b2 :: bs → bk_vcn b1 < bk_vcn b2.
Proof.
  revert v. induction map as [|[vcn lcn] map IH]; intros v; simpl; [done|].
  intros [Hv Hok]. destruct (lcn =? LLINVALID); [by apply IH|]. intros [= <- E]. simpl.
  pose proof (map_blocks_vcn vcn map Hok) as Hf. rewrite E in Hf.
  apply Forall_cons in Hf as [? _]. lia.
Qed.

Lemma validate_map map f :
  map_ok 0 map →
  validate_blockmap (set_disp (map_disp 0 map empty_disp) f) = set_disp (map_disp 0 map empty_disp) f.
Proof.
  intros Hok. unfold validate_blockmap. cbn [disp set_disp]. rewrite map_disp_blocks. simpl.
  destruct (map_blocks 0 map) as [|b1 [|b2 bs]] eqn:E; [done..|].
  pose proof (map_blocks_first 0 map b1 b2 bs Hok E).
  by rewrite (proj2 (Z.eqb_neq _ _)) by lia.
Qed.

(** The dump of a whole file. *)
Lemma dump_file_ok n map retrieve fuel f ticks :
  (1 ≤ n ≤ 512)%nat → retrieves n map retrieve → map_ok 0 map → (length map < fuel)%nat →
  winx_ftw_dump_file None retrieve fuel true f ticks =
    Ret (0, set_disp (map_disp 0 map empty_disp) f, ticks).
Proof.
  intros Hn Hret Hok Hf. unfold winx_ftw_dump_file. cbn [negb].
  pose proof (dump_loop_ok n map retrieve fuel [] map ticks Hn Hret eq_refl Hok Hf) as E.
  change (map_end 0 []) with 0 in E. simpl map_disp at 1 in E. rewrite E.
  cbn [mbind outcome_bind]. by rewrite validate_map.
Qed.

Lemma map_disp_ok v map d : disp_ok d → disp_ok (map_disp v map d).
Proof.
  revert v d. induction map as [|[vcn lcn] map IH]; intros v d Hd; simpl; [done|].
  apply IH. destruct (_ =? _); [done | by apply append_block_ok].
Qed.

(** ** The loops that remove entries *)
Section remove.
Context `{!Allocator (node winx_file_info)} (test : winx_file_info → bool).

Definition keep (l : list (loc * winx_file_info)) : list (loc * winx_file_info) :=
  base.filter (fun x => test x.2 = false) l.

Lemma keep_data l : (keep l).*2 = without test l.*2.
Proof.
  induction l as [|[p a] l IH]; [done|]. unfold keep, without in *. simpl.
  rewrite !filter_cons. simpl. case_decide; simpl; [f_equal|]; exact IH.
Qed.

Lemma remove_loop_spec fuel h head l1 l2 p a :
  is_list h head (l1 ++ (p, a) :: l2) → Forall (fun x => test x.2 = false) l1 →
  (length l2 < fuel)%nat →
  ∃ h' head', remove_loop fuel test head (Some p) h = Ret (head', h') ∧
    is_list h' head' (l1 ++ keep ((p, a) :: l2)).
Proof.
  revert h head l1 l2 p a. induction fuel as [|fuel IH]; intros h head l1 l2 p a Hl Hl1 Hf; [lia|].
  cbn [remove_loop]. erewrite st_bind_ret by (apply load_ok; by eapply is_list_lookup).
  cbn beta. cbn [data next]. pose proof Hl as [Hhead _]. pose proof (next_is_head _ _ _ _ _ _ Hl) as Hnext. unfold keep. rewrite filter_cons. simpl.
  destruct (test a) eqn:Ea.
  - destruct (winx_list_remove_spec h head l1 l2 p a Hl) as (h' & Hr & Hl' & _).
    erewrite st_bind_ret by exact Hr. cbn beta.
    rewrite (decide_False (P := true = false)) by done.
    destruct l2 as [|[q b] l2].
    + destruct (decide (fst_ptr (l1 ++ []) None = None)); [|rewrite decide_True by done];
        (eexists _, _; split; [reflexivity | exact Hl']).
    + rewrite decide_False by (by destruct l1 as [|[]]).
      rewrite decide_False by (rewrite Hnext; done).
      cbn [fst_ptr]. apply IH; [exact Hl' | done | simpl in Hf; lia].
  - erewrite st_bind_ret by reflexivity. cbn beta.
    rewrite decide_False by (rewrite Hhead; by destruct l1 as [|[]]).
    rewrite (decide_True (P := false = false)) by done. destruct l2 as [|[q b] l2].
    + cbn [fst_ptr]. rewrite decide_True by done. eexists _, _. split; [reflexivity|]. done.
    + rewrite decide_False by (rewrite Hnext; done).
      rewrite cons_middle, app_assoc in Hl. cbn [fst_ptr].
      destruct (IH h head (l1 ++ [(p, a)]) l2 q b Hl) as (h' & head' & Hr & Hl').
      * apply Forall_app. by split; [|constructor].
      * simpl in Hf. lia.
      * exists h', head'. split; [exact Hr|]. by rewrite <- app_assoc in Hl'.
Qed.
End remove.

(** ** What a walk finds *)
Section walks.
Context (file_map : str → option (Z → Z * GET_RETRIEVAL_DESCRIPTOR)).
Context (list_directory : str → option (list dir_entry)).
Context (fcb : option (winx_file_info → Z * winx_file_info)).
Context (pcb : option (winx_file_info → winx_file_info)).
Context (dump_fuel : nat) (flags : Z).

(** A file as the callbacks leave it, and whether its children are skipped. *)
Definition visit (f : winx_file_info) : Z * winx_file_info :=
  let f := match pcb with Some cb => cb f | None => f end in
  match fcb with Some cb => cb f | None => (0, f) end.

(** Directories that are not reparse points and not filtered out. *)
Definition descends (skip_children : Z) (f : winx_file_info) : bool :=
  has_flag (fi_flags f) FILE_ATTRIBUTE_DIRECTORY && has_flag flags WINX_FTW_RECURSIVE &&
  (skip_children =? 0) && negb (has_flag (fi_flags f) FILE_ATTRIBUTE_REPARSE_POINT).

(** [walk_dir path fs]: the tree under [path] holds the files [fs], a
    directory before its contents. *)
Inductive walk_dir : str → list winx_file_info → Prop :=
| walk_locked path : list_directory path = None → walk_dir path []
| walk_listed path es fs :
    list_directory path = Some es → walk_entries path es fs → walk_dir path fs
with walk_entries : str → list dir_entry → list winx_file_info → Prop :=
| walk_nil path : walk_entries path [] []
| walk_skip path e es fs :
    skip_entry e = true → walk_entries path es fs → walk_entries path (e :: es) fs
| walk_file path e es fs f0 skip f :
    skip_entry e = false →
    (∀ t, dump None file_map dump_fuel flags (entry_info path e) t = Ret (0, f0, t)) →
    visit f0 = (skip, f) → descends skip f = false →
    walk_entries path es fs → walk_entries path (e :: es) (f :: fs)
| walk_subdir path e es fs f0 skip f sub :
    skip_entry e = false →
    (∀ t, dump None file_map dump_fuel flags (entry_info path e) t = Ret (0, f0, t)) →
    visit f0 = (skip, f) → descends skip f = true → default [] (fi_path f) ≠ [] →
    walk_dir (default [] (fi_path f)) sub → walk_entries path es fs →
    walk_entries path (e :: es) (f :: sub ++ fs).

Scheme walk_dir_mut := Minimality for walk_dir Sort Prop
  with walk_entries_mut := Minimality for walk_entries Sort Prop.

Context (tmalloc : Z → bool) (Htm : ∀ n, tmalloc n = true).

Abbreviation helper := (ftw_helper tmalloc None file_map list_directory fcb pcb dump_fuel).

(** The loop over the entries of a directory, the body of [ftw_helper]. *)
Definition next_loop (fuel : nat) (path : str) : list dir_entry → list winx_file_info → nat →
    outcome (Z * list winx_file_info * nat) :=
  fix next entries filelist ticks :=
    match entries with
    | [] => Ret (0, filelist, ticks)
    | e :: entries =>
        if skip_entry e then next entries filelist ticks else
        '(f, filelist, ticks) ← ftw_add_entry_to_filelist tmalloc None file_map dump_fuel path flags
                                  filelist ticks e;
        match f with
        | None => Ret (-1, filelist, ticks)
        | Some f =>
            let '(skip_children, f) := visit f in
            let filelist := set_head f filelist in
            if descends skip_children f then
              '(result, filelist, ticks) ← helper fuel (default [] (fi_path f)) flags filelist ticks;
              if result <? 0 then Ret (result, filelist, ticks) else next entries filelist ticks
            else next entries filelist ticks
        end
    end.

Lemma ftw_helper_S fuel path fl ticks :
  helper (S fuel) path flags fl ticks =
  match list_directory path with
  | None => Ret (0, fl, ticks)
  | Some es => next_loop fuel path es fl ticks
  end.
Proof.
  cbn [ftw_helper]. destruct (list_directory path) as [es|]; [|done].
  revert fl ticks. induction es as [|e es IH]; intros fl ticks; [done|].
  cbn [next_loop ftw_check_for_termination]. destruct (skip_entry e); [apply IH|].
  destruct (ftw_add_entry_to_filelist _ _ _ _ _ _ _ _ _) as [[[[f|] fl'] t']| |]; [|done..].
  cbn [mbind outcome_bind]. unfold visit, descends.
  destruct (match fcb with Some cb => _ | None => _ end) as [skip g].
  destruct (_ && _); [|apply IH].
  destruct (helper fuel _ _ _ _) as [[[r fl''] t'']| |]; [|done..].
  cbn [mbind outcome_bind]. destruct (r <? 0); [done|]. apply IH.
Qed.

(** Adding an entry whose dump succeeds. *)
Lemma add_entry_ok path fl t e f0 :
  path ≠ [] → (∀ t, dump None file_map dump_fuel flags (entry_info path e) t = Ret (0, f0, t)) →
  ftw_add_entry_to_filelist tmalloc None file_map dump_fuel path flags fl t e =
  Ret (Some f0, f0 :: fl, t).
Proof.
  intros Hp Hd. unfold ftw_add_entry_to_filelist. rewrite decide_False by done.
  rewrite !Htm. cbn [negb]. by rewrite Hd.
Qed.

Lemma walk_helper path fs :
  walk_dir path fs → path ≠ [] →
  ∃ N, ∀ fuel fl t, (N ≤ fuel)%nat → helper fuel path flags fl t = Ret (0, rev fs ++ fl, t).
Proof.
  intros Hw. induction Hw using walk_dir_mut with
    (P0 := fun path es fs => path ≠ [] → ∃ N, ∀ fuel fl t, (N ≤ fuel)%nat →
      next_loop fuel path es fl t = Ret (0, rev fs ++ fl, t)).
  - intros _. exists 1%nat. intros [|fuel] fl t Hf; [lia|]. rewrite ftw_helper_S.
    match goal with H : list_directory _ = None |- _ => by rewrite H end.
  - intros Hp. destruct (IHHw Hp) as [N HN]. exists (S N). intros [|fuel] fl t Hf; [lia|].
    rewrite ftw_helper_S. match goal with H : list_directory _ = Some _ |- _ => rewrite H end.
    apply HN. lia.
  - intros _. exists O. done.
  - intros Hp. destruct (IHHw Hp) as [N HN]. exists N. intros fuel fl t Hf. cbn [next_loop].
    match goal with H : skip_entry _ = _ |- _ => rewrite H end. by apply HN.
  - intros Hp. destruct (IHHw Hp) as [N HN]. exists N. intros fuel fl t Hf. cbn [next_loop].
    match goal with H : skip_entry _ = _ |- _ => rewrite H end.
    erewrite add_entry_ok by done. rewrite outcome_bind_ret. cbn iota.
    match goal with H : visit _ = _ |- _ => rewrite H end.
    match goal with H : descends _ _ = _ |- _ => rewrite H end.
    cbn [set_head]. rewrite HN by done. simpl. by rewrite <- app_assoc.
  - intros Hp. destruct (IHHw H3) as [N1 HN1]. destruct (IHHw0 Hp) as [N2 HN2].
    exists (Nat.max N1 N2). intros fuel fl t Hf. cbn [next_loop].
    match goal with H : skip_entry _ = _ |- _ => rewrite H end.
    erewrite add_entry_ok by done. rewrite outcome_bind_ret. cbn iota.
    match goal with H : visit _ = _ |- _ => rewrite H end.
    match goal with H : descends _ _ = _ |- _ => rewrite H end.
    cbn [set_head]. rewrite HN1 by lia. rewrite outcome_bind_ret. simpl. rewrite HN2 by lia.
    rewrite rev_app_distr, <- !app_assoc. done.
Qed.
End walks.

(** ** Properties *)

(** C26: however few runs the file system returns at a time, the dump of a file
    collects its whole map, in order, with the numbers of clusters and
    fragments that belong to it. *)
Theorem winx_ftw_dump_file_complete n map retrieve fuel f ticks :
  (1 ≤ n ≤ 512)%nat → retrieves n map retrieve → map_ok 0 map → (length map < fuel)%nat →
  winx_ftw_dump_file None retrieve fuel true f ticks =
    Ret (0, set_disp (map_disp 0 map empty_disp) f, ticks) ∧
  disp_ok (map_disp 0 map empty_disp).
Proof.
  intros Hn Hret Hok Hf. split; [|apply map_disp_ok, empty_disp_ok].
  by eapply dump_file_ok.
Qed.

Lemma winx_ftw_dump_file_complete_witness :
  let map := [(4, 100); (6, LLINVALID); (9, 104); (12, 50)] in
  let retrieve v :=
    (if decide (length (runs_after v map) ≤ 1)%nat then STATUS_SUCCESS else STATUS_BUFFER_OVERFLOW,
     RetrievalDescriptor (Z.of_nat (Nat.min 1 (length (runs_after v map)))) v
       (take 1 (runs_after v map))) in
  let f := FileInfo (text "a") None 0 empty_disp 0 0 0 0 0 0 in
  winx_ftw_dump_file None retrieve 5 true f 0 =
    Ret (0, set_disp (Disp 10 2 [Block 0 100 4; Block 6 104 3; Block 9 50 3]) f, O) ∧
  disp_ok (Disp 10 2 [Block 0 100 4; Block 6 104 3; Block 9 50 3]).
Proof.
  intros map retrieve f.
  apply (winx_ftw_dump_file_complete 1 map retrieve 5 f 0); [lia | done | simpl; lia | simpl; lia].
Defined.

(** The loops that remove resident and invalid streams while they walk the
    circular list run without touching freed memory and end; they keep the
    other entries, in order. *)
Theorem ftw_remove_streams_refine `{!Allocator (node winx_file_info)} fuel h head l :
  is_list h head l → (length l < fuel)%nat →
  (∃ h' head' l', ftw_remove_resident_streams fuel head h = Ret (head', h') ∧
     is_list h' head' l' ∧ l'.*2 = without is_resident_stream l.*2) ∧
  (∃ h' head' l', ftw_remove_invalid_streams fuel head h = Ret (head', h') ∧
     is_list h' head' l' ∧ l'.*2 = without is_invalid_stream l.*2).
Proof.
  intros Hl Hf.
  assert (Hgen : ∀ test, ∃ h' head' l', remove_loop fuel test head head h = Ret (head', h') ∧
     is_list h' head' l' ∧ l'.*2 = without test l.*2).
  { intros test. destruct l as [|[p a] l].
    - apply is_list_nil in Hl as ->. destruct fuel; [lia|]. exists h, None, [].
      split_and!; [done | by apply is_list_nil | done].
    - pose proof Hl as [-> _]. simpl in Hf.
      destruct (remove_loop_spec test fuel h _ [] l p a Hl) as (h' & head' & Hr & Hl');
        [constructor | lia |].
      exists h', head', (keep test ((p, a) :: l)). split_and!; [exact Hr | exact Hl' | apply keep_data]. }
  split; apply Hgen.
Qed.

Definition sample_file (frags : Z) (path : option str) : winx_file_info :=
  FileInfo [] path 0 (Disp 0 frags []) 0 0 0 0 0 0.

Lemma ftw_remove_streams_refine_witness :
  let A := bump_allocator (node winx_file_info) in
  let f1 := sample_file 0 (Some [1]) in
  let f2 := sample_file 1 None in
  let h := <[1%positive := Node (Some 2%positive) (Some 2%positive) f1]>
           (<[2%positive := Node (Some 1%positive) (Some 1%positive) f2]> ∅)
           : gmap loc (node winx_file_info) in
  (∃ h' head' l', ftw_remove_resident_streams 3 (Some 1%positive) h = Ret (head', h') ∧
     is_list h' head' l' ∧ l'.*2 = [f2]) ∧
  (∃ h' head' l', ftw_remove_invalid_streams 3 (Some 1%positive) h = Ret (head', h') ∧
     is_list h' head' l' ∧ l'.*2 = [f1]).
Proof.
  intros A f1 f2 h.
  apply (ftw_remove_streams_refine (Allocator0 := A) 3 h (Some 1%positive)
    [(1%positive, f1); (2%positive, f2)]); [|simpl; lia].
  split; [done|]. split; [|by repeat split]. apply (bool_decide_unpack _). by vm_compute.
Defined.

(** C28: with enough memory, no terminator and maps that can be read
    ([walk_dir]), the recursive walk of a directory tree returns the files of
    the tree, each with its path and map and as the callbacks left it, in the
    reverse of the order in which they were listed: a directory comes after its
    contents.  The cleanup drops entries from that list ([cleanup_list]): files
    without a path and, when resident streams are to be skipped, files without
    fragments. *)
Theorem winx_ftw_walk tmalloc file_map list_directory fcb pcb dump_fuel path flags fs :
  (∀ n, tmalloc n = true) → path ≠ [] →
  walk_dir file_map list_directory fcb pcb dump_fuel (effective_flags flags) path fs →
  ∃ N, ∀ fuel, (N ≤ fuel)%nat →
    winx_ftw tmalloc None file_map list_directory fcb pcb dump_fuel fuel path flags =
    Ret (cleanup_list (effective_flags flags) (rev fs)).
Proof.
  intros Htm Hp Hw. destruct (walk_helper _ _ _ _ _ _ tmalloc Htm path fs Hw Hp) as [N HN].
  exists N. intros fuel Hf. unfold winx_ftw. rewrite HN by done. by rewrite app_nil_r.
Qed.

(** A directory with a file and a subdirectory that holds another file. *)
Definition sample_tree (path : str) : option (list dir_entry) :=
  if decide (path = text "\??\C:\d") then
    Some [DirEntry (text ".") 0x10 0 0 0; DirEntry (text "a") 0x20 1 2 3;
          DirEntry (text "s") 0x10 4 5 6]
  else if decide (path = text "\??\C:\d\s") then Some [DirEntry (text "b") 0x20 7 8 9]
  else None.

Definition tree_file (name path : str) (attrs c w a : Z) : winx_file_info :=
  FileInfo name (Some path) attrs empty_disp 0 0 0 c w a.

Lemma winx_ftw_walk_witness :
  ∃ N, ∀ fuel, (N ≤ fuel)%nat →
    winx_ftw (fun _ => true) None (fun _ => None) sample_tree None None 0 fuel
      (text "\??\C:\d") WINX_FTW_RECURSIVE =
    Ret [tree_file (text "b") (text "\??\C:\d\s\b") 0x20 7 8 9;
         tree_file (text "s") (text "\??\C:\d\s") 0x10 4 5 6;
         tree_file (text "a") (text "\??\C:\d\a") 0x20 1 2 3].
Proof.
  apply (winx_ftw_walk (fun _ => true) (fun _ => None) sample_tree None None 0
    (text "\??\C:\d") WINX_FTW_RECURSIVE
    [tree_file (text "a") (text "\??\C:\d\a") 0x20 1 2 3;
     tree_file (text "s") (text "\??\C:\d\s") 0x10 4 5 6;
     tree_file (text "b") (text "\??\C:\d\s\b") 0x20 7 8 9]); [done | done |].
  eapply walk_listed; [by vm_compute|]. apply walk_skip; [by vm_compute|].
  eapply walk_file; [by vm_compute | intros t; reflexivity | reflexivity | by vm_compute |].
  apply (walk_subdir _ _ _ _ _ _ _ _ _ _ (tree_file (text "s") (text "\??\C:\d\s") 0x10 4 5 6) 0 _
    [tree_file (text "b") (text "\??\C:\d\s\b") 0x20 7 8 9]);
    [by vm_compute | intros t; reflexivity | reflexivity | by vm_compute | done | | constructor].
  eapply walk_listed; [by vm_compute|].
  eapply walk_file; [by vm_compute | intros t; reflexivity | reflexivity | by vm_compute |].
  constructor.
Defined.

(** A map that is found wrong is destroyed, but its clusters and fragments
    stay counted. *)
Theorem validate_blockmap_keeps_counters :
  let d := Disp 8 2 [Block 0 10 4; Block 0 20 4] in
  let f := validate_blockmap (set_disp d (sample_file 0 None)) in
  blockmap (disp f) = [] ∧ fragments (disp f) = 2 ∧ disp_ok d ∧ ¬ disp_ok (disp f).
Proof. vm_compute. split_and!; [done..|]. by intros [? ?]. Qed.
