(* ===== verification/FtwRelease.v ===== *)
(** * ftw.c: releasing a list of files

    [winx_ftw_release] at the level of the memory: files are items of a list of
    [DList] that point to their names, paths and block maps.  A list that owns
    its memory is freed with everything it points to, each object once. *)
From S2P Require Import Prelude DList Bitmap CString FileInfo.
From stdpp Require Import prelude gmap strings.
Open Scope Z_scope.

(** ** Releasing a list of files *)

(** The pointers of a winx_file_info: name, path and disp.blockmap. *)
Record file_ptrs : Type := FilePtrs {
  fp_name : ptr;
  fp_path : ptr;
  fp_blockmap : ptr;
}.

Definition no_blockmap (f : file_ptrs) : file_ptrs := FilePtrs (fp_name f) (fp_path f) None.

(** The memory: files, strings and blocks. *)
Record file_memory : Type := FileMemory {
  m_files : gmap loc (node file_ptrs);
  m_strings : gmap loc str;
  m_blocks : gmap loc (node winx_blockmap);
}.

Definition on_files {A} (m : ST (gmap loc (node file_ptrs)) A) : ST file_memory A := fun s =>
  '(a, h) ← m (m_files s); Ret (a, FileMemory h (m_strings s) (m_blocks s)).

Definition on_strings {A} (m : ST (gmap loc str) A) : ST file_memory A := fun s =>
  '(a, h) ← m (m_strings s); Ret (a, FileMemory (m_files s) h (m_blocks s)).

Definition on_blocks {A} (m : ST (gmap loc (node winx_blockmap)) A) : ST file_memory A := fun s =>
  '(a, h) ← m (m_blocks s); Ret (a, FileMemory (m_files s) (m_strings s) h).

(** [winx_free]: nothing for NULL. *)
Definition free_string (p : ptr) : ST (gmap loc str) unit :=
  match p with None => mret tt | Some _ => release p end.

(** The body of the loop; [fuel] is for the block map. *)
Definition release_file (fuel : nat) (f : ptr) : ST file_memory unit :=
  nd ← on_files (load f);
  _ ← on_strings (free_string (fp_name (data nd)));
  _ ← on_strings (free_string (fp_path (data nd)));
  _ ← on_blocks (winx_list_destroy fuel (fp_blockmap (data nd)));
  on_files (modify f (set_data no_blockmap)).

Fixpoint release_loop (fuel n : nat) (filelist f : ptr) : ST file_memory unit :=
  match f with
  | None => mret tt
  | Some _ =>
      match n with
      | O => st_nofuel
      | S n =>
          _ ← release_file fuel f;
          nd ← on_files (load f);
          if decide (next nd = filelist) then mret tt else release_loop fuel n filelist (next nd)
      end
  end.

Definition winx_ftw_release (fuel : nat) (filelist : ptr) : ST file_memory unit :=
  _ ← release_loop fuel fuel filelist filelist;
  _ ← on_files (winx_list_destroy fuel filelist);
  mret tt.

(** The strings of a file, and of a list of files. *)
Definition strings_of (f : file_ptrs) : list loc := option_list (fp_name f) ++ option_list (fp_path f).

Definition list_strings (l : list (loc * file_ptrs)) : list loc := l ≫= fun x => strings_of x.2.

Definition list_blocks (bs : list (list (loc * winx_blockmap))) : list loc := bs ≫= fun b => b.*1.

(** Exactly these objects are gone. *)
Definition gone {V} (h h' : gmap loc V) (ks : list loc) : Prop :=
  ∀ k, h' !! k = if decide (k ∈ ks) then None else h !! k.

Lemma gone_nil {V} (h : gmap loc V) : gone h h [].
Proof. intros k. by rewrite decide_False by apply not_elem_of_nil. Qed.

Lemma gone_app {V} (h1 h2 h3 : gmap loc V) ks1 ks2 : gone h1 h2 ks1 → gone h2 h3 ks2 → gone h1 h3 (ks1 ++ ks2).
Proof.
  intros H1 H2 k. rewrite H2, H1. pose proof (elem_of_app ks1 ks2 k). repeat case_decide; tauto.
Qed.

Lemma gone_kept {V} (h h' : gmap loc V) ks k : gone h h' ks → k ∉ ks → h' !! k = h !! k.
Proof. intros H Hk. by rewrite H, decide_False. Qed.

Lemma free_string_run p h :
  (∀ q, q ∈ option_list p → is_Some (h !! q)) →
  ∃ h', free_string p h = Ret (tt, h') ∧ gone h h' (option_list p).
Proof.
  destruct p as [q|]; intros Hp; [|exists h; split; [done | apply gone_nil]].
  destruct (Hp q) as [v E]; [by left|]. exists (delete q h). split; [by apply (release_ok _ v)|].
  intros k. case_decide as Hk.
  - apply list_elem_of_singleton in Hk as ->. apply lookup_delete_eq.
  - rewrite lookup_delete_ne; [done|]. intros <-. apply Hk. by left.
Qed.

(** Blocks of a list that is outside of what has gone are still a list. *)
Lemma is_list_kept {A} (h h' : gmap loc (node A)) head l ks :
  gone h h' ks → (∀ k, k ∈ l.*1 → k ∉ ks) → is_list h head l → is_list h' head l.
Proof. intros Hg Hk. apply is_list_ext. intros k Hin. by eapply gone_kept, Hk. Qed.

Section release.
Context (fuel : nat).

Lemma release_file_run head l1 l2 p f bl s :
  is_list (m_files s) head (l1 ++ (p, f) :: l2) → NoDup (strings_of f) →
  (∀ q, q ∈ strings_of f → is_Some (m_strings s !! q)) →
  is_list (m_blocks s) (fp_blockmap f) bl → (length bl ≤ fuel)%nat →
  ∃ s', release_file fuel (Some p) s = Ret (tt, s') ∧
    is_list (m_files s') head (l1 ++ (p, no_blockmap f) :: l2) ∧ (∀ k, k ≠ p → m_files s' !! k = m_files s !! k) ∧
    gone (m_strings s) (m_strings s') (strings_of f) ∧ gone (m_blocks s) (m_blocks s') (bl.*1).
Proof.
  intros Hl Hnd Hstr Hbl Hlen. unfold strings_of in *. apply NoDup_app in Hnd as (_ & Hnd & _).
  destruct (free_string_run (fp_name f) (m_strings s)) as (h1 & E1 & G1); [set_solver|].
  destruct (free_string_run (fp_path f) h1) as (h2 & E2 & G2).
  { intros q Hq. rewrite (gone_kept _ _ _ _ G1); [set_solver|]. intros Hq'. by apply (Hnd q). }
  destruct (winx_list_destroy_spec fuel _ _ _ Hbl Hlen) as (h3 & E3 & Hin & Hout).
  destruct (is_list_update _ _ _ _ _ _ no_blockmap Hl) as (h4 & E4 & Hl' & Hkeep).
  exists (FileMemory h4 h2 h3). split_and!; [| done | done | by eapply gone_app |].
  - unfold release_file. pose proof (is_list_lookup _ _ _ _ _ _ Hl) as Ep.
    erewrite st_bind_ret by (unfold on_files; rewrite (load_ok _ _ _ Ep); reflexivity). cbn [data].
    erewrite st_bind_ret by (unfold on_strings; cbn [m_strings]; rewrite E1; reflexivity).
    erewrite st_bind_ret by (unfold on_strings; cbn [m_strings]; rewrite E2; reflexivity).
    erewrite st_bind_ret by (unfold on_blocks; cbn [m_blocks]; rewrite E3; reflexivity).
    unfold on_files. cbn [m_files m_strings m_blocks]. by rewrite E4.
  - intros k. case_decide; [by apply Hin | by apply Hout].
Qed.
End release.

(** A list of files that owns its memory: no string and no block belongs to two
    files. *)
Record owned (s : file_memory) (head : ptr) (l1 l2 : list (loc * file_ptrs))
    (bs : list (list (loc * winx_blockmap))) : Prop := {
  ow_list : is_list (m_files s) head (l1 ++ l2);
  ow_strings : NoDup (list_strings l2);
  ow_live q : q ∈ list_strings l2 → is_Some (m_strings s !! q);
  ow_blocks : Forall2 (fun x b => is_list (m_blocks s) (fp_blockmap x.2) b) l2 bs;
  ow_apart : NoDup (list_blocks bs);
}.

(** What a part of the loop leaves. *)
Record released (s s' : file_memory) (l : list (loc * file_ptrs)) (bs : list (list (loc * winx_blockmap))) : Prop := {
  re_files k : k ∉ l.*1 → m_files s' !! k = m_files s !! k;
  re_strings : gone (m_strings s) (m_strings s') (list_strings l);
  re_blocks : gone (m_blocks s) (m_blocks s') (list_blocks bs);
}.

Lemma released_cons s s1 s' p f l b bs :
  (∀ k, k ≠ p → m_files s1 !! k = m_files s !! k) →
  gone (m_strings s) (m_strings s1) (strings_of f) → gone (m_blocks s) (m_blocks s1) (b.*1) →
  released s1 s' l bs → released s s' ((p, f) :: l) (b :: bs).
Proof.
  intros Hf Hs Hb [Rf Rs Rb]. split.
  - intros k Hk. cbn in Hk. apply not_elem_of_cons in Hk as [Hk1 Hk2]. by rewrite Rf, Hf.
  - exact (gone_app _ _ _ _ _ Hs Rs).
  - exact (gone_app _ _ _ _ _ Hb Rb).
Qed.

Section release_list.
Context (fuel : nat).

Lemma release_step head l1 l2 p f b bs s :
  owned s head l1 ((p, f) :: l2) (b :: bs) → (length b ≤ fuel)%nat →
  ∃ s1, release_file fuel (Some p) s = Ret (tt, s1) ∧ owned s1 head (l1 ++ [(p, no_blockmap f)]) l2 bs ∧
    (∀ k, k ≠ p → m_files s1 !! k = m_files s !! k) ∧
    gone (m_strings s) (m_strings s1) (strings_of f) ∧ gone (m_blocks s) (m_blocks s1) (b.*1).
Proof.
  intros [Hl Hnd Hlive Hbl Hap] Hlen.
  change (list_strings ((p, f) :: l2)) with (strings_of f ++ list_strings l2) in Hnd, Hlive.
  change (list_blocks (b :: bs)) with (b.*1 ++ list_blocks bs) in Hap.
  apply NoDup_app in Hnd as (Hnd1 & Hdis & Hnd2). apply NoDup_app in Hap as (_ & Hbdis & Hap).
  apply Forall2_cons in Hbl as [Hb Hbl]. cbn [snd] in Hb.
  destruct (release_file_run fuel head l1 l2 p f b s Hl Hnd1) as (s1 & E & Hl1 & Hf & Hs & Hbg); [|done|done|].
  { intros q Hq. apply Hlive, elem_of_app. by left. }
  exists s1. split_and!; [done | | done..]. split.
  - by rewrite <- app_assoc.
  - done.
  - intros q Hq. rewrite (gone_kept _ _ _ _ Hs); [apply Hlive, elem_of_app; by right|].
    intros Hq'. by apply (Hdis q).
  - clear -Hbl Hbg Hbdis. induction Hbl as [|x b' l2 bs Hx Hbl IH]; constructor.
    + eapply is_list_kept; [exact Hbg | | exact Hx]. intros k Hk Hk'. apply (Hbdis k Hk').
      change (list_blocks (b' :: bs)) with (b'.*1 ++ list_blocks bs). set_solver.
    + apply IH. intros k Hk Hk'. apply (Hbdis k Hk).
      change (list_blocks (b' :: bs)) with (b'.*1 ++ list_blocks bs). set_solver.
  - done.
Qed.

Lemma release_loop_run head : ∀ l2 bs l1 n s,
  owned s head l1 l2 bs → Forall (fun b => length b ≤ fuel)%nat bs → (length l2 ≤ n)%nat →
  l2 = [] ∧ l1 = [] ∨ l2 ≠ [] →
  ∃ s' l2', release_loop fuel n head (fst_ptr l2 head) s = Ret (tt, s') ∧
    is_list (m_files s') head (l1 ++ l2') ∧ l2'.*1 = l2.*1 ∧ released s s' l2 bs.
Proof.
  induction l2 as [|[p f] l2 IH]; intros bs l1 n s Ho Hlen Hn Hne.
  - destruct Hne as [[_ ->]|?]; [|done]. pose proof (ow_list _ _ _ _ _ Ho) as [-> _]. 
    pose proof (Forall2_nil_inv_l _ _ (ow_blocks _ _ _ _ _ Ho)) as ->.
    exists s, []. destruct n; (split_and!; [done | apply (ow_list _ _ _ _ _ Ho) | done |]; split; [done | apply gone_nil..]).
  - destruct (Forall2_cons_inv_l _ _ _ _ (ow_blocks _ _ _ _ _ Ho)) as (b & bs' & _ & _ & ->).
    apply Forall_cons in Hlen as [Hb Hlen]. destruct n as [|n]; [simpl in Hn; lia|].
    destruct (release_step head l1 l2 p f b bs' s Ho Hb) as (s1 & E1 & Ho1 & Hf & Hs & Hbg).
    pose proof (ow_list _ _ _ _ _ Ho1) as Hl1. rewrite <- app_assoc in Hl1. cbn [app] in Hl1.
    cbn [fst_ptr release_loop]. rewrite (st_bind_ret _ _ _ _ _ E1).
    pose proof (is_list_lookup _ _ _ _ _ _ Hl1) as Ep.
    erewrite st_bind_ret by (unfold on_files; rewrite (load_ok _ _ _ Ep); reflexivity). cbn [next].
    assert (Es1 : FileMemory (m_files s1) (m_strings s1) (m_blocks s1) = s1) by (by destruct s1). rewrite Es1.
    destruct (decide (l2 = [])) as [->|Hl2].
    + rewrite decide_True by done. pose proof (Forall2_nil_inv_l _ _ (ow_blocks _ _ _ _ _ Ho1)) as ->.
      exists s1, [(p, no_blockmap f)]. split_and!; [done..|].
      apply (released_cons s s1 s1); [done..|]. split; [done | apply gone_nil..].
    + rewrite decide_False by (by rewrite (next_is_head _ _ _ _ _ _ Hl1)).
      destruct (IH bs' (l1 ++ [(p, no_blockmap f)]) n s1 Ho1 Hlen) as (s' & l2' & E' & Hl' & El & Hre); [simpl in Hn; lia | by right |].
      rewrite <- app_assoc in Hl'. cbn [app] in Hl'.
      exists s', ((p, no_blockmap f) :: l2'). split_and!; [done | done | by rewrite fmap_cons, El |].
      by apply (released_cons s s1 s').
Qed.
End release_list.

(** Releasing a list of files frees every file with its name, its path and its
    blocks, once each, and nothing else. *)
Theorem winx_ftw_release_frees fuel head l bs s :
  owned s head [] l bs → Forall (fun b => length b ≤ fuel)%nat bs → (length l ≤ fuel)%nat →
  ∃ s', winx_ftw_release fuel head s = Ret (tt, s') ∧
    gone (m_files s) (m_files s') l.*1 ∧ gone (m_strings s) (m_strings s') (list_strings l) ∧
    gone (m_blocks s) (m_blocks s') (list_blocks bs).
Proof.
  intros Ho Hb Hl. pose proof (ow_list _ _ _ _ _ Ho) as Hil. cbn [app] in Hil.
  assert (Eh : fst_ptr l head = head) by (destruct Hil as [-> _]; by destruct l as [|[]]).
  destruct (release_loop_run fuel head l bs [] fuel s Ho Hb Hl) as (s1 & l' & E & Hil' & El & [Rf Rs Rb]).
  { destruct l; [by left | by right]. }
  rewrite Eh in E. cbn [app] in Hil'.
  assert (Hlen : (length l' ≤ fuel)%nat) by (rewrite <- (length_fmap fst l'), El, length_fmap; done).
  destruct (winx_list_destroy_spec fuel _ _ _ Hil' Hlen) as (h & Ed & Hin & Hout). rewrite El in Hin, Hout.
  exists (FileMemory h (m_strings s1) (m_blocks s1)). split_and!; [| | done | done].
  - unfold winx_ftw_release. rewrite (st_bind_ret _ _ _ _ _ E).
    erewrite st_bind_ret by (unfold on_files; rewrite Ed; reflexivity). done.
  - intros k. case_decide; [by apply Hin|]. by rewrite Hout, Rf.
Qed.

(** Two files: the name of the first one is gone already, as the program leaves
    it. *)
Definition demo_memory : file_memory :=
  FileMemory
    (<[1%positive := Node (Some 2%positive) (Some 2%positive) (FilePtrs None (Some 11%positive) (Some 21%positive))]>
    (<[2%positive := Node (Some 1%positive) (Some 1%positive) (FilePtrs (Some 12%positive) (Some 13%positive) None)]> ∅))
    (<[11%positive := text "C:\a"]> (<[12%positive := text "b"]> (<[13%positive := text "C:\b"]> ∅)))
    (<[21%positive := Node (Some 21%positive) (Some 21%positive) (Block 0 5 1)]> ∅).

Example release_demo :
  match winx_ftw_release 2 (Some 1%positive) demo_memory with
  | Ret (_, s) => m_files s = ∅ ∧ m_strings s = ∅ ∧ m_blocks s = ∅
  | _ => False
  end.
Proof. vm_compute. done. Qed.

Definition demo_list : list (loc * file_ptrs) :=
  [(1%positive, FilePtrs None (Some 11%positive) (Some 21%positive));
   (2%positive, FilePtrs (Some 12%positive) (Some 13%positive) None)].

Lemma winx_ftw_release_frees_witness :
  ∃ s', winx_ftw_release 2 (Some 1%positive) demo_memory = Ret (tt, s') ∧
    gone (m_files demo_memory) (m_files s') demo_list.*1 ∧
    gone (m_strings demo_memory) (m_strings s') (list_strings demo_list) ∧
    gone (m_blocks demo_memory) (m_blocks s') (list_blocks [[(21%positive, Block 0 5 1)]; []]).
Proof.
  apply (winx_ftw_release_frees 2 (Some 1%positive) demo_list [[(21%positive, Block 0 5 1)]; []] demo_memory).
  - split.
    + split; [done|]. split; [apply (bool_decide_unpack _); vm_compute; exact I | by repeat split].
    + apply (bool_decide_unpack _). vm_compute. exact I.
    + intros q Hq. change (list_strings demo_list) with [11%positive; 12%positive; 13%positive] in Hq.
      set_unfold. destruct Hq as [->|[->|[->|[]]]]; by eexists.
    + repeat constructor; simpl; set_solver.
    + apply (bool_decide_unpack _). vm_compute. exact I.
  - repeat constructor.
  - repeat constructor.
Defined.
