(* ===== verification/FileIO.v ===== *)
(** * file.c: files and directories on top of the native file API

    The calls into ntdll are the class [NtApi]; [NtFileLaws] states what the
    documentation of these calls promises for a volume with room for the data,
    and the theorems about the buffered output are proved against it.  The
    instance [memfs] is a file system in memory, used by the concrete runs.
    The status of a call is the one after the wait for its completion, as an
    unsigned number.  The code is the 64-bit build: [size_t] has 64 bits. *)
From S2P Require Import Prelude DList Bitmap CaseTables CString FileInfo.
From stdpp Require Import prelude gmap strings.
Open Scope Z_scope.

Definition NT_SUCCESS (status : Z) : bool := status <? 2 ^ 31.

Definition STATUS_OBJECT_NAME_COLLISION : Z := 0xC0000035.

Definition STATUS_INVALID_PARAMETER : Z := 0xC000000D.

(** Access rights, dispositions and options. *)
Definition SYNCHRONIZE : Z := 0x100000.
Definition FILE_LIST_DIRECTORY : Z := 1.
Definition FILE_READ_DATA : Z := 1.
Definition FILE_WRITE_DATA : Z := 2.
Definition FILE_APPEND_DATA : Z := 4.
Definition FILE_READ_ATTRIBUTES : Z := 0x80.
Definition FILE_GENERIC_READ : Z := 0x120089.
Definition FILE_GENERIC_WRITE : Z := 0x120116.
Definition FILE_OPEN : Z := 1.
Definition FILE_CREATE : Z := 2.
Definition FILE_OPEN_IF : Z := 3.
Definition FILE_OVERWRITE_IF : Z := 5.
Definition FILE_DIRECTORY_FILE : Z := 0x1.
Definition FILE_NO_INTERMEDIATE_BUFFERING : Z := 0x8.
Definition FILE_SYNCHRONOUS_IO_NONALERT : Z := 0x20.
Definition FILE_NON_DIRECTORY_FILE : Z := 0x40.
Definition FILE_OPEN_FOR_BACKUP_INTENT : Z := 0x4000.
Definition FILE_OPEN_REPARSE_POINT : Z := 0x200000.
Definition WINX_OPEN_FOR_BASIC_INFO : Z := 2.
Definition WINDOWS_VISTA : Z := 60.
Definition OBJ_CASE_INSENSITIVE : Z := 0x40.
Definition FILE_ATTRIBUTE_NORMAL : Z := 0x80.
Definition FILE_SHARE_READ : Z := 1.
Definition FILE_SHARE_WRITE : Z := 2.
Definition FILE_SHARE_DELETE : Z := 4.
Definition MAX_PATH : Z := 260.

(** ** The native API *)

(** The arguments of NtCreateFile. *)
Record create_request : Type := CreateRequest {
  DesiredAccess : Z;
  ObjectName : str;
  ObjectFlags : Z;
  CreateAttributes : Z;
  ShareAccess : Z;
  CreateDisposition : Z;
  CreateOptions : Z;
}.

(** [W] is the state of the system; handles are numbers. *)
Class NtApi (W : Type) : Type := {
  (** The status and the handle. *)
  NtCreateFile : create_request → W → Z * Z * W;
  (** Handle, number of bytes and offset; the status, the Information field
      and the bytes stored in the caller's buffer. *)
  NtReadFile : Z → Z → Z → W → Z * Z * list Z;
  (** Handle, bytes and offset; the status and the Information field. *)
  NtWriteFile : Z → list Z → Z → W → Z * Z * W;
  NtFlushBuffersFile : Z → W → Z * W;
  (** FileStandardInformation: the status and EndOfFile. *)
  NtQueryStandardInformation : Z → W → Z * Z;
  NtDeleteFile : str → W → Z * W;
  NtClose : Z → W → W;
}.

(** WINX_FILE. *)
Record WINX_FILE : Type := WinxFile {
  hFile : Z;
  roffset : Z;
  woffset : Z;
  io_buffer : option (list Z);
  io_buffer_size : Z;
  io_buffer_offset : Z;
  wboffset : Z;
}.

Definition set_roffset (z : Z) (f : WINX_FILE) : WINX_FILE :=
  WinxFile (hFile f) z (woffset f) (io_buffer f) (io_buffer_size f) (io_buffer_offset f) (wboffset f).

Definition set_woffset (z : Z) (f : WINX_FILE) : WINX_FILE :=
  WinxFile (hFile f) (roffset f) z (io_buffer f) (io_buffer_size f) (io_buffer_offset f) (wboffset f).

Definition set_wboffset (z : Z) (f : WINX_FILE) : WINX_FILE :=
  WinxFile (hFile f) (roffset f) (woffset f) (io_buffer f) (io_buffer_size f) (io_buffer_offset f) z.

Definition set_io_buffer (b : option (list Z)) (size off : Z) (f : WINX_FILE) : WINX_FILE :=
  WinxFile (hFile f) (roffset f) (woffset f) b size off (wboffset f).

Definition set_io_buffer_offset (z : Z) (f : WINX_FILE) : WINX_FILE :=
  set_io_buffer (io_buffer f) (io_buffer_size f) z f.

Section file.
Context {W : Type} `{!NtApi W}.
(** The allocator: whether a request succeeds, and the contents of a new block. *)
Context (tmalloc : Z → bool) (uninit : nat → list Z).

(** *** Opening *)
Definition open_mode (mode : str) : Z * Z :=
  if bool_decide (mode = text "r") then (FILE_GENERIC_READ, FILE_OPEN)
  else if bool_decide (mode = text "w") then (FILE_GENERIC_WRITE, FILE_OVERWRITE_IF)
  else if bool_decide (mode = text "r+") then (Z.lor FILE_GENERIC_READ FILE_GENERIC_WRITE, FILE_OPEN)
  else if bool_decide (mode = text "w+")
       then (Z.lor FILE_GENERIC_READ FILE_GENERIC_WRITE, FILE_OVERWRITE_IF)
  else if bool_decide (mode = text "a") then (FILE_APPEND_DATA, FILE_OPEN_IF)
  else if bool_decide (mode = text "a+")
       then (Z.lor FILE_GENERIC_READ FILE_APPEND_DATA, FILE_OPEN_IF)
  else (FILE_GENERIC_READ, FILE_OPEN).

(** The size of a WINX_FILE. *)
Definition sizeof_WINX_FILE : Z := 56.

Definition winx_fopen (filename mode : str) (w : W) : option WINX_FILE * W :=
  let '(access_mask, disposition) := open_mode mode in
  let access_mask := Z.lor access_mask SYNCHRONIZE in
  let '(status, h, w) :=
    NtCreateFile (CreateRequest access_mask filename OBJ_CASE_INSENSITIVE FILE_ATTRIBUTE_NORMAL
                    (Z.lor FILE_SHARE_READ FILE_SHARE_WRITE) disposition
                    FILE_SYNCHRONOUS_IO_NONALERT) w in
  if negb (status =? STATUS_SUCCESS) then (None, w) else
  if negb (tmalloc sizeof_WINX_FILE) then (None, NtClose h w) else
  (Some (WinxFile h 0 0 None 0 0 0), w).

(** *** Reading and writing *)

(** [Information / size]: the processor faults when [size] is zero. *)
Definition items (information size : Z) : outcome Z :=
  if size =? 0 then Fault else Ret (information / size).

(** [winx_fread]: the result, the caller's buffer and the file. *)
Definition winx_fread (buffer : list Z) (size count : Z) (f : WINX_FILE) (w : W)
  : outcome (Z * list Z * WINX_FILE) :=
  let '(status, information, bytes) := NtReadFile (hFile f) (u64 (size * count)) (roffset f) w in
  buffer ← blit buffer 0 bytes;
  if negb (status =? STATUS_SUCCESS) then Ret (0, buffer, f) else
  if information =? 0 then
    Ret (count, buffer, set_roffset (s64 (roffset f + u64 (size * count))) f)
  else
    n ← items information size;
    Ret (n, buffer, set_roffset (s64 (roffset f + information)) f).

(** [winx_fwrite_helper]: writes directly. *)
Definition winx_fwrite_helper (buffer : list Z) (size count : Z) (f : WINX_FILE) (w : W)
  : outcome (Z * WINX_FILE * W) :=
  bytes ← front buffer (u64 (size * count));
  let '(status, information, w) := NtWriteFile (hFile f) bytes (woffset f) w in
  if negb (status =? STATUS_SUCCESS) then Ret (0, f, w) else
  if information =? 0 then
    Ret (count, set_woffset (s64 (woffset f + u64 (size * count))) f, w)
  else
    n ← items information size;
    Ret (n, set_woffset (s64 (woffset f + information)) f, w).

(** The adjusted file pointer: what the buffer holds is written to its place. *)
Definition fwrite_adjust (io : list Z) (f : WINX_FILE) (w : W) : outcome (bool * WINX_FILE * W) :=
  let nwd_offset := s64 (wboffset f - io_buffer_offset f) in
  let new_offset := woffset f in
  if negb (new_offset =? nwd_offset) then
    '(result, f, w) ← winx_fwrite_helper io 1 (io_buffer_offset f) (set_woffset nwd_offset f) w;
    let f := set_io_buffer_offset 0 f in
    let f := set_wboffset new_offset (set_woffset new_offset f) in
    Ret (negb (result =? 0), f, w)
  else Ret (true, f, w).

(** The buffer is flushed when the data does not fit. *)
Definition fwrite_make_room (io : list Z) (bytes : Z) (f : WINX_FILE) (w : W)
  : outcome (bool * WINX_FILE * W) :=
  if (u64 (io_buffer_size f - io_buffer_offset f) <? bytes) && negb (io_buffer_offset f =? 0) then
    '(result, f, w) ← winx_fwrite_helper io 1 (io_buffer_offset f) f w;
    Ret (negb (result =? 0), set_io_buffer_offset 0 f, w)
  else Ret (true, f, w).

(** Large data is written through, small data is appended to the buffer. *)
Definition fwrite_store (io buffer : list Z) (size count : Z) (f : WINX_FILE) (w : W)
  : outcome (Z * WINX_FILE * W) :=
  let bytes := u64 (size * count) in
  if io_buffer_size f <=? bytes then
    winx_fwrite_helper buffer size count (set_wboffset (s64 (wboffset f + bytes)) f) w
  else
    d ← front buffer bytes;
    io ← blit io (io_buffer_offset f) d;
    let f := set_io_buffer (Some io) (io_buffer_size f) (u64 (io_buffer_offset f + bytes)) f in
    Ret (count, set_wboffset (s64 (wboffset f + bytes)) f, w).

(** [winx_fwrite]. *)
Definition winx_fwrite (buffer : list Z) (size count : Z) (f : WINX_FILE) (w : W)
  : outcome (Z * WINX_FILE * W) :=
  let bytes := u64 (size * count) in
  match io_buffer f with
  | Some io =>
      if io_buffer_size f =? 0 then
        let f := set_io_buffer_offset 0 f in
        winx_fwrite_helper buffer size count (set_wboffset (s64 (wboffset f + bytes)) f) w
      else
        '(ok, f, w) ← fwrite_adjust io f w;
        if negb ok then Ret (0, f, w) else
        '(ok, f, w) ← fwrite_make_room io bytes f w;
        if negb ok then Ret (0, f, w) else
        fwrite_store io buffer size count f w
  | None =>
      let f := set_io_buffer_offset 0 f in
      winx_fwrite_helper buffer size count (set_wboffset (s64 (wboffset f + bytes)) f) w
  end.

Definition winx_fflush (f : WINX_FILE) (w : W) : Z * W :=
  let '(status, w) := NtFlushBuffersFile (hFile f) w in
  (if negb (NT_SUCCESS status) then -1 else 0, w).

Definition winx_fsize (f : WINX_FILE) (w : W) : Z :=
  let '(status, size) := NtQueryStandardInformation (hFile f) w in
  if negb (NT_SUCCESS status) then 0 else size.

(** [winx_fclose]. *)
Definition winx_fclose (f : WINX_FILE) (w : W) : outcome W :=
  w ← match io_buffer f with
      | Some io =>
          if negb (io_buffer_offset f =? 0) then
            '(_, _, w) ← winx_fwrite_helper io 1 (io_buffer_offset f) f w; Ret w
          else Ret w
      | None => Ret w
      end;
  Ret (if negb (hFile f =? 0) then NtClose (hFile f) w else w).

(** [winx_fbopen]. *)
Definition winx_fbopen (filename mode : str) (buffer_size : Z) (w : W)
  : outcome (option WINX_FILE * W) :=
  let '(f, w) := winx_fopen filename mode w in
  match f with
  | None => Ret (None, w)
  | Some f =>
      if buffer_size <=? 0 then Ret (Some f, w) else
      if negb (tmalloc buffer_size) then w ← winx_fclose f w; Ret (None, w) else
      Ret (Some (set_io_buffer (Some (uninit (Z.to_nat buffer_size))) buffer_size 0 f), w)
  end.

(** *** Directories and whole files *)
Definition winx_create_directory (path : str) (w : W) : Z * W :=
  let '(status, h, w) :=
    NtCreateFile
      (CreateRequest (Z.lor FILE_LIST_DIRECTORY (Z.lor SYNCHRONIZE FILE_OPEN_FOR_BACKUP_INTENT))
         path OBJ_CASE_INSENSITIVE FILE_ATTRIBUTE_NORMAL (Z.lor FILE_SHARE_READ FILE_SHARE_WRITE)
         FILE_CREATE (Z.lor FILE_SYNCHRONOUS_IO_NONALERT FILE_DIRECTORY_FILE)) w in
  if NT_SUCCESS status then (0, NtClose h w) else
  (* if it already exists then return success *)
  if status =? STATUS_OBJECT_NAME_COLLISION then (0, w) else (-1, w).

Definition winx_delete_file (filename : str) (w : W) : Z * W :=
  let '(status, w) := NtDeleteFile filename w in
  (if negb (NT_SUCCESS status) then -1 else 0, w).

(** [winx_get_file_contents]: the block and the number of bytes read. *)
Definition winx_get_file_contents (filename : str) (w : W)
  : outcome (option (list Z * Z) * W) :=
  let '(f, w) := winx_fopen filename (text "r") w in
  match f with
  | None => Ret (None, w)
  | Some f =>
      let size := winx_fsize f w in
      if size =? 0 then w ← winx_fclose f w; Ret (None, w) else
      if negb (tmalloc (u64 (size + 2))) then w ← winx_fclose f w; Ret (None, w) else
      let contents := uninit (Z.to_nat (u64 (size + 2))) in
      '(n_read, contents, f) ← winx_fread contents 1 size f w;
      w ← winx_fclose f w;
      if (n_read =? 0) || (size <? n_read) then Ret (None, w) else
      Ret (Some (contents, n_read), w)
  end.

(** *** Opening a file for defragmentation *)
Definition special_file_names : list (str * str) :=
  [ (text "$Secure:$SDH", text "$Secure:$SDH:$INDEX_ALLOCATION");
    (text "$Secure:$SII", text "$Secure:$SII:$INDEX_ALLOCATION");
    (text "$Extend", text "$Extend:$I30:$INDEX_ALLOCATION");
    (text "$Extend\$Quota:$Q", text "$Extend\$Quota:$Q:$INDEX_ALLOCATION");
    (text "$Extend\$Quota:$O", text "$Extend\$Quota:$O:$INDEX_ALLOCATION");
    (text "$Extend\$ObjId:$O", text "$Extend\$ObjId:$O:$INDEX_ALLOCATION");
    (text "$Extend\$Reparse:$R", text "$Extend\$Reparse:$R:$INDEX_ALLOCATION");
    (text "$Extend\$RmMetadata", text "$Extend\$RmMetadata:$I30:$INDEX_ALLOCATION");
    (text "$Extend\$RmMetadata\$Txf", text "$Extend\$RmMetadata\$Txf:$I30:$INDEX_ALLOCATION");
    (text "$Extend\$RmMetadata\$TxfLog", text "$Extend\$RmMetadata\$TxfLog:$I30:$INDEX_ALLOCATION") ].

(** A [char] as an argument of a wide %c. *)
Definition wide_char (c : Z) : Z := if c <? 128 then c else u16 (c - 256).

(** The path after the prefix and at most MAX_PATH characters of it. *)
Definition accepted_path (volume_letter : Z) (accepted_name : str) : str :=
  take (Z.to_nat MAX_PATH)
    (text "\??\" ++ [wide_char volume_letter] ++ text ":\" ++ accepted_name).

(** The loop over the table. *)
Fixpoint special_loop (table : list (str * str)) (path : str) (volume_letter : Z) : str :=
  match table with
  | [] => path
  | (original_name, accepted_name) :: table =>
      match winx_wcsistr (Some path) (Some original_name) with
      | Some _ =>
          if decide (length path = length original_name + 7)%nat
          then accepted_path volume_letter accepted_name
          else special_loop table path volume_letter
      | None => special_loop table path volume_letter
      end
  end.

Definition defrag_path (path : str) : str :=
  if (9 <=? Z.of_nat (length path)) && (nth 7 path 0 =? 0x24)
  then special_loop special_file_names path (u8 (nth 4 path 0)) else path.

Definition defrag_options (win_version flags : Z) : Z :=
  let o := FILE_SYNCHRONOUS_IO_NONALERT in
  let o := if has_flag flags FILE_ATTRIBUTE_DIRECTORY then Z.lor o FILE_OPEN_FOR_BACKUP_INTENT
           else let o := Z.lor o FILE_NO_INTERMEDIATE_BUFFERING in
                if WINDOWS_VISTA <=? win_version then Z.lor o FILE_NON_DIRECTORY_FILE else o in
  if has_flag flags FILE_ATTRIBUTE_REPARSE_POINT then Z.lor o FILE_OPEN_REPARSE_POINT else o.

Definition defrag_access (win_version action : Z) : Z :=
  let a := SYNCHRONIZE in
  let a := if win_version <? WINDOWS_VISTA then a else Z.lor a FILE_READ_ATTRIBUTES in
  if action =? WINX_OPEN_FOR_BASIC_INFO then Z.lor a FILE_READ_ATTRIBUTES else a.

(** [winx_defrag_fopen]: the status and what it stores for the handle, 0 for
    NULL. *)
Definition winx_defrag_fopen (win_version : Z) (f : winx_file_info) (action : Z) (w : W)
  : Z * option Z * W :=
  match fi_path f with
  | None => (STATUS_INVALID_PARAMETER, None, w)
  | Some path =>
      if bool_decide (path = []) then (STATUS_INVALID_PARAMETER, None, w) else
      let '(status, h, w) :=
        NtCreateFile
          (CreateRequest (defrag_access win_version action) (defrag_path path) 0 0
             (Z.lor FILE_SHARE_READ (Z.lor FILE_SHARE_WRITE FILE_SHARE_DELETE)) FILE_OPEN
             (defrag_options win_version (fi_flags f))) w in
      if negb (status =? STATUS_SUCCESS) then (status, Some 0, w) else (status, Some h, w)
  end.

Definition winx_defrag_fclose (h : Z) (w : W) : W := if h =? 0 then w else NtClose h w.
End file.

(** ** Control requests *)
Definition FILE_DEVICE_FILE_SYSTEM : Z := 9.

Class NtControl (W : Type) : Type := {
  (** Handle, code, input and the size of the output; the status, the
      Information field and the bytes stored in the caller's buffer. *)
  NtFsControlFile : Z → Z → list Z → Z → W → Z * Z * list Z * W;
  NtDeviceIoControlFile : Z → Z → list Z → Z → W → Z * Z * list Z * W;
}.

(** [winx_ioctl]: the result, the output buffer, the number of bytes returned. *)
Definition winx_ioctl {W} `{!NtControl W} (f : WINX_FILE) (code : Z) (in_buffer : list Z)
    (out_buffer : option (list Z)) (out_size : Z) (w : W) : outcome (Z * option (list Z) * Z * W) :=
  (* required by x64 system, otherwise it may trash stack *)
  out ← match out_buffer with
        | Some b => Some <$> blit b 0 (replicate (Z.to_nat out_size) 0)
        | None => Ret None
        end;
  let '(status, information, bytes, w) :=
    if Z.shiftr code 16 =? FILE_DEVICE_FILE_SYSTEM
    then NtFsControlFile (hFile f) code in_buffer out_size w
    else NtDeviceIoControlFile (hFile f) code in_buffer out_size w in
  out ← match out with Some b => Some <$> blit b 0 bytes | None => Ret None end;
  if negb (NT_SUCCESS status) then Ret (-1, out, 0, w) else Ret (0, out, s32 information, w).

(** ** What the native API promises *)

(** Data written at an offset of a file: the gap up to the offset is zero, and
    writing nothing does not extend the file. *)
Definition write_at (c : list Z) (off : nat) (d : list Z) : list Z :=
  match d with
  | [] => c
  | _ => take off c ++ replicate (off - length c) 0 ++ d ++ drop (off + length d) c
  end.

(** What a write does that a handle with the access [a] is asked for: with
    FILE_APPEND_DATA alone the data goes to the end of the file, whatever the
    offset. *)
Definition writable (a : Z) : bool := has_flag a FILE_WRITE_DATA || has_flag a FILE_APPEND_DATA.

Definition stored (a : Z) (c : list Z) (off : nat) (d : list Z) : list Z :=
  if has_flag a FILE_WRITE_DATA then write_at c off d else c ++ d.

Class NtFileLaws (W : Type) `{!NtApi W} : Type := {
  (** The contents of the files, and the file and the access of a handle. *)
  file_at : W → str → option (list Z);
  opened : W → Z → option (str * Z);
  nt_overwrite r w : CreateDisposition r = FILE_OVERWRITE_IF →
    ∃ h w', NtCreateFile r w = (STATUS_SUCCESS, h, w') ∧ h ≠ 0 ∧
      opened w' h = Some (ObjectName r, DesiredAccess r) ∧ file_at w' (ObjectName r) = Some [];
  nt_open r w c : CreateDisposition r = FILE_OPEN ∨ CreateDisposition r = FILE_OPEN_IF →
    file_at w (ObjectName r) = Some c →
    ∃ h w', NtCreateFile r w = (STATUS_SUCCESS, h, w') ∧ h ≠ 0 ∧
      opened w' h = Some (ObjectName r, DesiredAccess r) ∧ file_at w' (ObjectName r) = Some c;
  nt_create r w : CreateDisposition r = FILE_OPEN_IF → file_at w (ObjectName r) = None →
    ∃ h w', NtCreateFile r w = (STATUS_SUCCESS, h, w') ∧ h ≠ 0 ∧
      opened w' h = Some (ObjectName r, DesiredAccess r) ∧ file_at w' (ObjectName r) = Some [];
  nt_write w h p a c d off : opened w h = Some (p, a) → writable a = true →
    file_at w p = Some c → 0 ≤ off →
    ∃ information w', NtWriteFile h d off w = (STATUS_SUCCESS, information, w') ∧
      (information = 0 ∨ information = Z.of_nat (length d)) ∧
      opened w' h = Some (p, a) ∧ file_at w' p = Some (stored a c (Z.to_nat off) d);
  nt_read w h p a c n : opened w h = Some (p, a) → has_flag a FILE_READ_DATA = true →
    file_at w p = Some c → 0 < n → c ≠ [] →
    ∃ information, NtReadFile h n 0 w = (STATUS_SUCCESS, information, take (Z.to_nat n) c) ∧
      (information = 0 ∧ n ≤ Z.of_nat (length c) ∨
       information = Z.min n (Z.of_nat (length c)));
  nt_size w h p a c : opened w h = Some (p, a) → file_at w p = Some c →
    NtQueryStandardInformation h w = (STATUS_SUCCESS, Z.of_nat (length c));
  nt_close w h p : file_at (NtClose h w) p = file_at w p;
}.

(** ** Writing in pieces *)
Lemma write_at_nil c off : write_at c off [] = c.
Proof. done. Qed.

Lemma write_at_split c off d : d ≠ [] →
  write_at c off d = take off c ++ replicate (off - length c) 0 ++ d ++ drop (off + length d) c.
Proof. by destruct d. Qed.

Lemma write_at_length_ge c off d : (length c ≤ length (write_at c off d))%nat.
Proof.
  destruct d as [|x d]; [done|]. rewrite write_at_split by done.
  rewrite !length_app, length_take, length_replicate, length_drop. lia.
Qed.

(** Two adjacent pieces are one piece. *)
Lemma write_at_app c off d1 d2 :
  write_at (write_at c off d1) (off + length d1) d2 = write_at c off (d1 ++ d2).
Proof.
  destruct (decide (d1 = [])) as [->|H1]; [by rewrite Nat.add_0_r|].
  destruct (decide (d2 = [])) as [->|H2]; [by rewrite app_nil_r|].
  rewrite (write_at_split _ _ d2), (write_at_split _ _ d1), (write_at_split _ _ (d1 ++ d2));
    [|by destruct d1|done..].
  set (A := take off c ++ replicate (off - length c) 0 ++ d1).
  assert (EA : length A = (off + length d1)%nat)
    by (unfold A; rewrite !length_app, length_take, length_replicate; lia).
  assert (ES : take off c ++ replicate (off - length c) 0 ++ d1 ++ drop (off + length d1) c =
               A ++ drop (off + length d1) c) by (unfold A; by rewrite <- !app_assoc).
  rewrite ES, take_app_length' by done.
  assert (off + length d1 - length (A ++ drop (off + length d1) c) = 0)%nat as ->
    by (rewrite length_app; lia).
  rewrite drop_app_ge by lia. rewrite drop_drop, EA. unfold A. rewrite length_app, <- !app_assoc.
  simpl. do 5 f_equal. lia.
Qed.

Lemma write_at_end c d : write_at c (length c) d = c ++ d.
Proof.
  destruct (decide (d = [])) as [->|Hd]; [by rewrite app_nil_r|]. rewrite write_at_split by done.
  rewrite take_ge, Nat.sub_diag, drop_ge by lia. by rewrite app_nil_r.
Qed.

Lemma stored_nil a c off : stored a c off [] = c.
Proof. unfold stored. destruct (has_flag _ _); [done|apply app_nil_r]. Qed.

Lemma stored_app a c off d1 d2 :
  stored a (stored a c off d1) (off + length d1) d2 = stored a c off (d1 ++ d2).
Proof. unfold stored. destruct (has_flag _ _); [apply write_at_app|by rewrite app_assoc]. Qed.

Lemma stored_end a c d : stored a c (length c) d = c ++ d.
Proof. unfold stored. destruct (has_flag _ _); [apply write_at_end|done]. Qed.

(** ** The buffered file as a file

    [holds p a c pos f w]: the file [f] is open on [p] with the access [a];
    what is on the volume together with the unwritten data in the buffer is
    [c], and the file pointer is [pos]. *)
Section buffered.
Context {W : Type} `{!NtApi W, !NtFileLaws W}.

Record holds (p : str) (a : Z) (c : list Z) (pos : Z) (f : WINX_FILE) (w : W) : Prop := {
  holds_handle : hFile f ≠ 0;
  holds_opened : opened w (hFile f) = Some (p, a);
  holds_access : writable a = true;
  holds_buffer : ∃ io disk,
    io_buffer f = Some io ∧ Z.of_nat (length io) = io_buffer_size f ∧
    0 < io_buffer_size f < 2 ^ 31 ∧ 0 ≤ io_buffer_offset f ≤ io_buffer_size f ∧
    file_at w p = Some disk ∧
    c = stored a disk (Z.to_nat (woffset f)) (take (Z.to_nat (io_buffer_offset f)) io);
  holds_pos : pos = wboffset f;
  holds_offsets : 0 ≤ woffset f ∧ woffset f + io_buffer_offset f = wboffset f;
}.

(** A direct write. *)
Lemma winx_fwrite_helper_ok p a disk buffer size count f w :
  opened w (hFile f) = Some (p, a) → writable a = true → file_at w p = Some disk →
  0 < size → 0 ≤ count → size * count ≤ Z.of_nat (length buffer) →
  0 ≤ woffset f → woffset f + size * count < 2 ^ 63 →
  ∃ w', winx_fwrite_helper buffer size count f w =
          Ret (count, set_woffset (woffset f + size * count) f, w') ∧
    opened w' (hFile f) = Some (p, a) ∧
    file_at w' p = Some (stored a disk (Z.to_nat (woffset f))
                           (take (Z.to_nat (size * count)) buffer)).
Proof.
  intros Ho Ha Hd Hs Hc Hlen Hw Hmax. unfold winx_fwrite_helper.
  assert (0 ≤ size * count) by nia. rewrite (u64_small (size * count)) by lia.
  unfold front. rewrite (proj2 (Z.ltb_ge _ _)), (proj2 (Z.ltb_ge _ _)) by lia. simpl.
  destruct (nt_write w (hFile f) p a disk (take (Z.to_nat (size * count)) buffer) (woffset f))
    as (info & w' & -> & Hi & Ho' & Hf); [done..|].
  exists w'. split; [|done]. rewrite Z.eqb_refl. simpl. rewrite s64_small by lia.
  rewrite length_take in Hi.
  destruct (Z.eqb_spec info 0) as [->|Hn]; [done|]. destruct Hi as [?|Hi]; [done|].
  unfold items. rewrite (proj2 (Z.eqb_neq size 0)) by lia. simpl.
  assert (info = size * count) as -> by lia.
  rewrite s64_small by lia. by rewrite Z.mul_comm, Z.div_mul by lia.
Qed.

Ltac open_holds H :=
  let Hh := fresh "Hh" in let Ho := fresh "Ho" in let Ha := fresh "Ha" in let Hio := fresh "Hio" in
  let Hlen := fresh "Hlen" in let Hsz := fresh "Hsz" in let Hoff := fresh "Hoff" in
  let Hd := fresh "Hd" in let Hc := fresh "Hc" in let Hpos := fresh "Hpos" in
  let Hw := fresh "Hw" in let Hwb := fresh "Hwb" in
  let io := fresh "io" in let disk := fresh "disk" in
  destruct H as [Hh Ho Ha (io & disk & Hio & Hlen & Hsz & Hoff & Hd & Hc) Hpos [Hw Hwb]].

(** Without a seek nothing is done. *)
Lemma fwrite_adjust_none p a c pos io f w :
  holds p a c pos f w → pos < 2 ^ 63 → fwrite_adjust io f w = Ret (true, f, w).
Proof.
  intros H Hmax. open_holds H. unfold fwrite_adjust. rewrite s64_small by lia.
  by rewrite (proj2 (Z.eqb_eq _ _)) by lia.
Qed.

(** Flushing the buffer changes neither the contents nor the position. *)
Lemma flush_ok p a c pos io f w :
  holds p a c pos f w → pos < 2 ^ 63 → io_buffer f = Some io →
  ∃ f' w', winx_fwrite_helper io 1 (io_buffer_offset f) f w = Ret (io_buffer_offset f, f', w') ∧
    io_buffer f' = Some io ∧ hFile f' = hFile f ∧ file_at w' p = Some c ∧
    holds p a c pos (set_io_buffer_offset 0 f') w'.
Proof.
  intros H Hmax Hio'. open_holds H. rewrite Hio' in Hio. injection Hio as <-.
  destruct (winx_fwrite_helper_ok p a disk io 1 (io_buffer_offset f) f w)
    as (w' & E & Ho' & Hf'); [done..|lia|lia|lia|done|lia|].
  rewrite E. eexists _, w'. split; [done|]. rewrite Z.mul_1_l, <- Hc in Hf'.
  do 3 (split; [done|]).
  split; simpl; [done|done|done| |done|lia]. exists io, c.
  simpl. rewrite stored_nil. repeat split; try done; lia.
Qed.

Lemma fwrite_make_room_ok p a c pos bytes io f w :
  holds p a c pos f w → pos < 2 ^ 63 → io_buffer f = Some io → 0 ≤ bytes →
  ∃ f' w', fwrite_make_room io bytes f w = Ret (true, f', w') ∧ holds p a c pos f' w' ∧
    io_buffer f' = Some io ∧
    (bytes ≤ io_buffer_size f' - io_buffer_offset f' ∨ io_buffer_offset f' = 0).
Proof.
  intros H Hmax Hio Hb. pose proof H as H0. open_holds H0. unfold fwrite_make_room.
  words.
  destruct (Z.ltb_spec (io_buffer_size f - io_buffer_offset f) bytes);
    [|exists f, w; split; [done|split; [done|split; [done|lia]]]].
  destruct (Z.eqb_spec (io_buffer_offset f) 0); simpl.
  { exists f, w. split; [done|split; [done|split; [done|lia]]]. }
  destruct (flush_ok p a c pos io f w) as (f' & w' & -> & Hio' & _ & _ & H'); [done..|]. simpl.
  rewrite (proj2 (Z.eqb_neq _ _)) by lia. simpl.
  eexists _, w'. split; [done|]. split; [done|]. split; [done|]. by right.
Qed.

Lemma fwrite_store_ok p a c pos buffer size count io f w :
  holds p a c pos f w → io_buffer f = Some io →
  0 < size → 0 ≤ count → size * count ≤ Z.of_nat (length buffer) → pos + size * count < 2 ^ 63 →
  (size * count ≤ io_buffer_size f - io_buffer_offset f ∨ io_buffer_offset f = 0) →
  ∃ f' w', fwrite_store io buffer size count f w = Ret (count, f', w') ∧
    holds p a (stored a c (Z.to_nat pos) (take (Z.to_nat (size * count)) buffer))
      (pos + size * count) f' w'.
Proof.
  intros H Hio Hs Hc Hlen Hmax Hroom. open_holds H. rewrite Hio in Hio0. injection Hio0 as <-.
  unfold fwrite_store. assert (0 ≤ size * count) by nia.
  rewrite (u64_small (size * count)), (s64_small (wboffset f + size * count)) by lia.
  destruct (Z.leb_spec (io_buffer_size f) (size * count)) as [Hle|Hlt].
  - assert (Hbig : io_buffer_offset f = 0) by lia. rewrite Hbig in *.
    destruct (winx_fwrite_helper_ok p a disk buffer size count
                (set_wboffset (wboffset f + size * count) f) w) as (w' & E & Ho' & Hf');
      [done..|simpl; lia|]. rewrite E.
    eexists _, w'. split; [done|]. simpl in *.
    simpl in Hc0. rewrite stored_nil in Hc0. subst c.
    split; simpl; [done|done|done| |lia|lia]. exists io. eexists. rewrite Hbig. simpl.
    rewrite stored_nil. repeat split; try done; try lia. rewrite Hf'. by replace pos with (woffset f) by lia.
  - unfold front. rewrite (proj2 (Z.ltb_ge _ _)), (proj2 (Z.ltb_ge _ _)) by lia. simpl.
    unfold blit. rewrite length_take, (proj2 (Z.ltb_ge _ _)), (proj2 (Z.ltb_ge _ _)) by lia. simpl.
    eexists _, w. split; [done|]. rewrite u64_small, s64_small by lia. split; simpl; [done|done|done| |lia|lia].
    eexists _, disk. split; [done|].
    rewrite !length_app, !length_take, length_drop. repeat split; try done; try lia.
    rewrite Hc0, Hpos.
    replace (Z.to_nat (wboffset f)) with
      (Z.to_nat (woffset f) + length (take (Z.to_nat (io_buffer_offset f)) io))%nat
      by (rewrite length_take; lia).
    rewrite stored_app, app_assoc, take_app_length'; [done|].
    rewrite length_app, !length_take. lia.
Qed.

(** A write refines writing at the position. *)
Lemma winx_fwrite_ok p a c pos buffer size count f w :
  holds p a c pos f w → 0 < size → 0 ≤ count → size * count ≤ Z.of_nat (length buffer) →
  pos + size * count < 2 ^ 63 →
  ∃ f' w', winx_fwrite buffer size count f w = Ret (count, f', w') ∧
    holds p a (stored a c (Z.to_nat pos) (take (Z.to_nat (size * count)) buffer))
      (pos + size * count) f' w'.
Proof.
  intros H Hs Hc Hlen Hmax. assert (Hb : 0 ≤ size * count) by nia. pose proof H as H0. open_holds H0.
  unfold winx_fwrite. rewrite Hio, (proj2 (Z.eqb_neq (io_buffer_size f) 0)) by lia.
  rewrite (fwrite_adjust_none p a c pos) by (done || lia). simpl.
  rewrite (u64_small (size * count)) by lia.
  destruct (fwrite_make_room_ok p a c pos (size * count) io f w)
    as (f1 & w1 & -> & H1 & Hio1 & Hroom); [done|lia|done|lia|]. simpl.
  by apply (fwrite_store_ok p).
Qed.

(** Closing writes what is left in the buffer. *)
Lemma winx_fclose_ok p a c pos f w :
  holds p a c pos f w → pos < 2 ^ 63 →
  ∃ w', winx_fclose f w = Ret w' ∧ file_at w' p = Some c.
Proof.
  intros H Hmax. pose proof H as H0. open_holds H0. unfold winx_fclose. rewrite Hio.
  rewrite (proj2 (Z.eqb_neq (hFile f) 0)) by done. simpl.
  destruct (Z.eqb_spec (io_buffer_offset f) 0) as [E|E]; simpl.
  - eexists. split; [done|]. rewrite nt_close, Hd. by rewrite Hc, E, stored_nil.
  - destruct (flush_ok p a c pos io f w) as (f' & w' & -> & _ & _ & Hf & _); [done..|]. simpl.
    eexists. split; [done|]. by rewrite nt_close.
Qed.

(** The client's loop: each block with one call. *)
Fixpoint write_blocks (blocks : list (list Z)) (f : WINX_FILE) (w : W)
  : outcome (WINX_FILE * W) :=
  match blocks with
  | [] => Ret (f, w)
  | d :: blocks =>
      '(_, f, w) ← winx_fwrite d 1 (Z.of_nat (length d)) f w;
      write_blocks blocks f w
  end.

Lemma write_blocks_ok p a blocks c f w :
  holds p a c (Z.of_nat (length c)) f w →
  Z.of_nat (length (c ++ concat blocks)) < 2 ^ 63 →
  ∃ f' w', write_blocks blocks f w = Ret (f', w') ∧
    holds p a (c ++ concat blocks) (Z.of_nat (length (c ++ concat blocks))) f' w'.
Proof.
  revert c f w. induction blocks as [|d blocks IH]; intros c f w H Hmax; simpl.
  { exists f, w. split; [done|]. by rewrite app_nil_r. }
  simpl in Hmax. rewrite !length_app in Hmax.
  destruct (winx_fwrite_ok p a c (Z.of_nat (length c)) d 1 (Z.of_nat (length d)) f w)
    as (f1 & w1 & -> & H1); [done|lia..|]. simpl.
  rewrite Z.mul_1_l, !Nat2Z.id, firstn_all, stored_end, <- Nat2Z.inj_add, <- length_app in H1.
  apply IH in H1; [|rewrite !length_app; lia]. by rewrite <- app_assoc in H1.
Qed.
End buffered.

(** ** Reading a whole file *)
Section contents.
Context {W : Type} `{!NtApi W, !NtFileLaws W}.
Context (tmalloc : Z → bool) (uninit : nat → list Z).
Context (Hmalloc : ∀ n, tmalloc n = true) (Huninit : ∀ n, length (uninit n) = n).

Lemma winx_fopen_read p c w :
  file_at w p = Some c →
  ∃ h w', winx_fopen tmalloc p (text "r") w = (Some (WinxFile h 0 0 None 0 0 0), w') ∧ h ≠ 0 ∧
    opened w' h = Some (p, Z.lor FILE_GENERIC_READ SYNCHRONIZE) ∧ file_at w' p = Some c.
Proof.
  intros Hc. unfold winx_fopen. simpl.
  match goal with |- context [NtCreateFile ?r w] => destruct (nt_open r w c) as (h & w' & E & H) end;
    [by left|done|]. rewrite E, Hmalloc. simpl in *. eauto.
Qed.

Lemma winx_fopen_write p w :
  ∃ h w', winx_fopen tmalloc p (text "w") w = (Some (WinxFile h 0 0 None 0 0 0), w') ∧ h ≠ 0 ∧
    opened w' h = Some (p, Z.lor FILE_GENERIC_WRITE SYNCHRONIZE) ∧ file_at w' p = Some [].
Proof.
  unfold winx_fopen. simpl.
  match goal with |- context [NtCreateFile ?r w] => destruct (nt_overwrite r w) as (h & w' & E & H) end;
    [done..|]. rewrite E, Hmalloc. simpl in *. eauto.
Qed.

Lemma winx_get_file_contents_ok p c w :
  file_at w p = Some c → c ≠ [] → Z.of_nat (length c) < 2 ^ 63 →
  ∃ block w', winx_get_file_contents tmalloc uninit p w =
      Ret (Some (block, Z.of_nat (length c)), w') ∧
    take (length c) block = c ∧ file_at w' p = Some c.
Proof.
  intros Hc Hne Hlen. unfold winx_get_file_contents.
  destruct (winx_fopen_read p c w Hc) as (h & w1 & -> & Hh & Ho & Hf).
  assert (Hpos : 0 < Z.of_nat (length c)) by (destruct c; [done|simpl; lia]).
  unfold winx_fsize. simpl. rewrite (nt_size w1 h p _ c Ho Hf). simpl.
  rewrite (proj2 (Z.eqb_neq _ _)), Hmalloc by lia. simpl. unfold winx_fread.
  rewrite Z.mul_1_l, !u64_small by lia. simpl.
  destruct (nt_read w1 h p _ c (Z.of_nat (length c)) Ho) as (info & -> & Hi); [done|done|lia|done|].
  rewrite Nat2Z.id, firstn_all. unfold blit. rewrite Huninit. simpl.
  rewrite (proj2 (Z.ltb_ge _ _)) by lia. simpl.
  destruct (Z.eqb_spec info 0) as [->|Hn]; simpl.
  - unfold winx_fclose. simpl. rewrite (proj2 (Z.eqb_neq _ _)), (proj2 (Z.eqb_neq _ _)) by lia. simpl.
    rewrite Z.ltb_irrefl. eexists _, _. split; [done|]. by rewrite take_app_length, nt_close.
  - assert (info = Z.of_nat (length c)) as -> by lia. unfold winx_fclose. simpl.
    rewrite Z.div_1_r. rewrite (proj2 (Z.eqb_neq _ _)), (proj2 (Z.eqb_neq _ _)) by lia. simpl.
    rewrite Z.ltb_irrefl. eexists _, _. split; [done|]. by rewrite take_app_length, nt_close.
Qed.

(** A file opened for appending is created when it does not exist. *)
Definition FILE_APPEND : Z := Z.lor FILE_APPEND_DATA SYNCHRONIZE.

Lemma winx_fopen_append p w :
  ∃ h w', winx_fopen tmalloc p (text "a") w = (Some (WinxFile h 0 0 None 0 0 0), w') ∧ h ≠ 0 ∧
    opened w' h = Some (p, FILE_APPEND) ∧ file_at w' p = Some (default [] (file_at w p)).
Proof.
  unfold winx_fopen. simpl.
  match goal with |- context [NtCreateFile ?r w] =>
    destruct (file_at w p) as [c|] eqn:Hc;
      [destruct (nt_open r w c) as (h & w' & E & H); [by right|done|]
      |destruct (nt_create r w) as (h & w' & E & H); [done|done|]] end;
    rewrite E, Hmalloc; simpl in *; eauto.
Qed.

Lemma winx_fbopen_append p buffer_size w :
  0 < buffer_size < 2 ^ 31 →
  ∃ f w', winx_fbopen tmalloc uninit p (text "a") buffer_size w = Ret (Some f, w') ∧
    holds p FILE_APPEND (default [] (file_at w p)) 0 f w'.
Proof.
  intros Hb. unfold winx_fbopen. destruct (winx_fopen_append p w) as (h & w1 & -> & Hh & Ho & Hf).
  rewrite (proj2 (Z.leb_gt _ _)), Hmalloc by lia. simpl. eexists _, _. split; [done|].
  split; simpl; [done|done|done| |done|lia]. eexists _, _. split; [done|].
  rewrite Huninit, stored_nil. repeat split; try done; try lia.
Qed.

(** A new file opened for buffered output is empty. *)
Lemma winx_fbopen_ok p buffer_size w :
  0 < buffer_size < 2 ^ 31 →
  ∃ f w', winx_fbopen tmalloc uninit p (text "w") buffer_size w = Ret (Some f, w') ∧
    holds p (Z.lor FILE_GENERIC_WRITE SYNCHRONIZE) [] 0 f w'.
Proof.
  intros Hb. unfold winx_fbopen. destruct (winx_fopen_write p w) as (h & w1 & -> & Hh & Ho & Hf).
  rewrite (proj2 (Z.leb_gt _ _)), Hmalloc by lia. simpl. eexists _, _. split; [done|].
  split; simpl; [done|done|done| |done|lia]. eexists _, _. split; [done|]. rewrite Huninit.
  repeat split; try done; try lia.
Qed.
End contents.

(** ** A file system in memory *)
Record memory : Type := Memory {
  files : gmap str (list Z);
  handles : gmap Z (str * Z);
  next_handle : Z;
}.

Definition memory_create (r : create_request) (w : memory) : Z * Z * memory :=
  let name := ObjectName r in
  let opened_with fs :=
    (STATUS_SUCCESS, Z.abs (next_handle w) + 1,
     Memory fs (<[Z.abs (next_handle w) + 1 := (name, DesiredAccess r)]> (handles w)) (Z.abs (next_handle w) + 1)) in
  if CreateDisposition r =? FILE_OVERWRITE_IF then opened_with (<[name := []]> (files w)) else
  match files w !! name with
  | Some _ => if CreateDisposition r =? FILE_CREATE then (STATUS_OBJECT_NAME_COLLISION, 0, w)
              else opened_with (files w)
  | None => if CreateDisposition r =? FILE_OPEN then (0xC0000034, 0, w)
            else opened_with (<[name := []]> (files w))
  end.

Definition memory_contents (w : memory) (h : Z) : list Z :=
  default [] ('(p, _) ← handles w !! h; files w !! p).

Definition STATUS_ACCESS_DENIED : Z := 0xC0000022.

Definition memory_write (h : Z) (d : list Z) (off : Z) (w : memory) : Z * Z * memory :=
  match handles w !! h with
  | Some (p, a) =>
      if writable a
      then (STATUS_SUCCESS, Z.of_nat (length d),
            Memory (<[p := stored a (memory_contents w h) (Z.to_nat off) d]> (files w))
              (handles w) (next_handle w))
      else (STATUS_ACCESS_DENIED, 0, w)
  | None => (0xC0000008, 0, w)
  end.

Definition memory_read (h n off : Z) (w : memory) : Z * Z * list Z :=
  match handles w !! h with
  | Some (_, a) =>
      if has_flag a FILE_READ_DATA
      then let d := take (Z.to_nat n) (drop (Z.to_nat off) (memory_contents w h)) in
           (STATUS_SUCCESS, Z.of_nat (length d), d)
      else (STATUS_ACCESS_DENIED, 0, [])
  | None => (0xC0000008, 0, [])
  end.

#[export] Instance memfs : NtApi memory := {|
  NtCreateFile := memory_create;
  NtReadFile := memory_read;
  NtWriteFile := memory_write;
  NtFlushBuffersFile _ w := (STATUS_SUCCESS, w);
  NtQueryStandardInformation h w := (STATUS_SUCCESS, Z.of_nat (length (memory_contents w h)));
  NtDeleteFile p w := (STATUS_SUCCESS, Memory (delete p (files w)) (handles w) (next_handle w));
  NtClose h w := Memory (files w) (delete h (handles w)) (next_handle w);
|}.

#[export] Program Instance memfs_laws : NtFileLaws memory := {|
  file_at w p := files w !! p;
  opened w h := handles w !! h;
|}.
Next Obligation.
  intros r w E. cbn. unfold memory_create. rewrite E. simpl. eexists _, _. split; [done|]. simpl.
  rewrite !lookup_insert_eq. split; [lia|done].
Qed.
Next Obligation.
  intros r w c E Hc. cbn. unfold memory_create. rewrite Hc.
  destruct E as [-> | ->]; simpl; (eexists _, _; split; [done|]; simpl;
    rewrite !lookup_insert_eq; split; [lia|done]).
Qed.
Next Obligation.
  intros r w E Hc. cbn. unfold memory_create. rewrite Hc, E. simpl. eexists _, _. split; [done|].
  simpl. rewrite !lookup_insert_eq. split; [lia|done].
Qed.
Next Obligation.
  intros w h p a c d off Hh Ha Hc Ho. cbn. unfold memory_write, memory_contents.
  rewrite Hh, Ha. simpl. rewrite Hc. simpl. eexists _, _. split; [done|].
  split; [by right|]. simpl. split; [done|]. by rewrite lookup_insert_eq.
Qed.
Next Obligation.
  intros w h p a c n Hh Ha Hc Hn Hne. cbn. unfold memory_read, memory_contents. rewrite Hh, Ha. simpl.
  rewrite Hc. simpl. rewrite drop_0. eexists. split; [done|]. right. rewrite length_take. lia.
Qed.
Next Obligation.
  intros w h p a c Hh Hc. cbn. unfold memory_contents. rewrite Hh. simpl. by rewrite Hc.
Qed.
Next Obligation. done. Qed.

(** ** Theorems *)

(** C29: on a volume with room for the data, one call of [winx_fwrite] on a file
    opened for buffered output, with no seek pending ([holds]; after a seek the
    position is lost, [winx_fwrite_seek_lost]), returns the number of items and
    is a positional write: it replaces the range of the contents, as seen
    through the buffer, that starts at the current position, extending the file
    when the range ends behind it -- or appends to a file opened for appending --
    and moves the position behind it, whether the data goes to the buffer,
    flushes it or is written through. *)
Theorem winx_fwrite_refines {W} `{!NtApi W, !NtFileLaws W} p a c pos buffer size count f (w : W) :
  holds p a c pos f w → 0 < size → 0 ≤ count → size * count ≤ Z.of_nat (length buffer) →
  pos + size * count < 2 ^ 63 →
  ∃ f' w', winx_fwrite buffer size count f w = Ret (count, f', w') ∧
    holds p a (stored a c (Z.to_nat pos) (take (Z.to_nat (size * count)) buffer))
      (pos + size * count) f' w'.
Proof. apply winx_fwrite_ok. Qed.

Definition sample_file : WINX_FILE := WinxFile 1 0 0 (Some [1; 2; 0; 0]) 4 2 2.

Definition sample_memory : memory := Memory {[ text "f" := [] ]} {[ 1 := (text "f", FILE_GENERIC_WRITE) ]} 1.

Lemma winx_fwrite_refines_witness :
  ∃ f' w', winx_fwrite [7; 8; 9; 9] 2 2 sample_file sample_memory = Ret (2, f', w') ∧
    holds (text "f") FILE_GENERIC_WRITE [1; 2; 7; 8; 9; 9] 6 f' w'.
Proof.
  apply (winx_fwrite_refines (text "f") FILE_GENERIC_WRITE [1; 2] 2 [7; 8; 9; 9] 2 2 sample_file sample_memory);
    [|done..].
  split; [done|done|done| |done|done]. exists [1; 2; 0; 0], []. done.
Defined.

(** C30: what is written block by block to a new file opened with [winx_fbopen]
    is what [winx_get_file_contents] reads after [winx_fclose], for any size of
    the buffer and any blocks. *)
Theorem winx_file_roundtrip {W} `{!NtApi W, !NtFileLaws W} tmalloc uninit p buffer_size blocks (w : W) :
  (∀ n, tmalloc n = true) → (∀ n, length (uninit n) = n) →
  0 < buffer_size < 2 ^ 31 → concat blocks ≠ [] → Z.of_nat (length (concat blocks)) < 2 ^ 63 →
  ∃ f w1 f' w2 w3 block w4,
    winx_fbopen tmalloc uninit p (text "w") buffer_size w = Ret (Some f, w1) ∧
    write_blocks blocks f w1 = Ret (f', w2) ∧ winx_fclose f' w2 = Ret w3 ∧
    winx_get_file_contents tmalloc uninit p w3 =
      Ret (Some (block, Z.of_nat (length (concat blocks))), w4) ∧
    take (length (concat blocks)) block = concat blocks.
Proof.
  intros Hm Hu Hb Hne Hmax.
  destruct (winx_fbopen_ok tmalloc uninit Hm Hu p buffer_size w Hb) as (f & w1 & E1 & H1).
  destruct (write_blocks_ok p (Z.lor FILE_GENERIC_WRITE SYNCHRONIZE) blocks [] f w1) as (f' & w2 & E2 & H2); [done..|].
  destruct (winx_fclose_ok _ _ _ _ _ _ H2) as (w3 & E3 & H3); [done|].
  destruct (winx_get_file_contents_ok tmalloc uninit Hm Hu p (concat blocks) w3)
    as (block & w4 & E4 & H4 & _); [done..|].
  by exists f, w1, f', w2, w3, block, w4.
Qed.

Lemma winx_file_roundtrip_witness :
  ∃ f w1 f' w2 w3 block w4,
    winx_fbopen (fun _ => true) (fun n => replicate n 0) (text "f") (text "w") 4 sample_memory =
      Ret (Some f, w1) ∧
    write_blocks [[1; 2; 3]; [4; 5]; [6; 7; 8; 9; 10]] f w1 = Ret (f', w2) ∧
    winx_fclose f' w2 = Ret w3 ∧
    winx_get_file_contents (fun _ => true) (fun n => replicate n 0) (text "f") w3 =
      Ret (Some (block, 10), w4) ∧
    take 10 block = [1; 2; 3; 4; 5; 6; 7; 8; 9; 10].
Proof.
  apply (winx_file_roundtrip (fun _ => true) (fun n => replicate n 0) (text "f") 4
           [[1; 2; 3]; [4; 5]; [6; 7; 8; 9; 10]] sample_memory);
    [done | intros n; apply length_replicate | done..].
Defined.

(** After the file pointer has been moved while nothing is buffered, the
    next [winx_fwrite] reports a failure and drops its data although every
    write request succeeds: the flush of the empty buffer has written zero
    items, which the code takes for an error. *)
Theorem winx_fwrite_seek_lost {W} `{!NtApi W, !NtFileLaws W} p a disk io buffer size count f (w : W) :
  opened w (hFile f) = Some (p, a) → writable a = true → file_at w p = Some disk → io_buffer f = Some io →
  0 < io_buffer_size f → io_buffer_offset f = 0 → 0 ≤ wboffset f < 2 ^ 63 →
  woffset f ≠ wboffset f →
  ∃ w', winx_fwrite buffer size count f w = Ret (0, set_wboffset (woffset f) f, w') ∧
    file_at w' p = Some disk.
Proof.
  intros Ho Ha Hd Hio Hs Hoff Hwb Hne. unfold winx_fwrite. rewrite Hio.
  rewrite (proj2 (Z.eqb_neq (io_buffer_size f) 0)) by lia. unfold fwrite_adjust.
  rewrite Hoff, Z.sub_0_r, s64_small by lia. rewrite (proj2 (Z.eqb_neq _ _)) by done. simpl.
  destruct (winx_fwrite_helper_ok p a disk io 1 0 (set_woffset (wboffset f) f) w)
    as (w' & -> & _ & Hf); [done|done|done|lia|lia|lia|simpl; lia|simpl; lia|]. simpl.
  exists w'. rewrite stored_nil in Hf. split; [|done]. destruct f; simpl in *; by subst.
Qed.

Lemma winx_fwrite_seek_lost_witness :
  ∃ w', winx_fwrite [7] 1 1 (WinxFile 1 0 10 (Some [0; 0; 0; 0]) 4 0 0) sample_memory =
    Ret (0, WinxFile 1 0 10 (Some [0; 0; 0; 0]) 4 0 10, w') ∧ file_at w' (text "f") = Some [].
Proof.
  apply (winx_fwrite_seek_lost (text "f") FILE_GENERIC_WRITE [] [0; 0; 0; 0] [7] 1 1
           (WinxFile 1 0 10 (Some [0; 0; 0; 0]) 4 0 0) sample_memory); done.
Defined.

(** ** Special NTFS files *)

(** The caseless search finds a name that starts with a dollar sign in a
    native path of the same length as its seven characters and the name only
    behind them. *)
Definition native_path (letter : Z) (name : str) : str :=
  text "\??\" ++ [letter] ++ text ":\" ++ name.

Lemma native_path_length letter name : length (native_path letter name) = (7 + length name)%nat.
Proof. unfold native_path. rewrite !length_app. reflexivity. Qed.

Definition drive_letter (c : Z) : bool :=
  (0x41 <=? c) && (c <=? 0x5A) || (0x61 <=? c) && (c <=? 0x7A).

Definition same_name (a b : str) : Prop := map fast_towlower a = map fast_towlower b.

#[export] Instance same_name_dec a b : Decision (same_name a b) := decide (_ = _).

Lemma dollar_fold c : fast_towlower c = 0x24 ↔ c = 0x24.
Proof.
  split; [|intros ->; by vm_compute]. intros E.
  assert (H : fast_towlower c = c ∨ fast_towlower c = 0 ∨ negb (fast_towlower c =? 0x24) = true).
  { destruct (fast_towlower_spec (fun _ x => negb (x =? 0x24)) c) as [[H _]|[H|H]].
    - vm_compute. reflexivity.
    - left. exact H.
    - right. left. exact H.
    - right. right. exact H. }
  revert E H. generalize (fast_towlower c). intros x -> [H|[H|H]]; [congruence|discriminate..].
Qed.

Lemma occurs_head fold s c t p :
  occurs fold s (c :: t) p → ∃ d, s !! p = Some d ∧ fold d = fold c.
Proof.
  intros [_ [k Hk]]. apply (f_equal head) in Hk. rewrite <- (Nat.add_0_r p), <- lookup_drop.
  destruct (drop p s) as [|x l]; [done|]. exists x. split; [done|]. by injection Hk.
Qed.

Lemma native_search letter name t :
  letter ≠ 0x24 → length name = length t → head t = Some 0x24 →
  is_Some (winx_wcsistr (Some (native_path letter name)) (Some t)) ↔ same_name name t.
Proof.
  intros Hl Hlen Ht. cbn [winx_wcsistr mbind option_bind]. rewrite search_loop_found. split.
  - intros (q & Hocc). pose proof Hocc as [Hq Hp]. assert (Hle : (q ≤ 7)%nat).
    { apply prefix_length in Hp. rewrite !length_fmap, length_drop, native_path_length in Hp.
      rewrite native_path_length in Hq. lia. }
    destruct (decide (q = 7)%nat) as [->|Hn].
    + destruct Hp as [k Hk]. change (drop 7 (native_path letter name)) with name in Hk.
      assert (Ek : length k = 0%nat).
      { apply (f_equal length) in Hk. rewrite length_app, !length_fmap in Hk. lia. }
      apply length_zero_iff_nil in Ek. subst k. rewrite app_nil_r in Hk. exact Hk.
    + exfalso. destruct t as [|t0 t]; [done|]. injection Ht as ->.
      apply occurs_head in Hocc as (d & Hd & E). rewrite (proj2 (dollar_fold 0x24) eq_refl) in E.
      apply (proj1 (dollar_fold d)) in E. subst d. clear - Hd Hl Hle Hn.
      do 7 (destruct q as [|q]; [vm_compute in Hd; congruence|]). lia.
  - intros E. exists 7%nat. split.
    + rewrite native_path_length. destruct t; [done|]. simpl in Hlen. lia.
    + change (drop 7 (native_path letter name)) with name. exists []. rewrite app_nil_r. exact E.
Qed.

(** The name the table gives for a name. *)
Fixpoint accepted (table : list (str * str)) (name : str) : option str :=
  match table with
  | [] => None
  | (o, a) :: table => if decide (same_name name o) then Some a else accepted table name
  end.

Lemma special_loop_spec table letter name :
  letter ≠ 0x24 → Forall (fun e => head e.1 = Some 0x24) table →
  special_loop table (native_path letter name) (u8 letter) =
  match accepted table name with
  | Some a => accepted_path (u8 letter) a
  | None => native_path letter name
  end.
Proof.
  intros Hl. induction 1 as [|[o a] table Ho Ht IH]; [done|]. cbn [special_loop accepted].
  pose proof (native_path_length letter name) as Elen. rewrite Nat.add_comm in Elen.
  destruct (decide (length name = length o)) as [El|El].
  - pose proof (native_search letter name o Hl El Ho) as HS.
    rewrite Elen, El, (decide_True (P := (length o + 7 = length o + 7)%nat)) by done.
    destruct (winx_wcsistr _ _) as [r|]; case_decide as Hd; try done.
    + destruct Hd. apply HS. by eexists.
    + destruct (proj2 HS Hd). done.
  - rewrite (decide_False (P := same_name name o)).
    2: { intros E. unfold same_name in E. apply (f_equal length) in E. by rewrite !length_map in E. }
    rewrite Elen, (decide_False (P := (length name + 7 = length o + 7)%nat)) by lia.
    by destruct (winx_wcsistr _ _).
Qed.

Lemma accepted_inv table name a :
  accepted table name = Some a → ∃ o, (o, a) ∈ table ∧ same_name name o.
Proof.
  induction table as [|[o a'] table IH]; cbn [accepted]; [done|]. case_decide as Hd.
  - intros [= ->]. exists o. split; [left|exact Hd].
  - intros (o' & Hin & HE)%IH. exists o'. split; [by right|exact HE].
Qed.

(** The entries of the table start with a dollar sign, have another character,
    and the paths they give fit in the buffer. *)
Lemma special_file_names_ok :
  Forall (fun e => head e.1 = Some 0x24 ∧ (2 ≤ length e.1)%nat ∧ (length e.2 ≤ 253)%nat)
    special_file_names.
Proof. apply (bool_decide_unpack _). vm_compute. exact I. Qed.

Lemma map_heads (f : Z → Z) c s d t : map f (c :: s) = map f (d :: t) → f c = f d.
Proof. by intros [= ? _]. Qed.

Lemma same_name_dollar name o :
  same_name name o → head o = Some 0x24 → length name = length o ∧ head name = Some 0x24.
Proof.
  intros E Ho. unfold same_name in E. split.
  { apply (f_equal length) in E. by rewrite !length_map in E. }
  destruct o as [|c o]; [done|]. injection Ho as ->. destruct name as [|d name]; [discriminate E|].
  apply map_heads in E. rewrite (proj2 (dollar_fold 0x24) eq_refl) in E.
  apply (proj1 (dollar_fold d)) in E. by subst d.
Qed.

Lemma accepted_path_native letter a :
  0 ≤ letter < 128 → (length a ≤ 253)%nat → accepted_path (u8 letter) a = native_path letter a.
Proof.
  intros Hl Ha. unfold accepted_path, wide_char, u8. rewrite Z.mod_small by lia.
  rewrite (proj2 (Z.ltb_lt _ _)) by lia. rewrite take_ge; [done|].
  change (length (native_path letter a) ≤ Z.to_nat MAX_PATH)%nat. rewrite native_path_length.
  unfold MAX_PATH. lia.
Qed.

(** [winx_defrag_fopen] opens the stream of a special NTFS file by the name
    the table gives for it, on the same volume and whatever the case of its
    name, and every other file by its own path. *)
Theorem defrag_path_correct letter name :
  drive_letter letter = true →
  defrag_path (native_path letter name) =
  native_path letter (default name (accepted special_file_names name)).
Proof.
  intros Hl. assert (Hr : 0x41 ≤ letter ≤ 0x7A) by (unfold drive_letter in Hl; lia).
  unfold defrag_path. change (nth 4 (native_path letter name) 0) with letter.
  change (nth 7 (native_path letter name) 0) with (nth 0 name 0). rewrite native_path_length.
  rewrite special_loop_spec; [|lia|].
  2: { eapply Forall_impl; [exact special_file_names_ok|]. by intros e (? & _). }
  destruct (accepted special_file_names name) as [a|] eqn:E.
  - apply accepted_inv in E as (o & Hin & Hs). pose proof special_file_names_ok as HF.
    rewrite Forall_forall in HF. apply HF in Hin as (Ho & Hlen & Ha). simpl in Ho, Hlen, Ha.
    destruct (same_name_dollar name o Hs Ho) as [El En]. clear Hs.
    destruct name as [|c name]; [done|]. injection En as ->. simpl in El. simpl length.
    rewrite (proj2 (Z.leb_le _ _)) by lia. simpl. apply accepted_path_native; [lia|done].
  - by destruct (_ && _).
Qed.

Lemma defrag_path_correct_witness :
  defrag_path (native_path 0x43 (text "$extend\$objid:$o")) =
  native_path 0x43 (text "$Extend\$ObjId:$O:$INDEX_ALLOCATION").
Proof.
  rewrite (defrag_path_correct 0x43 (text "$extend\$objid:$o") eq_refl). vm_compute. reflexivity.
Defined.
