(* ===== verification/FtwDir.v ===== *)
(** * ftw.c: listing a directory

    [Ftw] walks over directories through their listings.  Here is where a listing
    comes from: the directory is opened, its entries are read in portions into
    a buffer and picked out of it one by one, and the handle is closed.  The
    entries are those of the directory, in whatever portions they come. *)
From S2P Require Import Prelude DList Bitmap CString FileInfo Ftw FileIO.
From stdpp Require Import prelude gmap strings.
Open Scope Z_scope.

(** ** The system *)
Class NtDirectory (W : Type) : Type := {
  (** Handle and size of the buffer; the status and the bytes stored. *)
  NtQueryDirectoryFile : Z → Z → W → Z * list Z * W;
}.

Definition FILE_RESERVE_OPFILTER : Z := 0x100000.

Definition FILE_LISTING_SIZE : Z := 16 * 1024.

(** ** The buffer *)

(** FILE_BOTH_DIR_INFORMATION: the offsets of its fields. *)
Definition CreationTime_offset : Z := 8.
Definition LastAccessTime_offset : Z := 16.
Definition LastWriteTime_offset : Z := 24.
Definition FileAttributes_offset : Z := 56.
Definition FileNameLength_offset : Z := 60.
Definition FileName_offset : Z := 94.

(** [n] characters. *)
Fixpoint rd_chars (n : nat) (b : list Z) (off : Z) : outcome (list Z) :=
  match n with
  | O => Ret []
  | S n => c ← rd 2 b off; s ← rd_chars n b (off + 2); Ret (c :: s)
  end.

Definition entry_at (b : list Z) (off : Z) : outcome dir_entry :=
  length ← rd 4 b (off + FileNameLength_offset);
  name ← rd_chars (Z.to_nat (length / 2)) b (off + FileName_offset);
  attributes ← rd 4 b (off + FileAttributes_offset);
  creation ← rd 8 b (off + CreationTime_offset);
  write ← rd 8 b (off + LastWriteTime_offset);
  access ← rd 8 b (off + LastAccessTime_offset);
  Ret (DirEntry name attributes creation write access).

(** [file_listing], and [file_entry] as an offset in it. *)
Record cursor : Type := Cursor {
  file_listing : list Z;
  file_entry : Z;
}.

Definition no_listing : list Z := replicate (Z.to_nat FILE_LISTING_SIZE) 0.

Definition listing_request (path : str) : create_request :=
  CreateRequest (Z.lor FILE_LIST_DIRECTORY FILE_RESERVE_OPFILTER) path 0 0
    (Z.lor FILE_SHARE_READ FILE_SHARE_WRITE) FILE_OPEN
    (Z.lor (Z.lor FILE_DIRECTORY_FILE FILE_SYNCHRONOUS_IO_NONALERT) FILE_OPEN_FOR_BACKUP_INTENT).

Section listing.
Context {W : Type} `{!NtApi W} `{!NtDirectory W}.
Implicit Types (w : W) (h : Z) (c : cursor).

(** The handle, 0 for NULL. *)
Definition ftw_open_directory (path : option str) w : Z * W :=
  match path with
  | None => (0, w)
  | Some path =>
      let '(status, h, w) := NtCreateFile (listing_request path) w in
      if negb (status =? STATUS_SUCCESS) then (0, w) else (h, w)
  end.

(** "get directory entry", the first part of the loop of [ftw_helper]: nothing
    when there are no more entries to read. *)
Definition next_entry c h w : outcome (option (dir_entry * cursor) * W) :=
  next ← rd 4 (file_listing c) (file_entry c);
  if negb (next =? 0) then
    let off := file_entry c + next in
    e ← entry_at (file_listing c) off;
    Ret (Some (e, Cursor (file_listing c) off), w)
  else
    let '(status, bytes, w) := NtQueryDirectoryFile h FILE_LISTING_SIZE w in
    if negb (status =? STATUS_SUCCESS) then Ret (None, w) else
    b ← blit no_listing 0 bytes;
    e ← entry_at b 0;
    Ret (Some (e, Cursor b 0), w).

(** The entries that the loop sees, one after the other. *)
Fixpoint read_entries (fuel : nat) c h w : outcome (list dir_entry * W) :=
  match fuel with
  | O => NoFuel
  | S fuel =>
      '(e, w) ← next_entry c h w;
      match e with
      | None => Ret ([], w)
      | Some (e, c) => '(es, w) ← read_entries fuel c h w; Ret (e :: es, w)
      end
  end.

(** The listing of a directory, as [Ftw] uses it. *)
Definition list_directory (fuel : nat) (path : option str) w : outcome (option (list dir_entry) * W) :=
  let '(h, w) := ftw_open_directory path w in
  if h =? 0 then Ret (None, w) else
  '(es, w) ← read_entries fuel (Cursor no_listing 0) h w;
  Ret (Some es, NtClose h w).
End listing.

(** ** What the buffer holds *)

Definition chars_bytes (s : list Z) : list Z := foldr (fun c b => enc 2 c ++ b) [] s.

(** An entry that can be stored: its numbers have their widths. *)
Definition entry_ok (e : dir_entry) : Prop :=
  Forall (fun c => 0 ≤ c < 2 ^ 16) (FileName e) ∧ 2 * Z.of_nat (length (FileName e)) < 2 ^ 32 ∧
  0 ≤ FileAttributes e < 2 ^ 32 ∧ 0 ≤ de_CreationTime e < 2 ^ 64 ∧ 0 ≤ de_LastWriteTime e < 2 ^ 64 ∧
  0 ≤ de_LastAccessTime e < 2 ^ 64.

(** The bytes of an entry; [index], [sizes] and [short] are the fields that nobody
    reads, [pad] fills it up. *)
Definition stored (next : Z) (e : dir_entry) (b : list Z) : Prop :=
  ∃ index sizes short pad : list Z, length index = 4%nat ∧ length sizes = 24%nat ∧ length short = 30%nat ∧
    b = enc 4 next ++ index ++ enc 8 (de_CreationTime e) ++ enc 8 (de_LastAccessTime e) ++
      enc 8 (de_LastWriteTime e) ++ sizes ++ enc 4 (FileAttributes e) ++
      enc 4 (2 * Z.of_nat (length (FileName e))) ++ short ++ chars_bytes (FileName e) ++ pad.

(** A portion: every entry but the last one has the distance to the next. *)
Inductive portion : list dir_entry → list Z → Prop :=
| portion_last e b : entry_ok e → stored 0 e b → portion [e] b
| portion_next e b es b' :
    entry_ok e → stored (Z.of_nat (length b)) e b → portion es b' → portion (e :: es) (b ++ b').

Lemma chars_bytes_length s : length (chars_bytes s) = (2 * length s)%nat.
Proof.
  induction s as [|c s IH]; [done|]. change (chars_bytes (c :: s)) with (enc 2 c ++ chars_bytes s).
  rewrite length_app, enc_length, IH. simpl. lia.
Qed.

Lemma rd_chars_ok s pre post b off :
  b = pre ++ chars_bytes s ++ post → off = Z.of_nat (length pre) → Forall (fun c => 0 ≤ c < 2 ^ 16) s →
  rd_chars (length s) b off = Ret s.
Proof.
  intros Hb Ho Hs. revert pre off Hb Ho. induction Hs as [|c s Hc Hs IH]; intros pre off Hb Ho; [done|].
  change (chars_bytes (c :: s)) with (enc 2 c ++ chars_bytes s) in Hb. rewrite <- app_assoc in Hb. cbn [rd_chars length].
  rewrite (rd_at 2 c pre (chars_bytes s ++ post) b off Hb Ho Hc), outcome_bind_ret.
  rewrite (IH (pre ++ enc 2 c)); [done | by rewrite <- app_assoc |].
  rewrite length_app, enc_length. lia.
Qed.

Lemma entry_at_ok next e b pre post :
  stored next e b → entry_ok e → 0 ≤ next < 2 ^ 32 →
  let buf := pre ++ b ++ post in let off := Z.of_nat (length pre) in
  rd 4 buf off = Ret next ∧ entry_at buf off = Ret e.
Proof.
  intros (index & sizes & short & pad & H1 & H2 & H3 & ->) (Hname & Hlen & Hattr & Hct & Hlw & Hla) Hnext.
  cbv zeta. set (ct := enc 8 (de_CreationTime e)). set (la := enc 8 (de_LastAccessTime e)).
  set (lw := enc 8 (de_LastWriteTime e)). set (at' := enc 4 (FileAttributes e)).
  set (len := enc 4 (2 * Z.of_nat (length (FileName e)))). set (name := chars_bytes (FileName e)).
  set (buf := pre ++ _ ++ post).
  assert (L : length ct = 8%nat ∧ length la = 8%nat ∧ length lw = 8%nat ∧ length at' = 4%nat ∧ length len = 4%nat)
    by (unfold ct, la, lw, at', len; by rewrite !enc_length).
  destruct L as (Lc & La & Lw & Lat & Ll). split.
  - apply (rd_at 4 next pre (index ++ ct ++ la ++ lw ++ sizes ++ at' ++ len ++ short ++ name ++ pad ++ post));
      [unfold buf; by rewrite <- !app_assoc | done | done].
  - set (p2 := pre ++ enc 4 next ++ index). set (p3 := p2 ++ ct). set (p4 := p3 ++ la).
    set (p5 := p4 ++ lw ++ sizes). set (p6 := p5 ++ at'). set (p7 := p6 ++ len ++ short).
    assert (N2 : length p2 = (length pre + 8)%nat) by (unfold p2; rewrite !length_app, enc_length; lia).
    assert (N3 : length p3 = (length pre + 16)%nat) by (unfold p3; rewrite length_app; lia).
    assert (N4 : length p4 = (length pre + 24)%nat) by (unfold p4; rewrite length_app; lia).
    assert (N5 : length p5 = (length pre + 56)%nat) by (unfold p5; rewrite !length_app; lia).
    assert (N6 : length p6 = (length pre + 60)%nat) by (unfold p6; rewrite length_app; lia).
    assert (N7 : length p7 = (length pre + 94)%nat) by (unfold p7; rewrite !length_app; lia).
    unfold entry_at, FileNameLength_offset, FileName_offset, FileAttributes_offset, CreationTime_offset,
      LastWriteTime_offset, LastAccessTime_offset.
    assert (E7 : buf = p7 ++ name ++ pad ++ post) by (unfold p7, p6, p5, p4, p3, p2, buf; by rewrite <- !app_assoc).
    rewrite (rd_at 4 (2 * Z.of_nat (length (FileName e))) p6 (short ++ name ++ pad ++ post)
      buf (Z.of_nat (length pre) + 60));
      [| unfold p6, p5, p4, p3, p2, buf; by rewrite <- !app_assoc | lia | split; [lia | exact Hlen]].
    rewrite outcome_bind_ret, Z.mul_comm, Z.div_mul, Nat2Z.id by done.
    rewrite (rd_chars_ok (FileName e) p7 (pad ++ post) buf) by first [done | lia].
    rewrite outcome_bind_ret, (rd_at 4 (FileAttributes e) p5 (len ++ short ++ name ++ pad ++ post)
      buf (Z.of_nat (length pre) + 56));
      [| unfold p5, p4, p3, p2, buf; by rewrite <- !app_assoc | lia | done].
    rewrite outcome_bind_ret, (rd_at 8 (de_CreationTime e) p2 (la ++ lw ++ sizes ++ at' ++ len ++ short ++ name ++ pad ++ post)
      buf (Z.of_nat (length pre) + 8));
      [| unfold p2, buf; by rewrite <- !app_assoc | lia | done].
    rewrite outcome_bind_ret, (rd_at 8 (de_LastWriteTime e) p4 (sizes ++ at' ++ len ++ short ++ name ++ pad ++ post)
      buf (Z.of_nat (length pre) + 24));
      [| unfold p4, p3, p2, buf; by rewrite <- !app_assoc | lia | done].
    rewrite outcome_bind_ret, (rd_at 8 (de_LastAccessTime e) p3 (lw ++ sizes ++ at' ++ len ++ short ++ name ++ pad ++ post)
      buf (Z.of_nat (length pre) + 16));
      [| unfold p3, p2, buf; by rewrite <- !app_assoc | lia | done].
    rewrite outcome_bind_ret. by destruct e.
Qed.

(** ** What is relied on

    [dirs]: the open directories, with what is left of their listings; [contents]:
    the listing of a directory that can be opened.  A query stores some of
    the entries that are left, as many as it likes but at least one. *)
Class NtListing (W : Type) `{!NtApi W, !NtDirectory W} : Type := {
  dirs : W → gmap Z (list dir_entry);
  contents : W → str → option (list dir_entry);
  li_create path w :
    match contents w path with
    | None => ∃ status h w', NtCreateFile (listing_request path) w = (status, h, w') ∧
        status ≠ STATUS_SUCCESS ∧ dirs w' = dirs w
    | Some es => ∃ h w', NtCreateFile (listing_request path) w = (STATUS_SUCCESS, h, w') ∧
        h ≠ 0 ∧ dirs w !! h = None ∧ dirs w' = <[h := es]> (dirs w)
    end;
  li_query h w es :
    dirs w !! h = Some es →
    ∃ status b w' p rest, NtQueryDirectoryFile h FILE_LISTING_SIZE w = (status, b, w') ∧
      es = p ++ rest ∧ dirs w' = <[h := rest]> (dirs w) ∧
      (es = [] → status ≠ STATUS_SUCCESS) ∧
      (es ≠ [] → status = STATUS_SUCCESS ∧ portion p b ∧ Z.of_nat (length b) ≤ FILE_LISTING_SIZE);
  li_close h w : dirs (NtClose h w) = delete h (dirs w);
}.

(** The cursor stands at the entry [e], [es] follow in the buffer. *)
Definition at_cursor (c : cursor) (e : dir_entry) (es : list dir_entry) : Prop :=
  ∃ pre b post, file_listing c = pre ++ b ++ post ∧ file_entry c = Z.of_nat (length pre) ∧
    portion (e :: es) b ∧ Z.of_nat (length b) < 2 ^ 32.

(** What the cursor has still to show: nothing, or what follows in the buffer. *)
Definition pending (c : cursor) (es : list dir_entry) : Prop :=
  (es = [] ∧ rd 4 (file_listing c) (file_entry c) = Ret 0) ∨ ∃ e, at_cursor c e es.

Lemma stored_length next e b : stored next e b → (94 ≤ length b)%nat.
Proof. intros (? & ? & ? & ? & H1 & H2 & H3 & ->). rewrite !length_app, !enc_length, H1, H2, H3. lia. Qed.

Lemma at_cursor_entry c e es : at_cursor c e es → entry_at (file_listing c) (file_entry c) = Ret e.
Proof.
  intros (pre & b & post & -> & -> & Hp & Hb). inversion Hp as [? ? Hok Hs | ? b1 ? b2 Hok Hs Hp']; subst.
  - by apply (entry_at_ok 0 e b pre post Hs Hok).
  - rewrite length_app in Hb. rewrite <- app_assoc.
    by apply (entry_at_ok (Z.of_nat (length b1)) e b1 pre (b2 ++ post) Hs Hok); lia.
Qed.

Lemma at_cursor_last c e : at_cursor c e [] → rd 4 (file_listing c) (file_entry c) = Ret 0.
Proof.
  intros (pre & b & post & -> & -> & Hp & Hb). inversion Hp as [? ? Hok Hs | ? b1 ? b2 Hok Hs Hp']; subst.
  - by apply (entry_at_ok 0 e b pre post Hs Hok).
  - inversion Hp'.
Qed.

Lemma at_cursor_next c e e' es :
  at_cursor c e (e' :: es) →
  ∃ n, rd 4 (file_listing c) (file_entry c) = Ret n ∧ n ≠ 0 ∧
    at_cursor (Cursor (file_listing c) (file_entry c + n)) e' es.
Proof.
  intros (pre & b & post & Eb & Eo & Hp & Hb). inversion Hp as [|? b1 ? b2 Hok Hs Hp']; subst.
  rewrite length_app in Hb. pose proof (stored_length _ _ _ Hs).
  exists (Z.of_nat (length b1)). rewrite Eb, Eo. split_and!.
  - rewrite <- app_assoc. by apply (entry_at_ok (Z.of_nat (length b1)) e b1 pre (b2 ++ post) Hs Hok); lia.
  - lia.
  - exists (pre ++ b1), b2, post. cbn [file_listing file_entry].
    split_and!; [by rewrite <- !app_assoc | rewrite length_app; lia | done | lia].
Qed.

Lemma no_listing_length : Z.of_nat (length no_listing) = FILE_LISTING_SIZE.
Proof. unfold no_listing. rewrite length_replicate. apply Z2Nat.id. done. Qed.

Lemma pending_start : pending (Cursor no_listing 0) [].
Proof. left. split; [done | by vm_compute]. Qed.

(** A portion in the buffer. *)
Lemma portion_cursor e es b :
  portion (e :: es) b → Z.of_nat (length b) ≤ FILE_LISTING_SIZE →
  ∃ buf, blit no_listing 0 b = Ret buf ∧ at_cursor (Cursor buf 0) e es.
Proof.
  intros Hp Hb. unfold blit. rewrite Z.ltb_irrefl, no_listing_length, (proj2 (Z.ltb_ge _ _)) by lia.
  eexists. split; [reflexivity|]. exists [], b, (drop (0 + length b) no_listing).
  split_and!; [done..|]. unfold FILE_LISTING_SIZE in Hb. lia.
Qed.

Section reading.
Context {W : Type} `{!NtApi W, !NtDirectory W, !NtListing W}.

Lemma read_entries_run h fuel : ∀ l es c (w : W),
  pending c l → dirs w !! h = Some es → (length l + length es < fuel)%nat →
  ∃ w', read_entries fuel c h w = Ret (l ++ es, w') ∧ dirs w' = <[h := []]> (dirs w).
Proof.
  induction fuel as [|fuel IH]; intros l es c w Hc Hh Hf; [lia|]. cbn [read_entries].
  destruct l as [|e' l].
  - assert (E0 : rd 4 (file_listing c) (file_entry c) = Ret 0).
    { destruct Hc as [[_ ?]|[e He]]; [done | by eapply at_cursor_last]. }
    destruct (li_query h w es Hh) as (status & b & w1 & p & rest & Eq & Ees & Ed & Hnil & Hcons).
    unfold next_entry. rewrite E0, outcome_bind_ret, Eq. cbn [Z.eqb negb].
    destruct (decide (es = [])) as [->|Hne].
    + rewrite (proj2 (Z.eqb_neq _ _)) by auto. exists w1. split; [done|].
      apply eq_sym, app_nil in Ees as [_ ->]. done.
    + destruct (Hcons Hne) as (-> & Hp & Hb). change (negb (STATUS_SUCCESS =? STATUS_SUCCESS)) with false. cbv iota.
      destruct p as [|e p]; [inversion Hp|]. destruct (portion_cursor e p b Hp Hb) as (buf & Ebuf & Hcur).
      rewrite Ebuf, outcome_bind_ret. pose proof (at_cursor_entry _ _ _ Hcur) as Ee. cbn [file_listing file_entry] in Ee.
      rewrite Ee, !outcome_bind_ret.
      destruct (IH p rest (Cursor buf 0) w1) as (w' & E' & Ed').
      { right. by exists e. }
      { rewrite Ed. apply lookup_insert_eq. }
      { rewrite Ees, length_app in Hf. simpl in Hf. lia. }
      rewrite E'. exists w'. split; [by rewrite Ees|]. by rewrite Ed', Ed, insert_insert_eq.
  - destruct Hc as [[? _]|[e He]]; [done|]. destruct (at_cursor_next _ _ _ _ He) as (n & En & Hn & Hcur).
    unfold next_entry. rewrite En, outcome_bind_ret, (proj2 (Z.eqb_neq _ _)) by done. cbn [negb].
    pose proof (at_cursor_entry _ _ _ Hcur) as Ee. cbn [file_listing file_entry] in Ee. rewrite Ee, !outcome_bind_ret.
    destruct (IH l es _ w ltac:(right; by exists e') Hh) as (w' & E' & Ed); [simpl in Hf; lia|].
    rewrite E'. by exists w'.
Qed.
End reading.

(** C27: the listing of a directory that can be opened is all of its entries, in
    their order, whatever the portions in which the system stores them in the
    buffer; reading it ends, stays in the buffer and closes the
    directory. Nothing is opened when the directory cannot be. *)
Theorem list_directory_complete {W : Type} `{!NtApi W, !NtDirectory W, !NtListing W} fuel path (w : W) :
  (length (default [] (contents w path)) < fuel)%nat →
  ∃ w', list_directory fuel (Some path) w = Ret (contents w path, w') ∧ dirs w' = dirs w.
Proof.
  intros Hf. unfold list_directory, ftw_open_directory. pose proof (li_create path w) as Hc.
  destruct (contents w path) as [es|].
  - destruct Hc as (h & w1 & -> & Hh & Hnew & Ed). change (negb (STATUS_SUCCESS =? STATUS_SUCCESS)) with false.
    cbv iota. rewrite (proj2 (Z.eqb_neq h 0)) by done.
    destruct (read_entries_run h fuel [] es (Cursor no_listing 0) w1 pending_start) as (w2 & E2 & Ed2).
    { rewrite Ed. apply lookup_insert_eq. }
    { exact Hf. }
    rewrite E2. eexists. split; [reflexivity|]. rewrite li_close, Ed2, Ed, insert_insert_eq. by apply delete_insert_id.
  - destruct Hc as (status & h & w1 & -> & Hs & Ed). rewrite (proj2 (Z.eqb_neq _ _)) by done. by exists w1.
Qed.

(** ** A directory

    Three entries; the system stores two of them at a time.  [W] has how many were
    read through each handle. *)
Definition STATUS_NO_MORE_FILES : Z := 0x80000006.

Definition enc_entry (next : Z) (e : dir_entry) : list Z :=
  enc 4 next ++ replicate 4 0 ++ enc 8 (de_CreationTime e) ++ enc 8 (de_LastAccessTime e) ++
  enc 8 (de_LastWriteTime e) ++ replicate 24 0 ++ enc 4 (FileAttributes e) ++
  enc 4 (2 * Z.of_nat (length (FileName e))) ++ replicate 30 0 ++ chars_bytes (FileName e) ++ [].

Fixpoint enc_portion (es : list dir_entry) : list Z :=
  match es with
  | [] => []
  | [e] => enc_entry 0 e
  | e :: es => enc_entry (Z.of_nat (length (enc_entry 0 e))) e ++ enc_portion es
  end.

Lemma enc_entry_stored next e : stored next e (enc_entry next e).
Proof. by eexists (replicate 4 0), (replicate 24 0), (replicate 30 0), []. Qed.

Lemma enc_entry_length n m e : length (enc_entry n e) = length (enc_entry m e).
Proof. unfold enc_entry. by rewrite !length_app, !enc_length. Qed.

Lemma enc_portion_ok e es : entry_ok e → Forall entry_ok es → portion (e :: es) (enc_portion (e :: es)).
Proof.
  intros He Hes. revert e He. induction Hes as [|e' es He' Hes IH]; intros e He.
  - constructor; [done | apply enc_entry_stored].
  - change (enc_portion (e :: e' :: es)) with
      (enc_entry (Z.of_nat (length (enc_entry 0 e))) e ++ enc_portion (e' :: es)).
    constructor; [done | | by apply IH].
    rewrite (enc_entry_length _ 0). apply enc_entry_stored.
Qed.

Definition demo_entries : list dir_entry :=
  [DirEntry (text ".") 0x10 1 2 3; DirEntry (text "a.txt") 0x20 4 5 6; DirEntry (text "b") 0x10 7 8 9].

Abbreviation directory_world := (gmap Z nat).

Definition free_handle (w : directory_world) : Z := fresh ({[0]} ∪ dom w : gset Z).

#[export] Instance directory_api : NtApi directory_world := {|
  NtCreateFile r w :=
    if decide (ObjectName r = text "\??\C:\") then (STATUS_SUCCESS, free_handle w, <[free_handle w := O]> w)
    else (0xC0000034, 0, w);
  NtReadFile _ _ _ _ := (STATUS_ACCESS_DENIED, 0, []);
  NtWriteFile _ _ _ w := (STATUS_ACCESS_DENIED, 0, w);
  NtFlushBuffersFile _ w := (STATUS_SUCCESS, w);
  NtQueryStandardInformation _ _ := (STATUS_ACCESS_DENIED, 0);
  NtDeleteFile _ w := (STATUS_ACCESS_DENIED, w);
  NtClose h w := delete h w;
|}.

#[export] Instance directory_query : NtDirectory directory_world := {|
  NtQueryDirectoryFile h _ w :=
    match w !! h with
    | None => (0xC0000008, [], w)
    | Some n => match drop n demo_entries with
                | [] => (STATUS_NO_MORE_FILES, [], w)
                | es => (STATUS_SUCCESS, enc_portion (take 2 es), <[h := (n + 2)%nat]> w)
                end
    end;
|}.

Lemma demo_entries_ok : Forall entry_ok demo_entries.
Proof. apply (bool_decide_unpack _). vm_compute. exact I. Qed.

Lemma demo_portion n e es : drop n demo_entries = e :: es →
  portion (take 2 (e :: es)) (enc_portion (take 2 (e :: es))) ∧
  Z.of_nat (length (enc_portion (take 2 (e :: es)))) ≤ FILE_LISTING_SIZE.
Proof.
  intros E. pose proof (Forall_drop _ n _ demo_entries_ok) as Hok. rewrite E in Hok.
  apply Forall_cons in Hok as [He Hes]. split.
  - cbn [take]. apply enc_portion_ok; [done | by apply Forall_take].
  - destruct n as [|[|[|n]]]; [injection E as <- <-; by vm_compute .. | by destruct n].
Qed.

#[export, program] Instance directory_laws : NtListing directory_world := {|
  dirs w := (fun n => drop n demo_entries) <$> w;
  contents _ path := if decide (path = text "\??\C:\") then Some demo_entries else None;
|}.
Next Obligation.
  intros path w. simpl. case_decide; [|by eexists _, _, _].
  pose proof (is_fresh ({[0]} ∪ dom w : gset Z)) as H1. fold (free_handle w) in H1.
  apply not_elem_of_union in H1 as [H1 H2]. eexists _, _. split; [done|]. split_and!.
  - set_solver.
  - rewrite lookup_fmap. by apply not_elem_of_dom in H2 as ->.
  - by rewrite fmap_insert.
Qed.
Next Obligation.
  intros h w es. simpl. rewrite lookup_fmap. destruct (w !! h) as [n|] eqn:E; [|by intros [=]]. intros [= <-].
  destruct (drop n demo_entries) as [|e es] eqn:Ed.
  - eexists _, _, _, [], []. split_and!; [done | done | | done | by intros []].
    rewrite insert_id; [done|]. by rewrite lookup_fmap, E, <- Ed.
  - eexists _, _, _, (take 2 (e :: es)), (drop 2 (e :: es)). split_and!; [done | by rewrite take_drop | | done |].
    + by rewrite fmap_insert, <- Ed, drop_drop.
    + intros _. split; [done|]. by apply demo_portion with n.
Qed.
Next Obligation. intros h w. simpl. by rewrite fmap_delete. Qed.

Lemma list_directory_complete_witness :
  (length (default [] (contents (∅ : directory_world) (text "\??\C:\"))) < 4)%nat ∧
  ∃ w', list_directory 4 (Some (text "\??\C:\")) (∅ : directory_world) =
      Ret (contents (∅ : directory_world) (text "\??\C:\"), w') ∧ dirs w' = dirs (∅ : directory_world).
Proof.
  assert (H : (length (default [] (contents (∅ : directory_world) (text "\??\C:\"))) < 4)%nat) by (simpl; lia).
  split; [exact H | apply (list_directory_complete 4 (text "\??\C:\") (∅ : directory_world) H)].
Defined.
