(* ===== verification/Path.v ===== *)
(** * path.c: operations on native paths

    The routines that edit a path work on its buffer: a list of [wchar_t]
    cells with a terminating zero; an access outside the buffer is a fault.
    The image path of the process is a parameter of winx_get_module_filename.
    The creation of a directory tree runs on the native file API of [FileIO]. *)
From S2P Require Import Prelude DList Bitmap CaseTables CString FileInfo FileIO.
From stdpp Require Import prelude gmap strings.
Open Scope Z_scope.

Definition BACKSLASH : Z := 0x5C.

Definition DOT : Z := 0x2E.

(** [wcslen]: a buffer without a terminator is read past its end. *)
Definition wcslen (b : list Z) : outcome nat :=
  if decide (0 ∈ b) then Ret (length (cstr b)) else Fault.

(** [wcsrchr]: the position of the last [c] before the terminator. *)
Definition wcsrchr (b : list Z) (c : Z) : outcome (option nat) :=
  n ← wcslen b;
  Ret (last (base.filter (fun i => b !! i = Some c) (seq 0 n))).

(** [wcschr] on a string: the part behind the first [c]. *)
Fixpoint wcschr (s : str) (c : Z) : option nat :=
  match s with
  | [] => None
  | x :: s => if x =? c then Some O else S <$> wcschr s c
  end.

(** ** Editing a path *)

(** [for(i = wcslen(path) - 1; i >= 0; i--)]; [n] is [i + 1]. *)
Fixpoint remove_extension_loop (n : nat) (path : list Z) : outcome (list Z) :=
  match n with
  | O => Ret path
  | S i =>
      c ← rd8 path (Z.of_nat i);
      if c =? BACKSLASH then Ret path (* filename contains no dot *) else
      if (c =? DOT) && negb (Nat.eqb i 0) then
        p ← rd8 path (Z.of_nat i - 1);
        if negb (p =? BACKSLASH) then put path (Z.of_nat i) 0 else Ret path
      else remove_extension_loop i path
  end.

Definition winx_path_remove_extension (path : option (list Z)) : outcome (option (list Z)) :=
  match path with
  | None => Ret None
  | Some path => n ← wcslen path; Some <$> remove_extension_loop n path
  end.

Definition winx_path_remove_filename (path : option (list Z)) : outcome (option (list Z)) :=
  match path with
  | None => Ret None
  | Some path =>
      lb ← wcsrchr path BACKSLASH;
      match lb with
      | Some i => Some <$> put path (Z.of_nat i) 0
      | None => Ret (Some path)
      end
  end.

(** [for(j = 0; path[i]; i++, j++) path[j] = path[i]; path[j] = 0;] *)
Fixpoint move_down_loop (fuel : nat) (i j : nat) (path : list Z) : outcome (list Z) :=
  match fuel with
  | O => NoFuel
  | S fuel =>
      c ← rd8 path (Z.of_nat i);
      if c =? 0 then put path (Z.of_nat j) 0 else
      path ← put path (Z.of_nat j) c;
      move_down_loop fuel (S i) (S j) path
  end.

Fixpoint extract_filename_loop (k n : nat) (path : list Z) : outcome (list Z) :=
  match k with
  | O => Ret path
  | S i =>
      c ← rd8 path (Z.of_nat i);
      if (c =? BACKSLASH) && negb (Nat.eqb i (n - 1))
      then move_down_loop (length path) (S i) 0 path
      else extract_filename_loop i n path
  end.

Definition winx_path_extract_filename (path : option (list Z)) : outcome (option (list Z)) :=
  match path with
  | None => Ret None
  | Some path =>
      n ← wcslen path;
      if Nat.eqb n 0 then Ret (Some path) else Some <$> extract_filename_loop n n path
  end.

(** ** The file of the program *)

(** A UNICODE_STRING: the characters of its Length, and MaximumLength in bytes. *)
Record UNICODE_STRING : Type := UnicodeString {
  us_buffer : str;
  MaximumLength : Z;
}.

(** [winx_get_module_filename]: [query] is the image path of the process, if the
    process can be queried. *)
Definition winx_get_module_filename (tmalloc : Z → bool) (query : option UNICODE_STRING)
    : outcome (option (list Z)) :=
  match query with
  | None => Ret None
  | Some us =>
      let size := MaximumLength us + 2 in
      if negb (tmalloc size) then Ret None else
      Some <$> blit (replicate (Z.to_nat (size / 2)) 0) 0 (us_buffer us)
  end.

(** ** Creating a directory tree *)
Section create.
Context {W : Type} `{!NtApi W}.
(** [winx_get_volume_information]: its result for a drive letter. *)
Context (get_volume_information : Z → W → Z).

(** The loop over the backslashes behind the first [k] characters: [done] is
    [path] up to [p], [rest] what follows [p]. *)
Fixpoint create_path_loop (fuel : nat) (before rest : str) (w : W) : outcome (bool * W) :=
  match fuel with
  | O => NoFuel
  | S fuel =>
      match wcschr rest BACKSLASH with
      | None => Ret (true, w)
      | Some i =>
          let '(r, w) := winx_create_directory (before ++ take i rest) w in
          if r <? 0 then Ret (false, w) else
          create_path_loop fuel (before ++ take (S i) rest) (drop (S i) rest) w
      end
  end.

(** [winx_create_path]: the path has the form \??\X: *)
Definition is_native (path : str) : bool :=
  bool_decide (take 4 path = text "\??\") && bool_decide (wcschr path 0x3A = Some 5%nat).

Definition winx_create_path (path : option str) (w : W) : outcome (Z * W) :=
  match path with
  | None => Ret (-1, w)
  | Some path =>
      if negb (is_native path) then Ret (-1, w) else
      if Nat.leb (length path) 7 then Ret (get_volume_information (u8 (nth 4 path 0)) w, w) else
      '(ok, w) ← create_path_loop (S (length path)) (take 7 path) (drop 7 path) w;
      if negb ok then Ret (-1, w) else
      let '(r, w) := winx_create_directory path w in
      Ret (if r <? 0 then -1 else 0, w)
  end.
End create.

(** ** Theory *)

(** A path in its buffer. *)
Definition in_buffer (s : str) (b : list Z) : Prop := ∃ rest, b = s ++ 0 :: rest.

Lemma in_buffer_cstr s rest : wstr s → cstr (s ++ 0 :: rest) = s.
Proof.
  induction 1 as [|c s Hc Hs IH]; [done|]. cbn [app cstr].
  rewrite (proj2 (Z.eqb_neq c 0)) by lia. by rewrite IH.
Qed.

Lemma wcslen_ok s b : wstr s → in_buffer s b → wcslen b = Ret (length s).
Proof.
  intros Hs [rest ->]. unfold wcslen. rewrite decide_True by set_solver.
  by rewrite in_buffer_cstr.
Qed.

(** Cutting a path at a character. *)
Lemma put_cut s t c rest :
  put (s ++ c :: t ++ 0 :: rest) (Z.of_nat (length s)) 0 = Ret (s ++ 0 :: t ++ 0 :: rest).
Proof.
  rewrite put_lookup by (rewrite length_app; simpl; lia). f_equal.
  by rewrite insert_app_r_alt, Nat.sub_diag by lia.
Qed.

Lemma lookup_mid (s t : list Z) c : (s ++ c :: t) !! length s = Some c.
Proof. by rewrite lookup_app_r, Nat.sub_diag by lia. Qed.

(** Reading below the end of [s ++ [c]]. *)
Lemma rd8_mid s t c : rd8 (s ++ c :: t) (Z.of_nat (length s)) = Ret c.
Proof. apply rd8_lookup, lookup_mid. Qed.

(** The loop of [remove_extension] passes over characters other than dots and
    backslashes. *)
Lemma remove_extension_skip s t rest :
  DOT ∉ t → BACKSLASH ∉ t →
  remove_extension_loop (length (s ++ t)) (s ++ t ++ rest) =
  remove_extension_loop (length s) (s ++ t ++ rest).
Proof.
  revert rest. induction t as [|c t IH] using rev_ind; intros rest Hd Hb; [by rewrite app_nil_r|].
  rewrite app_assoc, length_app, Nat.add_1_r. cbn [remove_extension_loop].
  rewrite <- !app_assoc. simpl. rewrite (app_assoc s t), rd8_mid. simpl.
  rewrite (proj2 (Z.eqb_neq c BACKSLASH)), (proj2 (Z.eqb_neq c DOT)) by set_solver. simpl.
  rewrite <- app_assoc. apply IH; set_solver.
Qed.

Definition is_dir (dir : str) : Prop := dir = [] ∨ ∃ d, dir = d ++ [BACKSLASH].

(** At the end of the directory part the loop stops. *)
Lemma remove_extension_dir dir rest :
  is_dir dir → remove_extension_loop (length dir) (dir ++ rest) = Ret (dir ++ rest).
Proof.
  intros [->|[d ->]]; [done|]. rewrite length_app, Nat.add_1_r. cbn [remove_extension_loop].
  rewrite <- app_assoc. simpl. by rewrite rd8_mid.
Qed.

Lemma remove_extension_dot s c ext rest :
  c ≠ BACKSLASH →
  remove_extension_loop (length (s ++ [c; DOT])) (s ++ [c; DOT] ++ ext ++ 0 :: rest) =
  Ret (s ++ [c] ++ 0 :: ext ++ 0 :: rest).
Proof.
  intros Hc. rewrite length_app, Nat.add_comm. cbn [length Nat.add remove_extension_loop].
  pose proof (rd8_mid (s ++ [c]) (ext ++ 0 :: rest) DOT) as E1.
  rewrite length_app, Nat.add_1_r, <- app_assoc in E1. simpl in E1 |- *. rewrite E1. simpl.
  replace (Z.of_nat (S (length s)) - 1) with (Z.of_nat (length s)) by lia.
  rewrite rd8_mid. simpl. rewrite (proj2 (Z.eqb_neq c BACKSLASH)) by done. simpl.
  pose proof (put_cut (s ++ [c]) ext DOT rest) as E2.
  rewrite length_app, Nat.add_1_r, <- !app_assoc in E2. exact E2.
Qed.

Lemma extract_filename_skip s t n rest :
  (∀ i, (t ++ rest) !! i = Some BACKSLASH → (i < length t)%nat → (length s + i = n - 1)%nat) →
  extract_filename_loop (length (s ++ t)) n (s ++ t ++ rest) =
  extract_filename_loop (length s) n (s ++ t ++ rest).
Proof.
  revert rest. induction t as [|c t IH] using rev_ind; intros rest H; [by rewrite app_nil_r|].
  rewrite app_assoc, length_app, Nat.add_1_r. cbn [extract_filename_loop].
  rewrite <- !app_assoc. simpl. rewrite (app_assoc s t), rd8_mid. simpl.
  assert (E : (c =? BACKSLASH) && negb (Nat.eqb (length (s ++ t)) (n - 1)) = false).
  { destruct (Z.eqb_spec c BACKSLASH) as [->|]; [|done]. simpl. apply negb_false_iff, Nat.eqb_eq.
    rewrite length_app. apply H; [by rewrite <- app_assoc; apply lookup_mid|].
    rewrite length_app. simpl. lia. }
  rewrite E. rewrite <- app_assoc. apply IH. intros i Hi Hlt. apply H; [by rewrite <- app_assoc|].
  rewrite length_app. simpl. lia.
Qed.

(** Moving the file name to the front of the buffer. *)
Lemma move_down_ok fuel name done mid rest :
  Forall (fun c => c ≠ 0) name → (length name < fuel)%nat → mid ≠ [] →
  ∃ tail, move_down_loop fuel (length (done ++ mid)) (length done) (done ++ mid ++ name ++ 0 :: rest)
    = Ret (done ++ name ++ 0 :: tail).
Proof.
  revert name done mid. induction fuel as [|fuel IH]; intros name done mid Hn Hf Hm; [lia|].
  cbn [move_down_loop]. destruct mid as [|m mid]; [done|]. destruct name as [|c name].
  - rewrite (app_nil_l (0 :: rest)), app_assoc, rd8_mid. simpl.
    rewrite <- app_assoc. simpl. rewrite put_lookup by (rewrite length_app; simpl; lia).
    rewrite insert_app_r_alt, Nat.sub_diag by lia. eexists. done.
  - apply Forall_cons in Hn as [Hc Hn]. rewrite <- (app_comm_cons name), app_assoc, rd8_mid. simpl.
    rewrite (proj2 (Z.eqb_neq c 0)) by done. rewrite <- app_assoc. simpl.
    rewrite put_lookup by (rewrite length_app; simpl; lia).
    rewrite insert_app_r_alt, Nat.sub_diag by lia. simpl.
    destruct (IH name (done ++ [c]) (mid ++ [c])) as [tail E];
      [done|simpl in Hf; lia|by destruct mid|].
    exists tail. rewrite <- !app_assoc in E. simpl in E. rewrite <- E.
    f_equal; rewrite ?length_app; simpl; rewrite ?length_app; simpl; lia.
Qed.

Lemma extract_filename_ok dir name rest :
  wstr (dir ++ BACKSLASH :: name) → name ≠ [] →
  (∀ a t, name = a ++ BACKSLASH :: t → t = []) →
  ∃ b, winx_path_extract_filename (Some ((dir ++ BACKSLASH :: name) ++ 0 :: rest)) = Ret (Some b) ∧
    in_buffer name b.
Proof.
  intros Hw Hne Hb. unfold winx_path_extract_filename.
  rewrite (wcslen_ok (dir ++ BACKSLASH :: name)) by (done || by eexists). simpl.
  set (n := length (dir ++ BACKSLASH :: name)).
  assert (Hn : n = (length dir + 1 + length name)%nat) by (unfold n; rewrite length_app; simpl; lia).
  assert (Hl : (0 < length name)%nat) by (destruct name; [done|simpl; lia]).
  rewrite (proj2 (Nat.eqb_neq n 0)) by lia.
  pose proof (extract_filename_skip (dir ++ [BACKSLASH]) name n (0 :: rest)) as E.
  rewrite <- !app_assoc in E. simpl in E. fold n in E.
  replace (length (dir ++ BACKSLASH :: name)) with n in E by done.
  rewrite <- app_assoc. simpl. rewrite E.
  2: { intros i Hi Hlt. rewrite lookup_app_l in Hi by done. apply list_elem_of_split_length in Hi.
       destruct Hi as (a & t & E1 & E2). pose proof (Hb _ _ E1) as ->.
       apply (f_equal length) in E1. rewrite length_app in E1 |- *. simpl in E1 |- *. lia. }
  rewrite length_app, Nat.add_1_r. cbn [extract_filename_loop]. rewrite rd8_mid. simpl.
  rewrite (proj2 (Nat.eqb_neq _ _)) by lia. simpl.
  destruct (move_down_ok (length (dir ++ BACKSLASH :: name ++ 0 :: rest)) name []
              (dir ++ [BACKSLASH]) rest) as [tail Et].
  { apply Forall_app in Hw as [_ Hw]. apply Forall_cons in Hw as [_ Hw].
    eapply Forall_impl; [exact Hw|]. simpl. lia. }
  { rewrite length_app. simpl. rewrite length_app. lia. }
  { by destruct dir. }
  cbn [app] in Et. rewrite <- app_assoc, (length_app dir [BACKSLASH]), Nat.add_1_r in Et.
  cbn [app length] in Et. rewrite Et.
  eexists. split; [done|]. by exists tail.
Qed.

(** The last backslash. *)
Lemma last_index dir name rest :
  BACKSLASH ∉ name →
  last (base.filter (fun i => (dir ++ BACKSLASH :: name ++ rest) !! i = Some BACKSLASH)
          (seq 0 (length (dir ++ BACKSLASH :: name)))) = Some (length dir).
Proof.
  intros Hn. rewrite length_app, seq_app, filter_app. simpl. rewrite filter_cons_True.
  2: { apply lookup_mid. }
  rewrite (filter_none _ (seq (S _) _)).
  2: { intros i Hi%elem_of_seq E. apply Hn. rewrite lookup_app_r, lookup_cons_ne_0 in E by lia.
       rewrite lookup_app_l in E by lia. by eapply list_elem_of_lookup_2. }
  by rewrite last_snoc.
Qed.

Lemma remove_filename_ok dir name rest :
  wstr (dir ++ BACKSLASH :: name) → BACKSLASH ∉ name →
  winx_path_remove_filename (Some ((dir ++ BACKSLASH :: name) ++ 0 :: rest)) =
  Ret (Some (dir ++ 0 :: name ++ 0 :: rest)).
Proof.
  intros Hw Hn. unfold winx_path_remove_filename, wcsrchr.
  rewrite (wcslen_ok (dir ++ BACKSLASH :: name)) by (done || by eexists). simpl.
  rewrite <- app_assoc. simpl. rewrite last_index by done. by rewrite put_cut.
Qed.

(** [winx_path_remove_filename] and [winx_path_extract_filename] split a
    path at its last backslash: in its buffer the one leaves the directory, the
    other the file name, and nothing outside the buffer is touched. *)
Theorem winx_path_split dir name rest :
  wstr (dir ++ BACKSLASH :: name) → name ≠ [] → BACKSLASH ∉ name →
  ∃ b1 b2,
    winx_path_remove_filename (Some ((dir ++ BACKSLASH :: name) ++ 0 :: rest)) = Ret (Some b1) ∧
    winx_path_extract_filename (Some ((dir ++ BACKSLASH :: name) ++ 0 :: rest)) = Ret (Some b2) ∧
    in_buffer dir b1 ∧ in_buffer name b2.
Proof.
  intros Hw Hne Hb. destruct (extract_filename_ok dir name rest Hw Hne) as (b2 & E2 & H2).
  { intros a t ->. set_solver. }
  eexists _, b2. split; [by apply remove_filename_ok|]. split; [done|]. split; [by eexists|done].
Qed.

Lemma winx_path_split_witness :
  ∃ b1 b2,
    winx_path_remove_filename (Some (text "C:\dir\a.txt" ++ [0; 7])) = Ret (Some b1) ∧
    winx_path_extract_filename (Some (text "C:\dir\a.txt" ++ [0; 7])) = Ret (Some b2) ∧
    in_buffer (text "C:\dir") b1 ∧ in_buffer (text "a.txt") b2.
Proof.
  apply (winx_path_split (text "C:\dir") (text "a.txt") [7]); [|done|].
  - apply (bool_decide_unpack _). vm_compute. exact I.
  - apply (bool_decide_unpack _). vm_compute. exact I.
Defined.

(** The image path has a terminator although a counted string needs none, so that
    it can be cut at its last backslash: what is left is the directory of the
    program. *)
Theorem winx_get_module_filename_directory tmalloc dir name maximum :
  tmalloc (maximum + 2) = true → wstr (dir ++ BACKSLASH :: name) → BACKSLASH ∉ name →
  2 * Z.of_nat (length (dir ++ BACKSLASH :: name)) ≤ maximum →
  ∃ b b', winx_get_module_filename tmalloc (Some (UnicodeString (dir ++ BACKSLASH :: name) maximum)) = Ret (Some b) ∧
    in_buffer (dir ++ BACKSLASH :: name) b ∧
    winx_path_remove_filename (Some b) = Ret (Some b') ∧ in_buffer dir b'.
Proof.
  intros Ht Hw Hn Hm. set (path := dir ++ BACKSLASH :: name) in *.
  assert (Hsz : Z.of_nat (length path) + 1 ≤ (maximum + 2) / 2) by (apply Z.div_le_lower_bound; lia).
  set (k := (Z.to_nat ((maximum + 2) / 2) - length path - 1)%nat).
  assert (E : replicate (Z.to_nat ((maximum + 2) / 2)) 0 = replicate (length path) 0 ++ 0 :: replicate k 0).
  { change (0 :: replicate k 0) with (replicate (S k) 0). rewrite <- replicate_add. f_equal. unfold k. lia. }
  exists (path ++ 0 :: replicate k 0). eexists. split_and!.
  - unfold winx_get_module_filename. cbn [MaximumLength us_buffer]. rewrite Ht, E. cbn [negb].
    pose proof (blit_middle [] (replicate (length path) 0) (0 :: replicate k 0) path 0 eq_refl) as Hb.
    cbn [app] in Hb. rewrite Hb by apply length_replicate. done.
  - by eexists.
  - by apply remove_filename_ok.
  - by eexists.
Qed.

(** [winx_path_remove_extension] cuts the file name at its last dot unless
    the name starts with that dot, and leaves paths without such a dot alone;
    dots in the directories do not count. *)
Theorem winx_path_remove_extension_correct dir name rest :
  wstr (dir ++ name) → is_dir dir → BACKSLASH ∉ name →
  (∀ base ext, name = base ++ DOT :: ext → base ≠ [] → DOT ∉ ext →
     ∃ b, winx_path_remove_extension (Some ((dir ++ name) ++ 0 :: rest)) = Ret (Some b) ∧
       in_buffer (dir ++ base) b) ∧
  (DOT ∉ name ∨ (∃ ext, name = DOT :: ext ∧ DOT ∉ ext) →
     winx_path_remove_extension (Some ((dir ++ name) ++ 0 :: rest)) =
     Ret (Some ((dir ++ name) ++ 0 :: rest))).
Proof.
  intros Hw Hd Hb. unfold winx_path_remove_extension.
  rewrite (wcslen_ok (dir ++ name)) by (done || by eexists). simpl. split.
  - intros base ext -> Hne He.
    destruct (exists_last Hne) as (base' & c & ->).
    replace (dir ++ (base' ++ [c]) ++ DOT :: ext) with (((dir ++ base') ++ [c; DOT]) ++ ext)
      by (rewrite <- !app_assoc; done).
    rewrite <- (app_assoc _ ext), remove_extension_skip by set_solver.
    rewrite <- (app_assoc _ [c; DOT]), remove_extension_dot by set_solver.
    eexists. split; [done|]. eexists. rewrite <- !app_assoc. done.
  - rewrite <- app_assoc. intros [Hn|(ext & -> & He)].
    + rewrite remove_extension_skip by done. rewrite remove_extension_dir by done. done.
    + pose proof (remove_extension_skip (dir ++ [DOT]) ext (0 :: rest)) as E.
      rewrite <- !app_assoc in E. simpl in E |- *. rewrite E by set_solver.
      rewrite length_app, Nat.add_1_r. cbn [remove_extension_loop]. rewrite rd8_mid. simpl.
      destruct Hd as [->|[d ->]]; [done|]. rewrite length_app, Nat.add_1_r. simpl.
      replace (Z.of_nat (S (length d)) - 1) with (Z.of_nat (length d)) by lia.
      rewrite <- app_assoc. simpl. by rewrite rd8_mid.
Qed.

Lemma winx_path_remove_extension_correct_witness :
  ∃ b, winx_path_remove_extension (Some (text "C:\a.b\c.tar.gz" ++ [0; 7])) = Ret (Some b) ∧
    in_buffer (text "C:\a.b\c.tar") b.
Proof.
  apply (winx_path_remove_extension_correct (text "C:\a.b\") (text "c.tar.gz") [7]) with (ext := text "gz");
    try done; try (apply (bool_decide_unpack _); vm_compute; exact I).
  right. exists (text "C:\a.b"). reflexivity.
Defined.

(** ** Directory trees *)

(** What the creation of directories promises: [dirs] is the set of directories
    of the volume; a directory can be created, or exists already, when its
    parent exists. *)
Class NtDirLaws (W : Type) `{!NtApi W} : Type := {
  dirs : W → gset str;
  nt_mkdir w p name : p ∈ dirs w → name ≠ [] → BACKSLASH ∉ name →
    ∃ w', winx_create_directory (p ++ BACKSLASH :: name) w = (0, w') ∧
      dirs w' = {[ p ++ BACKSLASH :: name ]} ∪ dirs w;
}.

(** A path under a directory, and the directories on the way. *)
Definition join (p : str) (names : list str) : str :=
  p ++ concat ((fun n => BACKSLASH :: n) <$> names).

Fixpoint ancestors (p : str) (names : list str) : list str :=
  match names with
  | [] => []
  | n :: names => (p ++ BACKSLASH :: n) :: ancestors (p ++ BACKSLASH :: n) names
  end.

Lemma wcschr_app s t c : c ∉ s → wcschr (s ++ t) c = (fun i => length s + i)%nat <$> wcschr t c.
Proof.
  induction s as [|x s IH]; intros Hc; simpl; [by destruct (wcschr t c)|].
  rewrite (proj2 (Z.eqb_neq x c)), IH by set_solver. by destruct (wcschr t c).
Qed.

Lemma join_cons p n names : join p (n :: names) = join (p ++ BACKSLASH :: n) names.
Proof. unfold join. simpl. by rewrite <- app_assoc. Qed.

Lemma ancestors_cons p n names :
  ancestors p (n :: names) = (p ++ BACKSLASH :: n) :: ancestors (p ++ BACKSLASH :: n) names.
Proof. done. Qed.

Lemma join_snoc p L x : join p (L ++ [x]) = join p L ++ BACKSLASH :: x.
Proof. unfold join. rewrite fmap_app, concat_app. simpl. by rewrite app_nil_r, app_assoc. Qed.

Lemma ancestors_snoc p L x : ancestors p (L ++ [x]) = ancestors p L ++ [join p (L ++ [x])].
Proof.
  revert p. induction L as [|n L IH]; intros p; cbn [app ancestors].
  - unfold join. simpl. by rewrite app_nil_r.
  - by rewrite IH, join_cons.
Qed.

Lemma names_length (names : list str) :
  (length names ≤ length (concat ((fun n => BACKSLASH :: n) <$> names)))%nat.
Proof. induction names as [|n names IH]; [done|]. rewrite fmap_cons. cbn [concat length].
  rewrite length_app. cbn [length]. lia.
Qed.

#[local] Arguments ancestors : simpl never.

Lemma take_next (s t : str) c : take (S (length s)) (s ++ c :: t) = s ++ [c].
Proof. rewrite cons_middle, app_assoc. apply take_app_length'. rewrite length_app. simpl. lia. Qed.

Lemma drop_next (s t : str) c : drop (S (length s)) (s ++ c :: t) = t.
Proof. rewrite cons_middle, app_assoc. apply drop_app_length'. rewrite length_app. simpl. lia. Qed.

Section tree.
Context {W : Type} `{!NtApi W, !NtDirLaws W}.

(** The loop creates all directories but the last. *)
Lemma create_path_loop_ok names n p fuel (w : W) :
  Forall (fun n => n ≠ [] ∧ BACKSLASH ∉ n) (n :: names) → p ∈ dirs w →
  (length names < fuel)%nat →
  ∃ w', create_path_loop fuel (p ++ [BACKSLASH]) (n ++ concat ((fun n => BACKSLASH :: n) <$> names)) w
      = Ret (true, w') ∧
    list_to_set (removelast (ancestors p (n :: names))) ∪ dirs w ⊆ dirs w' ∧
    join p (removelast (n :: names)) ∈ dirs w'.
Proof.
  revert n p fuel w. induction names as [|m names IH]; intros n p fuel w HF Hp Hfuel;
    apply Forall_cons in HF as [[Hne Hb] HF].
  - destruct fuel as [|fuel]; [simpl in Hfuel; lia|]. cbn [create_path_loop fmap list_fmap concat].
    rewrite wcschr_app by done. simpl. eexists. split; [done|]. split; [set_solver|].
    unfold join. simpl. by rewrite app_nil_r.
  - destruct fuel as [|fuel]; [simpl in Hfuel; lia|]. cbn [create_path_loop fmap list_fmap concat].
    rewrite wcschr_app by done. simpl. rewrite Nat.add_0_r, take_app_length.
    destruct (nt_mkdir w p n) as (w1 & E & Hd); [done..|].
    rewrite <- app_assoc. simpl. rewrite E. simpl.
    destruct (IH m (p ++ BACKSLASH :: n) fuel w1) as (w2 & E2 & Hs & Hl);
      [done|rewrite Hd; set_solver|simpl in Hfuel; lia|].
    exists w2. split.
    { rewrite take_next, drop_next, app_assoc, <- (app_assoc p). exact E2. }
    assert (Hin : p ++ BACKSLASH :: n ∈ dirs w2) by set_solver.
    split; [|by rewrite <- join_cons in Hl].
    cbn in Hs |- *. set_solver.
Qed.

Lemma winx_create_path_ok gvi letter names (w : W) :
  letter ≠ 0x3A → names ≠ [] → Forall (fun n => n ≠ [] ∧ BACKSLASH ∉ n) names →
  text "\??\" ++ [letter; 0x3A] ∈ dirs w →
  ∃ w', winx_create_path gvi (Some (join (text "\??\" ++ [letter; 0x3A]) names)) w = Ret (0, w') ∧
    list_to_set (ancestors (text "\??\" ++ [letter; 0x3A]) names) ∪ dirs w ⊆ dirs w'.
Proof.
  intros Hl Hne HF Hroot. destruct names as [|n names]; [done|].
  set (p := text "\??\" ++ [letter; 0x3A]) in *.
  assert (Hn : n ≠ []) by (by apply Forall_cons in HF as [[? _] _]).
  assert (Hnat : is_native (join p (n :: names)) = true).
  { unfold is_native. rewrite bool_decide_true by done. simpl.
    by rewrite (proj2 (Z.eqb_neq letter 0x3A)). }
  assert (Hlen : length (join p (n :: names)) =
    (7 + length (n ++ concat ((fun n => BACKSLASH :: n) <$> names)))%nat) by done.
  unfold winx_create_path. rewrite Hnat. cbn [negb].
  rewrite (proj2 (Nat.leb_gt _ _)).
  2: { rewrite Hlen. destruct n; [done|]. simpl. lia. }
  change (take 7 (join p (n :: names))) with (p ++ [BACKSLASH]).
  change (drop 7 (join p (n :: names))) with (n ++ concat ((fun n => BACKSLASH :: n) <$> names)).
  destruct (create_path_loop_ok names n p (S (length (join p (n :: names)))) w)
    as (w1 & -> & Hs & Hlast); [done|done| |].
  { rewrite Hlen, length_app. pose proof (names_length names). lia. }
  clear Hlen Hnat. clearbody p. destruct (exists_last Hne) as (L & x & EL). rewrite EL in *.
  rewrite removelast_last in Hlast. rewrite ancestors_snoc, removelast_last in Hs.
  apply Forall_app in HF as [_ [[Hx Hb] _]%Forall_cons].
  destruct (nt_mkdir w1 (join p L) x) as (w2 & E & Hd); [done..|].
  rewrite ancestors_snoc, join_snoc. simpl. rewrite E. simpl. exists w2. split; [done|].
  rewrite Hd, list_to_set_app. simpl. set_solver.
Qed.
End tree.

(** On a volume where a directory can be created in an existing one,
    [winx_create_path] returns zero for a native path and creates every
    directory on the way to it, and the directories that were there stay. *)
Theorem winx_create_path_creates {W} `{!NtApi W, !NtDirLaws W} gvi letter names (w : W) :
  letter ≠ 0x3A → names ≠ [] → Forall (fun n => n ≠ [] ∧ BACKSLASH ∉ n) names →
  text "\??\" ++ [letter; 0x3A] ∈ dirs w →
  ∃ w', winx_create_path gvi (Some (join (text "\??\" ++ [letter; 0x3A]) names)) w = Ret (0, w') ∧
    list_to_set (ancestors (text "\??\" ++ [letter; 0x3A]) names) ∪ dirs w ⊆ dirs w'.
Proof. apply winx_create_path_ok. Qed.

(** A volume that only has directories. *)
Definition parent (p : str) : str :=
  match wcschr (reverse p) BACKSLASH with
  | Some i => take (length p - S i) p
  | None => []
  end.

Definition tree_create (r : create_request) (w : gset str) : Z * Z * gset str :=
  if decide (ObjectName r ∈ w) then (STATUS_OBJECT_NAME_COLLISION, 0, w)
  else if decide (parent (ObjectName r) ∈ w) then (STATUS_SUCCESS, 1, {[ ObjectName r ]} ∪ w)
  else (0xC000003A, 0, w).

Definition tree_api : NtApi (gset str) := {|
  NtCreateFile := tree_create;
  NtReadFile _ _ _ _ := (0xC0000022, 0, []);
  NtWriteFile _ _ _ w := (0xC0000022, 0, w);
  NtFlushBuffersFile _ w := (STATUS_SUCCESS, w);
  NtQueryStandardInformation _ _ := (0xC0000022, 0);
  NtDeleteFile p w := (STATUS_SUCCESS, w ∖ {[ p ]});
  NtClose _ w := w;
|}.

Lemma parent_join p name : BACKSLASH ∉ name → parent (p ++ BACKSLASH :: name) = p.
Proof.
  intros Hn. unfold parent. rewrite reverse_app, reverse_cons, <- app_assoc.
  rewrite wcschr_app by (by rewrite elem_of_reverse). simpl. rewrite length_reverse, length_app.
  simpl. apply take_app_length'. lia.
Qed.

Definition tree_laws : @NtDirLaws (gset str) tree_api.
Proof.
  refine {| dirs := id : gset str → gset str |}. abstract (
  intros w p name Hp _ Hb; unfold winx_create_directory; simpl; unfold tree_create; simpl;
  rewrite (parent_join p name Hb); case_decide as H1; simpl;
  [exists w; split; [done|]; apply leibniz_equiv; unfold id; set_solver
  |rewrite decide_True by done; simpl; by eexists]).
Defined.

Lemma winx_create_path_creates_witness :
  ∃ w', winx_create_path (NtApi0 := tree_api) (fun _ _ => 0) (Some (text "\??\C:\a\b"))
      ({[ text "\??\C:" ]} : gset str) = Ret (0, w') ∧
    text "\??\C:\a" ∈ w' ∧ text "\??\C:\a\b" ∈ w'.
Proof.
  destruct (winx_create_path_creates (NtApi0 := tree_api) (NtDirLaws0 := tree_laws) (fun _ _ => 0)
    0x43 [text "a"; text "b"] ({[ text "\??\C:" ]} : gset str)) as (w' & E & Hs);
    [done|done| |apply (bool_decide_unpack _); vm_compute; exact I|].
  { repeat constructor; try done; apply (bool_decide_unpack _); vm_compute; exact I. }
  exists w'. split; [exact E|]. split; apply Hs, elem_of_union_l, elem_of_list_to_set;
    apply (bool_decide_unpack _); vm_compute; exact I.
Defined.
