(* ===== verification/Time.v ===== *)
(** * time.c: time intervals as text, and the clocks

    The kernel's clocks and the conversion of a system time to its fields are
    parameters.  A [char] is an unsigned byte; a string is read to its
    terminating zero. *)
From S2P Require Import Prelude DList Bitmap CaseTables CString FileInfo FileIO.
From stdpp Require Import prelude gmap strings.
Open Scope Z_scope.

(** ** Text to time *)

Definition is_digit (c : Z) : bool := (0x30 <=? c) && (c <=? 0x39).

(** The value of a string of digits. *)
Definition digits_value (s : list Z) : Z := fold_left (fun v c => v * 10 + (c - 0x30)) s 0.

(** The longest prefix of digits. *)
Fixpoint leading_digits (s : list Z) : list Z :=
  match s with
  | c :: s => if is_digit c then c :: leading_digits s else []
  | [] => []
  end.

Definition unit_seconds (c : Z) : Z :=
  if c =? 0x53 (* S *) then 1
  else if c =? 0x4D (* M *) then 60
  else if c =? 0x48 (* H *) then 3600
  else if c =? 0x44 (* D *) then 3600 * 24
  else if c =? 0x59 (* Y *) then 3600 * 24 * 356
  else 0.

Section str2time.
(** What [_atoi64] returns when the number does not fit. *)
Context (atoi64_overflow : list Z → Z).

Definition atoi64 (s : list Z) : Z :=
  let ds := leading_digits s in
  if digits_value ds <? 2 ^ 63 then digits_value ds else atoi64_overflow ds.

(** The loop through the characters of the string. *)
Fixpoint str2time_loop (string buffer : list Z) (index : nat) (time : Z) : outcome Z :=
  match string with
  | [] => Ret time
  | c :: string =>
      '(buffer, index) ←
        (if is_digit c then buffer ← put buffer (Z.of_nat index) c; Ret (buffer, S index)
         else Ret (buffer, index));
      let k := unit_seconds (fast_toupper c) in
      if negb (k =? 0) then
        buffer ← put buffer (Z.of_nat index) 0;
        str2time_loop string buffer 0 (u64 (time + u64 (k * atoi64 (cstr buffer))))
      else str2time_loop string buffer index time
  end.

Definition winx_str2time (string : option (list Z)) : outcome Z :=
  match string with
  | None => Ret 0
  | Some string => str2time_loop string (replicate 128 0) 0 0
  end.
End str2time.

(** ** Time to text *)

(** Decimal digits, as %u prints them. *)
Fixpoint decimal_loop (fuel : nat) (z : Z) (acc : list Z) : list Z :=
  match fuel with
  | O => acc
  | S fuel =>
      let acc := (0x30 + z mod 10) :: acc in
      if z <? 10 then acc else decimal_loop fuel (z / 10) acc
  end.

Definition decimal (z : Z) : list Z := decimal_loop (S (Z.to_nat (Z.log2 z))) z [].

(** [_snprintf] with the formatted text: at most [n] characters are stored,
    with a terminator if there is room; -1 when the text does not fit. *)
Definition snprintf (buffer : list Z) (n : nat) (t : list Z) : outcome (Z * list Z) :=
  if decide (length t < n)%nat then
    b ← blit buffer 0 (t ++ [0]); Ret (Z.of_nat (length t), b)
  else if decide (length t = n) then b ← blit buffer 0 t; Ret (Z.of_nat n, b)
  else b ← blit buffer 0 (take n t); Ret (-1, b).

(** The text of the format "%uy %ud %uh %um %us". *)
Definition time_text (y d h m s : Z) : list Z :=
  decimal y ++ text "y " ++ decimal d ++ text "d " ++ decimal h ++ text "h " ++
  decimal m ++ text "m " ++ decimal s ++ text "s".

(** [winx_time2str]: the result and the buffer. *)
Definition winx_time2str (time : Z) (buffer : option (list Z)) (size : Z)
  : outcome (Z * option (list Z)) :=
  match buffer with
  | None => Ret (0, None)
  | Some buffer =>
      if size <=? 0 then Ret (0, Some buffer) else
      let t := u32 time in
      let y := t / (3600 * 24 * 356) in
      let t := t mod (3600 * 24 * 356) in
      let d := t / (3600 * 24) in
      let t := t mod (3600 * 24) in
      let h := t / 3600 in
      let t := t mod 3600 in
      let m := t / 60 in
      let s := t mod 60 in
      '(result, buffer) ← snprintf buffer (Z.to_nat (size - 1)) (time_text y d h m s);
      buffer ← put buffer (size - 1) 0;
      Ret (result, Some buffer)
  end.

(** ** Clocks *)

(** [winx_xtime] for the status, the counter and the frequency that
    NtQueryPerformanceCounter returns (signed 64-bit numbers). *)
Definition winx_xtime (status counter frequency : Z) : Z :=
  if negb (NT_SUCCESS status) then 0 else
  if frequency =? 0 then 0 else
  let xtime := u64 (1000 * counter) in
  if negb (xtime / 1000 =? u64 counter)
  then u64 (1000 * Z.quot counter frequency) (* overflow occurred *)
  else xtime / u64 frequency.

(** [winx_time]. *)
Record winx_time : Type := WinxTime {
  year : Z; month : Z; day : Z; hour : Z; minute : Z; second : Z; milliseconds : Z; weekday : Z;
}.

Section clock.
(** NtQuerySystemTime, RtlSystemTimeToLocalTime and RtlTimeToTimeFields. *)
Context (query_system_time : Z * Z) (to_local_time : Z → Z * Z) (to_fields : Z → winx_time).

(** The result and what is stored in the caller's structure. *)
Definition winx_get_system_time (t : bool) : Z * option winx_time :=
  if negb t then (-1, None) else
  let '(status, SystemTime) := query_system_time in
  if negb (status =? STATUS_SUCCESS) then (-1, None) else (0, Some (to_fields SystemTime)).

Definition winx_get_local_time (t : bool) : Z * option winx_time :=
  if negb t then (-1, None) else
  let '(status, SystemTime) := query_system_time in
  if negb (status =? STATUS_SUCCESS) then (-1, None) else
  let '(status, LocalTime) := to_local_time SystemTime in
  if negb (status =? STATUS_SUCCESS) then (-1, None) else (0, Some (to_fields LocalTime)).
End clock.

(** ** Theory *)

Lemma decimal_loop_app fuel z acc : decimal_loop fuel z acc = decimal_loop fuel z [] ++ acc.
Proof.
  revert z acc. induction fuel as [|fuel IH]; intros z acc; [done|]. cbn [decimal_loop].
  destruct (z <? 10); [done|]. rewrite IH, (IH _ [_]). by rewrite <- app_assoc.
Qed.

Lemma digits_value_snoc ds c : digits_value (ds ++ [c]) = digits_value ds * 10 + (c - 0x30).
Proof. unfold digits_value. by rewrite fold_left_app. Qed.

(** Enough digits are printed, and they have the value of the number. *)
Lemma decimal_loop_ok fuel z :
  0 ≤ z < 10 ^ Z.of_nat fuel → z < 2 ^ Z.of_nat fuel → (0 < fuel)%nat →
  digits_value (decimal_loop fuel z []) = z ∧ Forall (fun c => is_digit c = true) (decimal_loop fuel z []).
Proof.
  revert z. induction fuel as [|fuel IH]; intros z Hz H2 Hf; [lia|]. cbn [decimal_loop].
  rewrite Nat2Z.inj_succ, Z.pow_succ_r in Hz, H2 by lia.
  assert (Hd : is_digit (0x30 + z mod 10) = true).
  { unfold is_digit. pose proof (Z.mod_pos_bound z 10 ltac:(lia)). lia. }
  destruct (Z.ltb_spec z 10) as [Hs|Hs].
  - split; [|by constructor]. unfold digits_value. simpl. rewrite Z.mod_small by lia. lia.
  - rewrite decimal_loop_app, digits_value_snoc.
    assert (z / 10 < 2 ^ Z.of_nat fuel) by (apply Z.div_lt_upper_bound; lia).
    destruct (IH (z / 10)) as [E HF].
    + split; [apply Z.div_pos; lia|]. apply Z.div_lt_upper_bound; lia.
    + done.
    + destruct fuel; [simpl in *; lia|lia].
    + rewrite E. split; [pose proof (Z.div_mod z 10 ltac:(lia)); lia|]. apply Forall_app. auto.
Qed.

Lemma decimal_ok z : 0 ≤ z →
  digits_value (decimal z) = z ∧ Forall (fun c => is_digit c = true) (decimal z).
Proof.
  intros Hz. unfold decimal. assert (H2 : z < 2 ^ Z.of_nat (S (Z.to_nat (Z.log2 z)))).
  { pose proof (Z.log2_nonneg z). rewrite Nat2Z.inj_succ, Z2Nat.id by done.
    destruct (Z.eq_dec z 0) as [->|]; [done|]. apply Z.log2_spec. lia. }
  apply decimal_loop_ok; [|done|lia]. split; [done|]. eapply Z.lt_le_trans; [exact H2|].
  apply Z.pow_le_mono_l. lia.
Qed.

(** The number of digits. *)
Lemma decimal_loop_length fuel z n :
  0 ≤ z < 10 ^ Z.of_nat n → (0 < n)%nat → (length (decimal_loop fuel z []) ≤ n)%nat.
Proof.
  revert z n. induction fuel as [|fuel IH]; intros z n Hz Hn; [simpl; lia|]. cbn [decimal_loop].
  destruct (Z.ltb_spec z 10); [simpl; lia|]. destruct n as [|n]; [lia|].
  destruct n as [|n]; [change (10 ^ Z.of_nat 1) with 10 in Hz; lia|].
  rewrite decimal_loop_app, length_app. simpl. rewrite Nat2Z.inj_succ, Z.pow_succ_r in Hz by lia.
  specialize (IH (z / 10) (S n)). assert (0 ≤ z / 10 < 10 ^ Z.of_nat (S n)).
  { split; [apply Z.div_pos; lia|]. apply Z.div_lt_upper_bound; lia. }
  specialize (IH ltac:(done) ltac:(lia)). lia.
Qed.

Lemma leading_all ds : Forall (fun c => is_digit c = true) ds → leading_digits ds = ds.
Proof. induction 1 as [|c ds Hc HF IH]; simpl; [done|]. by rewrite Hc, IH. Qed.

Lemma is_digit_bound c : is_digit c = true → 0x30 ≤ c ≤ 0x39.
Proof. unfold is_digit. lia. Qed.

Lemma unit_digit c : is_digit c = true → unit_seconds (fast_toupper c) = 0.
Proof.
  intros H%is_digit_bound.
  assert (Hall : forallb (fun c => unit_seconds (fast_toupper c) =? 0) (seqZ 0x30 10) = true)
    by reflexivity.
  rewrite forallb_forall in Hall. apply Z.eqb_eq, Hall, list_elem_of_In, elem_of_seqZ. lia.
Qed.

Section str2time_thy.
Context (ovf : list Z → Z).

(** Digits go to the buffer. *)
Lemma str2time_digits ds rest buffer index time :
  Forall (fun c => is_digit c = true) ds → (index + length ds ≤ length buffer)%nat →
  str2time_loop ovf (ds ++ rest) buffer index time =
  str2time_loop ovf rest (take index buffer ++ ds ++ drop (index + length ds) buffer)
    (index + length ds) time.
Proof.
  intros HF. revert buffer index. induction HF as [|c ds Hc HF IH]; intros buffer index Hl.
  { simpl. rewrite Nat.add_0_r. by rewrite take_drop. }
  simpl in Hl. cbn [app str2time_loop]. rewrite Hc, put_lookup by lia. simpl.
  rewrite unit_digit by done. simpl. rewrite IH by (rewrite length_insert; lia).
  rewrite (take_S_r _ _ c), take_insert_ge, drop_insert_lt
    by (rewrite ?list_lookup_insert_eq by lia; (done || lia)).
  rewrite <- app_assoc. simpl. do 2 f_equal; [|lia]. do 3 f_equal. lia.
Qed.

(** A number with its unit adds its seconds. *)
Lemma str2time_field ds c rest buffer time k :
  Forall (fun c => is_digit c = true) ds → (length ds < length buffer)%nat →
  is_digit c = false → unit_seconds (fast_toupper c) = k → k ≠ 0 → digits_value ds < 2 ^ 63 →
  ∃ buffer', length buffer' = length buffer ∧
    str2time_loop ovf (ds ++ c :: rest) buffer 0 time =
    str2time_loop ovf rest buffer' 0 (u64 (time + u64 (k * digits_value ds))).
Proof.
  intros HF Hl Hc Hk Hk0 Hv. rewrite str2time_digits by (done || lia). simpl.
  rewrite Hc. simpl. rewrite Hk, (proj2 (Z.eqb_neq k 0)) by done. simpl.
  rewrite put_lookup by (rewrite length_app, length_drop; lia). simpl.
  eexists. split; [|do 3 f_equal].
  - rewrite length_insert, length_app, length_drop. lia.
  - rewrite insert_app_r_alt, Nat.sub_diag by lia.
    destruct (drop (length ds) buffer) as [|x l] eqn:E.
    { apply (f_equal length) in E. rewrite length_drop in E. simpl in E. lia. }
    simpl. rewrite cstr_app_zero.
    + unfold atoi64. rewrite (leading_all ds) by done. by rewrite (proj2 (Z.ltb_lt _ _)).
    + eapply Forall_impl; [exact HF|]. intros x' Hx%is_digit_bound. lia.
Qed.
End str2time_thy.

Lemma str2time_space ovf rest buffer time :
  str2time_loop ovf (0x20 :: rest) buffer 0 time = str2time_loop ovf rest buffer 0 time.
Proof. reflexivity. Qed.

(** The digits of a 32-bit number. *)
Lemma decimal_u32 z : 0 ≤ z < 2 ^ 32 →
  digits_value (decimal z) = z ∧ Forall (fun c => is_digit c = true) (decimal z) ∧
  (length (decimal z) ≤ 10)%nat.
Proof.
  intros Hz. destruct (decimal_ok z) as [E HF]; [lia|]. split; [done|split; [done|]].
  apply decimal_loop_length; [|lia]. lia.
Qed.

(** Numbers with their units, separated by spaces. *)
Fixpoint fields_text (l : list (Z * Z)) : list Z :=
  match l with
  | [] => []
  | [(v, c)] => decimal v ++ [c]
  | (v, c) :: l => decimal v ++ c :: 0x20 :: fields_text l
  end.

Definition fields_seconds (l : list (Z * Z)) : Z :=
  foldr (fun f z => unit_seconds (fast_toupper f.2) * f.1 + z) 0 l.

Definition field_ok (f : Z * Z) : Prop :=
  0 ≤ f.1 < 2 ^ 32 ∧ is_digit f.2 = false ∧ 0 < unit_seconds (fast_toupper f.2).

Lemma fields_seconds_nonneg l : Forall field_ok l → 0 ≤ fields_seconds l.
Proof. induction 1 as [|[v c] l (? & ? & ?) HF IH]; simpl in *; [lia|nia]. Qed.

Lemma str2time_fields ovf l buffer time :
  Forall field_ok l → length buffer = 128%nat → 0 ≤ time → time + fields_seconds l < 2 ^ 64 →
  str2time_loop ovf (fields_text l) buffer 0 time = Ret (time + fields_seconds l).
Proof.
  intros HF. revert buffer time. induction HF as [|[v c] l (Hv & Hc & Hk) HF IH];
    intros buffer time Hb Ht Hsum; [simpl; by rewrite Z.add_0_r|]. simpl in Hv, Hc, Hk.
  pose proof (fields_seconds_nonneg l HF). simpl in Hsum.
  destruct (decimal_u32 v Hv) as (Ev & HD & Hlen).
  assert (0 ≤ unit_seconds (fast_toupper c) * v) by nia.
  destruct (str2time_field ovf (decimal v) c (match l with [] => [] | _ => 0x20 :: fields_text l end)
    buffer time (unit_seconds (fast_toupper c))) as (b' & Hb' & E); [done|lia|done|done|lia|lia|].
  rewrite Ev, (u64_small (_ * v)), u64_small in E by lia.
  destruct l as [|f l]; cbn [fields_text] in E |- *; rewrite E.
  - simpl. f_equal. lia.
  - rewrite str2time_space, IH by lia. simpl. f_equal. lia.
Qed.

Lemma str2time_text ovf y d h m s :
  0 ≤ y < 2 ^ 32 → 0 ≤ d < 2 ^ 32 → 0 ≤ h < 2 ^ 32 → 0 ≤ m < 2 ^ 32 → 0 ≤ s < 2 ^ 32 →
  y * (3600 * 24 * 356) + d * (3600 * 24) + h * 3600 + m * 60 + s < 2 ^ 64 →
  winx_str2time ovf (Some (time_text y d h m s)) =
  Ret (y * (3600 * 24 * 356) + d * (3600 * 24) + h * 3600 + m * 60 + s).
Proof.
  intros Hy Hd Hh Hm Hs Hsum. unfold winx_str2time.
  change (time_text y d h m s) with
    (fields_text [(y, 0x79); (d, 0x64); (h, 0x68); (m, 0x6D); (s, 0x73)]).
  change (y * (3600 * 24 * 356) + d * (3600 * 24) + h * 3600 + m * 60 + s < 2 ^ 64) in Hsum.
  assert (E : fields_seconds [(y, 0x79); (d, 0x64); (h, 0x68); (m, 0x6D); (s, 0x73)] =
    y * (3600 * 24 * 356) + d * (3600 * 24) + h * 3600 + m * 60 + s).
  { unfold fields_seconds. cbn [foldr fst snd].
    change (unit_seconds (fast_toupper 0x79)) with (3600 * 24 * 356).
    change (unit_seconds (fast_toupper 0x64)) with (3600 * 24).
    change (unit_seconds (fast_toupper 0x68)) with 3600.
    change (unit_seconds (fast_toupper 0x6D)) with 60.
    change (unit_seconds (fast_toupper 0x73)) with 1. lia. }
  rewrite str2time_fields, E; [f_equal; lia| |done|lia|rewrite E; lia].
  rewrite !Forall_cons. by unfold field_ok.
Qed.

(** The text of a time in the buffer. *)
Lemma snprintf_fits buffer n t :
  (length t < n)%nat → (n < length buffer)%nat →
  ∃ b, snprintf buffer n t = Ret (Z.of_nat (length t), b) ∧ length b = length buffer ∧
    b = t ++ 0 :: drop (S (length t)) buffer.
Proof.
  intros Ht Hn. unfold snprintf. rewrite decide_True by done. unfold blit.
  rewrite length_app. simpl. rewrite (proj2 (Z.ltb_ge _ _)) by lia. simpl.
  eexists. split; [done|]. rewrite <- app_assoc. simpl. rewrite Nat.add_1_r. split; [|done].
  rewrite length_app. cbn [length]. rewrite length_drop. lia.
Qed.

Lemma time_text_chars y d h m s :
  0 ≤ y → 0 ≤ d → 0 ≤ h → 0 ≤ m → 0 ≤ s → Forall (fun b => 0 < b < 256) (time_text y d h m s).
Proof.
  assert (HD : ∀ z, 0 ≤ z → Forall (fun b => 0 < b < 256) (decimal z)).
  { intros z Hz. eapply Forall_impl; [exact (proj2 (decimal_ok z Hz))|].
    intros x Hx%is_digit_bound. lia. }
  intros. unfold time_text. rewrite !Forall_app. repeat split; auto; repeat constructor; lia.
Qed.

(** For a time below 2^32 seconds and a buffer of at least 23 characters,
    [winx_time2str] stores a text that [winx_str2time] turns back into the time;
    the result is the length of the text, and the rest of the buffer does not
    matter. *)
Theorem time2str_str2time ovf time buffer :
  0 ≤ time < 2 ^ 32 → (23 ≤ length buffer)%nat →
  ∃ t b, winx_time2str time (Some buffer) (Z.of_nat (length buffer)) =
      Ret (Z.of_nat (length t), Some b) ∧
    length b = length buffer ∧ cstr b = t ∧ winx_str2time ovf (Some t) = Ret time.
Proof.
  intros Ht Hb. unfold winx_time2str. rewrite (proj2 (Z.leb_gt _ _)) by lia. rewrite u32_small by lia.
  set (y := time / (3600 * 24 * 356)). set (t1 := time mod (3600 * 24 * 356)).
  set (d := t1 / (3600 * 24)). set (t2 := t1 mod (3600 * 24)).
  set (h := t2 / 3600). set (t3 := t2 mod 3600). set (m := t3 / 60). set (s := t3 mod 60).
  assert (H1 : time = (3600 * 24 * 356) * y + t1 ∧ 0 ≤ t1 < 3600 * 24 * 356) by
    (split; [apply Z.div_mod; lia|apply Z.mod_pos_bound; lia]).
  assert (H2 : t1 = (3600 * 24) * d + t2 ∧ 0 ≤ t2 < 3600 * 24) by
    (split; [apply Z.div_mod; lia|apply Z.mod_pos_bound; lia]).
  assert (H3 : t2 = 3600 * h + t3 ∧ 0 ≤ t3 < 3600) by
    (split; [apply Z.div_mod; lia|apply Z.mod_pos_bound; lia]).
  assert (H4 : t3 = 60 * m + s ∧ 0 ≤ s < 60) by
    (split; [apply Z.div_mod; lia|apply Z.mod_pos_bound; lia]).
  clearbody y t1 d t2 h t3 m s.
  assert (Hlen : (length (time_text y d h m s) ≤ 21)%nat).
  { assert (HL : ∀ z n, 0 ≤ z < 10 ^ Z.of_nat n → (0 < n)%nat → (length (decimal z) ≤ n)%nat)
      by (intros; by apply decimal_loop_length).
    pose proof (HL y 3%nat ltac:(lia) ltac:(lia)). pose proof (HL d 3%nat ltac:(lia) ltac:(lia)).
    pose proof (HL h 2%nat ltac:(lia) ltac:(lia)). pose proof (HL m 2%nat ltac:(lia) ltac:(lia)).
    pose proof (HL s 2%nat ltac:(lia) ltac:(lia)).
    unfold time_text. rewrite !length_app. simpl. lia. }
  destruct (snprintf_fits buffer (Z.to_nat (Z.of_nat (length buffer) - 1)) (time_text y d h m s))
    as (b & -> & Hlb & Eb); [lia..|]. rewrite outcome_bind_ret. cbn beta iota.
  replace (Z.of_nat (length buffer) - 1) with (Z.of_nat (length buffer - 1)) by lia.
  rewrite put_lookup, outcome_bind_ret by lia. exists (time_text y d h m s). eexists. split; [done|].
  split; [by rewrite length_insert|]. split.
  - rewrite Eb, insert_app_r_alt by lia.
    destruct (length buffer - 1 - length (time_text y d h m s))%nat as [|k] eqn:Ek; [lia|]. simpl.
    apply cstr_app_zero, time_text_chars; lia.
  - rewrite str2time_text by lia. f_equal. lia.
Qed.

Lemma time2str_str2time_witness :
  ∃ t b, winx_time2str 4000000000 (Some (replicate 32 7)) 32 = Ret (Z.of_nat (length t), Some b) ∧
    length b = 32%nat ∧ cstr b = t ∧ winx_str2time (fun _ => 0) (Some t) = Ret 4000000000.
Proof. apply (time2str_str2time (fun _ => 0) 4000000000 (replicate 32 7)); simpl; lia. Defined.

Lemma str2time_no_fault ovf s buffer index time :
  length buffer = 128%nat →
  (index + length (base.filter (fun c => is_digit c = true) s) ≤ 127)%nat →
  ∃ v, str2time_loop ovf s buffer index time = Ret v.
Proof.
  revert buffer index time. induction s as [|c s IH]; intros buffer index time Hb Hi; [by eexists|].
  cbn [str2time_loop]. destruct (is_digit c) eqn:Ec.
  - rewrite filter_cons_True in Hi by done. simpl in Hi.
    rewrite put_lookup by lia. simpl. rewrite unit_digit by done. simpl.
    apply IH; [by rewrite length_insert|lia].
  - rewrite filter_cons_False in Hi by congruence. simpl.
    destruct (negb _); [|by apply IH]. rewrite put_lookup by lia. simpl.
    apply IH; [by rewrite length_insert|lia].
Qed.

Lemma put_outside b i v : (length b ≤ i)%nat → put b (Z.of_nat i) v = Fault.
Proof. intros H. unfold put. by rewrite (proj2 (Z.leb_le _ _)), orb_true_r by lia. Qed.

(** [winx_str2time] stays inside its buffer for a string with at most 127
    digits, and writes past its end for a string that starts with more than 128
    digits. *)
Theorem str2time_buffer ovf s :
  ((length (base.filter (fun c => is_digit c = true) s) ≤ 127)%nat →
     ∃ v, winx_str2time ovf (Some s) = Ret v) ∧
  (∀ ds rest, s = ds ++ rest → Forall (fun c => is_digit c = true) ds → (128 < length ds)%nat →
     winx_str2time ovf (Some s) = Fault).
Proof.
  split.
  - intros H. by apply str2time_no_fault.
  - intros ds rest -> HF Hl. unfold winx_str2time.
    assert (Ht : length (take 128 ds) = 128%nat) by (rewrite length_take; lia).
    assert (Hd : (0 < length (drop 128 ds))%nat) by (rewrite length_drop; lia). clear Hl.
    rewrite <- (take_drop 128 ds) in HF |- *. rewrite <- app_assoc.
    apply Forall_app in HF as [HF1 HF2].
    rewrite str2time_digits by (rewrite ?Ht, ?length_replicate; (done || lia)). rewrite Ht.
    destruct (drop 128 ds) as [|c ds']; [simpl in Hd; lia|]. apply Forall_cons in HF2 as [Hc _].
    cbn [app str2time_loop]. rewrite Hc, put_outside; [done|].
    rewrite !length_app, Ht, length_drop, length_take, length_replicate. lia.
Qed.

(** [winx_xtime] is the counter in milliseconds, rounded down; where the
    product with 1000 does not fit in 64 bits it is rounded down to seconds. *)
Theorem winx_xtime_correct counter frequency :
  0 ≤ counter < 2 ^ 63 → 0 < frequency < 2 ^ 63 → 1000 * (counter / frequency) < 2 ^ 64 →
  let t := winx_xtime 0 counter frequency in
  t ≤ 1000 * counter / frequency < t + 1000 ∧
  (1000 * counter < 2 ^ 64 → t = 1000 * counter / frequency).
Proof.
  intros Hc Hf Hs. cbn zeta. unfold winx_xtime. change (NT_SUCCESS 0) with true. cbn [negb].
  rewrite (proj2 (Z.eqb_neq frequency 0)), (u64_small counter), (u64_small frequency) by lia.
  destruct (Z.lt_ge_cases (1000 * counter) (2 ^ 64)) as [Hlt|Hge].
  - words. rewrite Z.mul_comm, Z.div_mul, Z.eqb_refl by lia. simpl. lia.
  - assert (E : u64 (1000 * counter) / 1000 ≠ counter).
    { intros E. pose proof (u64_range (1000 * counter)).
      pose proof (Z.mul_div_le (u64 (1000 * counter)) 1000 ltac:(lia)). lia. }
    rewrite (proj2 (Z.eqb_neq _ _)) by done. cbn [negb].
    rewrite Z.quot_div_nonneg by lia. assert (0 ≤ counter / frequency) by (apply Z.div_pos; lia).
    words. split; [|lia].
    pose proof (Z.div_mod counter frequency ltac:(lia)) as Ed.
    pose proof (Z.mod_pos_bound counter frequency ltac:(lia)) as Hm.
    split; [apply Z.div_le_lower_bound; nia|]. apply Z.div_lt_upper_bound; nia.
Qed.

Lemma winx_xtime_correct_witness :
  let t := winx_xtime 0 (2 ^ 60) 3579545 in
  t ≤ 1000 * 2 ^ 60 / 3579545 < t + 1000 ∧ (1000 * 2 ^ 60 < 2 ^ 64 → t = 1000 * 2 ^ 60 / 3579545).
Proof. apply (winx_xtime_correct (2 ^ 60) 3579545); [split; [lia|reflexivity]|lia|reflexivity]. Defined.

(** The year of [winx_str2time] has 356 days. *)
Example str2time_year ovf : winx_str2time ovf (Some (text "1y")) = Ret (356 * 24 * 3600).
Proof. reflexivity. Qed.
