(* ===== verification/Hr.v ===== *)
(** * string.c: numbers of bytes as text

    winx_bytes_to_hr and winx_hr_to_bytes compute with floating point numbers.
    A double is modelled exactly, as a multiple of the smallest positive one:
    the integer [x] stands for x / 2^1074, and every operation is the rational
    result rounded to the nearest number with 53 significant bits, ties to even,
    as IEEE 754 prescribes.  Infinities are left out: no result here is too large.  [pow] of
    the C library is a parameter; the theorems ask for it to be exact where the
    result is an integer of at most ten digits. *)
From S2P Require Import Prelude DList Bitmap CaseTables CString FileInfo FileIO Time.
From stdpp Require Import prelude gmap strings.
Open Scope Z_scope.

(** ** Doubles *)

Abbreviation double := Z (only parsing).

(** The number 1. *)
Definition one : double := 2 ^ 1074.

(** The integer nearest to [a / b]. *)
Definition nearest (a b : Z) : Z :=
  let q := a / b in
  let r := a mod b in
  if 2 * r <? b then q else if b <? 2 * r then q + 1 else if Z.even q then q else q + 1.

(** The double nearest to [num / den], in units of the smallest one. *)
Definition rounded (num den : Z) : double :=
  let a := Z.abs num in
  let k := Z.max 0 (Z.log2 (a / den) - 52) in
  Z.sgn num * (nearest a (den * 2 ^ k) * 2 ^ k).

Definition of_int (n : Z) : double := rounded (n * one) 1.

Definition fmul (x y : double) : double := rounded (x * y) one.

Definition fdiv (x y : double) : double := rounded (Z.sgn y * (x * one)) (Z.abs y).

(** The conversion to an integer type drops the fraction. *)
Definition truncated (x : double) : Z := Z.quot x one.

(** ** winx_bytes_to_hr *)

Definition suffixes : list str :=
  text <$> ["B"; "KB"; "MB"; "GB"; "TB"; "PB"; "EB"; "ZB"; "YB"]%string.

(** The loop over the units: [n], [m] and [i]. *)
Fixpoint units_loop (fuel : nat) (n m : Z) (i : nat) : outcome (Z * Z * nat) :=
  match fuel with
  | O => NoFuel
  | S fuel =>
      if negb (Z.shiftr n 10 =? 0)
      then units_loop fuel (Z.shiftr n 10) (u64 (Z.shiftl m 10)) (S i)
      else Ret (n, m, i)
  end.

Section hr.
(** [pow10 k] is [pow(10,k)]; what _atoi64 returns when the number does not
    fit. *)
Context (pow10 : Z → double) (atoi64_overflow : list Z → Z).

(** The digits behind the dot. *)
Definition fraction (r m digits : Z) : Z :=
  let rd := fdiv (of_int r) (of_int m) in
  let rd := if one <=? rd then rounded (999999999999999 * one) (10 ^ 15) else rd in
  truncated (fmul rd (pow10 digits)).

(** The conversion of the digits to ULONGLONG; out of its range the behaviour
    is undefined. *)
Definition to_ulonglong (v : Z) : outcome Z := if (0 <=? v) && (v <? 2 ^ 64) then Ret v else Fault.

(** The format of the second number is %0dI64u for a digit d, and %ddI64u
    without padding by zeros for two digits; with more the format is broken. *)
Definition padded (digits : Z) (t : str) : str :=
  replicate (Z.to_nat digits - length t) (if digits <? 10 then 0x30 else 0x20) ++ t.

Definition hr_text (n r digits : Z) (suffix : str) : outcome str :=
  if digits =? 0 then Ret (decimal n ++ text " " ++ suffix) else
  if digits <? 100 then Ret (decimal n ++ text "." ++ padded digits (decimal r) ++ text " " ++ suffix)
  else Fault.

Definition winx_bytes_to_hr (bytes digits : Z) (buffer : option (list Z)) (length : Z)
  : outcome (Z * option (list Z)) :=
  match buffer with
  | None => Ret (-1, None)
  | Some buffer =>
      if (digits <? 0) || (length <=? 0) then Ret (-1, Some buffer) else
      '(n, m, i) ← units_loop 7 bytes 1 0;
      let r := u64 (bytes - u64 (n * m)) in
      r ← to_ulonglong (fraction r m digits);
      t ← hr_text n r digits (nth i suffixes []);
      '(result, buffer) ← snprintf buffer (Z.to_nat (length - 1)) t;
      Ret (result, Some buffer)
  end.

(** ** winx_hr_to_bytes *)

Fixpoint skip_spaces (s : str) : str :=
  match s with
  | c :: s' => if (9 <=? c) && (c <=? 13) || (c =? 32) then skip_spaces s' else s
  | [] => []
  end.

(** _atoi64. *)
Definition c_atoi64 (s : str) : Z :=
  let s := skip_spaces s in
  let '(sign, ds) := match s with
                     | c :: s' => if c =? 0x2D then (-1, s') else if c =? 0x2B then (1, s') else (1, s)
                     | [] => (1, [])
                     end in
  let v := digits_value (leading_digits ds) in
  if v <? 2 ^ 63 then sign * v else atoi64_overflow s.

(** The loop over the suffixes: the multiplier of the first that occurs. *)
Fixpoint suffix_loop (table : list str) (m : Z) (string : str) : option Z :=
  match table with
  | [] => None
  | s :: table =>
      match winx_stristr (Some string) (Some s) with
      | Some _ => Some m
      | None => suffix_loop table (u64 (Z.shiftl m 10)) string
      end
  end.

(** strchr: the string behind the dot. *)
Fixpoint behind_dot (s : str) : option str :=
  match s with
  | [] => None
  | c :: s => if c =? 0x2E then Some s else behind_dot s
  end.

Fixpoint leading_zeros (s : str) : Z :=
  match s with
  | c :: s => if c =? 0x30 then 1 + leading_zeros s else 0
  | [] => 0
  end.

(** [for(; rd > 1; rd /= 10)]. *)
Fixpoint scale_loop (fuel : nat) (rd : double) : outcome double :=
  match fuel with
  | O => NoFuel
  | S fuel => if one <? rd then scale_loop fuel (fdiv rd (of_int 10)) else Ret rd
  end.

(** The conversion to LONGLONG; out of its range the behaviour is undefined. *)
Definition to_longlong (x : double) : outcome Z :=
  let v := truncated x in if (- 2 ^ 63 <=? v) && (v <? 2 ^ 63) then Ret v else Fault.

Definition winx_hr_to_bytes (string : option str) : outcome Z :=
  match string with
  | None => Ret 0
  | Some string =>
      let n := u64 (c_atoi64 string) in
      match suffix_loop (tail suffixes) 1024 string with
      | None => Ret n
      | Some m =>
          r ← match behind_dot string with
              | Some frac =>
                  rd ← scale_loop 64 (of_int (c_atoi64 frac));
                  r ← to_longlong (fmul (fmul (of_int (s64 m)) rd) (pow10 (- leading_zeros frac)));
                  Ret (u64 r)
              | None => Ret 0
              end;
          Ret (u64 (u64 (n * m) + r))
      end
  end.
End hr.

(** pow(10, k), rounded correctly. *)
Definition exact_pow10 (k : Z) : double :=
  if 0 <=? k then rounded (10 ^ k * one) 1 else rounded one (10 ^ (- k)).

Example bytes_to_hr_demo :
  winx_bytes_to_hr exact_pow10 1689124864 2 (Some (replicate 20 1)) 20 =
  Ret (7, Some (text "1.57 GB" ++ [0] ++ replicate 12 1)).
Proof. vm_compute. reflexivity. Qed.

Example hr_to_bytes_demo : winx_hr_to_bytes exact_pow10 (fun _ => 0) (Some (text "1.57 GB")) = Ret 1685774663.
Proof. vm_compute. reflexivity. Qed.

(** ** Theory *)

Lemma one_pos : 0 < one.
Proof. by apply Z.pow_pos_nonneg. Qed.

(** *** Rounding *)

Lemma nearest_exact a b q : 0 < b → a = q * b → nearest a b = q.
Proof.
  intros Hb ->. unfold nearest. rewrite Z.div_mul, Z.mod_mul by lia.
  by rewrite (proj2 (Z.ltb_lt _ _)) by lia.
Qed.

Lemma nearest_error a b : 0 < b → Z.abs (2 * (nearest a b * b - a)) ≤ b.
Proof.
  intros Hb. unfold nearest. pose proof (Z.div_mod a b ltac:(lia)) as E.
  pose proof (Z.mod_pos_bound a b Hb) as Hr.
  destruct (Z.ltb_spec (2 * (a mod b)) b); [lia|]. destruct (Z.ltb_spec b (2 * (a mod b))); [lia|].
  destruct (Z.even _); lia.
Qed.

Lemma nearest_nonneg a b : 0 ≤ a → 0 < b → 0 ≤ nearest a b.
Proof.
  intros Ha Hb. pose proof (Z.div_pos a b Ha Hb). unfold nearest. repeat case_match; lia.
Qed.

(** A number with at most 53 significant bits is not changed. *)
Lemma rounded_exact num den c j :
  0 < den → 0 ≤ j → 0 ≤ c < 2 ^ 53 → num = c * 2 ^ j * den → rounded num den = c * 2 ^ j.
Proof.
  intros Hd Hj Hc E. pose proof (Z.pow_pos_nonneg 2 j ltac:(lia) Hj) as H2.
  assert (0 ≤ num) by (subst; repeat apply Z.mul_nonneg_nonneg; lia).
  unfold rounded. rewrite Z.abs_eq by done. destruct (Z.eq_dec c 0) as [->|Hc0].
  { by rewrite E, !Z.mul_0_l. }
  rewrite E, Z.div_mul by lia. rewrite Z.log2_mul_pow2 by lia.
  assert (Z.log2 c ≤ 52) by (apply Z.lt_succ_r, Z.log2_lt_pow2; lia).
  set (k := Z.max 0 (j + Z.log2 c - 52)). assert (Hk : 0 ≤ k ≤ j) by lia.
  assert (Hp : 2 ^ j = 2 ^ (j - k) * 2 ^ k) by (rewrite <- Z.pow_add_r by lia; f_equal; lia).
  pose proof (Z.pow_pos_nonneg 2 k ltac:(lia) ltac:(lia)).
  rewrite (nearest_exact _ _ (c * 2 ^ (j - k))); [|by apply Z.mul_pos_pos|rewrite Hp; lia].
  rewrite Z.sgn_pos by (repeat apply Z.mul_pos_pos; lia). rewrite Hp. lia.
Qed.

(** The relative error is at most 2^-53 where the result is not tiny. *)
Lemma rounded_error num den :
  0 < den → 2 ^ 52 * den ≤ num → 2 ^ 53 * Z.abs (rounded num den * den - num) ≤ num.
Proof.
  intros Hd Hn. assert (Hn0 : 0 < num) by lia. unfold rounded.
  rewrite (Z.abs_eq num), Z.sgn_pos, Z.mul_1_l by lia.
  assert (Hq : 2 ^ 52 ≤ num / den) by (apply Z.div_le_lower_bound; lia).
  assert (Hl : 52 ≤ Z.log2 (num / den)) by (apply Z.log2_le_pow2; lia).
  set (k := Z.max 0 (Z.log2 (num / den) - 52)).
  assert (Hk : 2 ^ 52 * 2 ^ k ≤ num / den).
  { rewrite <- Z.pow_add_r by lia. replace (52 + k) with (Z.log2 (num / den)) by lia. apply Z.log2_spec. lia. }
  pose proof (Z.pow_pos_nonneg 2 k ltac:(lia) ltac:(lia)).
  pose proof (nearest_error num (den * 2 ^ k) ltac:(by apply Z.mul_pos_pos)) as He.
  assert (2 ^ 52 * 2 ^ k * den ≤ num).
  { eapply Z.le_trans; [apply Z.mul_le_mono_nonneg_r; [lia|exact Hk]|]. rewrite Z.mul_comm. apply Z.mul_div_le. lia. }
  replace (nearest num (den * 2 ^ k) * 2 ^ k * den) with (nearest num (den * 2 ^ k) * (den * 2 ^ k)) by lia. lia.
Qed.

Lemma of_int_exact n : 0 ≤ n < 2 ^ 53 → of_int n = n * one.
Proof. intros Hn. unfold of_int. apply (rounded_exact _ 1 n 1074); unfold one; lia. Qed.

Lemma of_int_pow2 j : 0 ≤ j → of_int (2 ^ j) = 2 ^ j * one.
Proof.
  intros Hj. unfold of_int, one. rewrite (rounded_exact _ 1 1 (j + 1074)); rewrite ?Z.pow_add_r; lia.
Qed.

(** Division by a power of two is exact. *)
Lemma fdiv_pow2 r j : 0 ≤ r < 2 ^ 53 → 0 ≤ j ≤ 1074 → fdiv (r * one) (2 ^ j * one) = r * 2 ^ (1074 - j).
Proof.
  intros Hr Hj. unfold fdiv. pose proof one_pos.
  pose proof (Z.pow_pos_nonneg 2 j ltac:(lia) ltac:(lia)).
  rewrite Z.sgn_pos, Z.mul_1_l, Z.abs_eq by (try apply Z.mul_nonneg_nonneg; try apply Z.mul_pos_pos; lia).
  apply rounded_exact; [by apply Z.mul_pos_pos|lia|done|].
  assert (E : one = 2 ^ (1074 - j) * 2 ^ j) by (unfold one; rewrite <- Z.pow_add_r by lia; f_equal; lia).
  rewrite E at 2. lia.
Qed.

(** *** The units *)

Lemma units_loop_ok k n b m i :
  (i + k ≤ 6)%nat → m = 2 ^ (10 * Z.of_nat i) → 0 ≤ n < 2 ^ (10 * (Z.of_nat k + 1)) → n = b / m → 0 ≤ b →
  (i = O ∨ 0 < n) →
  ∃ j, units_loop (S k) n m i = Ret (b / 2 ^ (10 * Z.of_nat j), 2 ^ (10 * Z.of_nat j), j) ∧
    (j ≤ i + k)%nat ∧ 0 ≤ b / 2 ^ (10 * Z.of_nat j) < 1024 ∧ (j = O ∨ 0 < b / 2 ^ (10 * Z.of_nat j)).
Proof.
  revert n m i. induction k as [|k IH]; intros n m i Hi Hm Hn En Hb Hpos; cbn [units_loop];
    rewrite Z.shiftr_div_pow2 by lia; change (2 ^ 10) with 1024.
  - rewrite (Z.div_small n) by lia. cbn [negb Z.eqb]. exists i. rewrite <- Hm, <- En.
    split; [done|]. split; [lia|]. split; [lia|done].
  - destruct (Z.eqb_spec (n / 1024) 0) as [E|E]; cbn [negb].
    + apply Z.div_small_iff in E; [|lia]. exists i. rewrite <- Hm, <- En. split; [done|]. split; [lia|]. split; [lia|done].
    + assert (E10 : 2 ^ (10 * Z.of_nat (S i)) = m * 1024).
      { rewrite Nat2Z.inj_succ, Z.mul_succ_r, Z.pow_add_r, Hm by lia. done. }
      destruct (IH (n / 1024) (u64 (Z.shiftl m 10)) (S i)) as (j & E1 & Hj & H1 & H2).
      * lia.
      * rewrite Z.shiftl_mul_pow2 by lia. change (2 ^ 10) with 1024. rewrite <- E10. apply u64_small. split; [lia|].
        apply Z.pow_lt_mono_r; lia.
      * split; [apply Z.div_pos; lia|]. apply Z.div_lt_upper_bound; [lia|].
        replace (10 * (Z.of_nat (S k) + 1)) with (10 + 10 * (Z.of_nat k + 1)) in Hn by lia.
        rewrite Z.pow_add_r in Hn by lia. change (2 ^ 10) with 1024 in Hn. lia.
      * rewrite Z.shiftl_mul_pow2 by lia. change (2 ^ 10) with 1024. rewrite u64_small, En, Z.div_div.
        -- done.
        -- rewrite Hm. apply Z.neq_sym, Z.lt_neq, Z.pow_pos_nonneg; lia.
        -- lia.
        -- rewrite <- E10. split; [lia|]. apply Z.pow_lt_mono_r; lia.
      * done.
      * right. assert (0 ≤ n / 1024) by (apply Z.div_pos; lia). lia.
      * exists j. split; [done|]. split; [lia|]. done.
Qed.

Section theory.
Context (pow10 : Z → double) (pow10_exact : ∀ k, 0 ≤ k ≤ 9 → pow10 k = 10 ^ k * one).

(** The product with the power of ten, in units of one digit. *)
Lemma product_ok r j d :
  0 ≤ j ≤ 50 → 0 ≤ r → 0 ≤ d ≤ 9 →
  let V := 2 ^ (1074 - j) in
  let X := fmul (r * V) (10 ^ d * one) in
  0 ≤ X ∧ 2 ^ 53 * Z.abs (X - r * 10 ^ d * V) ≤ r * 10 ^ d * V.
Proof.
  intros Hj Hr Hd V X. pose proof one_pos. pose proof (Z.pow_pos_nonneg 10 d ltac:(lia) ltac:(lia)) as H10.
  assert (HV : 2 ^ 52 ≤ V) by (apply Z.pow_le_mono_r; lia).
  unfold X, fmul. destruct (Z.eq_dec r 0) as [->|Hr0].
  { rewrite !Z.mul_0_l. unfold rounded. rewrite Z.sgn_0. simpl. lia. }
  assert (Hpos : 0 < r * 10 ^ d) by (apply Z.mul_pos_pos; lia).
  replace (r * V * (10 ^ d * one)) with (r * 10 ^ d * V * one) by lia.
  set (P := r * 10 ^ d) in *. assert (HPV : 2 ^ 52 ≤ P * V).
  { transitivity (1 * V); [lia|]. apply Z.mul_le_mono_nonneg_r; lia. }
  pose proof (rounded_error (P * V * one) one ltac:(done) ltac:(apply Z.mul_le_mono_nonneg_r; lia)) as He.
  set (x := rounded _ _) in *.
  replace (x * one - P * V * one) with ((x - P * V) * one) in He by lia.
  rewrite Z.abs_mul, (Z.abs_eq one), Z.mul_assoc in He by lia.
  apply Z.mul_le_mono_pos_r in He; [|done]. split; lia.
Qed.

Lemma fraction_ok r j d :
  0 ≤ j ≤ 50 → 0 ≤ r < 2 ^ j → 0 ≤ d ≤ 9 →
  let f := fraction pow10 r (2 ^ j) d in
  0 ≤ f < 10 ^ d ∧ 2 ^ 53 * (f * 2 ^ j) ≤ (2 ^ 53 + 1) * (r * 10 ^ d) ∧
  (2 ^ 53 - 1) * (r * 10 ^ d) < 2 ^ 53 * ((f + 1) * 2 ^ j).
Proof.
  intros Hj Hr Hd. assert (Hj50 : 2 ^ j ≤ 2 ^ 50) by (apply Z.pow_le_mono_r; lia).
  pose proof (Z.pow_pos_nonneg 10 d ltac:(lia) ltac:(lia)) as H10.
  unfold fraction. rewrite of_int_exact, of_int_pow2, fdiv_pow2, pow10_exact by lia.
  set (V := 2 ^ (1074 - j)). assert (HV : 0 < V) by (apply Z.pow_pos_nonneg; lia).
  assert (Eone : one = V * 2 ^ j) by (unfold one, V; rewrite <- Z.pow_add_r by lia; f_equal; lia).
  assert (HrV : r * V < one) by (rewrite Eone, (Z.mul_comm r); apply Z.mul_lt_mono_pos_l; lia).
  rewrite (proj2 (Z.leb_gt _ _)) by done.
  destruct (product_ok r j d) as [HX He]; [lia..|]. fold V in HX, He. set (X := fmul _ _) in *.
  unfold truncated. rewrite Z.quot_div_nonneg by (pose proof one_pos; lia).
  pose proof (Z.mul_div_le X one one_pos) as H1. pose proof (Z.mul_succ_div_gt X one one_pos) as H2.
  assert (Hf : 0 ≤ X / one) by (apply Z.div_pos; [done|apply one_pos]).
  set (f := X / one) in *. rewrite Eone in H1, H2. clearbody X f. clear Eone.
  set (P := r * 10 ^ d) in *. assert (HP : P ≤ (2 ^ j - 1) * 10 ^ d) by (apply Z.mul_le_mono_nonneg_r; lia).
  assert (HP0 : 0 ≤ P) by (apply Z.mul_nonneg_nonneg; lia).
  clearbody V P. split_and!; [lia| | |].
  - (* f * one ≤ X < 10^d * one *)
    assert (2 ^ 53 * (f * 2 ^ j) ≤ (2 ^ 53 + 1) * P) by (apply (Z.mul_le_mono_pos_l _ _ V); lia). nia.
  - apply (Z.mul_le_mono_pos_l _ _ V); lia.
  - apply (Z.mul_lt_mono_pos_l V); lia.
Qed.

(** The text of [n] units and the fraction [f] with [digits] digits. *)
Definition human_readable (n f digits : Z) (i : nat) : str :=
  decimal n ++ (if digits =? 0 then [] else text "." ++ padded digits (decimal f)) ++
  text " " ++ nth i suffixes [].

Lemma decimal_length z n : 0 ≤ z < 10 ^ n → 1 ≤ n → Z.of_nat (length (decimal z)) ≤ n.
Proof.
  intros Hz Hn. unfold decimal. rewrite <- (Z2Nat.id n) by lia. apply Nat2Z.inj_le.
  apply decimal_loop_length; [|lia]. by rewrite Z2Nat.id by lia.
Qed.

Lemma padded_length f digits : 0 ≤ f < 10 ^ digits → 1 ≤ digits → Z.of_nat (length (padded digits (decimal f))) = digits.
Proof.
  intros Hf Hd. pose proof (decimal_length f digits Hf Hd). unfold padded.
  rewrite length_app, length_replicate. lia.
Qed.

Lemma suffix_length i : (length (nth i suffixes []) ≤ 2)%nat.
Proof. do 9 (destruct i as [|i]; [simpl; lia|]). destruct i; simpl; lia. Qed.

Lemma human_readable_length n f digits i :
  0 ≤ n < 1024 → 0 ≤ f < 10 ^ digits → 0 ≤ digits ≤ 9 → (length (human_readable n f digits i) ≤ 17)%nat.
Proof.
  intros Hn Hf Hd. unfold human_readable. pose proof (suffix_length i).
  pose proof (decimal_length n 4 ltac:(lia) ltac:(lia)). rewrite !length_app.
  change (length (text " ")) with 1%nat. destruct (Z.eqb_spec digits 0); [cbn [length]; lia|].
  pose proof (padded_length f digits Hf ltac:(lia)). rewrite length_app. change (length (text ".")) with 1%nat. lia.
Qed.

Lemma hr_text_ok n f digits i :
  0 ≤ digits ≤ 9 → hr_text n f digits (nth i suffixes []) = Ret (human_readable n f digits i).
Proof.
  intros Hd. unfold hr_text, human_readable. destruct (digits =? 0); [done|].
  rewrite (proj2 (Z.ltb_lt _ _)) by lia. by rewrite <- !app_assoc.
Qed.

Lemma to_ulonglong_ok v : 0 ≤ v < 2 ^ 64 → to_ulonglong v = Ret v.
Proof. intros H. unfold to_ulonglong. by rewrite (proj2 (Z.leb_le _ _)), (proj2 (Z.ltb_lt _ _)) by lia. Qed.

Lemma bytes_to_hr_run bytes digits buffer size :
  0 ≤ bytes < 2 ^ 60 → 0 ≤ digits ≤ 9 → 19 ≤ size ≤ Z.of_nat (length buffer) →
  ∃ i b, (i ≤ 5)%nat ∧
    let m := 2 ^ (10 * Z.of_nat i) in
    let n := bytes / m in
    let f := fraction pow10 (bytes mod m) m digits in
    winx_bytes_to_hr pow10 bytes digits (Some buffer) size =
      Ret (Z.of_nat (length (human_readable n f digits i)), Some (human_readable n f digits i ++ 0 :: b)) ∧
    n < 1024 ∧ (i = O ∨ 0 < n) ∧
    0 ≤ f < 10 ^ digits ∧ 2 ^ 53 * (f * m) ≤ (2 ^ 53 + 1) * (bytes mod m * 10 ^ digits) ∧
    (2 ^ 53 - 1) * (bytes mod m * 10 ^ digits) < 2 ^ 53 * ((f + 1) * m).
Proof.
  intros Hb Hd Hs. unfold winx_bytes_to_hr.
  rewrite (proj2 (Z.ltb_ge digits 0)), (proj2 (Z.leb_gt size 0)) by lia. cbn [orb].
  destruct (units_loop_ok 6 bytes bytes 1 0) as (i & -> & _ & Hn & Hi);
    [lia|done|lia|by rewrite Z.div_1_r|lia|by left|].
  set (m := 2 ^ (10 * Z.of_nat i)) in *. set (n := bytes / m) in *.
  assert (Hm : 0 < m) by (apply Z.pow_pos_nonneg; lia).
  pose proof (Z.div_mod bytes m ltac:(lia)) as Edm. pose proof (Z.mod_pos_bound bytes m Hm) as Hr. fold n in Edm.
  assert (Hi5 : (i ≤ 5)%nat).
  { destruct Hi as [->|Hi]; [lia|]. assert (m * 1 ≤ bytes) by nia.
    assert (2 ^ (10 * Z.of_nat i) < 2 ^ 60) as Hlt by (fold m; lia).
    apply Z.pow_lt_mono_r_iff in Hlt; lia. }
  rewrite outcome_bind_ret.
  assert (Er : u64 (bytes - u64 (n * m)) = bytes mod m) by (rewrite (u64_small (n * m)), u64_small; nia).
  rewrite Er. destruct (fraction_ok (bytes mod m) (10 * Z.of_nat i) digits) as (Hf & Hacc); [lia|done|lia|].
  fold m in Hf, Hacc. set (f := fraction pow10 (bytes mod m) m digits) in *. rewrite to_ulonglong_ok, outcome_bind_ret, hr_text_ok, outcome_bind_ret;
    [|done|destruct Hf; split; [done|]; eapply Z.lt_le_trans; [done|]; transitivity (10 ^ 9); [apply Z.pow_le_mono_r; lia|lia]].
  pose proof (human_readable_length n f digits i ltac:(lia) Hf Hd) as Hl.
  destruct (snprintf_fits buffer (Z.to_nat (size - 1)) (human_readable n f digits i)) as (b & -> & _ & ->); [lia|lia|].
  eexists i, _. split; [done|]. split; [done|]. split; [exact (proj2 Hn)|]. split; [exact Hi|].
  split; [exact Hf|exact Hacc].
Qed.
End theory.

(** *** Reading numbers back *)

(** One division of winx_hr_to_bytes shrinks the number. *)
Lemma fdiv_ten x : one < x → 0 ≤ fdiv x (of_int 10) ∧ 8 * fdiv x (of_int 10) ≤ x.
Proof.
  intros Hx. pose proof one_pos. rewrite of_int_exact by lia. unfold fdiv.
  rewrite Z.sgn_pos, Z.mul_1_l, Z.abs_eq by lia.
  unfold rounded. rewrite (Z.abs_eq (x * one)), Z.sgn_pos, Z.mul_1_l by nia.
  assert (Eq : x * one / (10 * one) = x / 10) by (apply Z.div_mul_cancel_r; lia). rewrite Eq.
  set (k := Z.max 0 (Z.log2 (x / 10) - 52)).
  assert (Hbig : 2 ^ 100 ≤ x) by (transitivity one; [apply Z.pow_le_mono_r; lia|lia]).
  assert (Hq : 2 ^ 52 ≤ x / 10) by (apply Z.div_le_lower_bound; lia).
  assert (Hl : 52 ≤ Z.log2 (x / 10)) by (apply Z.log2_le_pow2; lia).
  assert (Hk : 2 ^ 52 * 2 ^ k ≤ x / 10).
  { rewrite <- Z.pow_add_r by lia. replace (52 + k) with (Z.log2 (x / 10)) by lia. apply Z.log2_spec. lia. }
  pose proof (Z.pow_pos_nonneg 2 k ltac:(lia) ltac:(lia)).
  pose proof (nearest_error (x * one) (10 * one * 2 ^ k) ltac:(repeat apply Z.mul_pos_pos; lia)) as He.
  pose proof (nearest_nonneg (x * one) (10 * one * 2 ^ k) ltac:(apply Z.mul_nonneg_nonneg; lia) ltac:(repeat apply Z.mul_pos_pos; lia)) as Hn.
  set (t := nearest _ _) in *. split; [apply Z.mul_nonneg_nonneg; lia|].
  replace (2 * (t * (10 * one * 2 ^ k) - x * one)) with (2 * (10 * (t * 2 ^ k) - x) * one) in He by lia.
  rewrite Z.abs_mul, (Z.abs_eq one) in He by lia.
  replace (10 * one * 2 ^ k) with (10 * 2 ^ k * one) in He by lia. apply Z.mul_le_mono_pos_r in He; [|done].
  assert (10 * (x / 10) ≤ x) by (apply Z.mul_div_le; lia). lia.
Qed.

Lemma scale_loop_S fuel x :
  scale_loop (S fuel) x = if one <? x then scale_loop fuel (fdiv x (of_int 10)) else Ret x.
Proof. done. Qed.

Lemma scale_loop_ends fuel x : x ≤ 8 ^ Z.of_nat fuel * one → ∃ y, scale_loop (S fuel) x = Ret y.
Proof.
  revert x. induction fuel as [|fuel IH]; intros x Hx; rewrite scale_loop_S.
  - rewrite (proj2 (Z.ltb_ge _ _)) by lia. eauto.
  - destruct (Z.ltb_spec one x) as [H|H]; [|eauto]. destruct (fdiv_ten x H) as [_ Hd]. apply IH.
    rewrite Nat2Z.inj_succ, Z.pow_succ_r in Hx by lia. clear H. lia.
Qed.

Lemma digits_value_nonneg s acc :
  Forall (fun c => is_digit c = true) s → 0 ≤ acc → 0 ≤ fold_left (fun v c => v * 10 + (c - 0x30)) s acc.
Proof.
  intros Hs. revert acc. induction Hs as [|c s Hc _ IH]; intros acc Ha; [done|]. simpl. apply IH.
  apply is_digit_bound in Hc. lia.
Qed.

Lemma leading_digits_ok s : Forall (fun c => is_digit c = true) (leading_digits s).
Proof.
  induction s as [|c s IH]; simpl; [constructor|]. destruct (is_digit c) eqn:E; by constructor.
Qed.

Section reading.
Context (pow10 : Z → double) (atoi64_overflow : list Z → Z).
Context (overflow_range : ∀ s, - 2 ^ 63 ≤ atoi64_overflow s < 2 ^ 63).

Lemma c_atoi64_range s : - 2 ^ 63 ≤ c_atoi64 atoi64_overflow s < 2 ^ 63.
Proof.
  unfold c_atoi64. set (p := match skip_spaces s with [] => _ | _ => _ end).
  assert (Hp : p.1 = 1 ∨ p.1 = -1) by (unfold p; repeat case_match; auto).
  destruct p as [sign ds]. simpl in Hp.
  pose proof (digits_value_nonneg (leading_digits ds) 0 (leading_digits_ok ds) ltac:(lia)).
  fold (digits_value (leading_digits ds)) in *.
  destruct (Z.ltb_spec (digits_value (leading_digits ds)) (2 ^ 63)); [|apply overflow_range].
  destruct Hp as [-> | ->]; lia.
Qed.

Lemma of_int_bound v : Z.abs v < 2 ^ 63 + 1 → of_int v ≤ 2 ^ 64 * one.
Proof.
  intros Hv. pose proof one_pos. destruct (Z.le_gt_cases v 0) as [Hn|Hp].
  - transitivity 0; [|lia]. unfold of_int, rounded.
    assert (0 ≤ nearest (Z.abs (v * one)) (1 * 2 ^ Z.max 0 (Z.log2 (Z.abs (v * one) / 1) - 52))).
    { apply nearest_nonneg; [lia|]. apply Z.mul_pos_pos; [lia|]. apply Z.pow_pos_nonneg; lia. }
    pose proof (Z.pow_nonneg 2 (Z.max 0 (Z.log2 (Z.abs (v * one) / 1) - 52)) ltac:(lia)).
    assert (Hs : Z.sgn (v * one) ≤ 0) by (destruct (Z.eq_dec v 0) as [->|]; [done|]; rewrite Z.sgn_neg; [done|]; apply Z.mul_neg_pos; lia).
    apply Z.mul_nonpos_nonneg; [done|]. by apply Z.mul_nonneg_nonneg.
  - assert (Hb : 2 ^ 52 ≤ one) by (apply Z.pow_le_mono_r; lia).
    assert (Hv1 : one ≤ v * one) by (transitivity (1 * one); [lia|]; apply Z.mul_le_mono_nonneg_r; lia).
    pose proof (rounded_error (v * one) 1 ltac:(lia) ltac:(lia)) as He. unfold of_int.
    assert (v * one ≤ 2 ^ 63 * one) by (apply Z.mul_le_mono_nonneg_r; lia).
    set (x := rounded _ _) in *. lia.
Qed.

Lemma hr_to_bytes_ends string : winx_hr_to_bytes pow10 atoi64_overflow (Some string) ≠ NoFuel.
Proof.
  unfold winx_hr_to_bytes. destruct (suffix_loop _ _ _) as [m|]; [|done].
  destruct (behind_dot string) as [frac|]; [|done].
  destruct (scale_loop_ends 63 (of_int (c_atoi64 atoi64_overflow frac))) as (y & E).
  - transitivity (2 ^ 64 * one).
    + apply of_int_bound. pose proof (c_atoi64_range frac). lia.
    + apply Z.mul_le_mono_nonneg_r; [pose proof one_pos; lia|]. apply Z.leb_le. vm_compute. reflexivity.
  - rewrite E. cbn [mbind outcome_bind]. unfold to_longlong. by destruct (_ && _).
Qed.

(** Whole numbers of units, all of them. *)
Definition reads_back (n : Z) (i : nat) : bool :=
  match winx_hr_to_bytes pow10 atoi64_overflow (Some (human_readable n 0 0 i)) with
  | Ret v => v =? n * 2 ^ (10 * Z.of_nat i)
  | _ => false
  end.

Lemma all_read_back :
  forallb (fun n => forallb (fun i => (n =? 0) && negb (Nat.eqb i 0) || reads_back n i) (seq 0 6)) (seqZ 0 1024) = true.
Proof. vm_compute. reflexivity. Qed.

Lemma read_back n i :
  0 ≤ n < 1024 → (i ≤ 5)%nat → (i = O ∨ 0 < n) →
  winx_hr_to_bytes pow10 atoi64_overflow (Some (human_readable n 0 0 i)) = Ret (n * 2 ^ (10 * Z.of_nat i)).
Proof.
  intros Hn Hi H0. pose proof all_read_back as H. rewrite forallb_forall in H.
  specialize (H n). rewrite forallb_forall in H.
  assert (Hin : In n (seqZ 0 1024)) by (apply list_elem_of_In, elem_of_seqZ; lia).
  specialize (H Hin i). assert (Hi' : In i (seq 0 6)) by (apply list_elem_of_In, elem_of_seq; lia). specialize (H Hi').
  assert (E : (n =? 0) && negb (Nat.eqb i 0) = false).
  { destruct H0 as [-> |H0]; [by rewrite andb_false_r|]. by rewrite (proj2 (Z.eqb_neq n 0)) by lia. }
  rewrite E in H. cbn [orb] in H. unfold reads_back in H.
  destruct (winx_hr_to_bytes _ _ _); [|done..]. f_equal. by apply Z.eqb_eq.
Qed.
End reading.

(** ** Theorems *)

(** C32: below one exabyte, with at most nine digits asked for and a buffer of at
    least nineteen characters, the text that [winx_bytes_to_hr] stores, with its
    terminator, is the number in the largest unit that is not larger than it: at
    most four digits, a dot, exactly the digits asked for, and the unit; the
    digits behind the dot are the fraction, cut off up to the rounding of one
    product of doubles, and never round up to the next unit. *)
Theorem winx_bytes_to_hr_correct pow10 bytes digits buffer size :
  (∀ k, 0 ≤ k ≤ 9 → pow10 k = 10 ^ k * one) →
  0 ≤ bytes < 2 ^ 60 → 0 ≤ digits ≤ 9 → 19 ≤ size ≤ Z.of_nat (length buffer) →
  ∃ i n f b, (i ≤ 5)%nat ∧
    let m := 2 ^ (10 * Z.of_nat i) in
    winx_bytes_to_hr pow10 bytes digits (Some buffer) size =
      Ret (Z.of_nat (length (human_readable n f digits i)), Some (human_readable n f digits i ++ 0 :: b)) ∧
    n = bytes / m ∧ n < 1024 ∧ (i = O ∨ 0 < n) ∧
    0 ≤ f < 10 ^ digits ∧
    2 ^ 53 * (f * m) ≤ (2 ^ 53 + 1) * (bytes mod m * 10 ^ digits) ∧
    (2 ^ 53 - 1) * (bytes mod m * 10 ^ digits) < 2 ^ 53 * ((f + 1) * m).
Proof.
  intros Hp Hb Hd Hs. destruct (bytes_to_hr_run pow10 Hp bytes digits buffer size Hb Hd Hs) as (i & b & Hi & H).
  cbv zeta in H. destruct H as (E & H1 & H2 & H3).
  exists i, (bytes / 2 ^ (10 * Z.of_nat i)), (fraction pow10 (bytes mod 2 ^ (10 * Z.of_nat i)) (2 ^ (10 * Z.of_nat i)) digits), b.
  done.
Qed.

Lemma exact_pow10_ok k : 0 ≤ k ≤ 9 → exact_pow10 k = 10 ^ k * one.
Proof.
  intros Hk. unfold exact_pow10. rewrite (proj2 (Z.leb_le _ _)) by lia. apply of_int_exact.
  split; [apply Z.pow_nonneg; lia|]. apply Z.le_lt_trans with (10 ^ 9); [apply Z.pow_le_mono_r; lia|lia].
Qed.

Lemma winx_bytes_to_hr_correct_witness :
  ∃ i n f b, (i ≤ 5)%nat ∧
    let m := 2 ^ (10 * Z.of_nat i) in
    winx_bytes_to_hr exact_pow10 1689124864 3 (Some (replicate 32 7)) 32 =
      Ret (Z.of_nat (length (human_readable n f 3 i)), Some (human_readable n f 3 i ++ 0 :: b)) ∧
    n = 1689124864 / m ∧ n < 1024 ∧ (i = O ∨ 0 < n) ∧
    0 ≤ f < 10 ^ 3 ∧
    2 ^ 53 * (f * m) ≤ (2 ^ 53 + 1) * (1689124864 mod m * 10 ^ 3) ∧
    (2 ^ 53 - 1) * (1689124864 mod m * 10 ^ 3) < 2 ^ 53 * ((f + 1) * m).
Proof.
  apply (winx_bytes_to_hr_correct exact_pow10 1689124864 3 (replicate 32 7) 32 exact_pow10_ok); [lia|lia|].
  rewrite length_replicate. lia.
Defined.

Lemma unit_unique n i j : 0 ≤ n < 1024 → (i = O ∨ 0 < n) →
  let b := n * 2 ^ (10 * Z.of_nat i) in
  b / 2 ^ (10 * Z.of_nat j) < 1024 → (j = O ∨ 0 < b / 2 ^ (10 * Z.of_nat j)) → n ≠ 0 → i = j.
Proof.
  intros Hn Hi b H1 H2 Hn0.
  assert (Hpi : 0 < 2 ^ (10 * Z.of_nat i)) by (apply Z.pow_pos_nonneg; lia).
  assert (Hpj : 0 < 2 ^ (10 * Z.of_nat j)) by (apply Z.pow_pos_nonneg; lia).
  destruct (lt_eq_lt_dec i j) as [[Hlt| ->]|Hlt]; [|done|]; exfalso.
  - destruct H2 as [->|H2]; [lia|].
    assert (E : 2 ^ (10 * Z.of_nat j) = 2 ^ (10 * Z.of_nat i) * 2 ^ (10 * (Z.of_nat j - Z.of_nat i)))
      by (rewrite <- Z.pow_add_r by lia; f_equal; lia).
    assert (1024 ≤ 2 ^ (10 * (Z.of_nat j - Z.of_nat i))) by (change 1024 with (2 ^ 10); apply Z.pow_le_mono_r; lia).
    rewrite Z.div_small in H2; [lia|]. unfold b. nia.
  - assert (E : 2 ^ (10 * Z.of_nat i) = 2 ^ (10 * Z.of_nat j) * 2 ^ (10 * (Z.of_nat i - Z.of_nat j)))
      by (rewrite <- Z.pow_add_r by lia; f_equal; lia).
    assert (1024 ≤ 2 ^ (10 * (Z.of_nat i - Z.of_nat j))) by (change 1024 with (2 ^ 10); apply Z.pow_le_mono_r; lia).
    unfold b in H1. rewrite E, Z.mul_assoc, (Z.mul_comm n), <- Z.mul_assoc, (Z.mul_comm (2 ^ (10 * Z.of_nat j))), Z.div_mul in H1 by lia. nia.
Qed.

(** A whole number of units is read back from the text that
    [winx_bytes_to_hr] makes of it. *)
Theorem bytes_hr_roundtrip pow10 atoi64_overflow n i buffer size :
  (∀ k, 0 ≤ k ≤ 9 → pow10 k = 10 ^ k * one) →
  0 < n < 1024 → (i ≤ 5)%nat → 19 ≤ size ≤ Z.of_nat (length buffer) →
  let bytes := n * 2 ^ (10 * Z.of_nat i) in
  ∃ t b, winx_bytes_to_hr pow10 bytes 0 (Some buffer) size = Ret (Z.of_nat (length t), Some (t ++ 0 :: b)) ∧
    winx_hr_to_bytes pow10 atoi64_overflow (Some t) = Ret bytes.
Proof.
  intros Hp Hn Hi Hs bytes. assert (Hpi : 0 < 2 ^ (10 * Z.of_nat i)) by (apply Z.pow_pos_nonneg; lia).
  assert (Hb : 0 ≤ bytes < 2 ^ 60).
  { assert (2 ^ (10 * Z.of_nat i) ≤ 2 ^ 50) by (apply Z.pow_le_mono_r; lia). unfold bytes. nia. }
  destruct (bytes_to_hr_run pow10 Hp bytes 0 buffer size Hb ltac:(lia) Hs) as (j & b & Hj & E & H1 & H2 & _).
  assert (i = j) as <- by (apply (unit_unique n i j); [lia|by right; lia|done|done|lia]).
  set (f := fraction _ _ _ _) in E. exists (human_readable (bytes / 2 ^ (10 * Z.of_nat i)) f 0 i), b.
  split; [exact E|]. unfold bytes. rewrite Z.div_mul by lia.
  rewrite <- (read_back pow10 atoi64_overflow n i ltac:(lia) Hi ltac:(right; lia)). done.
Qed.

Lemma bytes_hr_roundtrip_witness :
  ∃ t b, winx_bytes_to_hr exact_pow10 (768 * 2 ^ (10 * Z.of_nat 3)) 0 (Some (replicate 32 7)) 32 =
           Ret (Z.of_nat (length t), Some (t ++ 0 :: b)) ∧
    winx_hr_to_bytes exact_pow10 (fun _ => 0) (Some t) = Ret (768 * 2 ^ (10 * Z.of_nat 3)).
Proof.
  apply (bytes_hr_roundtrip exact_pow10 (fun _ => 0) 768 3 (replicate 32 7) 32 exact_pow10_ok); [lia|lia|].
  rewrite length_replicate. lia.
Defined.

(** Reading a number ends for every text: the loop that moves the digits
    behind the dot divides at most sixty-three times. *)
Theorem winx_hr_to_bytes_terminates pow10 atoi64_overflow string :
  (∀ s, - 2 ^ 63 ≤ atoi64_overflow s < 2 ^ 63) →
  winx_hr_to_bytes pow10 atoi64_overflow (Some string) ≠ NoFuel.
Proof. intros H. by apply hr_to_bytes_ends. Qed.

Lemma winx_hr_to_bytes_terminates_witness :
  winx_hr_to_bytes exact_pow10 (fun _ => 2 ^ 63 - 1) (Some (text "7.99999999999999999999999 TB")) ≠ NoFuel.
Proof. apply winx_hr_to_bytes_terminates. intros _. lia. Defined.

(** ** Where it goes wrong *)

(** The loop stops at 1, not below: the digit 1 behind the dot counts as a
    whole unit. *)
Example hr_to_bytes_one_digit :
  winx_hr_to_bytes exact_pow10 (fun _ => 0) (Some (text "1.1 KB")) = Ret 2048 ∧
  winx_hr_to_bytes exact_pow10 (fun _ => 0) (Some (text "1.2 KB")) = Ret 1228.
Proof. vm_compute. split; reflexivity. Qed.

(** With ten digits or more the padding is made of spaces. *)
Example bytes_to_hr_spaces :
  winx_bytes_to_hr exact_pow10 1025 10 (Some (replicate 24 1)) 24 =
  Ret (15, Some (text "1.   9765625 KB" ++ [0] ++ replicate 8 1)).
Proof. vm_compute. reflexivity. Qed.

(** A text that just fits, or does not, is left without a terminator. *)
Example bytes_to_hr_unterminated :
  winx_bytes_to_hr exact_pow10 1536 1 (Some (replicate 7 1)) 7 = Ret (6, Some (text "1.5 KB" ++ [1])) ∧
  winx_bytes_to_hr exact_pow10 1536 1 (Some (replicate 5 1)) 5 = Ret (-1, Some (text "1.5 " ++ [1])).
Proof. vm_compute. split; reflexivity. Qed.
