(* ===== verification/Volume.v ===== *)
(** * volume.c: information about drives and volumes

    winx_get_drive_type, winx_get_volume_information and what they call, over
    the system calls of [FileIO] and the queries of the class [NtVolume].  A
    query fills a structure; the model has it as a record, and a name in it as
    the characters that the system stored, in a buffer of zeros.  What is traced
    is left out.  The theorems are proved for every system that keeps track of
    its open handles ([NtHandles]): every path gives back the handles it opened,
    and what the structure holds is typed and, for a volume that answers the
    queries ([DiskLaws]), right. *)
From S2P Require Import Prelude DList Bitmap CaseTables CString FileInfo FileIO Time.
From stdpp Require Import prelude gmap strings.
Open Scope Z_scope.

(** FILE_FS_SIZE_INFORMATION. *)
Record fs_size : Type := FsSize {
  TotalAllocationUnits : Z;
  AvailableAllocationUnits : Z;
  SectorsPerAllocationUnit : Z;
  BytesPerSector : Z;
}.

(** ** The native API *)
Class NtVolume (W : Type) : Type := {
  (** FileFsSizeInformation of a handle. *)
  NtQueryFsSize : Z → W → Z * fs_size;
  (** FileFsAttributeInformation: FileSystemNameLength and the characters
      stored. *)
  NtQueryFsAttribute : Z → W → Z * Z * str;
  (** FileFsVolumeInformation: the characters of the label. *)
  NtQueryFsVolume : Z → W → Z * str;
  (** FileFsDeviceInformation: DeviceType and Characteristics. *)
  NtQueryFsDevice : Z → W → Z * Z * Z;
  NtOpenSymbolicLinkObject : str → W → Z * Z * W;
  (** The characters stored in a buffer of a number of bytes. *)
  NtQuerySymbolicLinkObject : Z → Z → W → Z * str;
  (** ProcessDeviceMap: Query.DriveType. *)
  NtQueryDeviceMap : W → Z * list Z;
}.

(** ** The structure *)

Definition MAX_FS_NAME_LENGTH : nat := 31.

Record winx_volume_information : Type := VolumeInformation {
  volume_letter : Z;
  fs_name : list Z;
  label : list Z;
  total_bytes : Z;
  free_bytes : Z;
  total_clusters : Z;
  bytes_per_cluster : Z;
  sectors_per_cluster : Z;
  bytes_per_sector : Z;
  ntfs_data : list Z;
  is_dirty : Z;
  device_capacity : Z;
}.

Definition sizeof_NTFS_DATA : nat := 96.

(** All fields zero but the letter. *)
Definition blank (letter : Z) : winx_volume_information :=
  VolumeInformation letter (replicate (MAX_FS_NAME_LENGTH + 1) 0)
    (replicate (Z.to_nat MAX_PATH + 1) 0) 0 0 0 0 0 0 (replicate sizeof_NTFS_DATA 0) 0 0.

Definition set_geometry (ffs : fs_size) (v : winx_volume_information) : winx_volume_information :=
  VolumeInformation (volume_letter v) (fs_name v) (label v)
    (u64 (u64 (u64 (TotalAllocationUnits ffs) * SectorsPerAllocationUnit ffs) * BytesPerSector ffs))
    (u64 (u64 (u64 (AvailableAllocationUnits ffs) * SectorsPerAllocationUnit ffs) * BytesPerSector ffs))
    (u64 (TotalAllocationUnits ffs))
    (u32 (SectorsPerAllocationUnit ffs * BytesPerSector ffs))
    (SectorsPerAllocationUnit ffs) (BytesPerSector ffs) (ntfs_data v) (is_dirty v) (device_capacity v).

Definition set_capacity (c : Z) (v : winx_volume_information) : winx_volume_information :=
  VolumeInformation (volume_letter v) (fs_name v) (label v) (total_bytes v) (free_bytes v)
    (total_clusters v) (bytes_per_cluster v) (sectors_per_cluster v) (bytes_per_sector v)
    (ntfs_data v) (is_dirty v) c.

Definition set_fs_name (s : list Z) (v : winx_volume_information) : winx_volume_information :=
  VolumeInformation (volume_letter v) s (label v) (total_bytes v) (free_bytes v)
    (total_clusters v) (bytes_per_cluster v) (sectors_per_cluster v) (bytes_per_sector v)
    (ntfs_data v) (is_dirty v) (device_capacity v).

Definition set_label (s : list Z) (v : winx_volume_information) : winx_volume_information :=
  VolumeInformation (volume_letter v) (fs_name v) s (total_bytes v) (free_bytes v)
    (total_clusters v) (bytes_per_cluster v) (sectors_per_cluster v) (bytes_per_sector v)
    (ntfs_data v) (is_dirty v) (device_capacity v).

Definition set_ntfs_data (d : list Z) (v : winx_volume_information) : winx_volume_information :=
  VolumeInformation (volume_letter v) (fs_name v) (label v) (total_bytes v) (free_bytes v)
    (total_clusters v) (bytes_per_cluster v) (sectors_per_cluster v) (bytes_per_sector v)
    d (is_dirty v) (device_capacity v).

Definition set_dirty (z : Z) (v : winx_volume_information) : winx_volume_information :=
  VolumeInformation (volume_letter v) (fs_name v) (label v) (total_bytes v) (free_bytes v)
    (total_clusters v) (bytes_per_cluster v) (sectors_per_cluster v) (bytes_per_sector v)
    (ntfs_data v) z (device_capacity v).

Definition CTL_CODE (device function : Z) : Z := Z.lor (Z.shiftl device 16) (Z.shiftl function 2).

Definition IOCTL_DISK_GET_DRIVE_GEOMETRY : Z := CTL_CODE 7 0.

Definition FSCTL_GET_NTFS_VOLUME_DATA : Z := CTL_CODE FILE_DEVICE_FILE_SYSTEM 25.

Definition FSCTL_IS_VOLUME_DIRTY : Z := CTL_CODE FILE_DEVICE_FILE_SYSTEM 30.

Definition VOLUME_IS_DIRTY : Z := 1.

(** [letter < 'A' || letter > 'Z']: the same for a signed and an unsigned
    [char]. *)
Definition bad_letter (letter : Z) : bool := (letter <? 0x41) || (0x5A <? letter).

(** [wcsncpy] into zeros: at most [n] characters, up to the terminator. *)
Definition wcsncpy (n : nat) (src : list Z) : str := take n (cstr src).

Section volume.
Context {W : Type} `{!NtApi W} `{!NtControl W} `{!NtVolume W}.
(** The allocator, the contents of memory that nothing was stored in, and the
    conversion of %ws in a narrow format. *)
Context (tmalloc : Z → bool) (uninit : nat → list Z) (narrow : str → list Z).
Implicit Types (v : winx_volume_information) (w : W) (h : Z).

Definition root_path (letter : Z) : str := text "\??\" ++ [wide_char (fast_toupper letter)] ++ text ":\".

Definition volume_path (letter : Z) : str := text "\??\" ++ [wide_char (fast_toupper letter)] ++ text ":".

(** The handle, 0 for NULL. *)
Definition OpenRootDirectory (volume_letter : Z) w : Z * W :=
  let '(status, hRoot, w) :=
    NtCreateFile (CreateRequest FILE_GENERIC_READ (root_path volume_letter) FILE_READ_ATTRIBUTES 0
                    (Z.lor FILE_SHARE_READ FILE_SHARE_WRITE) FILE_OPEN 0) w in
  if negb (NT_SUCCESS status) then (0, w) else (hRoot, w).

Definition winx_vopen (volume_letter : Z) w : option WINX_FILE * W :=
  winx_fopen tmalloc (volume_path volume_letter) (text "r") w.

Definition winx_vflush (volume_letter : Z) w : outcome (Z * W) :=
  let '(f, w) := winx_fopen tmalloc (volume_path volume_letter) (text "r+") w in
  match f with
  | None => Ret (-1, w)
  | Some f =>
      let '(result, w) := winx_fflush f w in
      w ← winx_fclose f w;
      Ret (result, w)
  end.

(** A request to a volume that is opened for it: the result and the buffer; the
    result of a volume that cannot be opened is [None]. *)
Definition volume_request (letter code size : Z) (buffer : list Z) w : outcome (option Z * list Z * W) :=
  let '(f, w) := winx_vopen letter w in
  match f with
  | None => Ret (None, buffer, w)
  | Some f =>
      '(result, out, _, w) ← winx_ioctl f code [] (Some buffer) size w;
      w ← winx_fclose f w;
      Ret (Some result, default [] out, w)
  end.

(** dg.Cylinders.QuadPart * dg.TracksPerCylinder * dg.SectorsPerTrack *
    dg.BytesPerSector, of a DISK_GEOMETRY. *)
Definition sizeof_DISK_GEOMETRY : Z := 24.

Definition capacity (dg : list Z) : outcome Z :=
  cylinders ← rd 8 dg 0;
  tracks ← rd 4 dg 12;
  sectors ← rd 4 dg 16;
  bytes ← rd 4 dg 20;
  Ret (u64 (cylinders * tracks * sectors * bytes)).

Definition get_drive_geometry (hRoot : Z) v w : outcome (Z * winx_volume_information * W) :=
  let '(status, ffs) := NtQueryFsSize hRoot w in
  if negb (NT_SUCCESS status) then Ret (-1, v, w) else
  (* fill all geometry related fields of the output structure *)
  let v := set_capacity 0 (set_geometry ffs v) in
  (* optional: get device capacity *)
  '(r, dg, w) ← volume_request (volume_letter v) IOCTL_DISK_GET_DRIVE_GEOMETRY sizeof_DISK_GEOMETRY
                  (uninit (Z.to_nat sizeof_DISK_GEOMETRY)) w;
  match r with
  | Some result => if 0 <=? result then c ← capacity dg; Ret (0, set_capacity c v, w) else Ret (0, v, w)
  | None => Ret (0, v, w)
  end.

Definition get_filesystem_name (hRoot : Z) v w : outcome (Z * winx_volume_information) :=
  let '(status, name_length, chars) := NtQueryFsAttribute hRoot w in
  (* the buffer behind FileSystemName *)
  FileSystemName ← blit (replicate 262 0) 0 chars;
  if negb (NT_SUCCESS status) then Ret (-1, v) else
  let length := Z.min (Z.of_nat MAX_FS_NAME_LENGTH) (name_length / 2) in
  let name := wcsncpy (Z.to_nat length) FileSystemName in
  '(_, b) ← snprintf (fs_name v) MAX_FS_NAME_LENGTH (narrow name);
  b ← put b (Z.of_nat MAX_FS_NAME_LENGTH) 0;
  Ret (0, set_fs_name b v).

(** The result of the request is not looked at by the caller. *)
Definition get_ntfs_data v w : outcome (Z * winx_volume_information * W) :=
  '(r, d, w) ← volume_request (volume_letter v) FSCTL_GET_NTFS_VOLUME_DATA (Z.of_nat sizeof_NTFS_DATA)
                 (ntfs_data v) w;
  Ret (default (-1) r, set_ntfs_data d v, w).

Definition get_volume_label (hRoot : Z) v w : outcome winx_volume_information :=
  b ← put (label v) 0 0;
  let v := set_label b v in
  let '(status, chars) := NtQueryFsVolume hRoot w in
  (* the buffer behind VolumeLabel *)
  VolumeLabel ← blit (replicate 263 0) 0 chars;
  if negb (NT_SUCCESS status) then Ret v else
  let s := wcsncpy (Z.to_nat MAX_PATH) VolumeLabel in
  b ← blit (label v) 0 (s ++ replicate (Z.to_nat MAX_PATH - length s) 0);
  b ← put b MAX_PATH 0;
  Ret (set_label b v).

Definition get_volume_dirty_flag v w : outcome (winx_volume_information * W) :=
  '(r, flag, w) ← volume_request (volume_letter v) FSCTL_IS_VOLUME_DIRTY 4 (uninit 4) w;
  match r with
  | None => Ret (v, w)
  | Some result =>
      if 0 <=? result then
        dirty_flag ← rd 4 flag 0;
        Ret (if negb (Z.land dirty_flag VOLUME_IS_DIRTY =? 0) then set_dirty 1 v else v, w)
      else Ret (v, w)
  end.

(** [winx_get_volume_information]: the result and the structure. *)
Definition winx_get_volume_information (letter : Z) (v : option winx_volume_information) w
  : outcome (Z * option winx_volume_information * W) :=
  match v with
  | None => Ret (-1, None, w)
  | Some _ =>
      let letter := fast_toupper letter in
      let v := blank letter in
      if bad_letter letter then Ret (-1, Some v, w) else
      let '(hRoot, w) := OpenRootDirectory letter w in
      if hRoot =? 0 then Ret (-1, Some v, w) else
      '(r, v, w) ← get_drive_geometry hRoot v w;
      if r <? 0 then Ret (-1, Some v, NtClose hRoot w) else
      '(r, v) ← get_filesystem_name hRoot v w;
      if r <? 0 then Ret (-1, Some v, NtClose hRoot w) else
      v ← get_volume_label hRoot v w;
      let v := set_ntfs_data (replicate sizeof_NTFS_DATA 0) v in
      '(v, w) ← if bool_decide (cstr (fs_name v) = text "NTFS")
                then '(_, v, w) ← get_ntfs_data v w; Ret (v, w)
                else Ret (v, w);
      '(v, w) ← get_volume_dirty_flag v w;
      Ret (0, Some v, NtClose hRoot w)
  end.

(** ** Drive types *)

Definition DRIVE_UNKNOWN : Z := 0.
Definition DRIVE_NO_ROOT_DIR : Z := 1.
Definition DRIVE_REMOVABLE : Z := 2.
Definition DRIVE_FIXED : Z := 3.
Definition DRIVE_REMOTE : Z := 4.
Definition DRIVE_CDROM : Z := 5.
Definition DRIVE_ASSIGNED_BY_SUBST_COMMAND : Z := 1200.

Definition FILE_REMOVABLE_MEDIA : Z := 1.
Definition FILE_REMOTE_DEVICE : Z := 0x10.

(** The type of device of the root directory, and its characteristics. *)
Definition device_drive_type (DeviceType Characteristics : Z) : Z :=
  (* detect remote/cd/dvd/unknown drives *)
  if has_flag Characteristics FILE_REMOTE_DEVICE then DRIVE_REMOTE else
  (* FILE_DEVICE_CD_ROM, FILE_DEVICE_CD_ROM_FILE_SYSTEM, FILE_DEVICE_DVD *)
  if bool_decide (DeviceType ∈ [2; 3; 0x33]) then DRIVE_CDROM else
  (* FILE_DEVICE_NETWORK_FILE_SYSTEM, FILE_DEVICE_NETWORK, FILE_DEVICE_NETWORK_BROWSER,
     FILE_DEVICE_DFS_FILE_SYSTEM, FILE_DEVICE_DFS_VOLUME, FILE_DEVICE_DFS *)
  if bool_decide (DeviceType ∈ [0x14; 0x12; 0x13; 0x35; 0x36; 6]) then DRIVE_REMOTE else
  (* FILE_DEVICE_UNKNOWN *)
  if DeviceType =? 0x22 then DRIVE_UNKNOWN else
  (* detect removable disks *)
  if has_flag Characteristics FILE_REMOVABLE_MEDIA then DRIVE_REMOVABLE else
  (* detect fixed disks: FILE_DEVICE_DISK, FILE_DEVICE_FILE_SYSTEM, FILE_DEVICE_DISK_FILE_SYSTEM *)
  if bool_decide (DeviceType ∈ [7; 9; 8]) then DRIVE_FIXED else DRIVE_UNKNOWN.

(** [winx_query_symbolic_link] (misc.c): the result and the buffer. *)
Definition winx_query_symbolic_link (name : str) (buffer : list Z) (length : Z) w
  : outcome (Z * list Z * W) :=
  if length <=? 0 then Ret (-1, buffer, w) else
  let '(status, hLink, w) := NtOpenSymbolicLinkObject name w in
  if negb (NT_SUCCESS status) then Ret (-1, buffer, w) else
  let '(status, chars) := NtQuerySymbolicLinkObject hLink (u16 (length * 2)) w in
  buffer ← blit buffer 0 chars;
  let w := NtClose hLink w in
  if negb (NT_SUCCESS status) then Ret (-1, buffer, w) else
  buffer ← put buffer (length - 1) 0;
  Ret (0, buffer, w).

Definition MAX_TARGET_LENGTH : nat := 256.

(** The checks of the target of the link: a drive of the subst command, a
    floppy. *)
Definition target_drive_type (target : str) : option Z :=
  if bool_decide (take 4 target = text "\??\") then Some DRIVE_ASSIGNED_BY_SUBST_COMMAND
  else if search_loop id target (text "Floppy") then Some DRIVE_REMOVABLE else None.

Definition winx_get_drive_type (letter : Z) w : outcome (Z * W) :=
  let letter := fast_toupper letter in
  if bad_letter letter then Ret (-1, w) else
  (* check for the drive existence *)
  '(r, link_target, w) ← winx_query_symbolic_link (text "\??\" ++ [letter] ++ text ":")
                           (uninit MAX_TARGET_LENGTH) (Z.of_nat MAX_TARGET_LENGTH) w;
  if r <? 0 then Ret (-1, w) else
  match target_drive_type (cstr link_target) with
  | Some t => Ret (t, w)
  | None =>
      let '(status, DriveType) := NtQueryDeviceMap w in
      if negb (NT_SUCCESS status) then Ret (-1, w) else
      drive_type ← rd8 DriveType (letter - 0x41);
      if negb (drive_type =? DRIVE_NO_ROOT_DIR) then Ret (drive_type, w) else
      (* try to define exactly again which type has the specified drive *)
      let '(hRoot, w) := OpenRootDirectory letter w in
      if hRoot =? 0 then Ret (-1, w) else
      let '(status, DeviceType, Characteristics) := NtQueryFsDevice hRoot w in
      let w := NtClose hRoot w in
      if negb (NT_SUCCESS status) then Ret (-1, w) else
      Ret (device_drive_type DeviceType Characteristics, w)
  end.
End volume.

(** ** Open handles *)

Definition bytes (b : list Z) : Prop := Forall (fun c => 0 ≤ c < 2 ^ 8) b.

Definition wide (s : list Z) : Prop := Forall (fun c => 0 ≤ c < 2 ^ 16) s.

Definition fs_size_typed (s : fs_size) : Prop :=
  0 ≤ SectorsPerAllocationUnit s < 2 ^ 32 ∧ 0 ≤ BytesPerSector s < 2 ^ 32.

(** What holds of every system: a handle that a call returns is new, a call
    that fails opens none, queries leave the handles alone and store no more
    than the buffers hold. *)
Class NtHandles (W : Type) `{!NtApi W, !NtControl W, !NtVolume W} : Type := {
  (** The open handles and what they name. *)
  names : W → gmap Z str;
  nh_create r w :
    (∃ h w', NtCreateFile r w = (STATUS_SUCCESS, h, w') ∧ h ≠ 0 ∧ names w !! h = None ∧
       names w' = <[h := ObjectName r]> (names w)) ∨
    (∃ status h w', NtCreateFile r w = (status, h, w') ∧ NT_SUCCESS status = false ∧ names w' = names w);
  nh_link n w :
    (∃ h w', NtOpenSymbolicLinkObject n w = (STATUS_SUCCESS, h, w') ∧ names w !! h = None ∧
       names w' = <[h := n]> (names w)) ∨
    (∃ status h w', NtOpenSymbolicLinkObject n w = (status, h, w') ∧ NT_SUCCESS status = false ∧
       names w' = names w);
  nh_close h w : names (NtClose h w) = delete h (names w);
  nh_fs_control h code i n w : 0 ≤ n → ∃ status information out w',
    NtFsControlFile h code i n w = (status, information, out, w') ∧ names w' = names w ∧
    Z.of_nat (length out) ≤ n ∧ bytes out;
  nh_device_control h code i n w : 0 ≤ n → ∃ status information out w',
    NtDeviceIoControlFile h code i n w = (status, information, out, w') ∧ names w' = names w ∧
    Z.of_nat (length out) ≤ n ∧ bytes out;
  nh_size h w : fs_size_typed (NtQueryFsSize h w).2;
  nh_attribute h w : ∃ status name_length chars, NtQueryFsAttribute h w = (status, name_length, chars) ∧
    0 ≤ name_length ∧ (length chars ≤ 262)%nat ∧ wide chars;
  nh_label h w : ∃ status chars, NtQueryFsVolume h w = (status, chars) ∧
    (length chars ≤ 263)%nat ∧ wide chars;
  nh_target h n w : 0 ≤ n → ∃ status chars, NtQuerySymbolicLinkObject h n w = (status, chars) ∧
    2 * Z.of_nat (length chars) ≤ n;
  nh_map w : ∃ status types, NtQueryDeviceMap w = (status, types) ∧ length types = 32%nat ∧ bytes types;
}.

(** The structure is well-formed: numbers in the range of their types, and
    texts that end in their buffers. *)
Record volume_typed (v : winx_volume_information) : Prop := {
  vt_fs_name : length (fs_name v) = 32%nat ∧ bytes (fs_name v) ∧ fs_name v !! 31%nat = Some 0;
  vt_label : length (label v) = 261%nat ∧ wide (label v) ∧ label v !! 260%nat = Some 0;
  vt_total_bytes : 0 ≤ total_bytes v < 2 ^ 64;
  vt_free_bytes : 0 ≤ free_bytes v < 2 ^ 64;
  vt_total_clusters : 0 ≤ total_clusters v < 2 ^ 64;
  vt_bytes_per_cluster : 0 ≤ bytes_per_cluster v < 2 ^ 32;
  vt_sectors_per_cluster : 0 ≤ sectors_per_cluster v < 2 ^ 32;
  vt_bytes_per_sector : 0 ≤ bytes_per_sector v < 2 ^ 32;
  vt_ntfs_data : length (ntfs_data v) = sizeof_NTFS_DATA ∧ bytes (ntfs_data v);
  vt_is_dirty : is_dirty v = 0 ∨ is_dirty v = 1;
  vt_device_capacity : 0 ≤ device_capacity v < 2 ^ 64;
}.

Lemma zeros_within n k : 0 < k → Forall (fun c => 0 ≤ c < k) (replicate n 0).
Proof. intros Hk. apply Forall_replicate. lia. Qed.

Lemma blank_typed letter : volume_typed (blank letter).
Proof.
  split; cbn [fs_name label total_bytes free_bytes total_clusters bytes_per_cluster sectors_per_cluster
    bytes_per_sector ntfs_data is_dirty device_capacity blank]; try lia; try (by left);
    repeat split; rewrite ?length_replicate; try done; try (by apply zeros_within); by apply lookup_replicate_2.
Qed.

(** Copying into a buffer keeps its length and the range of its cells. *)
Lemma blit_front k b d :
  (length d ≤ length b)%nat → Forall (fun c => 0 ≤ c < k) b → Forall (fun c => 0 ≤ c < k) d →
  ∃ b', blit b 0 d = Ret b' ∧ length b' = length b ∧ Forall (fun c => 0 ≤ c < k) b' ∧
    b' = d ++ drop (length d) b.
Proof.
  intros Hl Hb Hd. unfold blit. rewrite (proj2 (Z.ltb_ge _ _)) by lia. simpl.
  rewrite (proj2 (Z.ltb_ge _ _)) by lia. eexists. split; [done|].
  split; [rewrite length_app, length_drop; lia|]. split; [|done].
  apply Forall_app. split; [done|]. by apply Forall_drop.
Qed.

Lemma put_ok k b i : (i < length b)%nat → Forall (fun c => 0 ≤ c < k) b → 0 < k →
  ∃ b', put b (Z.of_nat i) 0 = Ret b' ∧ length b' = length b ∧ Forall (fun c => 0 ≤ c < k) b' ∧
    b' !! i = Some 0 ∧ b' = <[i := 0]> b.
Proof.
  intros Hi Hb Hk. rewrite put_lookup by done. eexists. split; [done|]. rewrite length_insert.
  split; [done|]. split; [by apply Forall_insert; [|lia]|]. by rewrite list_lookup_insert_eq.
Qed.

(** _snprintf never leaves its buffer. *)
Lemma snprintf_total k b n t :
  (n ≤ length b)%nat → Forall (fun c => 0 ≤ c < k) b → Forall (fun c => 0 ≤ c < k) t → 0 < k →
  ∃ r b', snprintf b n t = Ret (r, b') ∧ length b' = length b ∧ Forall (fun c => 0 ≤ c < k) b'.
Proof.
  intros Hn Hb Ht Hk. unfold snprintf. repeat case_decide.
  - destruct (blit_front k b (t ++ [0])) as (b' & -> & Hl & Hb' & _); [rewrite length_app; simpl; lia|done| |].
    { apply Forall_app. split; [done|]. constructor; [lia|constructor]. }
    by exists (Z.of_nat (length t)), b'.
  - destruct (blit_front k b t) as (b' & -> & Hl & Hb' & _); [lia|done..|]. by exists (Z.of_nat n), b'.
  - destruct (blit_front k b (take n t)) as (b' & -> & Hl & Hb' & _); [rewrite length_take; lia|done|by apply Forall_take|].
    by exists (-1), b'.
Qed.

Lemma cstr_within k b : Forall (fun c => 0 ≤ c < k) b → Forall (fun c => 0 ≤ c < k) (cstr b).
Proof. induction 1 as [|c b Hc _ IH]; simpl; [constructor|]. case_match; [constructor|]. by constructor. Qed.

Section handles.
Context {W : Type} `{!NtApi W} `{!NtControl W} `{!NtVolume W} `{!NtHandles W}.
Context (tmalloc : Z → bool) (uninit : nat → list Z) (narrow : str → list Z).
Context (uninit_ok : ∀ n, length (uninit n) = n ∧ bytes (uninit n)).
Context (narrow_bytes : ∀ s, bytes (narrow s)).
Implicit Types (v : winx_volume_information) (w : W) (h : Z).

Lemma status_failed status : NT_SUCCESS status = false → status ≠ STATUS_SUCCESS.
Proof. by intros H ->. Qed.

Lemma delete_new (m : gmap Z str) h n : m !! h = None → delete h (<[h := n]> m) = m.
Proof. apply delete_insert_id. Qed.

(** A stream without a buffer. *)
Definition plain (h : Z) : WINX_FILE := WinxFile h 0 0 None 0 0 0.

Lemma fopen_names path mode w :
  (∃ w', winx_fopen tmalloc path mode w = (None, w') ∧ names w' = names w) ∨
  (∃ h w', winx_fopen tmalloc path mode w = (Some (plain h), w') ∧ h ≠ 0 ∧ names w !! h = None ∧
     names w' = <[h := path]> (names w)).
Proof.
  unfold winx_fopen. destruct (open_mode mode) as [a d].
  match goal with |- context [NtCreateFile ?r w] => set (q := r) end.
  destruct (nh_create q w) as [(h & w' & -> & H0 & Hn & E)|(st & h & w' & -> & Hs & E)].
  - simpl. destruct (tmalloc sizeof_WINX_FILE); [by right; exists h, w'|left].
    exists (NtClose h w'). split; [done|]. rewrite nh_close, E. by apply delete_new.
  - left. exists w'. rewrite (proj2 (Z.eqb_neq _ _)) by (by apply status_failed). done.
Qed.

Lemma fclose_names h w : h ≠ 0 → winx_fclose (plain h) w = Ret (NtClose h w).
Proof. intros Hh. unfold winx_fclose. simpl. by rewrite (proj2 (Z.eqb_neq h 0)). Qed.

Lemma ioctl_run f code b n w :
  Z.of_nat (length b) = n → bytes b →
  ∃ r out i w', winx_ioctl f code [] (Some b) n w = Ret (r, Some out, i, w') ∧
    length out = length b ∧ bytes out ∧ names w' = names w ∧ (r = 0 ∨ r = -1).
Proof.
  intros Hn Hb. unfold winx_ioctl.
  destruct (blit_front (2 ^ 8) b (replicate (Z.to_nat n) 0)) as (b1 & -> & Hl1 & Hb1 & _);
    [rewrite length_replicate; lia|done|by apply zeros_within|].
  cbn [fmap outcome_fmap]. rewrite outcome_bind_ret.
  assert (H : ∃ st info out w', (if Z.shiftr code 16 =? FILE_DEVICE_FILE_SYSTEM
    then NtFsControlFile (hFile f) code [] n w else NtDeviceIoControlFile (hFile f) code [] n w) =
    (st, info, out, w') ∧ names w' = names w ∧ Z.of_nat (length out) ≤ n ∧ bytes out)
    by (destruct (_ =? _); [apply nh_fs_control|apply nh_device_control]; lia).
  destruct H as (st & info & out & w' & -> & E & Hl & Ho).
  destruct (blit_front (2 ^ 8) b1 out) as (b2 & -> & Hl2 & Hb2 & _); [lia|done..|].
  cbn [fmap outcome_fmap]. rewrite outcome_bind_ret. destruct (negb (NT_SUCCESS st)).
  - exists (-1), b2, 0, w'. rewrite Hl2, Hl1. split_and!; [done..|by right].
  - exists 0, b2, (s32 info), w'. rewrite Hl2, Hl1. split_and!; [done..|by left].
Qed.

Lemma volume_request_run letter code n b w :
  Z.of_nat (length b) = n → bytes b →
  ∃ r out w', volume_request tmalloc letter code n b w = Ret (r, out, w') ∧
    length out = length b ∧ bytes out ∧ names w' = names w.
Proof.
  intros Hn Hb. unfold volume_request, winx_vopen.
  destruct (fopen_names (volume_path letter) (text "r") w) as [(w' & -> & E)|(h & w' & -> & H0 & Hh & E)].
  - by exists None, b, w'.
  - destruct (ioctl_run (plain h) code b n w') as (r & out & i & w2 & -> & Hl & Ho & E2 & _); [done..|].
    rewrite outcome_bind_ret, fclose_names, outcome_bind_ret by done.
    exists (Some r), out, (NtClose h w2). split; [done|]. split; [done|]. split; [done|].
    rewrite nh_close, E2, E. by apply delete_new.
Qed.

Lemma rd_bytes n b off : bytes b → 0 ≤ off → off + Z.of_nat n ≤ Z.of_nat (length b) →
  ∃ x, rd n b off = Ret x ∧ 0 ≤ x < 256 ^ Z.of_nat n.
Proof.
  intros Hb Ho Hl. destruct (rd_ok n b off Ho Hl) as (x & E). exists x. split; [done|].
  by eapply rd_range.
Qed.

Lemma capacity_run dg : length dg = 24%nat → bytes dg → ∃ c, capacity dg = Ret c ∧ 0 ≤ c < 2 ^ 64.
Proof.
  intros Hl Hb. unfold capacity.
  destruct (rd_bytes 8 dg 0 Hb) as (a & -> & _); [lia..|].
  destruct (rd_bytes 4 dg 12 Hb) as (b & -> & _); [lia..|].
  destruct (rd_bytes 4 dg 16 Hb) as (c & -> & _); [lia..|].
  destruct (rd_bytes 4 dg 20 Hb) as (d & -> & _); [lia..|].
  eexists. split; [reflexivity|]. apply u64_range.
Qed.

(** The ways a structure is filled keep it well-formed. *)
Lemma typed_geometry ffs v : fs_size_typed ffs → volume_typed v → volume_typed (set_geometry ffs v).
Proof.
  intros [Hs Hb] []. split; cbn; try done; try apply u64_range. by apply Z.mod_pos_bound.
Qed.

Lemma typed_capacity c v : 0 ≤ c < 2 ^ 64 → volume_typed v → volume_typed (set_capacity c v).
Proof. intros Hc []. by split. Qed.

Lemma typed_ntfs d v :
  length d = sizeof_NTFS_DATA → bytes d → volume_typed v → volume_typed (set_ntfs_data d v).
Proof. intros Hl Hb []. by split. Qed.

Lemma typed_dirty v : volume_typed v → volume_typed (set_dirty 1 v).
Proof. intros []. split; try done. by right. Qed.

Lemma typed_fs_name b v : length b = 32%nat → bytes b → b !! 31%nat = Some 0 →
  volume_typed v → volume_typed (set_fs_name b v).
Proof. intros ??? []. by split. Qed.

Lemma typed_label b v : length b = 261%nat → wide b → b !! 260%nat = Some 0 →
  volume_typed v → volume_typed (set_label b v).
Proof. intros ??? []. by split. Qed.

(** A step that returns, keeps the structure well-formed and the handles. *)
Definition keeps (w : W) (v : winx_volume_information) (w' : W) : Prop :=
  volume_typed v ∧ names w' = names w.

Lemma get_drive_geometry_run hRoot v w : volume_typed v →
  ∃ r v' w', get_drive_geometry tmalloc uninit hRoot v w = Ret (r, v', w') ∧ (r = 0 ∨ r = -1) ∧ keeps w v' w'.
Proof.
  intros Hv. unfold get_drive_geometry. pose proof (nh_size hRoot w) as Hs.
  destruct (NtQueryFsSize hRoot w) as [st ffs]. simpl in Hs.
  destruct (negb (NT_SUCCESS st)); [exists (-1), v, w; split_and!; [done|by right|done]|].
  assert (Hv1 : volume_typed (set_capacity 0 (set_geometry ffs v)))
    by (apply typed_capacity; [lia|by apply typed_geometry]).
  destruct (uninit_ok (Z.to_nat sizeof_DISK_GEOMETRY)) as [Hl Hb].
  set (v1 := set_capacity 0 (set_geometry ffs v)) in *. set (buf := uninit _) in *.
  destruct (volume_request_run (volume_letter v1) IOCTL_DISK_GET_DRIVE_GEOMETRY sizeof_DISK_GEOMETRY buf w)
    as (r & dg & w' & -> & Hl' & Hb' & E); [rewrite Hl; done|done|].
  rewrite outcome_bind_ret. destruct r as [r|]; [|exists 0, v1, w'; split_and!; [done|by left|done]].
  destruct (0 <=? r); [|exists 0, v1, w'; split_and!; [done|by left|done]].
  destruct (capacity_run dg) as (c & -> & Hc); [by rewrite Hl', Hl|done|].
  rewrite outcome_bind_ret. exists 0, (set_capacity c v1), w'. split_and!; [done|by left|].
  split; [|done]. by apply typed_capacity.
Qed.

Lemma get_filesystem_name_run hRoot v w : volume_typed v →
  ∃ r v', get_filesystem_name narrow hRoot v w = Ret (r, v') ∧ (r = 0 ∨ r = -1) ∧ volume_typed v'.
Proof.
  intros Hv. unfold get_filesystem_name. destruct (nh_attribute hRoot w) as (st & n & chars & -> & Hn & Hc & Hw).
  destruct (blit_front (2 ^ 16) (replicate 262 0) chars) as (b & -> & Hl & Hb & _);
    [by rewrite length_replicate|by apply zeros_within|done|]. rewrite outcome_bind_ret.
  destruct (negb (NT_SUCCESS st)); [exists (-1), v; split_and!; [done|by right|done]|].
  pose proof (vt_fs_name v Hv) as (Hf & Hfb & Hf0).
  destruct (snprintf_total (2 ^ 8) (fs_name v) MAX_FS_NAME_LENGTH
              (narrow (wcsncpy (Z.to_nat (Z.min (Z.of_nat MAX_FS_NAME_LENGTH) (n / 2))) b)))
    as (r & b1 & -> & Hl1 & Hb1); [rewrite Hf; unfold MAX_FS_NAME_LENGTH; lia|done|apply narrow_bytes|lia|].
  rewrite outcome_bind_ret.
  destruct (put_ok (2 ^ 8) b1 MAX_FS_NAME_LENGTH) as (b2 & -> & Hl2 & Hb2 & H0 & _);
    [rewrite Hl1, Hf; unfold MAX_FS_NAME_LENGTH; lia|done|lia|].
  rewrite outcome_bind_ret. exists 0, (set_fs_name b2 v). split_and!; [done|by left|].
  apply typed_fs_name; [by rewrite Hl2, Hl1|done..].
Qed.

Lemma get_volume_label_run hRoot v w : volume_typed v →
  ∃ v', get_volume_label hRoot v w = Ret v' ∧ volume_typed v'.
Proof.
  intros Hv. unfold get_volume_label. pose proof (vt_label v Hv) as (Hl & Hb & H0).
  destruct (put_ok (2 ^ 16) (label v) 0) as (b & Eb & Hl1 & Hb1 & _ & E1); [lia|done|lia|].
  change (Z.of_nat 0) with 0 in Eb. rewrite Eb, outcome_bind_ret. clear Eb.
  assert (Hv1 : volume_typed (set_label b v)).
  { apply typed_label; [by rewrite Hl1|done| |done]. subst b. by rewrite list_lookup_insert_ne. }
  destruct (nh_label hRoot w) as (st & chars & -> & Hc & Hw).
  destruct (blit_front (2 ^ 16) (replicate 263 0) chars) as (vl & -> & _ & Hvl & _);
    [by rewrite length_replicate|by apply zeros_within|done|]. rewrite outcome_bind_ret.
  destruct (negb (NT_SUCCESS st)); [by eexists|]. cbv zeta. cbn [label set_label].
  set (s := wcsncpy (Z.to_nat MAX_PATH) vl).
  assert (Hs : (length s ≤ 260)%nat) by (unfold s, wcsncpy; rewrite length_take; apply Nat.le_min_l).
  destruct (blit_front (2 ^ 16) b (s ++ replicate (Z.to_nat MAX_PATH - length s) 0)) as (b2 & -> & Hl2 & Hb2 & _).
  - rewrite length_app, length_replicate, Hl1, Hl. change (Z.to_nat MAX_PATH) with 260%nat. lia.
  - done.
  - apply Forall_app. split; [by apply Forall_take, cstr_within|by apply zeros_within].
  - rewrite outcome_bind_ret.
    destruct (put_ok (2 ^ 16) b2 (Z.to_nat MAX_PATH)) as (b3 & Eb & Hl3 & Hb3 & H3 & _);
      [rewrite Hl2, Hl1, Hl; change (Z.to_nat MAX_PATH) with 260%nat; lia|done|lia|].
    change (Z.of_nat (Z.to_nat MAX_PATH)) with MAX_PATH in Eb. rewrite Eb, outcome_bind_ret.
    eexists. split; [done|]. apply typed_label; [by rewrite Hl3, Hl2, Hl1|done..].
Qed.

Lemma get_ntfs_data_run v w : volume_typed v →
  ∃ r v' w', get_ntfs_data tmalloc v w = Ret (r, v', w') ∧ keeps w v' w'.
Proof.
  intros Hv. unfold get_ntfs_data. pose proof (vt_ntfs_data v Hv) as [Hl Hb].
  destruct (volume_request_run (volume_letter v) FSCTL_GET_NTFS_VOLUME_DATA (Z.of_nat sizeof_NTFS_DATA)
              (ntfs_data v) w) as (r & d & w' & -> & Hl' & Hb' & E); [by rewrite Hl|done|].
  rewrite outcome_bind_ret. eexists _, _, w'. split; [done|]. split; [|done].
  apply typed_ntfs; [by rewrite Hl'|done..].
Qed.

Lemma get_volume_dirty_flag_run v w : volume_typed v →
  ∃ v' w', get_volume_dirty_flag tmalloc uninit v w = Ret (v', w') ∧ keeps w v' w'.
Proof.
  intros Hv. unfold get_volume_dirty_flag. destruct (uninit_ok 4) as [Hl Hb]. set (buf := uninit 4) in *.
  destruct (volume_request_run (volume_letter v) FSCTL_IS_VOLUME_DIRTY 4 buf w)
    as (r & flag & w' & -> & Hl' & Hb' & E); [by rewrite Hl|done|].
  rewrite outcome_bind_ret. destruct r as [r|]; [|by exists v, w'].
  destruct (0 <=? r); [|by exists v, w'].
  destruct (rd_bytes 4 flag 0 Hb') as (x & -> & _); [lia|rewrite Hl', Hl; lia|]. rewrite outcome_bind_ret.
  eexists _, w'. split; [done|]. split; [|done]. destruct (negb _); [by apply typed_dirty|done].
Qed.

Lemma open_root_names letter w :
  (∃ w', OpenRootDirectory letter w = (0, w') ∧ names w' = names w) ∨
  (∃ h w', OpenRootDirectory letter w = (h, w') ∧ h ≠ 0 ∧ names w !! h = None ∧
     names w' = <[h := root_path letter]> (names w)).
Proof.
  unfold OpenRootDirectory. match goal with |- context [NtCreateFile ?r w] => set (q := r) end.
  destruct (nh_create q w) as [(h & w' & -> & H0 & Hn & E)|(st & h & w' & -> & Hs & E)].
  - right. by exists h, w'.
  - left. exists w'. by rewrite Hs.
Qed.

Lemma volume_information_run letter v0 w :
  ∃ r v w', winx_get_volume_information tmalloc uninit narrow letter (Some v0) w = Ret (r, Some v, w') ∧
    (r = 0 ∨ r = -1) ∧ keeps w v w'.
Proof.
  unfold winx_get_volume_information. set (l := fast_toupper letter).
  pose proof (blank_typed l) as Hb. set (v := blank l) in *.
  destruct (bad_letter l); [exists (-1), v, w; split_and!; [done|by right|done]|].
  destruct (open_root_names l w) as [(w1 & -> & E1)|(h & w1 & -> & Hh & Hn & E1)].
  { exists (-1), v, w1. split_and!; [done|by right|done]. }
  rewrite (proj2 (Z.eqb_neq h 0)) by done.
  assert (Hclose : ∀ w', names w' = names w1 → names (NtClose h w') = names w).
  { intros w' E. rewrite nh_close, E, E1. by apply delete_new. }
  destruct (get_drive_geometry_run h v w1 Hb) as (r & v2 & w2 & -> & Hr & Hv2 & E2). rewrite outcome_bind_ret.
  destruct Hr as [-> | ->]; [|exists (-1), v2, (NtClose h w2); split_and!; [done|by right|split; [done|by apply Hclose]]].
  simpl (0 <? 0). cbv iota. destruct (get_filesystem_name_run h v2 w2 Hv2) as (r & v3 & -> & Hr & Hv3).
  rewrite outcome_bind_ret.
  destruct Hr as [-> | ->]; [|exists (-1), v3, (NtClose h w2); split_and!; [done|by right|split; [done|by apply Hclose]]].
  simpl (0 <? 0). cbv iota. destruct (get_volume_label_run h v3 w2 Hv3) as (v4 & -> & Hv4). rewrite outcome_bind_ret.
  assert (Hv5 : volume_typed (set_ntfs_data (replicate sizeof_NTFS_DATA 0) v4))
    by (apply typed_ntfs; [done|by apply zeros_within|done]).
  set (v5 := set_ntfs_data _ v4) in *. cbv zeta.
  assert (H6 : ∃ v6 w6, (if bool_decide (cstr (fs_name v5) = text "NTFS")
      then '(_, v, w) ← get_ntfs_data tmalloc v5 w2; Ret (v, w) else Ret (v5, w2)) = Ret (v6, w6) ∧
      volume_typed v6 ∧ names w6 = names w2).
  { destruct (bool_decide _); [|by exists v5, w2].
    destruct (get_ntfs_data_run v5 w2 Hv5) as (r & v6 & w6 & -> & Hk). by exists v6, w6. }
  destruct H6 as (v6 & w6 & -> & Hv6 & E6). rewrite outcome_bind_ret.
  destruct (get_volume_dirty_flag_run v6 w6 Hv6) as (v7 & w7 & -> & Hv7 & E7). rewrite outcome_bind_ret.
  exists 0, v7, (NtClose h w7). split_and!; [done|by left|]. split; [done|]. apply Hclose. by rewrite E7, E6.
Qed.

(** *** Drive types *)

Lemma device_drive_type_range t c :
  0 ≤ device_drive_type t c < 6 ∧ device_drive_type t c ≠ DRIVE_NO_ROOT_DIR.
Proof. unfold device_drive_type. repeat case_match; done. Qed.

Lemma query_symbolic_link_run name b w :
  length b = MAX_TARGET_LENGTH →
  ∃ r b' w', winx_query_symbolic_link name b (Z.of_nat MAX_TARGET_LENGTH) w = Ret (r, b', w') ∧
    length b' = length b ∧ names w' = names w.
Proof.
  intros Hb. unfold winx_query_symbolic_link. simpl (Z.of_nat MAX_TARGET_LENGTH <=? 0). cbv iota.
  destruct (nh_link name w) as [(h & w1 & -> & Hn & E)|(st & h & w1 & -> & -> & E)];
    [|by exists (-1), b, w1].
  simpl (negb (NT_SUCCESS STATUS_SUCCESS)). cbv iota. cbv zeta. change (u16 (Z.of_nat MAX_TARGET_LENGTH * 2)) with 512.
  destruct (nh_target h 512 w1 ltac:(lia)) as (st & chars & -> & Hc).
  assert (Hc' : (length chars ≤ length b)%nat) by (rewrite Hb; unfold MAX_TARGET_LENGTH; lia).
  assert (Hblit : ∃ b1, blit b 0 chars = Ret b1 ∧ length b1 = length b).
  { unfold blit. rewrite (proj2 (Z.ltb_ge _ _)) by lia. simpl. rewrite (proj2 (Z.ltb_ge _ _)) by lia.
    eexists. split; [done|]. rewrite length_app, length_drop. lia. }
  destruct Hblit as (b1 & -> & Hl1). rewrite outcome_bind_ret.
  assert (Hw : names (NtClose h w1) = names w) by (rewrite nh_close, E; by apply delete_new).
  destruct (negb (NT_SUCCESS st)); [by exists (-1), b1, (NtClose h w1)|].
  change (Z.of_nat MAX_TARGET_LENGTH - 1) with (Z.of_nat 255).
  rewrite put_lookup by (rewrite Hl1, Hb; unfold MAX_TARGET_LENGTH; lia). rewrite outcome_bind_ret.
  exists 0, (<[255%nat := 0]> b1), (NtClose h w1). split_and!; [done|by rewrite length_insert|done].
Qed.

(** A type, or a failure. *)
Definition drive_type_answer (t : Z) : Prop :=
  t = -1 ∨ t = DRIVE_ASSIGNED_BY_SUBST_COMMAND ∨ (0 ≤ t < 2 ^ 8 ∧ t ≠ DRIVE_NO_ROOT_DIR).

Lemma drive_type_run letter w :
  ∃ t w', winx_get_drive_type uninit letter w = Ret (t, w') ∧ drive_type_answer t ∧ names w' = names w.
Proof.
  unfold winx_get_drive_type. set (l := fast_toupper letter).
  destruct (bad_letter l) eqn:El; [exists (-1), w; split_and!; [done|by left|done]|].
  apply orb_false_iff in El as [H1%Z.ltb_ge H2%Z.ltb_ge].
  destruct (uninit_ok MAX_TARGET_LENGTH) as [Hu _].
  destruct (query_symbolic_link_run (text "\??\" ++ [l] ++ text ":") (uninit MAX_TARGET_LENGTH) w Hu)
    as (r & b & w1 & -> & _ & E1). rewrite outcome_bind_ret.
  destruct (r <? 0); [exists (-1), w1; split_and!; [done|by left|done]|].
  unfold target_drive_type. destruct (bool_decide _);
    [exists DRIVE_ASSIGNED_BY_SUBST_COMMAND, w1; split_and!; [done|by right; left|done]|].
  destruct (search_loop id _ _); [exists DRIVE_REMOVABLE, w1; split_and!; [done|by right; right|done]|].
  destruct (nh_map w1) as (st & types & -> & Hl & Hb).
  destruct (negb (NT_SUCCESS st)); [exists (-1), w1; split_and!; [done|by left|done]|].
  destruct (rd8_ok types (l - 0x41)) as (t & -> & Ht); [rewrite Hl; lia|]. rewrite outcome_bind_ret.
  destruct (Z.eqb_spec t DRIVE_NO_ROOT_DIR) as [_|Hne]; cbn [negb]; cycle 1.
  { exists t, w1. split_and!; [done| |done]. right. right. split; [|done].
    unfold bytes in Hb. rewrite Forall_forall in Hb. by apply Hb. }
  destruct (open_root_names l w1) as [(w2 & -> & E2)|(h & w2 & -> & Hh & Hn & E2)].
  { exists (-1), w2. split_and!; [done|by left|by rewrite E2]. }
  rewrite (proj2 (Z.eqb_neq h 0)) by done.
  assert (Hw : names (NtClose h w2) = names w) by (rewrite nh_close, E2, delete_new, E1; done).
  destruct (NtQueryFsDevice h w2) as [[st2 dt] c].
  destruct (negb (NT_SUCCESS st2)); [exists (-1), (NtClose h w2); split_and!; [done|by left|done]|].
  eexists _, (NtClose h w2). split_and!; [done| |done].
  right. right. pose proof (device_drive_type_range dt c). lia.
Qed.
End handles.

(** ** A volume that answers *)

Record disk : Type := Disk {
  d_size : fs_size;
  d_name : str;
  d_label : str;
  d_ntfs : list Z;
  d_dirty : bool;
  d_cylinders : Z;
  d_media : Z;
  d_tracks : Z;
  d_sectors : Z;
  d_bytes : Z;
}.

(** Its DISK_GEOMETRY. *)
Definition geometry (d : disk) : list Z :=
  enc 8 (d_cylinders d) ++ enc 4 (d_media d) ++ enc 4 (d_tracks d) ++ enc 4 (d_sectors d) ++ enc 4 (d_bytes d).

Definition ascii (s : str) : Prop := Forall (fun c => 0 < c < 128) s.

Definition cluster_size (d : disk) : Z := SectorsPerAllocationUnit (d_size d) * BytesPerSector (d_size d).

Record disk_ok (d : disk) : Prop := {
  do_free : 0 ≤ AvailableAllocationUnits (d_size d) ≤ TotalAllocationUnits (d_size d);
  do_sectors : 0 < SectorsPerAllocationUnit (d_size d);
  do_bytes : 0 < BytesPerSector (d_size d);
  do_cluster : cluster_size d < 2 ^ 32;
  do_total : TotalAllocationUnits (d_size d) * cluster_size d < 2 ^ 64;
  do_name : ascii (d_name d) ∧ (length (d_name d) ≤ MAX_FS_NAME_LENGTH)%nat;
  do_label : wstr (d_label d) ∧ (length (d_label d) ≤ 260)%nat;
  do_ntfs : length (d_ntfs d) = sizeof_NTFS_DATA;
  do_cylinders : 0 ≤ d_cylinders d < 2 ^ 64;
  do_geometry : 0 ≤ d_tracks d < 2 ^ 32 ∧ 0 ≤ d_sectors d < 2 ^ 32 ∧ 0 ≤ d_bytes d < 2 ^ 32;
  do_capacity : d_cylinders d * d_tracks d * d_sectors d * d_bytes d < 2 ^ 64;
}.

(** The volume with the letter [l] is this disk. *)
Class DiskLaws (W : Type) `{!NtApi W, !NtControl W, !NtVolume W, !NtHandles W} (l : Z) (d : disk) : Type := {
  dl_create r w : ObjectName r = root_path l ∨ ObjectName r = volume_path l →
    ∃ h w', NtCreateFile r w = (STATUS_SUCCESS, h, w');
  dl_size h w : names w !! h = Some (root_path l) → NtQueryFsSize h w = (STATUS_SUCCESS, d_size d);
  dl_attribute h w : names w !! h = Some (root_path l) →
    NtQueryFsAttribute h w = (STATUS_SUCCESS, 2 * Z.of_nat (length (d_name d)), d_name d);
  dl_label h w : names w !! h = Some (root_path l) → NtQueryFsVolume h w = (STATUS_SUCCESS, d_label d);
  dl_geometry h w : names w !! h = Some (volume_path l) → ∃ i w',
    NtDeviceIoControlFile h IOCTL_DISK_GET_DRIVE_GEOMETRY [] sizeof_DISK_GEOMETRY w =
    (STATUS_SUCCESS, i, geometry d, w');
  dl_ntfs h w : names w !! h = Some (volume_path l) → d_name d = text "NTFS" → ∃ i w',
    NtFsControlFile h FSCTL_GET_NTFS_VOLUME_DATA [] (Z.of_nat sizeof_NTFS_DATA) w =
    (STATUS_SUCCESS, i, d_ntfs d, w');
  dl_dirty h w : names w !! h = Some (volume_path l) → ∃ i w',
    NtFsControlFile h FSCTL_IS_VOLUME_DIRTY [] 4 w =
    (STATUS_SUCCESS, i, enc 4 (if d_dirty d then VOLUME_IS_DIRTY else 0), w');
}.

(** What the structure says of the disk. *)
Definition describes (l : Z) (d : disk) (v : winx_volume_information) : Prop :=
  volume_letter v = l ∧ cstr (fs_name v) = d_name d ∧ cstr (label v) = d_label d ∧
  total_clusters v = TotalAllocationUnits (d_size d) ∧ bytes_per_cluster v = cluster_size d ∧
  total_bytes v = TotalAllocationUnits (d_size d) * cluster_size d ∧
  free_bytes v = AvailableAllocationUnits (d_size d) * cluster_size d ∧
  (d_name d = text "NTFS" → ntfs_data v = d_ntfs d) ∧
  is_dirty v = (if d_dirty d then 1 else 0) ∧
  device_capacity v = d_cylinders d * d_tracks d * d_sectors d * d_bytes d.

Section right.
Context {W : Type} `{!NtApi W} `{!NtControl W} `{!NtVolume W} `{!NtHandles W}.
Context (l : Z) (d : disk) `{!DiskLaws W l d}.
Context (tmalloc : Z → bool) (uninit : nat → list Z) (narrow : str → list Z).
Context (tmalloc_ok : ∀ n, tmalloc n = true).
Context (uninit_length : ∀ n, length (uninit n) = n).
Context (narrow_ascii : ∀ s, ascii s → narrow s = s).
Context (Hd : disk_ok d).
Implicit Types (v : winx_volume_information) (w : W) (h : Z).

Lemma create_ok r w : ObjectName r = root_path l ∨ ObjectName r = volume_path l →
  ∃ h w', NtCreateFile r w = (STATUS_SUCCESS, h, w') ∧ h ≠ 0 ∧ names w !! h = None ∧
    names w' = <[h := ObjectName r]> (names w).
Proof.
  intros Hr. destruct (dl_create r w Hr) as (h & w' & E).
  destruct (nh_create r w) as [(h' & w2 & E2 & H)|(st & h' & w2 & E2 & Hs & _)];
    rewrite E in E2; simplify_eq; eauto.
Qed.

(** A request to the volume that the driver answers with [out]. *)
Lemma request_ok code n b out w :
  Z.of_nat (length b) = n → length out = length b →
  (∀ h w, names w !! h = Some (volume_path l) → ∃ i w',
     (if Z.shiftr code 16 =? FILE_DEVICE_FILE_SYSTEM then NtFsControlFile h code [] n w
      else NtDeviceIoControlFile h code [] n w) = (STATUS_SUCCESS, i, out, w')) →
  ∃ w', volume_request tmalloc l code n b w = Ret (Some 0, out, w') ∧ names w' = names w.
Proof.
  intros Hn Ho Hc. unfold volume_request, winx_vopen, winx_fopen.
  destruct (open_mode _) as [a m]. match goal with |- context [NtCreateFile ?r w] => set (q := r) end.
  destruct (create_ok q w ltac:(by right)) as (h & w1 & -> & Hh & Hnew & E1).
  rewrite tmalloc_ok. cbn [negb]. rewrite Z.eqb_refl. cbn [negb]. change (WinxFile h 0 0 None 0 0 0) with (plain h).
  destruct (Hc h w1) as (i & w2 & E2); [by rewrite E1, lookup_insert_eq|].
  assert (En : names w2 = names w1).
  { destruct (nh_fs_control h code [] n w1) as (? & ? & ? & ? & F & Fn & _); [lia|].
    destruct (nh_device_control h code [] n w1) as (? & ? & ? & ? & G & Gn & _); [lia|].
    destruct (_ =? _); [rewrite F in E2|rewrite G in E2]; by simplify_eq. }
  unfold winx_ioctl. rewrite blit_whole by (rewrite length_replicate; lia).
  cbn [fmap outcome_fmap]. rewrite outcome_bind_ret. change (hFile (plain h)) with h. rewrite E2.
  rewrite blit_whole by (rewrite length_replicate; lia). cbn [fmap outcome_fmap]. rewrite outcome_bind_ret.
  cbn [negb]. change (NT_SUCCESS STATUS_SUCCESS) with true. cbn [negb]. rewrite outcome_bind_ret, fclose_names by done.
  rewrite outcome_bind_ret. exists (NtClose h w2). split; [done|]. rewrite nh_close, En, E1. by apply delete_new.
Qed.

Lemma capacity_ok : capacity (geometry d) = Ret (d_cylinders d * d_tracks d * d_sectors d * d_bytes d).
Proof.
  destruct (do_geometry d Hd) as (Ht & Hs & Hb). pose proof (do_cylinders d Hd). pose proof (do_capacity d Hd).
  set (c := enc 8 (d_cylinders d)). set (m := enc 4 (d_media d)).
  set (t := enc 4 (d_tracks d)). set (s := enc 4 (d_sectors d)).
  assert (Hl : length c = 8%nat ∧ length m = 4%nat ∧ length t = 4%nat ∧ length s = 4%nat)
    by (split_and!; apply enc_length). destruct Hl as (Hc & Hm & Hlt & Hls).
  unfold capacity. rewrite (rd_at 8 (d_cylinders d) [] (m ++ t ++ s ++ enc 4 (d_bytes d)) (geometry d) 0) by done.
  rewrite outcome_bind_ret, (rd_at 4 (d_tracks d) (c ++ m) (s ++ enc 4 (d_bytes d)) (geometry d) 12);
    [|by rewrite <- !app_assoc|rewrite !length_app; lia|done].
  rewrite outcome_bind_ret, (rd_at 4 (d_sectors d) (c ++ m ++ t) (enc 4 (d_bytes d)) (geometry d) 16);
    [|by rewrite <- !app_assoc|rewrite !length_app; lia|done].
  rewrite outcome_bind_ret, (rd_at 4 (d_bytes d) (c ++ m ++ t ++ s) [] (geometry d) 20);
    [|by rewrite <- !app_assoc, app_nil_r|rewrite !length_app; lia|done].
  rewrite outcome_bind_ret. f_equal. apply u64_small. split; [|done]. repeat apply Z.mul_nonneg_nonneg; lia.
Qed.

Lemma disk_numbers : let s := d_size d in
  0 ≤ TotalAllocationUnits s < 2 ^ 64 ∧ SectorsPerAllocationUnit s < 2 ^ 32 ∧ BytesPerSector s < 2 ^ 32.
Proof.
  destruct Hd as [H1 H2 H3 H4 H5 _ _ _ _ _ _]. unfold cluster_size in *. cbv zeta. split_and!; nia.
Qed.

(** The numbers of the structure, without wrapping. *)
Lemma set_geometry_ok v :
  total_clusters (set_geometry (d_size d) v) = TotalAllocationUnits (d_size d) ∧
  bytes_per_cluster (set_geometry (d_size d) v) = cluster_size d ∧
  total_bytes (set_geometry (d_size d) v) = TotalAllocationUnits (d_size d) * cluster_size d ∧
  free_bytes (set_geometry (d_size d) v) = AvailableAllocationUnits (d_size d) * cluster_size d.
Proof.
  destruct Hd as [H1 H2 H3 H4 H5 _ _ _ _ _ _]. pose proof disk_numbers as (HT & HS & HB).
  cbn [total_clusters bytes_per_cluster total_bytes free_bytes set_geometry]. unfold cluster_size in *.
  set (T := TotalAllocationUnits _) in *. set (A := AvailableAllocationUnits _) in *.
  set (S := SectorsPerAllocationUnit _) in *. set (B := BytesPerSector _) in *.
  assert (T * S < 2 ^ 64) by nia. assert (A * S < 2 ^ 64) by nia. assert (A * (S * B) < 2 ^ 64) by nia.
  rewrite (u64_small T), (u64_small A), (u64_small (T * S)), (u64_small (A * S)), !u64_small, u32_small by nia.
  split_and!; lia.
Qed.

Lemma geometry_request_ok b w : length b = 24%nat →
  ∃ w', volume_request tmalloc l IOCTL_DISK_GET_DRIVE_GEOMETRY sizeof_DISK_GEOMETRY b w =
    Ret (Some 0, geometry d, w') ∧ names w' = names w.
Proof.
  intros Hb. apply request_ok; [by rewrite Hb|unfold geometry; rewrite !length_app, !enc_length; by rewrite Hb|].
  intros h w2 Hh. by apply dl_geometry.
Qed.

Lemma cut_zeros s n : Forall (fun c => c ≠ 0) s → (length s < n)%nat → cstr (s ++ replicate (n - length s) 0) = s.
Proof. intros Hs Hn. apply cstr_zeros; [done|lia]. Qed.

(** What the system stores in a buffer of zeros is a text in it. *)
Lemma stored_text n s : (length s < n)%nat →
  blit (replicate n 0) 0 s = Ret (s ++ replicate (n - length s) 0).
Proof.
  intros Hl. assert (replicate n 0 = replicate (length s) 0 ++ replicate (n - length s) 0) as ->
    by (rewrite <- replicate_add; f_equal; lia).
  by apply (blit_middle [] (replicate (length s) 0)); [|rewrite length_replicate].
Qed.

Lemma wcsncpy_text n m s : Forall (fun c => c ≠ 0) s → (length s ≤ n)%nat → (length s < m)%nat →
  wcsncpy n (s ++ replicate (m - length s) 0) = s.
Proof. intros Hs Hn Hm. unfold wcsncpy. rewrite cut_zeros by done. by apply take_ge. Qed.

Lemma get_filesystem_name_ok h v w : names w !! h = Some (root_path l) →
  fs_name v = replicate 32 0 →
  ∃ b, get_filesystem_name narrow h v w = Ret (0, set_fs_name b v) ∧ cstr b = d_name d.
Proof.
  intros Hh Hv. destruct (do_name d Hd) as [Ha Hl]. unfold MAX_FS_NAME_LENGTH in Hl.
  assert (Hz : Forall (fun c => c ≠ 0) (d_name d)) by (eapply Forall_impl; [exact Ha|simpl; lia]).
  unfold get_filesystem_name. rewrite (dl_attribute h w Hh), stored_text by lia.
  rewrite outcome_bind_ret. change (NT_SUCCESS STATUS_SUCCESS) with true. cbn [negb]. cbv zeta.
  rewrite Z.mul_comm, Z.div_mul by done. rewrite Z.min_r by (unfold MAX_FS_NAME_LENGTH; lia).
  rewrite Nat2Z.id, wcsncpy_text, narrow_ascii, Hv by (done || lia).
  assert (H : ∃ r b1, snprintf (replicate 32 0) 31 (d_name d) = Ret (r, b1) ∧
            b1 = d_name d ++ replicate (32 - length (d_name d)) 0).
  { unfold snprintf. repeat case_decide; [| |lia].
    - rewrite stored_text by (rewrite length_app; simpl; lia). rewrite outcome_bind_ret. eexists _, _.
      split; [done|]. rewrite <- app_assoc, length_app. f_equal. simpl.
      rewrite <- replicate_S. f_equal. lia.
    - rewrite stored_text by lia. rewrite outcome_bind_ret. by eexists _, _. }
  destruct H as (r & b1 & E & ->). unfold MAX_FS_NAME_LENGTH. rewrite E, outcome_bind_ret.
  rewrite put_lookup by (rewrite length_app, length_replicate; lia). rewrite outcome_bind_ret.
  eexists. split; [done|]. rewrite insert_app_r_alt, insert_replicate by lia. apply cut_zeros; [done|lia].
Qed.

Lemma get_volume_label_ok h v w : names w !! h = Some (root_path l) → length (label v) = 261%nat →
  ∃ b, get_volume_label h v w = Ret (set_label b v) ∧ cstr b = d_label d.
Proof.
  intros Hh Hv. destruct (do_label d Hd) as [Ha Hl].
  assert (Hz : Forall (fun c => c ≠ 0) (d_label d)) by (eapply Forall_impl; [exact Ha|simpl; lia]).
  unfold get_volume_label. rewrite (put_lookup (label v) 0) by lia. rewrite outcome_bind_ret. cbv zeta.
  rewrite (dl_label h w Hh), stored_text by lia. rewrite outcome_bind_ret.
  change (NT_SUCCESS STATUS_SUCCESS) with true. cbn [negb label set_label].
  change (Z.to_nat MAX_PATH) with 260%nat. rewrite wcsncpy_text by (done || lia).
  set (t := d_label d ++ replicate (260 - length (d_label d)) 0).
  assert (Ht : length t = 260%nat) by (unfold t; rewrite length_app, length_replicate; lia).
  set (b0 := <[0%nat := 0]> (label v)).
  assert (Hb0 : length b0 = 261%nat) by (unfold b0; by rewrite length_insert).
  rewrite <- (take_drop 260 b0).
  rewrite (blit_middle [] (take 260 b0) (drop 260 b0) t) by (done || rewrite length_take; lia).
  rewrite outcome_bind_ret. cbn [app]. change MAX_PATH with (Z.of_nat 260).
  rewrite put_lookup by (rewrite length_app, length_drop; lia). rewrite outcome_bind_ret.
  eexists. split; [done|]. rewrite insert_app_r_alt by lia. rewrite Ht, Nat.sub_diag.
  destruct (drop 260 b0) as [|x [|y r]] eqn:Er; [|..]; apply (f_equal length) in Er;
    rewrite length_drop in Er; simpl in Er; [lia| |lia].
  cbn [insert list_insert]. unfold t. rewrite <- app_assoc, <- (replicate_S_end (260 - _)).
  apply cstr_zeros; [done|lia].
Qed.

Lemma dirty_flag_ok v w : volume_letter v = l → is_dirty v = 0 →
  ∃ v' w', get_volume_dirty_flag tmalloc uninit v w = Ret (v', w') ∧ names w' = names w ∧
    v' = set_dirty (if d_dirty d then 1 else 0) v.
Proof.
  intros Hl H0. unfold get_volume_dirty_flag. rewrite Hl.
  destruct (request_ok FSCTL_IS_VOLUME_DIRTY 4 (uninit 4) (enc 4 (if d_dirty d then VOLUME_IS_DIRTY else 0)) w)
    as (w' & -> & E); [by rewrite uninit_length|by rewrite uninit_length|intros; by apply dl_dirty|].
  rewrite outcome_bind_ret. simpl (0 <=? 0). cbv iota.
  rewrite (rd_at 4 (if d_dirty d then VOLUME_IS_DIRTY else 0) [] []) by (by destruct (d_dirty d)).
  rewrite outcome_bind_ret. eexists _, w'. split; [done|]. split; [done|].
  destruct (d_dirty d); [done|]. destruct v. simpl in H0. by subst.
Qed.
End right.

(** ** Theorems *)

(** C33: whatever the letter and whatever the system answers, the query of a
    volume returns success or failure, gives back every handle that it opened,
    and leaves a well-formed structure: numbers in the range of their types,
    the name of the file system and the label terminated in their buffers. *)
Theorem winx_get_volume_information_typed
    {W} `{!NtApi W, !NtControl W, !NtVolume W, !NtHandles W} tmalloc uninit narrow letter v0 (w : W) :
  (∀ n, length (uninit n) = n ∧ bytes (uninit n)) → (∀ s, bytes (narrow s)) →
  ∃ r v w', winx_get_volume_information tmalloc uninit narrow letter (Some v0) w = Ret (r, Some v, w') ∧
    (r = 0 ∨ r = -1) ∧ volume_typed v ∧ names w' = names w.
Proof. intros Hu Hn. by apply volume_information_run. Qed.

(** C34: for a volume that answers, with memory to open it, the structure
    describes the volume: the numbers do not wrap, the texts are those of the
    volume, and no handle stays open. *)
Theorem winx_get_volume_information_correct
    {W} `{!NtApi W, !NtControl W, !NtVolume W, !NtHandles W} tmalloc uninit narrow letter v0 d
    `{!DiskLaws W (fast_toupper letter) d} (w : W) :
  (∀ n, tmalloc n = true) → (∀ n, length (uninit n) = n) → (∀ s, ascii s → narrow s = s) →
  bad_letter (fast_toupper letter) = false → disk_ok d →
  ∃ v w', winx_get_volume_information tmalloc uninit narrow letter (Some v0) w = Ret (0, Some v, w') ∧
    describes (fast_toupper letter) d v ∧ names w' = names w.
Proof.
  intros Ht Hu Hn Hl Hd. unfold winx_get_volume_information. set (l := fast_toupper letter) in *. rewrite Hl.
  unfold OpenRootDirectory. match goal with |- context [NtCreateFile ?r w] => set (q := r) end.
  destruct (create_ok l d q w ltac:(by left)) as (h & w1 & -> & Hh & Hnew & E1).
  change (NT_SUCCESS STATUS_SUCCESS) with true. cbn [negb]. rewrite (proj2 (Z.eqb_neq h 0)) by done.
  assert (H1 : names w1 !! h = Some (root_path l)) by (by rewrite E1, lookup_insert_eq).
  unfold get_drive_geometry. rewrite (dl_size h w1 H1). change (NT_SUCCESS STATUS_SUCCESS) with true.
  cbn [negb]. cbv zeta. set (v1 := set_capacity 0 (set_geometry (d_size d) (blank l))).
  change (volume_letter v1) with l.
  destruct (geometry_request_ok l d tmalloc Ht (uninit (Z.to_nat sizeof_DISK_GEOMETRY)) w1)
    as (w2 & -> & E2); [apply Hu|].
  rewrite outcome_bind_ret, Z.leb_refl, (capacity_ok d Hd), !outcome_bind_ret.
  change (0 <? 0) with false. cbv iota. set (v2 := set_capacity _ v1).
  destruct (get_filesystem_name_ok l d narrow Hn Hd h v2 w2) as (b & -> & Eb); [by rewrite E2|done|].
  rewrite outcome_bind_ret. change (0 <? 0) with false. cbv iota. set (v3 := set_fs_name b v2).
  destruct (get_volume_label_ok l d Hd h v3 w2) as (b2 & -> & Eb2); [by rewrite E2|done|].
  rewrite outcome_bind_ret. set (v4 := set_ntfs_data _ (set_label b2 v3)).
  change (fs_name v4) with b. rewrite Eb.
  assert (H5 : ∃ d' w5, (if bool_decide (d_name d = text "NTFS")
      then '(_, v, w) ← get_ntfs_data tmalloc v4 w2; Ret (v, w) else Ret (v4, w2)) =
      Ret (set_ntfs_data d' v4, w5) ∧ names w5 = names w2 ∧ (d_name d = text "NTFS" → d' = d_ntfs d)).
  { case_bool_decide as Hname; [|by exists (replicate sizeof_NTFS_DATA 0), w2].
    unfold get_ntfs_data. change (volume_letter v4) with l.
    destruct (request_ok l d tmalloc Ht FSCTL_GET_NTFS_VOLUME_DATA (Z.of_nat sizeof_NTFS_DATA)
                (ntfs_data v4) (d_ntfs d) w2) as (w5 & -> & E5);
      [done|by rewrite (do_ntfs d Hd)|intros; by apply dl_ntfs|].
    by exists (d_ntfs d), w5. }
  destruct H5 as (d' & w5 & -> & E5 & Hd'). rewrite outcome_bind_ret.
  destruct (dirty_flag_ok l d tmalloc uninit Ht Hu (set_ntfs_data d' v4) w5) as (v6 & w6 & -> & E6 & ->);
    [done..|]. rewrite outcome_bind_ret.
  eexists _, (NtClose h w6). split; [done|]. split.
  - destruct (set_geometry_ok d Hd (blank l)) as (G1 & G2 & G3 & G4).
    unfold describes. split_and!; try done.
  - rewrite nh_close, E6, E5, E2, E1. by apply delete_new.
Qed.

(** The type of a drive is a failure, the one of drives of the subst
    command, or a type of the system, and never DRIVE_NO_ROOT_DIR; whichever
    way it was found, every handle opened is given back. *)
Theorem winx_get_drive_type_correct
    {W} `{!NtApi W, !NtControl W, !NtVolume W, !NtHandles W} uninit letter (w : W) :
  (∀ n, length (uninit n) = n ∧ bytes (uninit n)) →
  ∃ t w', winx_get_drive_type uninit letter w = Ret (t, w') ∧ drive_type_answer t ∧ names w' = names w.
Proof. intros Hu. by apply drive_type_run. Qed.

(** *** A system with one volume *)

Definition demo_disk : disk :=
  Disk (FsSize 1000 300 8 512) (text "NTFS") (text "DATA") (replicate 96 7) true 100 12 255 63 512.

Definition world : Type := gmap Z str.

Definition new_handle (w : world) : Z := fresh ({[0]} ∪ dom w : gset Z).

#[export] Instance world_api : NtApi world := {|
  NtCreateFile r w := (STATUS_SUCCESS, new_handle w, <[new_handle w := ObjectName r]> w);
  NtReadFile _ _ _ _ := (STATUS_ACCESS_DENIED, 0, []);
  NtWriteFile _ _ _ w := (STATUS_ACCESS_DENIED, 0, w);
  NtFlushBuffersFile _ w := (STATUS_SUCCESS, w);
  NtQueryStandardInformation _ _ := (STATUS_ACCESS_DENIED, 0);
  NtDeleteFile _ w := (STATUS_ACCESS_DENIED, w);
  NtClose h w := delete h w;
|}.

#[export] Instance world_control : NtControl world := {|
  NtFsControlFile _ code _ n w :=
    (STATUS_SUCCESS, n, take (Z.to_nat n) (if code =? FSCTL_IS_VOLUME_DIRTY then enc 4 1 else replicate 96 7), w);
  NtDeviceIoControlFile _ _ _ n w := (STATUS_SUCCESS, n, take (Z.to_nat n) (geometry demo_disk), w);
|}.

#[export] Instance world_volume : NtVolume world := {|
  NtQueryFsSize _ _ := (STATUS_SUCCESS, d_size demo_disk);
  NtQueryFsAttribute _ _ := (STATUS_SUCCESS, 8, text "NTFS");
  NtQueryFsVolume _ _ := (STATUS_SUCCESS, text "DATA");
  NtQueryFsDevice _ _ := (STATUS_SUCCESS, 7, 0);
  NtOpenSymbolicLinkObject n w := (STATUS_SUCCESS, new_handle w, <[new_handle w := n]> w);
  NtQuerySymbolicLinkObject _ n _ := (STATUS_SUCCESS, take (Z.to_nat (n / 2)) (text "\Device\HarddiskVolume1" ++ [0]));
  NtQueryDeviceMap _ := (STATUS_SUCCESS, replicate 32 DRIVE_NO_ROOT_DIR);
|}.

Lemma new_handle_ok w : new_handle w ≠ 0 ∧ w !! new_handle w = None.
Proof.
  pose proof (is_fresh ({[0]} ∪ dom w : gset Z)) as H. fold (new_handle w) in H.
  apply not_elem_of_union in H as [H1 H2]. split; [set_solver|by apply not_elem_of_dom].
Qed.

Lemma take_bytes n b : 0 ≤ n → bytes b → Z.of_nat (length (take (Z.to_nat n) b)) ≤ n ∧ bytes (take (Z.to_nat n) b).
Proof. intros Hn Hb. split; [rewrite length_take; lia|by apply Forall_take]. Qed.

Lemma wide_text s : Forall (fun c => 0 ≤ c < 2 ^ 16) (text s).
Proof.
  apply Forall_fmap, Forall_true. intros c. simpl. pose proof (Ascii.N_ascii_bounded c). lia.
Qed.

#[export] Program Instance world_handles : NtHandles world := {| names w := w |}.
Next Obligation. intros r w. left. eexists _, _. split; [done|]. pose proof (new_handle_ok w). split_and!; tauto. Qed.
Next Obligation. intros n w. left. eexists _, _. split; [done|]. pose proof (new_handle_ok w). split_and!; tauto. Qed.
Next Obligation. done. Qed.
Next Obligation.
  intros h code i n w Hn. eexists _, _, _, _. split; [done|]. split; [done|]. apply take_bytes; [done|].
  destruct (code =? _); [apply enc_bytes|by apply Forall_replicate].
Qed.
Next Obligation.
  intros h code i n w Hn. eexists _, _, _, _. split; [done|]. split; [done|]. apply take_bytes; [done|].
  unfold geometry, bytes. rewrite !Forall_app. split_and!; apply enc_bytes.
Qed.
Next Obligation. by intros h w. Qed.
Next Obligation. intros h w. eexists _, _, _. split; [done|]. split_and!; [done|simpl; lia|apply wide_text]. Qed.
Next Obligation. intros h w. eexists _, _. split; [done|]. split; [simpl; lia|apply wide_text]. Qed.
Next Obligation.
  intros h n w Hn. eexists _, _. split; [done|]. rewrite length_take.
  pose proof (Z.mul_div_le n 2 ltac:(lia)). pose proof (Z.div_pos n 2 Hn ltac:(lia)). lia.
Qed.
Next Obligation. intros w. eexists _, _. split; [done|]. split; [done|]. by apply Forall_replicate. Qed.

#[export] Instance world_disk : DiskLaws world 0x43 demo_disk.
Proof. split; intros; try done; by eexists _, _. Qed.

Lemma demo_disk_ok : disk_ok demo_disk.
Proof. split; try (apply (bool_decide_unpack _); vm_compute; exact I). Qed.

Definition demo_uninit (n : nat) : list Z := replicate n 0xAB.

Lemma demo_uninit_ok n : length (demo_uninit n) = n ∧ bytes (demo_uninit n).
Proof. split; [apply length_replicate|by apply Forall_replicate]. Qed.

Definition demo_narrow (s : str) : list Z := (fun c => c mod 2 ^ 8) <$> s.

Lemma demo_narrow_ascii s : ascii s → demo_narrow s = s.
Proof. induction 1 as [|c s Hc _ IH]; [done|]. cbn. rewrite Z.mod_small by lia. by f_equal. Qed.

Lemma winx_get_volume_information_typed_witness :
  ∃ r v w', winx_get_volume_information (fun _ => false) demo_uninit demo_narrow 0x63 (Some (blank 0))
              (∅ : world) = Ret (r, Some v, w') ∧ (r = 0 ∨ r = -1) ∧ volume_typed v ∧ names w' = names (∅ : world).
Proof.
  apply (winx_get_volume_information_typed (fun _ => false) demo_uninit demo_narrow 0x63 (blank 0) (∅ : world)).
  - apply demo_uninit_ok.
  - intros s. apply Forall_fmap, Forall_true. intros c. by apply Z.mod_pos_bound.
Defined.

Lemma winx_get_volume_information_correct_witness :
  ∃ v w', winx_get_volume_information (fun _ => true) demo_uninit demo_narrow 0x63 (Some (blank 0))
            (∅ : world) = Ret (0, Some v, w') ∧ describes 0x43 demo_disk v ∧ names w' = names (∅ : world).
Proof.
  apply (winx_get_volume_information_correct (fun _ => true) demo_uninit demo_narrow 0x63 (blank 0) demo_disk (∅ : world)).
  - done.
  - apply demo_uninit_ok.
  - apply demo_narrow_ascii.
  - done.
  - apply demo_disk_ok.
Defined.

Lemma winx_get_drive_type_correct_witness :
  ∃ t w', winx_get_drive_type demo_uninit 0x63 (∅ : world) = Ret (t, w') ∧ drive_type_answer t ∧ names w' = names (∅ : world).
Proof. apply (winx_get_drive_type_correct demo_uninit 0x63 (∅ : world)). apply demo_uninit_ok. Defined.

(** A disk behind a SCSI controller. *)
Example drive_type_demo : winx_get_drive_type demo_uninit 0x63 (∅ : world) = Ret (DRIVE_FIXED, ∅).
Proof. vm_compute. reflexivity. Qed.
