(* ===== verification/Sync.v ===== *)
(** * event.c, mutex.c, lock.c: named events, mutexes and locks

    The objects of the kernel are the class [NtSync]; [NtSyncLaws] states what
    its documentation promises of events.  A wait that has not come to its end
    yet has no result.  The lock of lock.c is an event that one wait resets;
    threads that use it are a transition system, and the theorem says that they
    work on shared data one after the other, without losing an update. *)
From S2P Require Import Prelude DList Bitmap CaseTables CString FileInfo FileIO.
From stdpp Require Import prelude gmap strings relations.
Open Scope Z_scope.

Definition NotificationEvent : Z := 0.

Definition SynchronizationEvent : Z := 1.

Definition EVENT_ACCESS : Z := Z.lor 0x1F0000 0x1FF.

Definition MUTEX_ALL_ACCESS : Z := 0x1F0001.

Definition WAIT_OBJECT_0 : Z := 0.

Definition INFINITE : Z := -1.

Definition MAX_WAIT_INTERVAL : Z := - 0x7FFFFFFFFFFFFFFF.

(** ** The native API *)
Class NtSync (W : Type) : Type := {
  (** Access, name, type and initial state; the status and the handle. *)
  NtCreateEvent : Z → str → Z → Z → W → Z * Z * W;
  NtOpenEvent : Z → str → W → Z * Z * W;
  NtSetEvent : Z → W → Z * W;
  (** Handle and interval; nothing while the thread waits. *)
  NtWaitForSingleObject : Z → Z → W → option (Z * W);
  NtCreateMutant : Z → str → W → Z * Z * W;
  NtOpenMutant : Z → str → W → Z * Z * W;
  NtReleaseMutant : Z → W → Z * W;
}.

Section sync.
Context {W : Type} `{!NtApi W} `{!NtSync W}.
Implicit Types (w : W) (h : Z).

(** ** Events

    The result, what is stored for the handle (0 for NULL), and the system. *)
Definition winx_create_event (name : option str) (type : Z) w : Z * Z * W :=
  match name with
  | None => (-1, 0, w)
  | Some name =>
      if negb ((type =? SynchronizationEvent) || (type =? NotificationEvent)) then (-1, 0, w) else
      let '(status, h, w) := NtCreateEvent EVENT_ACCESS name type 1 w in
      (* useful for allowing a single instance of the program *)
      if status =? STATUS_OBJECT_NAME_COLLISION then (s32 STATUS_OBJECT_NAME_COLLISION, 0, w) else
      if negb (NT_SUCCESS status) then (-1, 0, w) else (0, h, w)
  end.

Definition winx_open_event (name : option str) (flags : Z) w : Z * Z * W :=
  match name with
  | None => (-1, 0, w)
  | Some name =>
      let '(status, h, w) := NtOpenEvent flags name w in
      if negb (NT_SUCCESS status) then (-1, 0, w) else (0, h, w)
  end.

Definition winx_destroy_event h w : W := if h =? 0 then w else NtClose h w.

(** ** Mutexes *)
Definition winx_create_mutex (name : option str) w : Z * Z * W :=
  match name with
  | None => (-1, 0, w)
  | Some name =>
      let '(status, h, w) := NtCreateMutant MUTEX_ALL_ACCESS name w in
      let '(status, h, w) := if status =? STATUS_OBJECT_NAME_COLLISION
                             then NtOpenMutant MUTEX_ALL_ACCESS name w else (status, h, w) in
      if negb (NT_SUCCESS status) then (-1, 0, w) else (0, h, w)
  end.

Definition winx_open_mutex (name : option str) w : Z * Z * W :=
  match name with
  | None => (-1, 0, w)
  | Some name =>
      let '(status, h, w) := NtOpenMutant MUTEX_ALL_ACCESS name w in
      if negb (NT_SUCCESS status) then (-1, 0, w) else (0, h, w)
  end.

Definition winx_release_mutex h w : Z * W :=
  if h =? 0 then (-1, w) else
  let '(status, w) := NtReleaseMutant h w in
  (if negb (NT_SUCCESS status) then -1 else 0, w).

Definition winx_destroy_mutex h w : W := if h =? 0 then w else NtClose h w.

(** ** Locks *)
Record winx_spin_lock : Type := SpinLock { hEvent : Z }.

(** [-((signed long)msec * 10000)] where [long] has 32 bits. *)
Definition wait_interval (msec : Z) : Z :=
  if negb (msec =? INFINITE) then s32 (- s32 (msec * 10000)) else MAX_WAIT_INTERVAL.

Definition winx_release_spin_lock (sl : option winx_spin_lock) w : Z * W :=
  match sl with
  | None => (-1, w)
  | Some sl =>
      if hEvent sl =? 0 then (-1, w) else
      let '(status, w) := NtSetEvent (hEvent sl) w in
      (if negb (status =? STATUS_SUCCESS) then -1 else 0, w)
  end.

(** Nothing while the thread waits. *)
Definition winx_acquire_spin_lock (sl : option winx_spin_lock) (msec : Z) w : option (Z * W) :=
  match sl with
  | None => Some (-1, w)
  | Some sl =>
      if hEvent sl =? 0 then Some (-1, w) else
      '(status, w) ← NtWaitForSingleObject (hEvent sl) (wait_interval msec) w;
      Some (if negb (status =? WAIT_OBJECT_0) then -1 else 0, w)
  end.

Definition winx_destroy_spin_lock (sl : option winx_spin_lock) w : W :=
  match sl with
  | Some sl => winx_destroy_event (hEvent sl) w
  | None => w
  end.

(** [winx_init_spin_lock] in the process [pid]; the formatting of "\%hs_%u" with
    the name and the process is a parameter, like the allocator. *)
Definition winx_init_spin_lock (tmalloc : Z → bool) (vsnprintf : str → Z → str → Z → Z * str)
    (pid : Z) (name : str) w : outcome (option winx_spin_lock * W) :=
  fullname ← winx_swprintf tmalloc (vsnprintf name pid) (Some (text "\%hs_%u"));
  match fullname with
  | None => Ret (None, w)
  | Some fullname =>
      let '(r, h, w) := winx_create_event (Some fullname) SynchronizationEvent w in
      if r <? 0 then Ret (None, w) else
      let sl := SpinLock h in
      let '(r, w) := winx_release_spin_lock (Some sl) w in
      if r <? 0 then Ret (None, winx_destroy_event h w) else Ret (Some sl, w)
  end.
End sync.

(** ** What the kernel promises of events *)

(** The type of an event, and whether it is signaled. *)
Definition event : Type := Z * bool.

Class NtSyncLaws (W : Type) `{!NtApi W, !NtSync W} : Type := {
  (** The event of a handle, and the events by their names. *)
  event_name : W → gmap Z str;
  events : W → gmap str event;
  ns_create a n t i w : events w !! n = None →
    (∃ h w', NtCreateEvent a n t i w = (STATUS_SUCCESS, h, w') ∧ h ≠ 0 ∧ event_name w !! h = None ∧
       event_name w' = <[h := n]> (event_name w) ∧ events w' = <[n := (t, negb (i =? 0))]> (events w)) ∨
    (∃ status h w', NtCreateEvent a n t i w = (status, h, w') ∧ NT_SUCCESS status = false ∧
       event_name w' = event_name w ∧ events w' = events w);
  ns_exists a n t i e w : events w !! n = Some e →
    ∃ h, NtCreateEvent a n t i w = (STATUS_OBJECT_NAME_COLLISION, h, w);
  ns_set h n t b w : event_name w !! h = Some n → events w !! n = Some (t, b) →
    ∃ w', NtSetEvent h w = (STATUS_SUCCESS, w') ∧ event_name w' = event_name w ∧
      events w' = <[n := (t, true)]> (events w);
  (** A wait that ends has taken the signal, which a synchronization event
      loses, or has not. *)
  ns_wait h n t b i w status w' : event_name w !! h = Some n → events w !! n = Some (t, b) →
    NtWaitForSingleObject h i w = Some (status, w') →
    event_name w' = event_name w ∧
    (status = WAIT_OBJECT_0 ∧ b = true ∧
       events w' = <[n := (t, negb (t =? SynchronizationEvent))]> (events w) ∨
     status ≠ WAIT_OBJECT_0 ∧ events w' = events w);
  (** Nobody waits for a signaled event. *)
  ns_signaled h n t i w : event_name w !! h = Some n → events w !! n = Some (t, true) →
    ∃ w', NtWaitForSingleObject h i w = Some (WAIT_OBJECT_0, w');
}.

(** ** Threads that share data under a lock *)
Section threads.
Context {W : Type} `{!NtApi W} `{!NtSync W} `{!NtSyncLaws W}.
(** The shared data, and the lock. *)
Context {D : Type} (sl : winx_spin_lock).

(** The system, the data, the threads inside with the copies that they work on,
    and the updates made so far. *)
Record threads : Type := Threads {
  system : W;
  shared : D;
  inside : gmap nat D;
  updates : list (D → D);
}.

(** A thread enters and reads the data, or does not enter; inside it may write
    an update of its copy, any number of times; it leaves.  Other system calls
    leave the event of the lock alone. *)
Inductive step : threads → threads → Prop :=
| step_enter s t msec w' :
    inside s !! t = None →
    winx_acquire_spin_lock (Some sl) msec (system s) = Some (0, w') →
    step s (Threads w' (shared s) (<[t := shared s]> (inside s)) (updates s))
| step_refused s t msec r w' :
    inside s !! t = None → r ≠ 0 →
    winx_acquire_spin_lock (Some sl) msec (system s) = Some (r, w') →
    step s (Threads w' (shared s) (inside s) (updates s))
| step_write s t c f :
    inside s !! t = Some c →
    step s (Threads (system s) (f c) (<[t := f c]> (inside s)) (updates s ++ [f]))
| step_leave s t c r w' :
    inside s !! t = Some c →
    winx_release_spin_lock (Some sl) (system s) = (r, w') →
    step s (Threads w' (shared s) (delete t (inside s)) (updates s))
| step_other s w' n :
    event_name (system s) !! hEvent sl = Some n →
    event_name w' !! hEvent sl = Some n → events w' !! n = events (system s) !! n →
    step s (Threads w' (shared s) (inside s) (updates s)).

(** The lock is free and nobody is inside, or it is taken and one thread is,
    whose copy is up to date. *)
Definition lock_inv (d : D) (s : threads) : Prop :=
  hEvent sl ≠ 0 ∧ shared s = fold_left (fun d f => f d) (updates s) d ∧
  ∃ n b, event_name (system s) !! hEvent sl = Some n ∧
    events (system s) !! n = Some (SynchronizationEvent, b) ∧
    (b = true ∧ inside s = ∅ ∨ b = false ∧ ∃ t, inside s = {[ t := shared s ]}).

Lemma acquire_wait msec w r w' : hEvent sl ≠ 0 →
  winx_acquire_spin_lock (Some sl) msec w = Some (r, w') →
  ∃ status, NtWaitForSingleObject (hEvent sl) (wait_interval msec) w = Some (status, w') ∧
    (r = 0 ↔ status = WAIT_OBJECT_0).
Proof.
  intros Hh. unfold winx_acquire_spin_lock. rewrite (proj2 (Z.eqb_neq _ _)) by done.
  destruct (NtWaitForSingleObject _ _ _) as [[st w2]|]; simpl; [|done]. intros [= <- <-].
  exists st. split; [done|]. by destruct (Z.eqb_spec st WAIT_OBJECT_0).
Qed.

Lemma step_inv d s s' : lock_inv d s → step s s' → lock_inv d s'.
Proof.
  intros (Hh & Hd & n & b & Hn & He & Hb) Hs.
  destruct Hs as [s t msec w' Ht Ha|s t msec r w' Ht Hr Ha|s t c f Ht|s t c r w' Ht Hrel|s w' n' Hn' Hw He'];
    simpl in *.
  - destruct (acquire_wait _ _ _ _ Hh Ha) as (st & Hw & Hst).
    destruct (ns_wait _ _ _ _ _ _ _ _ Hn He Hw) as (En & [(_ & -> & Ee)|(Hne & _)]); [|by destruct Hne; apply Hst].
    destruct Hb as [[_ Hi]|[Hb _]]; [|done].
    split; [done|]. split; [done|]. exists n, false. cbn [system inside shared]. rewrite En, Ee, Hi, lookup_insert_eq.
    split_and!; [done..|]. right. split; [done|]. by exists t.
  - destruct (acquire_wait _ _ _ _ Hh Ha) as (st & Hw & Hst).
    destruct (ns_wait _ _ _ _ _ _ _ _ Hn He Hw) as (En & [(Hz & _)|(_ & Ee)]); [by apply Hst in Hz|].
    split; [done|]. split; [done|]. exists n, b. cbn [system inside shared]. by rewrite En, Ee.
  - destruct Hb as [[_ Hi]|[-> [t' Hi]]]; rewrite Hi in Ht; [done|].
    apply lookup_singleton_Some in Ht as [-> <-]. split; [done|]. cbn [shared updates system inside].
    split; [by rewrite fold_left_app, <- Hd|]. exists n, false. split_and!; [done..|]. right. split; [done|].
    exists t. by rewrite Hi, insert_singleton_eq.
  - destruct Hb as [[_ Hi]|[-> [t' Hi]]]; rewrite Hi in Ht; [done|].
    apply lookup_singleton_Some in Ht as [-> <-]. unfold winx_release_spin_lock in Hrel.
    rewrite (proj2 (Z.eqb_neq _ _)) in Hrel by done.
    destruct (ns_set _ _ _ _ _ Hn He) as (w2 & E2 & En & Ee). rewrite E2 in Hrel. simplify_eq.
    split; [done|]. split; [done|]. exists n, true. cbn [system inside]. rewrite En, Ee, lookup_insert_eq.
    split_and!; [done..|]. left. split; [done|]. by rewrite Hi, delete_singleton_eq.
  - assert (n' = n) as -> by congruence. split; [done|]. split; [done|]. exists n, b. cbn [system inside shared].
    split; [done|]. split; [exact (eq_trans He' He)|done].
Qed.

Lemma steps_inv d s s' : lock_inv d s → rtc step s s' → lock_inv d s'.
Proof. intros Hi Hs. induction Hs as [|s1 s2 s3 H _ IH]; [done|]. by apply IH, (step_inv d s1). Qed.
End threads.

(** ** Creation *)
Section creation.
Context {W : Type} `{!NtApi W} `{!NtSync W} `{!NtSyncLaws W}.
Implicit Types (w : W).

Lemma create_event_run n t w : t = SynchronizationEvent ∨ t = NotificationEvent →
  match events w !! n with
  | Some _ => winx_create_event (Some n) t w = (s32 STATUS_OBJECT_NAME_COLLISION, 0, w)
  | None =>
      (∃ h w', winx_create_event (Some n) t w = (0, h, w') ∧ h ≠ 0 ∧ event_name w !! h = None ∧
         event_name w' = <[h := n]> (event_name w) ∧ events w' = <[n := (t, true)]> (events w)) ∨
      (∃ r w', winx_create_event (Some n) t w = (r, 0, w') ∧ r < 0 ∧ event_name w' = event_name w ∧
         events w' = events w)
  end.
Proof.
  intros Ht. unfold winx_create_event.
  assert ((t =? SynchronizationEvent) || (t =? NotificationEvent) = true) as -> by (by destruct Ht as [-> | ->]).
  cbn [negb]. destruct (events w !! n) as [e|] eqn:E.
  - destruct (ns_exists EVENT_ACCESS n t 1 e w E) as (h & ->). by rewrite Z.eqb_refl.
  - destruct (ns_create EVENT_ACCESS n t 1 w E) as [(h & w' & -> & Hh & Hn & En & Ee)|(st & h & w' & -> & Hs & En & Ee)].
    + left. by exists h, w'.
    + right. destruct (st =? STATUS_OBJECT_NAME_COLLISION); [by exists (s32 STATUS_OBJECT_NAME_COLLISION), w'|].
      rewrite Hs. by exists (-1), w'.
Qed.

Lemma init_lock_inv {D} tmalloc vsnprintf pid name w sl w' (d : D) :
  winx_init_spin_lock tmalloc vsnprintf pid name w = Ret (Some sl, w') →
  lock_inv sl d (Threads w' d ∅ []).
Proof.
  unfold winx_init_spin_lock. intros (fullname & _ & H)%outcome_bind_inv. destruct fullname as [n|]; [|done].
  pose proof (create_event_run n SynchronizationEvent w ltac:(by left)) as Hc.
  destruct (events w !! n) eqn:E; [by rewrite Hc in H|].
  destruct Hc as [(h & w1 & Hc & Hh & _ & En & Ee)|(r & w1 & Hc & Hr & _)]; rewrite Hc in H; cycle 1.
  { by rewrite (proj2 (Z.ltb_lt r 0)) in H. }
  simpl (0 <? 0) in H. cbv iota zeta in H. unfold winx_release_spin_lock in H. cbn [hEvent] in H.
  rewrite (proj2 (Z.eqb_neq h 0)) in H by done.
  assert (Hn1 : event_name w1 !! h = Some n) by (by rewrite En, lookup_insert_eq).
  destruct (ns_set h n SynchronizationEvent true w1 Hn1) as (w2 & E2 & En2 & Ee2);
    [by rewrite Ee, lookup_insert_eq|].
  rewrite E2 in H. simpl in H. simplify_eq. split; [done|]. split; [done|]. exists n, true.
  cbn [system inside hEvent]. rewrite En2, Ee2, lookup_insert_eq. split_and!; [done..|]. by left.
Qed.
End creation.

(** ** Theorems *)

(** C35: threads that use a new lock as it is meant work on the shared data one
    after the other: at most one is inside, the data is the result of all
    updates in the order in which they were made, none is lost, and when nobody
    is inside a thread that asks for the lock gets it at once. *)
Theorem spin_lock_serializes {W} `{!NtApi W, !NtSync W, !NtSyncLaws W} {D}
    tmalloc vsnprintf pid name (w w' : W) sl (d : D) s :
  winx_init_spin_lock tmalloc vsnprintf pid name w = Ret (Some sl, w') →
  rtc (step sl) (Threads w' d ∅ []) s →
  (size (inside s) ≤ 1)%nat ∧
  shared s = fold_left (fun d f => f d) (updates s) d ∧
  (∀ t c, inside s !! t = Some c → c = shared s) ∧
  (inside s = ∅ → ∀ msec, ∃ w2, winx_acquire_spin_lock (Some sl) msec (system s) = Some (0, w2)).
Proof.
  intros Hi Hs. pose proof (steps_inv sl d _ _ (init_lock_inv _ _ _ _ _ _ _ d Hi) Hs) as (Hh & Hd & n & b & Hn & He & Hb).
  split_and!; [|done| |].
  - destruct Hb as [[_ ->]|[_ [t ->]]]; [rewrite map_size_empty; lia|rewrite map_size_singleton; lia].
  - intros t c Hc. destruct Hb as [[_ E]|[_ [t' E]]]; rewrite E in Hc; [done|].
    by apply lookup_singleton_Some in Hc as [_ ->].
  - intros E msec. destruct Hb as [[-> _]|[_ [t' E']]].
    + destruct (ns_signaled _ _ _ (wait_interval msec) _ Hn He) as (w2 & Hw).
      exists w2. unfold winx_acquire_spin_lock. rewrite (proj2 (Z.eqb_neq _ _)) by done. by rewrite Hw.
    + rewrite E in E'. apply (f_equal size) in E'. by rewrite map_size_empty, map_size_singleton in E'.
Qed.

(** Of two programs that create an event of the same name the second is
    told so, and the state is left as it was. *)
Theorem winx_create_event_once {W} `{!NtApi W, !NtSync W, !NtSyncLaws W} name type type2 (w : W) r h w1 :
  (type = SynchronizationEvent ∨ type = NotificationEvent) →
  (type2 = SynchronizationEvent ∨ type2 = NotificationEvent) →
  winx_create_event (Some name) type w = (r, h, w1) → 0 ≤ r →
  winx_create_event (Some name) type2 w1 = (s32 STATUS_OBJECT_NAME_COLLISION, 0, w1).
Proof.
  intros Ht Ht2 H Hr. pose proof (create_event_run name type w Ht) as Hc.
  destruct (events w !! name) eqn:E.
  { rewrite Hc in H. injection H as <- <- <-. exfalso. revert Hr. vm_compute. intros Hr. by apply Hr. }
  destruct Hc as [(h' & w' & Hc & _ & _ & _ & Ee)|(r' & w' & Hc & Hn & _)]; rewrite Hc in H; simplify_eq; [|lia].
  pose proof (create_event_run name type2 w1 Ht2) as Hc2. rewrite Ee, lookup_insert_eq in Hc2. exact Hc2.
Qed.

(** *** A kernel with events *)
Record kernel : Type := Kernel {
  k_names : gmap Z str;
  k_events : gmap str event;
}.

Definition k_handle (k : kernel) : Z := fresh ({[0]} ∪ dom (k_names k) : gset Z).

(** The state of an event is changed through one of its handles. *)
Definition k_event (h : Z) (k : kernel) : option (str * event) :=
  n ← k_names k !! h; e ← k_events k !! n; Some (n, e).

Definition k_signal (n : str) (t : Z) (b : bool) (k : kernel) : kernel :=
  Kernel (k_names k) (<[n := (t, b)]> (k_events k)).

Definition STATUS_INVALID_HANDLE : Z := 0xC0000008.

#[export] Instance kernel_api : NtApi kernel := {|
  NtCreateFile _ k := (STATUS_INVALID_PARAMETER, 0, k);
  NtReadFile _ _ _ _ := (STATUS_INVALID_HANDLE, 0, []);
  NtWriteFile _ _ _ k := (STATUS_INVALID_HANDLE, 0, k);
  NtFlushBuffersFile _ k := (STATUS_INVALID_HANDLE, k);
  NtQueryStandardInformation _ _ := (STATUS_INVALID_HANDLE, 0);
  NtDeleteFile _ k := (STATUS_INVALID_PARAMETER, k);
  NtClose h k := Kernel (delete h (k_names k)) (k_events k);
|}.

#[export] Instance kernel_sync : NtSync kernel := {|
  NtCreateEvent _ n t i k :=
    match k_events k !! n with
    | Some _ => (STATUS_OBJECT_NAME_COLLISION, 0, k)
    | None => (STATUS_SUCCESS, k_handle k,
               Kernel (<[k_handle k := n]> (k_names k)) (<[n := (t, negb (i =? 0))]> (k_events k)))
    end;
  NtOpenEvent _ n k :=
    match k_events k !! n with
    | Some _ => (STATUS_SUCCESS, k_handle k, Kernel (<[k_handle k := n]> (k_names k)) (k_events k))
    | None => (0xC0000034, 0, k)
    end;
  NtSetEvent h k :=
    match k_event h k with
    | Some (n, (t, _)) => (STATUS_SUCCESS, k_signal n t true k)
    | None => (STATUS_INVALID_HANDLE, k)
    end;
  (* a thread waits without end for an event that is not signaled *)
  NtWaitForSingleObject h i k :=
    match k_event h k with
    | Some (n, (t, true)) => Some (WAIT_OBJECT_0, k_signal n t (negb (t =? SynchronizationEvent)) k)
    | Some (_, (_, false)) => if i =? MAX_WAIT_INTERVAL then None else Some (0x102, k)
    | None => Some (STATUS_INVALID_HANDLE, k)
    end;
  NtCreateMutant _ _ k := (STATUS_INVALID_PARAMETER, 0, k);
  NtOpenMutant _ _ k := (STATUS_INVALID_PARAMETER, 0, k);
  NtReleaseMutant _ k := (STATUS_INVALID_HANDLE, k);
|}.

Lemma k_handle_ok k : k_handle k ≠ 0 ∧ k_names k !! k_handle k = None.
Proof.
  pose proof (is_fresh ({[0]} ∪ dom (k_names k) : gset Z)) as H. fold (k_handle k) in H.
  apply not_elem_of_union in H as [H1 H2]. split; [set_solver|by apply not_elem_of_dom].
Qed.

Lemma k_event_ok h n e k : k_names k !! h = Some n → k_events k !! n = Some e → k_event h k = Some (n, e).
Proof. intros Hn He. unfold k_event. rewrite Hn. cbn [mbind option_bind]. by rewrite He. Qed.

#[export] Program Instance kernel_laws : NtSyncLaws kernel := {| event_name := k_names; events := k_events |}.
Next Obligation.
  intros a n t i k E. cbn. rewrite E. left. eexists _, _. split; [done|]. pose proof (k_handle_ok k). split_and!; tauto.
Qed.
Next Obligation. intros a n t i e k E. cbn. rewrite E. by exists 0. Qed.
Next Obligation. intros h n t b k Hn He. cbn. rewrite (k_event_ok _ _ _ _ Hn He). by eexists. Qed.
Next Obligation.
  intros h n t b i k st k' Hn He. cbn. rewrite (k_event_ok _ _ _ _ Hn He).
  destruct b; [|destruct (i =? MAX_WAIT_INTERVAL); [done|]]; intros [= <- <-]; (split; [done|]); [by left|by right].
Qed.
Next Obligation. intros h n t i k Hn He. cbn. rewrite (k_event_ok _ _ _ _ Hn He). by eexists. Qed.

Definition demo_name : str := text "\lock_7".

Definition demo_format (_ : str) (_ : Z) (_ : str) (size : Z) : Z * str :=
  (7, demo_name ++ replicate (Z.to_nat (size - 7)) 0).

Definition demo_kernel (b : bool) : kernel :=
  Kernel {[ 1 := demo_name ]} {[ demo_name := (SynchronizationEvent, b) ]}.

(** One thread adds to the number and leaves, another one is inside. *)
Lemma demo_steps :
  rtc (step (SpinLock 1)) (Threads (demo_kernel true) 5 ∅ [])
    (Threads (demo_kernel false) 6 {[ 2%nat := 6 ]} [Z.add 1]).
Proof.
  eapply rtc_l; [apply (step_enter _ _ 1%nat INFINITE (demo_kernel false)); [done|reflexivity]|].
  eapply rtc_l; [apply (step_write _ _ 1%nat 5 (Z.add 1)); reflexivity|].
  eapply rtc_l; [apply (step_leave _ _ 1%nat 6 0 (demo_kernel true)); reflexivity|].
  eapply rtc_l; [apply (step_enter _ _ 2%nat 100 (demo_kernel false)); [done|reflexivity]|].
  apply rtc_refl.
Qed.

Lemma spin_lock_serializes_witness :
  let s := Threads (demo_kernel false) 6 {[ 2%nat := 6 ]} [Z.add 1] in
  (size (inside s) ≤ 1)%nat ∧ shared s = fold_left (fun d f => f d) (updates s) 5 ∧
  (∀ t c, inside s !! t = Some c → c = shared s) ∧
  (inside s = ∅ → ∀ msec, ∃ w2, winx_acquire_spin_lock (Some (SpinLock 1)) msec (system s) = Some (0, w2)).
Proof.
  apply (spin_lock_serializes (fun _ => true) demo_format 7 (text "lock") (Kernel ∅ ∅) (demo_kernel true)
           (SpinLock 1) 5 (Threads (demo_kernel false) 6 {[ 2%nat := 6 ]} [Z.add 1])).
  - reflexivity.
  - exact demo_steps.
Defined.

Lemma winx_create_event_once_witness :
  winx_create_event (Some demo_name) NotificationEvent (demo_kernel true) =
  (s32 STATUS_OBJECT_NAME_COLLISION, 0, demo_kernel true).
Proof.
  apply (winx_create_event_once demo_name SynchronizationEvent NotificationEvent (Kernel ∅ ∅) 0 1 (demo_kernel true));
    [by left|by right|reflexivity|lia].
Defined.

(** ** Where it goes wrong *)

(** The product of milliseconds wraps in 32 bits: for more than 214748 of them
    the interval may become positive, which is a moment in the past. *)
Example wait_interval_wraps : wait_interval 214748 = - 2147480000 ∧ wait_interval 300000 = 1294967296.
Proof. vm_compute. split; reflexivity. Qed.
