(* ===== verification/System.v ===== *)
(** * mem.c, env.c, misc.c: memory, environment, boot options

    The heap, the environment, the registry and the rest of the system are
    parameters; what the library does with their answers is modelled.  The flag
    that a boot succeeded is written with [FileIO].  Messages for the user are
    left out. *)
From S2P Require Import Prelude DList Bitmap CaseTables CString FileInfo FileIO Path Sync.
From stdpp Require Import prelude gmap strings.
Open Scope Z_scope.

(** ** Memory (mem.c)

    The build does not define USE_HEAP. *)
Definition MALLOC_ABORT_ON_FAILURE : Z := 1.

Section memory.
Context {W : Type}.
(** malloc, and the custom killer: whether it asks for another attempt. *)
Context (malloc : Z → W → option Z * W) (killer : Z → W → bool * W).

(** [do { p = malloc(size); if(!p) if(!killer(size)) break; } while(!p);] *)
Fixpoint alloc_loop (fuel : nat) (size : Z) (w : W) : outcome (option Z * W) :=
  match fuel with
  | O => NoFuel
  | S fuel =>
      match malloc size w with
      | (Some p, w) => Ret (Some p, w)
      | (None, w) =>
          let '(again, w) := killer size w in
          if (again : bool) then alloc_loop fuel size w else Ret (None, w)
      end
  end.

Definition winx_heap_alloc (fuel : nat) (size flags : Z) (w : W) : outcome (option Z * W) :=
  if negb (has_flag flags MALLOC_ABORT_ON_FAILURE) then Ret (malloc size w)
  else alloc_loop fuel size w.

(** [free] ignores NULL on its own too. *)
Definition winx_heap_free (free : Z → W → W) (addr : Z) (w : W) : W := if addr =? 0 then w else free addr w.
End memory.

(** The killer in force until winx_set_killer is called: the process ends; if it
    does not, the allocation fails. *)
Definition default_killer {W} (NtTerminateProcess : Z → W → W) (n : Z) (w : W) : bool * W :=
  (false, NtTerminateProcess 3 w).

(** ** Environment (env.c) *)
Definition MAX_ENV_VALUE_LENGTH : Z := 32767.

Class NtEnvironment (W : Type) : Type := {
  (** The name and the size of the buffer in bytes; the status and the
      characters stored. *)
  RtlQueryEnvironmentVariable : str → Z → W → Z * str;
  RtlSetEnvironmentVariable : str → option str → W → Z * W;
}.

Section env.
Context {W : Type} `{!NtEnvironment W}.
Context (uninit : nat → list Z).

Definition winx_getenv (name : option str) (w : W) : outcome (option str) :=
  match name with
  | None => Ret None
  | Some name =>
      let size := MAX_ENV_VALUE_LENGTH * 2 in
      let '(status, chars) := RtlQueryEnvironmentVariable name (u16 size) w in
      value ← blit (uninit (Z.to_nat MAX_ENV_VALUE_LENGTH)) 0 chars;
      if negb (NT_SUCCESS status) then Ret None else
      c ← rd8 value 0;
      if c =? 0 then Ret None else Ret (Some (cstr value))
  end.

Definition winx_setenv (name value : option str) (w : W) : Z * W :=
  match name with
  | None => (-1, w)
  | Some name =>
      let '(status, w) :=
        match value with
        | Some v => RtlSetEnvironmentVariable name (if bool_decide (v = []) then None else Some v) w
        | None => RtlSetEnvironmentVariable name None w
        end in
      (if negb (NT_SUCCESS status) then -1 else 0, w)
  end.
End env.

(** ** Miscellaneous (misc.c) *)
Definition STATUS_BUFFER_TOO_SMALL : Z := 0xC0000023.

Class NtSystem (W : Type) : Type := {
  NtDelayExecution : Z → W → W;
  (** RtlGetVersion: major and minor number. *)
  RtlGetVersion : W → Z * Z;
  (** ProcessDefaultHardErrorMode. *)
  NtSetErrorMode : Z → W → Z * W;
  NtOpenKey : str → W → Z * Z * W;
  (** The size of KEY_VALUE_PARTIAL_INFORMATION for a value. *)
  NtQueryValueSize : Z → str → W → Z * Z;
  (** The size of the buffer; the status, DataLength and the characters of the
      data. *)
  NtQueryValueKey : Z → str → Z → W → Z * Z * str;
}.

Section misc.
Context {W : Type} `{!NtApi W, !NtEnvironment W, !NtSystem W}.
Context (tmalloc : Z → bool) (uninit : nat → list Z).
(** Formatting of one string, and _wcsupr. *)
Context (vsnwprintf : str → str → Z → Z * str) (wcsupr : str → str).
Implicit Types (w : W).

Definition winx_sleep (msec : Z) w : W := NtDelayExecution (wait_interval msec) w.

Definition winx_get_os_version w : Z :=
  let '(major, minor) := RtlGetVersion w in s32 (u32 (u32 (major * 10) + minor)).

Definition winx_set_system_error_mode (mode : Z) w : Z * W :=
  let '(status, w) := NtSetErrorMode mode w in (if negb (NT_SUCCESS status) then -1 else 0, w).

Definition winx_get_windows_directory w : outcome (option str) :=
  windir ← winx_getenv uninit (Some (text "SystemRoot")) w;
  match windir with
  | Some windir => winx_swprintf tmalloc (fun f => vsnwprintf f windir) (Some (text "\??\%ws"))
  | None => Ret None
  end.

Definition control_key : str := text "\Registry\Machine\SYSTEM\CurrentControlSet\Control".

(** sizeof of the fields in front of the data. *)
Definition partial_header : Z := 12.

(** The key is never closed. *)
Definition winx_get_windows_boot_options w : outcome (option (list Z) * W) :=
  let '(status, hKey, w) := NtOpenKey control_key w in
  if negb (status =? STATUS_SUCCESS) then Ret (None, w) else
  let '(status, data_size) := NtQueryValueSize hKey (text "SystemStartOptions") w in
  if negb (status =? STATUS_BUFFER_TOO_SMALL) then Ret (None, w) else
  let data_size := u32 (data_size + 2) in
  if negb (tmalloc data_size) then Ret (None, w) else
  let '(status, DataLength, chars) := NtQueryValueKey hKey (text "SystemStartOptions") data_size w in
  data_buffer ← blit (replicate (Z.to_nat ((data_size - partial_header) / 2)) 0) 0 chars;
  if negb (status =? STATUS_SUCCESS) then Ret (None, w) else
  let data_length := Z.shiftr DataLength 1 in
  if data_length =? 0 then
    if negb (tmalloc 2) then Ret (None, w) else Ret (Some [0], w)
  else
    data_buffer ← put data_buffer (data_length - 1) 0;
    if negb (tmalloc (u32 (data_length * 2))) then Ret (None, w) else
    boot_options ← front data_buffer data_length;
    Ret (Some boot_options, w).

Definition winx_windows_in_safe_mode w : outcome (Z * W) :=
  '(boot_options, w) ← winx_get_windows_boot_options w;
  match boot_options with
  | None => Ret (-1, w)
  | Some boot_options =>
      Ret (if search_loop id (wcsupr (cstr boot_options)) (text "SAFEBOOT") then 1 else 0, w)
  end.

(** The path of the file with the flag. *)
Definition bootstat_path (windir : str) : str := take (Z.to_nat MAX_PATH) (windir ++ text "\bootstat.dat").

Definition MarkWindowsBootAsSuccessful w : outcome W :=
  windir ← winx_get_windows_directory w;
  match windir with
  | None => Ret (winx_sleep 3000 w)
  | Some windir =>
      let '(f, w) := winx_fopen tmalloc (bootstat_path windir) (text "r+") w in
      match f with
      | None => Ret w (* it seems that we have a system prior to XP *)
      | Some f =>
          '(_, f, w) ← winx_fwrite [1] 1 1 (set_woffset 0xA f) w;
          winx_fclose f w
      end
  end.
End misc.

(** ** Theory *)

(** An allocation that must not fail ends when the killer has something to give
    up each time it asks for another attempt, and fails only when it gives up. *)
Lemma alloc_loop_ends {W} (malloc : Z → W → option Z * W) killer (spare : W → nat) size fuel w :
  (∀ w p w', malloc size w = (p, w') → spare w' ≤ spare w)%nat →
  (∀ w w', killer size w = (true, w') → spare w' < spare w)%nat →
  (spare w < fuel)%nat →
  ∃ p w', alloc_loop malloc killer fuel size w = Ret (p, w') ∧
    (p = None → ∃ w1, killer size w1 = (false, w')).
Proof.
  intros Hm Hk. revert w. induction fuel as [|fuel IH]; intros w Hf; [lia|]. cbn [alloc_loop].
  destruct (malloc size w) as [[p|] w1] eqn:Em; [by exists (Some p), w1|].
  destruct (killer size w1) as [[|] w2] eqn:Ek; [|exists None, w2; eauto].
  apply Hm in Em. apply Hk in Ek. apply IH. lia.
Qed.

(** The environment keeps the variables. *)
Class EnvironmentVars (W : Type) `{!NtEnvironment W} : Type := {
  variable : W → str → option str;
  ev_query n size w : RtlQueryEnvironmentVariable n size w =
    match variable w n with
    | Some v => if 2 * Z.of_nat (length v) <? size then (STATUS_SUCCESS, v ++ [0]) else (STATUS_BUFFER_TOO_SMALL, [])
    | None => (0xC0000100, [])
    end;
  ev_set n v w : ∃ w', RtlSetEnvironmentVariable n v w = (STATUS_SUCCESS, w') ∧ variable w' n = v ∧
    ∀ n', n' ≠ n → variable w' n' = variable w n';
}.

Section env_laws.
Context {W : Type} `{!NtEnvironment W, !EnvironmentVars W}.
Context (uninit : nat → list Z) (uninit_length : ∀ n, length (uninit n) = n).

Lemma winx_getenv_ok n (w : W) :
  (∀ v, variable w n = Some v → wstr v) →
  winx_getenv uninit (Some n) w =
  Ret (match variable w n with
       | Some v => if bool_decide (v = []) || (MAX_ENV_VALUE_LENGTH <=? Z.of_nat (length v)) then None else Some v
       | None => None
       end).
Proof.
  intros Hv. unfold winx_getenv. change (u16 (MAX_ENV_VALUE_LENGTH * 2)) with 65534. rewrite ev_query.
  set (b := uninit _). assert (Hb : Z.of_nat (length b) = 32767).
  { unfold b. rewrite uninit_length. unfold MAX_ENV_VALUE_LENGTH. lia. }
  clearbody b.
  assert (Hnone : blit b 0 [] = Ret b).
  { pose proof (blit_middle [] [] b [] 0 eq_refl eq_refl) as E. exact E. }
  destruct (variable w n) as [v|] eqn:E; [|by rewrite Hnone, outcome_bind_ret].
  specialize (Hv v eq_refl). unfold MAX_ENV_VALUE_LENGTH.
  destruct (Z.ltb_spec (2 * Z.of_nat (length v)) 65534) as [Hl|Hl].
  - rewrite (proj2 (Z.leb_gt _ _)), orb_false_r by lia.
    assert (Hsplit : b = take (length v + 1) b ++ drop (length v + 1) b) by (by rewrite take_drop).
    rewrite Hsplit.
    pose proof (blit_middle [] (take (length v + 1) b) (drop (length v + 1) b) (v ++ [0]) 0 eq_refl) as Eb.
    rewrite !app_nil_l in Eb. rewrite Eb by (rewrite length_take, length_app; simpl; lia).
    rewrite outcome_bind_ret. change (NT_SUCCESS STATUS_SUCCESS) with true. cbn [negb].
    rewrite <- app_assoc. destruct v as [|c v]; [done|]. apply Forall_cons in Hv as Hv'. destruct Hv' as [Hc _].
    set (rest := [0] ++ _). assert (rd8 ((c :: v) ++ rest) 0 = Ret c) as -> by exact (rd8_lookup ((c :: v) ++ rest) 0 c eq_refl).
    rewrite outcome_bind_ret.
    rewrite (proj2 (Z.eqb_neq c 0)) by lia. rewrite bool_decide_eq_false_2 by done. do 2 f_equal.
    by apply in_buffer_cstr.
  - rewrite (proj2 (Z.leb_le _ _)), orb_true_r by lia. by rewrite Hnone, outcome_bind_ret.
Qed.
End env_laws.

(** Writing the flag of a successful boot. *)
Section boot_flag.
Context {W : Type} `{!NtApi W, !NtFileLaws W}.

Lemma write_flag_ok tmalloc p c (w : W) :
  (∀ n, tmalloc n = true) → file_at w p = Some c →
  ∃ f w1, winx_fopen tmalloc p (text "r+") w = (Some f, w1) ∧
  ∃ w2, ('(_, f, w) ← winx_fwrite [1] 1 1 (set_woffset 0xA f) w1; winx_fclose f w) = Ret w2 ∧
    file_at w2 p = Some (write_at c 10 [1]).
Proof.
  intros Ht Hc. unfold winx_fopen. simpl.
  match goal with |- context [NtCreateFile ?r w] => destruct (nt_open r w c) as (h & w1 & E & Hh & Ho & Hf) end;
    [by left|done|]. rewrite E, Ht. simpl in Ho, Hf |- *. eexists _, w1. split; [done|].
  unfold winx_fwrite. cbn [io_buffer set_woffset hFile set_wboffset set_io_buffer_offset set_io_buffer].
  match goal with |- context [winx_fwrite_helper _ _ _ ?g _] => set (f := g) end.
  destruct (winx_fwrite_helper_ok p _ c [1] 1 1 f w1 Ho) as (w2 & -> & Ho2 & Hf2); [done|done|lia|lia|simpl; lia|done|done|].
  rewrite outcome_bind_ret. unfold winx_fclose. cbn [io_buffer set_woffset hFile]. 
  simpl. rewrite (proj2 (Z.eqb_neq h 0)) by done. simpl. eexists. split; [done|]. rewrite nt_close. exact Hf2.
Qed.
End boot_flag.

(** ** Theorems *)

(** A variable that was set is read back; setting it to nothing deletes it; the
    other variables stay. *)
Theorem winx_setenv_getenv {W} `{!NtEnvironment W, !EnvironmentVars W} uninit name value (w : W) :
  (∀ n, length (uninit n) = n) → (∀ v, value = Some v → wstr v ∧ Z.of_nat (length v) < MAX_ENV_VALUE_LENGTH) →
  ∃ w', winx_setenv (Some name) value w = (0, w') ∧
    winx_getenv uninit (Some name) w' = Ret (if bool_decide (value = Some []) then None else value) ∧
    ∀ n, n ≠ name → variable w' n = variable w n.
Proof.
  intros Hu Hv. unfold winx_setenv.
  set (v := match value with Some v => if bool_decide (v = []) then None else Some v | None => None end).
  assert ((match value with Some v => RtlSetEnvironmentVariable name (if bool_decide (v = []) then None else Some v) w
           | None => RtlSetEnvironmentVariable name None w end) = RtlSetEnvironmentVariable name v w) as ->
    by (by destruct value).
  destruct (ev_set name v w) as (w' & -> & E & Ho). exists w'. split; [done|]. split; [|done].
  rewrite winx_getenv_ok by (done || (intros u Hu'; rewrite E in Hu'; unfold v in Hu'; destruct value as [x|]; [|done];
    destruct (bool_decide _); [done|]; simplify_eq; by apply Hv)).
  rewrite E. unfold v. destruct value as [x|]; [|done]. destruct (Hv x eq_refl) as [_ Hl].
  case_bool_decide as Hx; [by subst|]. rewrite bool_decide_eq_false_2 by done.
  rewrite (proj2 (Z.leb_gt _ _)) by lia. simpl. by rewrite bool_decide_eq_false_2 by congruence.
Qed.

(** The key of the boot options is opened and never closed. *)
Theorem boot_options_leak_key {W} `{!NtSystem W} tmalloc status h (w w1 : W) o w' :
  NtOpenKey control_key w = (status, h, w1) → winx_get_windows_boot_options tmalloc w = Ret (o, w') → w' = w1.
Proof.
  intros E. unfold winx_get_windows_boot_options. rewrite E.
  intros Hret. repeat first
    [ by injection Hret
    | apply outcome_bind_inv in Hret as (? & _ & Hret)
    | destruct (negb _)
    | destruct (_ =? _)
    | destruct (NtQueryValueSize _ _ _)
    | destruct (NtQueryValueKey _ _ _ _) as [[? ?] ?] ].
Qed.

(** The flag of a successful boot is set: the byte at offset ten of the file in
    the Windows directory, and nothing else of it. *)
Theorem MarkWindowsBootAsSuccessful_correct
    {W} `{!NtApi W, !NtFileLaws W, !NtEnvironment W, !NtSystem W} tmalloc uninit vsnwprintf windir c (w : W) :
  (∀ n, tmalloc n = true) →
  winx_get_windows_directory tmalloc uninit vsnwprintf w = Ret (Some windir) →
  file_at w (bootstat_path windir) = Some c →
  ∃ w', MarkWindowsBootAsSuccessful tmalloc uninit vsnwprintf w = Ret w' ∧
    file_at w' (bootstat_path windir) = Some (write_at c 10 [1]).
Proof.
  intros Ht Hd Hc. unfold MarkWindowsBootAsSuccessful. rewrite Hd, outcome_bind_ret.
  destruct (write_flag_ok tmalloc _ c w Ht Hc) as (f & w1 & -> & w2 & E & Hf). by exists w2.
Qed.
