(* ===== verification/Keyboard.v ===== *)
(** * keyboard.c and keytrans.c: the keyboard queue and the key codes

    One thread per keyboard pushes what it reads to a queue of 100 entries,
    [kb_read] polls the queue.  The accesses to the queue are serialised by an
    event, so a run is a sequence of pushes and pops; for [kb_read] the items
    that arrive between two polls, the success of the synchronisation and the
    clock are sequences indexed by the poll.  Opening devices, their indicators
    and the creation of threads and events are parameters. *)
From S2P Require Import Prelude DList CString FileInfo.
From stdpp Require Import prelude gmap strings.
Open Scope Z_scope.

Definition KEY_BREAK : Z := 1.
Definition KEY_E0 : Z := 2.
Definition KEY_E1 : Z := 4.
Definition RIGHT_ALT_PRESSED : Z := 1.
Definition LEFT_ALT_PRESSED : Z := 2.
Definition RIGHT_CTRL_PRESSED : Z := 4.
Definition LEFT_CTRL_PRESSED : Z := 8.
Definition SHIFT_PRESSED : Z := 0x10.
Definition NUMLOCK_ON : Z := 0x20.
Definition ENHANCED_KEY : Z := 0x100.

(** KEYBOARD_INPUT_DATA. *)
Record KEYBOARD_INPUT_DATA : Type := InputData {
  UnitId : Z;
  MakeCode : Z;
  Flags : Z;
  Reserved : Z;
  ExtraInformation : Z;
}.

(** ** The queue *)
Definition KB_QUEUE_LENGTH : Z := 100.

Record kb_queue : Type := KbQueue {
  kids : list KEYBOARD_INPUT_DATA;
  start_index : Z;
  n_written : Z;
}.

(** The critical section of [kb_wait_for_input]. *)
Definition push_item (kid : KEYBOARD_INPUT_DATA) (q : kb_queue) : outcome kb_queue :=
  let start := if (start_index q <? 0) || (KB_QUEUE_LENGTH <=? start_index q) then 0
               else start_index q in
  let n := if (n_written q <? 0) || (KB_QUEUE_LENGTH <? n_written q) then 0 else n_written q in
  let index := start + n in
  let index := if KB_QUEUE_LENGTH <=? index then index - KB_QUEUE_LENGTH else index in
  let '(start, n) := if n =? KB_QUEUE_LENGTH then (start + 1, n) else (start, n + 1) in
  if (index <? 0) || (Z.of_nat (length (kids q)) <=? index) then Fault else
  Ret (KbQueue (<[Z.to_nat index := kid]> (kids q)) start n).

(** The critical section of [kb_read]. *)
Definition pop_item (q : kb_queue) : outcome (option KEYBOARD_INPUT_DATA * kb_queue) :=
  if 0 <? n_written q then
    if start_index q <? 0 then Fault else
    match kids q !! Z.to_nat (start_index q) with
    | None => Fault
    | Some kid =>
        let start := start_index q + 1 in
        let start := if KB_QUEUE_LENGTH <=? start then 0 else start in
        Ret (Some kid, KbQueue (kids q) start (n_written q - 1))
    end
  else Ret (None, q).

(** ** Polling *)
Section kb_read.
(** What arrives before a poll, whether the synchronisation succeeds, and the
    clock. *)
Context (arrivals : nat → list KEYBOARD_INPUT_DATA) (synch : nat → bool) (xtime : nat → Z).
Context (number_of_keyboards : Z).

(** The state: the queue, the number of polls, and [kb_read_time_elapsed]. *)
Record kb_state : Type := KbState {
  queue : kb_queue;
  poll : nat;
  kb_read_time_elapsed : bool;
}.

Fixpoint push_items (ks : list KEYBOARD_INPUT_DATA) (q : kb_queue) : outcome kb_queue :=
  match ks with
  | [] => Ret q
  | k :: ks => q ← push_item k q; push_items ks q
  end.

Definition MAX_TYPING_DELAY : Z := 10.

(** The loop of [kb_read]; [None] is the result -1. *)
Fixpoint kb_read_loop (fuel : nat) (msec_timeout attempts start : Z) (s : kb_state)
  : outcome (option KEYBOARD_INPUT_DATA * kb_state) :=
  match fuel with
  | O => NoFuel
  | S fuel =>
      if number_of_keyboards =? 0 then Ret (None, s) else
      q ← push_items (arrivals (poll s)) (queue s);
      let s' e := KbState q (S (poll s)) e in
      let elapsed := kb_read_time_elapsed s in
      if negb (synch (poll s)) then Ret (None, s' elapsed) else
      '(kid, q') ← pop_item q;
      match kid with
      | Some kid => Ret (Some kid, KbState q' (S (poll s)) elapsed)
      | None =>
          if negb (u32 msec_timeout =? 0xFFFFFFFF) then
            let attempts := s32 (attempts - 1) in
            if attempts =? 0 then Ret (None, s' true)
            else if negb (start =? 0) &&
                    (u64 msec_timeout <=? u64 (xtime (S (poll s)) - start))
            then Ret (None, s' true)
            else kb_read_loop fuel msec_timeout attempts start (s' elapsed)
          else kb_read_loop fuel msec_timeout attempts start (s' elapsed)
      end
  end.

Definition kb_read (fuel : nat) (msec_timeout : Z) (s : kb_state)
  : outcome (option KEYBOARD_INPUT_DATA * kb_state) :=
  if negb (u32 msec_timeout =? 0xFFFFFFFF)
  then kb_read_loop fuel msec_timeout (Z.quot msec_timeout MAX_TYPING_DELAY + 1) (xtime (poll s)) s
  else kb_read_loop fuel msec_timeout 0 0 s.

(** ** Key codes *)

(** Scan codes with the characters without and with Shift. *)
Definition ScanToAscii : list (Z * Z * Z) :=
  [ (0x1e, 0x61, 0x41); (0x30, 0x62, 0x42); (0x2e, 0x63, 0x43); (0x20, 0x64, 0x44);
    (0x12, 0x65, 0x45); (0x21, 0x66, 0x46); (0x22, 0x67, 0x47); (0x23, 0x68, 0x48);
    (0x17, 0x69, 0x49); (0x24, 0x6A, 0x4A); (0x25, 0x6B, 0x4B); (0x26, 0x6C, 0x4C);
    (0x32, 0x6D, 0x4D); (0x31, 0x6E, 0x4E); (0x18, 0x6F, 0x4F); (0x19, 0x70, 0x50);
    (0x10, 0x71, 0x51); (0x13, 0x72, 0x52); (0x1f, 0x73, 0x53); (0x14, 0x74, 0x54);
    (0x16, 0x75, 0x55); (0x2f, 0x76, 0x56); (0x11, 0x77, 0x57); (0x2d, 0x78, 0x58);
    (0x15, 0x79, 0x59); (0x2c, 0x7A, 0x5A);
    (0x02, 0x31, 0x21); (0x03, 0x32, 0x40); (0x04, 0x33, 0x23); (0x05, 0x34, 0x24);
    (0x06, 0x35, 0x25); (0x07, 0x36, 0x5E); (0x08, 0x37, 0x26); (0x09, 0x38, 0x2A);
    (0x0a, 0x39, 0x28); (0x0b, 0x30, 0x29);
    (0x29, 0x27, 0x7E); (0x0c, 0x2D, 0x5F); (0x0d, 0x3D, 0x2B); (0x1a, 0x5B, 0x7B);
    (0x1b, 0x5D, 0x7D); (0x2b, 0x5C, 0x7C); (0x27, 0x3B, 0x3A); (0x28, 0x27, 0x22);
    (0x33, 0x2C, 0x3C); (0x34, 0x2E, 0x3E); (0x35, 0x2F, 0x3F);
    (0x4a, 0x2D, 0x2D); (0x4e, 0x2B, 0x2B); (0x37, 0x2A, 0x2A);
    (0x39, 0x20, 0x20);
    (0x1c, 0x0D, 0x0D); (0x0e, 0x08, 0x08) (* backspace *) ].

(** [IntUpdateControlKeyState]. *)
Definition IntUpdateControlKeyState (State : Z) (d : KEYBOARD_INPUT_DATA) : Z :=
  let set Value :=
    if has_flag (Flags d) KEY_BREAK then Z.ldiff State Value else Z.lor State Value in
  if has_flag (Flags d) KEY_E1 then State else (* only the pause key has E1 *)
  if negb (has_flag (Flags d) KEY_E0) then
    if (MakeCode d =? 0x2a) || (MakeCode d =? 0x36) then set SHIFT_PRESSED
    else if MakeCode d =? 0x1d then set LEFT_CTRL_PRESSED
    else if MakeCode d =? 0x38 then set LEFT_ALT_PRESSED
    else if MakeCode d =? 0x45 then
      if negb (has_flag (Flags d) KEY_BREAK) then Z.lxor State NUMLOCK_ON else State
    else State
  else
    if MakeCode d =? 0x1d then set RIGHT_CTRL_PRESSED
    else if MakeCode d =? 0x38 then set RIGHT_ALT_PRESSED
    else State.

(** The loop of [IntAsciiFromInput] through the table. *)
Fixpoint scan_table (table : list (Z * Z * Z)) (code KeyState : Z) : Z :=
  match table with
  | [] => 0
  | (ScanCode, Normal, Shift) :: table =>
      if ScanCode =? code then if has_flag KeyState SHIFT_PRESSED then Shift else Normal
      else scan_table table code KeyState
  end.

Definition IntAsciiFromInput (d : KEYBOARD_INPUT_DATA) (KeyState : Z) : Z :=
  scan_table ScanToAscii (MakeCode d) KeyState.

(** KBD_RECORD. *)
Record KBD_RECORD : Type := KbdRecord {
  wVirtualScanCode : Z;
  dwControlKeyState : Z;
  AsciiChar : Z;
  bKeyDown : bool;
}.

(** [IntTranslateKey]: the record and the new value of the static state. *)
Definition IntTranslateKey (d : KEYBOARD_INPUT_DATA) (state : Z) : KBD_RECORD * Z :=
  let state := IntUpdateControlKeyState state d in
  let st := if has_flag (Flags d) KEY_E0 then Z.lor state ENHANCED_KEY else state in
  (KbdRecord (MakeCode d) st (IntAsciiFromInput d st) (negb (has_flag (Flags d) KEY_BREAK)), state).

(** [winx_kb_read]: key up events are skipped; [None] is the result -1,
    otherwise the result is the character of the record. *)
Fixpoint winx_kb_read (fuel : nat) (msec : Z) (s : kb_state) (state : Z)
  : outcome (option KBD_RECORD * kb_state * Z) :=
  match fuel with
  | O => NoFuel
  | S fuel' =>
      '(kid, s) ← kb_read fuel msec s;
      match kid with
      | None => Ret (None, s, state)
      | Some kid =>
          let '(rec, state) := IntTranslateKey kid state in
          if negb (bKeyDown rec) then winx_kb_read fuel' msec s state else Ret (Some rec, s, state)
      end
  end.

Definition winx_kbhit (fuel : nat) (msec : Z) (s : kb_state) (state : Z)
  : outcome (Z * kb_state * Z) :=
  '(rec, s, state) ← winx_kb_read fuel msec s state;
  Ret (match rec with Some r => AsciiChar r | None => -1 end, s, state).

(** [winx_breakhit]: zero when the next key is Pause/Break. *)
Fixpoint winx_breakhit (fuel : nat) (msec : Z) (s : kb_state) (state : Z)
  : outcome (Z * kb_state * Z) :=
  match fuel with
  | O => NoFuel
  | S fuel' =>
      '(kid, s) ← kb_read fuel msec s;
      match kid with
      | None => Ret (-1, s, state)
      | Some kid =>
          let '(rec, state) := IntTranslateKey kid state in
          if negb (bKeyDown rec) then winx_breakhit fuel' msec s state else
          Ret (if has_flag (Flags kid) KEY_E1 && (MakeCode kid =? 0x1d) then 0 else -1, s, state)
      end
  end.
End kb_read.

(** ** The table of keyboards *)
Definition MAX_NUM_OF_KEYBOARDS : Z := 100.

(** KEYBOARD; a slot is free when its device handle is NULL. *)
Record KEYBOARD : Type := Keyboard {
  device_number : Z;
  hKbDevice : Z;
  hKbEvent : Z;
}.

Definition no_keyboard : KEYBOARD := Keyboard 0 0 0.

Section devices.
(** Opening the device with a number (after [kb_check]) and its event, the
    creation of the synchronisation event, and the start of a thread. *)
Context (open_device : Z → option Z) (create_event : Z → option Z).
Context (create_synch_event : option Z) (create_thread : KEYBOARD → bool).

(** The search for a free slot. *)
Fixpoint add_keyboard (k : KEYBOARD) (kb : list KEYBOARD) : option (list KEYBOARD) :=
  match kb with
  | [] => None
  | x :: kb => if hKbDevice x =? 0 then Some (k :: kb) else cons x <$> add_keyboard k kb
  end.

(** The table and [number_of_keyboards]. *)
Definition kb_open_device (n : Z) (st : list KEYBOARD * Z) : list KEYBOARD * Z :=
  let '(kb, number) := st in
  match open_device n with
  | None => st
  | Some h =>
      match create_event n with
      | None => st
      | Some e =>
          match add_keyboard (Keyboard n h e) kb with
          | Some kb => (kb, number + 1)
          | None => st (* kb array is full *)
          end
      end
  end.

(** The loop of [kb_close] over the table. *)
Fixpoint close_keyboards (kb : list KEYBOARD) (number : Z) : list KEYBOARD * Z :=
  match kb with
  | [] => ([], number)
  | x :: kb =>
      if hKbDevice x =? 0 then (x :: kb, number) else
      let '(kb, number) := close_keyboards kb (number - 1) in
      (Keyboard (device_number x) 0 0 :: kb, number)
  end.

Definition kb_close (st : list KEYBOARD * Z) : list KEYBOARD * Z := close_keyboards st.1 st.2.

(** The threads of the occupied slots. *)
Fixpoint start_threads (kb : list KEYBOARD) : bool :=
  match kb with
  | [] => true
  | x :: kb => if hKbDevice x =? 0 then true else if create_thread x then start_threads kb else false
  end.

(** [kb_open]: the result and the table; the table of before is overwritten. *)
Definition kb_open : Z * (list KEYBOARD * Z) :=
  let kb := replicate (Z.to_nat MAX_NUM_OF_KEYBOARDS) no_keyboard in
  match create_synch_event with
  | None => (-1, (kb, 0))
  | Some _ =>
      let st := foldl (fun st n => kb_open_device n st) (kb, 0) (seqZ 0 MAX_NUM_OF_KEYBOARDS) in
      if negb (start_threads st.1) then (-1, kb_close st) else
      (if hKbDevice (nth 0 st.1 no_keyboard) =? 0 then -1 else 0, st)
  end.
End devices.

(** ** The queue is a first-in first-out queue *)

(** [represents q l]: the queue holds the items [l], the oldest first. *)
Record represents (q : kb_queue) (l : list KEYBOARD_INPUT_DATA) : Prop := {
  rep_start : 0 ≤ start_index q < KB_QUEUE_LENGTH;
  rep_size : length (kids q) = Z.to_nat KB_QUEUE_LENGTH;
  rep_count : n_written q = Z.of_nat (length l);
  rep_bound : Z.of_nat (length l) ≤ KB_QUEUE_LENGTH;
  rep_items i : (i < length l)%nat →
    kids q !! Z.to_nat ((start_index q + Z.of_nat i) mod KB_QUEUE_LENGTH) = l !! i;
}.

Definition empty_queue : kb_queue :=
  KbQueue (replicate (Z.to_nat KB_QUEUE_LENGTH) (InputData 0 0 0 0 0)) 0 0.

Lemma empty_queue_represents : represents empty_queue [].
Proof. split; try done. simpl. lia. Qed.

(** Positions in the ring. *)
Lemma ring_wrap a : 0 ≤ a < 2 * KB_QUEUE_LENGTH →
  (if KB_QUEUE_LENGTH <=? a then a - KB_QUEUE_LENGTH else a) = a mod KB_QUEUE_LENGTH.
Proof.
  unfold KB_QUEUE_LENGTH. intros H. destruct (Z.leb_spec 100 a).
  - rewrite <- (Z_mod_plus_full a (-1)), Z.mod_small; lia.
  - by rewrite Z.mod_small by lia.
Qed.

Lemma ring_inj s i j : 0 ≤ i < KB_QUEUE_LENGTH → 0 ≤ j < KB_QUEUE_LENGTH →
  (s + i) mod KB_QUEUE_LENGTH = (s + j) mod KB_QUEUE_LENGTH → i = j.
Proof.
  unfold KB_QUEUE_LENGTH. intros Hi Hj E.
  pose proof (Z.div_mod (s + i) 100 ltac:(lia)). pose proof (Z.div_mod (s + j) 100 ltac:(lia)). lia.
Qed.

Lemma ring_range a : (Z.to_nat (a mod KB_QUEUE_LENGTH) < 100)%nat.
Proof. pose proof (Z.mod_pos_bound a KB_QUEUE_LENGTH ltac:(done)). unfold KB_QUEUE_LENGTH in *. lia. Qed.

(** What a push computes in a represented queue. *)
Lemma push_item_eq q l kid :
  represents q l →
  push_item kid q =
    let k' := <[Z.to_nat ((start_index q + Z.of_nat (length l)) mod KB_QUEUE_LENGTH) := kid]> (kids q) in
    Ret (if decide (length l = 100%nat) then KbQueue k' (start_index q + 1) 100
         else KbQueue k' (start_index q) (Z.of_nat (length l) + 1)).
Proof.
  intros [Hs Hz Hn Hb Hi]. unfold push_item. rewrite Hn.
  rewrite (proj2 (Z.ltb_ge (start_index q) 0)), (proj2 (Z.leb_gt _ (start_index q))) by lia.
  rewrite (proj2 (Z.ltb_ge (Z.of_nat (length l)) 0)), (proj2 (Z.ltb_ge _ (Z.of_nat (length l)))) by lia.
  cbn [orb]. rewrite ring_wrap by lia. rewrite Hz.
  pose proof (ring_range (start_index q + Z.of_nat (length l))).
  pose proof (Z.mod_pos_bound (start_index q + Z.of_nat (length l)) KB_QUEUE_LENGTH ltac:(done)).
  unfold KB_QUEUE_LENGTH in *. case_decide as Hd.
  - rewrite (proj2 (Z.eqb_eq (Z.of_nat (length l)) 100)) by lia.
    rewrite (proj2 (Z.ltb_ge _ 0)), (proj2 (Z.leb_gt _ _)) by lia. simpl. by rewrite Hd.
  - rewrite (proj2 (Z.eqb_neq (Z.of_nat (length l)) 100)) by lia.
    by rewrite (proj2 (Z.ltb_ge _ 0)), (proj2 (Z.leb_gt _ _)) by lia.
Qed.

Lemma push_item_ok q l kid :
  represents q l → (length l < 100)%nat →
  ∃ q', push_item kid q = Ret q' ∧ represents q' (l ++ [kid]).
Proof.
  intros H Hl. rewrite (push_item_eq q l) by done. cbv zeta. rewrite decide_False by lia.
  destruct H as [Hs Hz Hn Hb Hi]. eexists. split; [done|]. split; simpl.
  - done.
  - by rewrite length_insert.
  - rewrite length_app. simpl. lia.
  - rewrite length_app. simpl. unfold KB_QUEUE_LENGTH. lia.
  - rewrite length_app. simpl. intros i Hlt. destruct (decide (i = length l)) as [->|Hne].
    + rewrite lookup_app_r, Nat.sub_diag by lia. simpl. apply list_lookup_insert_eq.
      rewrite Hz. apply ring_range.
    + rewrite lookup_app_l by lia. rewrite list_lookup_insert_ne; [apply Hi; lia|]. intros E.
      apply Z2Nat.inj, ring_inj in E; unfold KB_QUEUE_LENGTH in *; try lia;
        apply Z.mod_pos_bound; lia.
Qed.

(** A push to a full queue overwrites the oldest item, unless that is at the
    end of the array. *)
Lemma push_item_full q x l kid :
  represents q (x :: l) → length (x :: l) = 100%nat → start_index q < 99 →
  ∃ q', push_item kid q = Ret q' ∧ represents q' (l ++ [kid]).
Proof.
  intros H Hl Hst. rewrite (push_item_eq q (x :: l)) by done. cbv zeta. rewrite decide_True by done.
  destruct H as [Hs Hz Hn Hb Hi]. rewrite Hl in *. simpl in Hl.
  eexists. split; [done|]. unfold KB_QUEUE_LENGTH in *.
  assert (Hmod : ∀ i, 0 ≤ i < 99 →
    (start_index q + 1 + i) mod 100 = (start_index q + (i + 1)) mod 100) by (intros; f_equal; lia).
  assert (Hidx : (start_index q + Z.of_nat 100) mod 100 = start_index q).
  { change (Z.of_nat 100) with (1 * 100). rewrite Z_mod_plus_full. apply Z.mod_small. lia. }
  split; simpl.
  - unfold KB_QUEUE_LENGTH. lia.
  - by rewrite length_insert.
  - rewrite length_app. simpl. lia.
  - rewrite length_app. simpl. unfold KB_QUEUE_LENGTH. lia.
  - rewrite length_app. simpl. unfold KB_QUEUE_LENGTH. intros i Hlt. rewrite Hidx.
    destruct (decide (i = length l)) as [->|Hne].
    + rewrite lookup_app_r, Nat.sub_diag by lia. simpl.
      replace (start_index q + 1 + Z.of_nat (length l)) with (start_index q + 1 * 100) by lia.
      rewrite Z_mod_plus_full, Z.mod_small by lia. apply list_lookup_insert_eq. lia.
    + rewrite lookup_app_l, Hmod by lia. rewrite list_lookup_insert_ne.
      { specialize (Hi (S i) ltac:(lia)). simpl in Hi. rewrite <- Hi. do 3 f_equal. lia. }
      intros E. apply Z2Nat.inj in E; [|lia|apply Z.mod_pos_bound; lia].
      pose proof (ring_inj (start_index q) 0 (Z.of_nat i + 1)) as HR. unfold KB_QUEUE_LENGTH in HR.
      rewrite Z.add_0_r, (Z.mod_small (start_index q)) in HR by lia. lia.
Qed.

Lemma pop_item_ok q x l :
  represents q (x :: l) → ∃ q', pop_item q = Ret (Some x, q') ∧ represents q' l.
Proof.
  intros [Hs Hz Hn Hb Hi]. unfold pop_item. unfold KB_QUEUE_LENGTH in *. simpl in Hn, Hb, Hi.
  rewrite (proj2 (Z.ltb_lt _ _)), (proj2 (Z.ltb_ge _ _)) by lia.
  pose proof (Hi O ltac:(lia)) as H0. rewrite Z.add_0_r, Z.mod_small in H0 by lia. rewrite H0. simpl.
  assert (HW : (if 100 <=? start_index q + 1 then 0 else start_index q + 1) =
               (start_index q + 1) mod 100).
  { destruct (Z.leb_spec 100 (start_index q + 1)); [|by rewrite Z.mod_small by lia].
    by replace (start_index q + 1) with 100 by lia. }
  rewrite HW.
  pose proof (Z.mod_pos_bound (start_index q + 1) 100 ltac:(lia)).
  eexists. split; [done|]. split; simpl; unfold KB_QUEUE_LENGTH; try done; try lia.
  intros i Hlt. rewrite Zplus_mod_idemp_l. specialize (Hi (S i) ltac:(lia)). simpl in Hi.
  rewrite <- Hi. do 3 f_equal. lia.
Qed.

Lemma pop_item_empty q : represents q [] → pop_item q = Ret (None, q).
Proof. intros [_ _ Hn _ _]. unfold pop_item. by rewrite Hn. Qed.

(** Runs of the two critical sections. *)
Inductive kb_op : Type := Push (kid : KEYBOARD_INPUT_DATA) | Pop.

Fixpoint run_ops (ops : list kb_op) (q : kb_queue)
  : outcome (kb_queue * list (option KEYBOARD_INPUT_DATA)) :=
  match ops with
  | [] => Ret (q, [])
  | Push kid :: ops => q ← push_item kid q; run_ops ops q
  | Pop :: ops =>
      '(r, q) ← pop_item q;
      '(q, rs) ← run_ops ops q;
      Ret (q, r :: rs)
  end.

(** The same runs on a sequence; [None] when it would exceed the queue. *)
Fixpoint run_fifo (ops : list kb_op) (l : list KEYBOARD_INPUT_DATA)
  : option (list KEYBOARD_INPUT_DATA * list (option KEYBOARD_INPUT_DATA)) :=
  match ops with
  | [] => Some (l, [])
  | Push kid :: ops => if decide (length l < 100)%nat then run_fifo ops (l ++ [kid]) else None
  | Pop :: ops =>
      '(l', rs) ← run_fifo ops (tail l);
      Some (l', head l :: rs)
  end.

(** Any sequence of pushes by the threads of the keyboards and pops by
    [kb_read] runs without a fault and refines a first-in first-out queue, as
    long as at most 100 items wait. *)
Theorem kb_queue_refines ops q l l' rs :
  represents q l → run_fifo ops l = Some (l', rs) →
  ∃ q', run_ops ops q = Ret (q', rs) ∧ represents q' l'.
Proof.
  revert q l l' rs. induction ops as [|[kid|] ops IH]; intros q l l' rs Hq; cbn [run_fifo run_ops].
  - intros [= <- <-]. eauto.
  - case_decide; [|done]. intros Hr. destruct (push_item_ok q l kid) as (q1 & -> & H1); [done..|].
    simpl. eauto.
  - intros ([l1 rs1] & Hr & [= <- <-])%bind_Some. destruct l as [|x l].
    + rewrite pop_item_empty by done. simpl. destruct (IH q [] l1 rs1) as (q' & -> & H'); [done..|].
      simpl. eauto.
    + destruct (pop_item_ok q x l) as (q1 & -> & H1); [done|]. simpl.
      destruct (IH q1 l l1 rs1) as (q' & -> & H'); [done..|]. simpl. eauto.
Qed.

Definition key (code flags : Z) : KEYBOARD_INPUT_DATA := InputData 0 code flags 0 0.

Lemma kb_queue_refines_witness :
  ∃ q', run_ops [Push (key 1 0); Push (key 2 0); Pop; Pop; Pop] empty_queue =
      Ret (q', [Some (key 1 0); Some (key 2 0); None]) ∧ represents q' [].
Proof.
  apply (kb_queue_refines [Push (key 1 0); Push (key 2 0); Pop; Pop; Pop] empty_queue []).
  - apply empty_queue_represents.
  - reflexivity.
Defined.

(** A push to a full queue whose oldest item is at the end of the array
    moves the start of the queue outside the array, and the next pop reads
    outside it. *)
Theorem kb_queue_overflow q l kid :
  represents q l → length l = 100%nat → start_index q = 99 →
  ∃ q', push_item kid q = Ret q' ∧ pop_item q' = Fault.
Proof.
  intros H Hl Hst. rewrite (push_item_eq q l), Hl by done. cbv zeta. rewrite decide_True by done.
  eexists. split; [done|]. unfold pop_item. simpl. rewrite Hst. simpl.
  rewrite lookup_ge_None_2; [done|]. rewrite length_insert, (rep_size _ _ H).
  unfold KB_QUEUE_LENGTH. lia.
Qed.

Lemma kb_queue_overflow_witness :
  ∃ q', push_item (key 1 0) (KbQueue (replicate 100 (key 2 0)) 99 100) = Ret q' ∧
    pop_item q' = Fault.
Proof.
  apply (kb_queue_overflow _ (replicate 100 (key 2 0))); [|done..]. split; try done.
  intros i Hi. rewrite length_replicate in Hi. cbn [kids start_index].
  rewrite (lookup_replicate_2 100 _ i) by done. apply lookup_replicate_2, ring_range.
Defined.

(** ** Polling *)
Section kb_read_thy.
Context (arrivals : nat → list KEYBOARD_INPUT_DATA) (synch : nat → bool) (xtime : nat → Z).
Context (number_of_keyboards : Z).

Lemma kb_read_loop_total fuel msec attempts start s :
  u32 msec ≠ 0xFFFFFFFF → 0 < attempts < 2 ^ 31 → (Z.to_nat attempts ≤ fuel)%nat →
  kb_read_loop arrivals synch xtime number_of_keyboards fuel msec attempts start s ≠ NoFuel.
Proof.
  intros Hm. revert attempts s. induction fuel as [|fuel IH]; intros attempts s Ha Hf; [lia|].
  cbn [kb_read_loop]. destruct (_ =? 0); [done|].
  assert (Hp : ∀ ks q, push_items ks q ≠ NoFuel).
  { induction ks as [|k ks IHk]; intros q; simpl; [done|]. unfold push_item.
    destruct (_ =? KB_QUEUE_LENGTH); destruct (_ || _); simpl; (done || apply IHk). }
  destruct (push_items _ _) as [q| |] eqn:Eq; [|done|by destruct (Hp _ _ Eq)]. simpl.
  destruct (negb (synch _)); [done|].
  destruct (pop_item q) as [[[kid|] q']| |] eqn:Ep; simpl; [done| |done|].
  2: { unfold pop_item in Ep. repeat case_match; done. }
  rewrite (proj2 (Z.eqb_neq _ _)) by done. simpl. rewrite s32_small by lia.
  destruct (Z.eqb_spec (attempts - 1) 0); [done|]. destruct (negb _ && _); [done|].
  apply IH; lia.
Qed.

(** With a time-out [kb_read] ends after at most [msec / 10 + 1] polls,
    whatever the clock, the threads and the synchronisation do. *)
Theorem kb_read_terminates fuel msec s :
  0 ≤ msec < 2 ^ 31 → (Z.to_nat (msec / 10) < fuel)%nat →
  kb_read arrivals synch xtime number_of_keyboards fuel msec s ≠ NoFuel.
Proof.
  intros Hm Hf. unfold kb_read. rewrite u32_small by lia.
  rewrite (proj2 (Z.eqb_neq msec _)) by lia. simpl. unfold MAX_TYPING_DELAY.
  rewrite Z.quot_div_nonneg by lia. pose proof (Z.div_pos msec 10 ltac:(lia) ltac:(lia)).
  assert (msec / 10 ≤ msec) by (apply Z.div_le_upper_bound; lia).
  apply kb_read_loop_total; [rewrite u32_small by lia; lia| |lia].
  split; [lia|]. apply Z.le_lt_trans with (msec / 10 + 1); [lia|].
  assert (msec / 10 < 2 ^ 30) by (apply Z.div_lt_upper_bound; lia). lia.
Qed.

(** A key that arrives at the [k]-th poll, with the synchronisation working
    and the clock below the time-out so far, is returned by [kb_read] at that
    poll. *)
Theorem kb_read_delivers fuel msec s kid k :
  number_of_keyboards ≠ 0 → 0 ≤ msec < 2 ^ 31 → represents (queue s) [] →
  (∀ i, (i < k)%nat → arrivals (poll s + i) = []) → arrivals (poll s + k) = [kid] →
  (∀ i, (i ≤ k)%nat → synch (poll s + i) = true) →
  (∀ i, (i ≤ k)%nat → 0 ≤ xtime (poll s + i) - xtime (poll s) < msec) →
  Z.of_nat k ≤ msec / 10 → (k < fuel)%nat →
  ∃ q, kb_read arrivals synch xtime number_of_keyboards fuel msec s =
    Ret (Some kid, KbState q (S (poll s + k)) (kb_read_time_elapsed s)) ∧ represents q [].
Proof.
  intros Hn Hm Hq Ha Hk Hsy Hx Hmk Hf. unfold kb_read. rewrite u32_small by lia.
  rewrite (proj2 (Z.eqb_neq msec _)) by lia. simpl. unfold MAX_TYPING_DELAY.
  rewrite Z.quot_div_nonneg by lia.
  assert (msec / 10 < 2 ^ 30) by (apply Z.div_lt_upper_bound; lia).
  assert (Hat : Z.of_nat k < msec / 10 + 1 < 2 ^ 31) by lia.
  revert Hat. generalize (msec / 10 + 1) as attempts. clear Hmk H. 
  remember (xtime (poll s)) as start eqn:Est. clear Est.
  revert s fuel Hq Ha Hk Hsy Hx Hf. induction k as [|k IH]; intros s fuel Hq Ha Hk Hsy Hx Hf attempts Hat.
  - destruct fuel as [|fuel]; [lia|]. cbn [kb_read_loop].
    rewrite (proj2 (Z.eqb_neq _ 0)) by done. rewrite Nat.add_0_r in Hk. rewrite Hk. cbn [push_items].
    destruct (push_item_ok (queue s) [] kid Hq) as (q1 & -> & H1); [simpl; lia|]. simpl.
    rewrite <- (Nat.add_0_r (poll s)), Hsy, Nat.add_0_r by lia. simpl.
    destruct (pop_item_ok q1 kid [] H1) as (q2 & -> & H2). simpl. exists q2.
    by rewrite ?Nat.add_0_r.
  - destruct fuel as [|fuel]; [lia|]. cbn [kb_read_loop].
    rewrite (proj2 (Z.eqb_neq _ 0)) by done.
    pose proof (Ha O ltac:(lia)) as H0. pose proof (Hsy O ltac:(lia)) as H1.
    rewrite Nat.add_0_r in H0, H1. rewrite H0, H1. simpl. rewrite pop_item_empty by done. simpl.
    rewrite u32_small by lia. rewrite (proj2 (Z.eqb_neq msec _)) by lia. simpl.
    rewrite s32_small by lia. rewrite (proj2 (Z.eqb_neq (attempts - 1) 0)) by lia.
    pose proof (Hx 1%nat ltac:(lia)) as Hx1. rewrite Nat.add_1_r in Hx1.
    rewrite !u64_small, (proj2 (Z.leb_gt _ _)), andb_false_r by lia.
    rewrite Nat.add_succ_r, <- Nat.add_succ_l.
    apply (IH (KbState (queue s) (S (poll s)) (kb_read_time_elapsed s))); simpl; try done; try lia.
    + intros i Hi. rewrite <- Nat.add_succ_r. apply Ha. lia.
    + by rewrite <- Nat.add_succ_r.
    + intros i Hi. rewrite <- Nat.add_succ_r. apply Hsy. lia.
    + intros i Hi. rewrite <- Nat.add_succ_r. apply Hx. lia.
Qed.
End kb_read_thy.

Lemma kb_read_terminates_witness :
  kb_read (fun _ => []) (fun _ => true) (fun _ => 0) 1 5 30 (KbState empty_queue 0 false) ≠ NoFuel.
Proof.
  apply (kb_read_terminates (fun _ => []) (fun _ => true) (fun _ => 0) 1 5 30); [lia|].
  vm_compute. lia.
Defined.

Lemma kb_read_delivers_witness :
  ∃ q, kb_read (fun i => if decide (i = 2)%nat then [key 30 0] else []) (fun _ => true)
         (fun i => 10 * Z.of_nat i) 1 5 30 (KbState empty_queue 0 false) =
    Ret (Some (key 30 0), KbState q 3 false) ∧ represents q [].
Proof.
  apply (kb_read_delivers (fun i => if decide (i = 2)%nat then [key 30 0] else []) (fun _ => true)
    (fun i => 10 * Z.of_nat i) 1 5 30 (KbState empty_queue 0 false) (key 30 0) 2);
    simpl; try done; try lia.
  - apply empty_queue_represents.
  - intros i Hi. by rewrite decide_False by lia.
Defined.

(** ** The table of keyboards *)

(** The occupied slots come first and are counted. *)
Definition table_ok (st : list KEYBOARD * Z) : Prop :=
  ∃ used free, st.1 = used ++ free ∧ Forall (fun k => hKbDevice k ≠ 0) used ∧
    Forall (fun k => hKbDevice k = 0) free ∧ st.2 = Z.of_nat (length used).

Lemma add_keyboard_ok k used free :
  Forall (fun k => hKbDevice k ≠ 0) used → Forall (fun k => hKbDevice k = 0) free →
  add_keyboard k (used ++ free) =
  match free with [] => None | _ :: free => Some (used ++ k :: free) end.
Proof.
  intros Hu Hf. induction Hu as [|x used Hx Hu IH]; cbn [app add_keyboard].
  - destruct Hf as [|y free Hy Hf]; [done|]. simpl. by rewrite Hy.
  - rewrite (proj2 (Z.eqb_neq _ _)), IH by done. by destruct free.
Qed.

Lemma close_keyboards_ok used free n :
  Forall (fun k => hKbDevice k ≠ 0) used → Forall (fun k => hKbDevice k = 0) free →
  close_keyboards (used ++ free) n =
  (((fun k => Keyboard (device_number k) 0 0) <$> used) ++ free, n - Z.of_nat (length used)).
Proof.
  intros Hu Hf. revert n. induction Hu as [|x used Hx Hu IH]; intros n; cbn [app close_keyboards].
  - destruct Hf as [|y free Hy Hf]; simpl; [by rewrite Z.sub_0_r|]. by rewrite Hy, Z.sub_0_r.
  - rewrite (proj2 (Z.eqb_neq _ _)), IH by done. simpl. f_equal. lia.
Qed.

Section devices_thy.
Context (open_device : Z → option Z) (create_event : Z → option Z).
Context (create_synch_event : option Z) (create_thread : KEYBOARD → bool).
Context (Hopen : ∀ n h, open_device n = Some h → h ≠ 0).

Lemma kb_open_device_ok n st :
  table_ok st → table_ok (kb_open_device open_device create_event n st) ∧
  length (kb_open_device open_device create_event n st).1 = length st.1.
Proof.
  intros Ht. pose proof Ht as (used & free & E & Hu & Hf & Hn). destruct st as [kb number].
  simpl in E, Hn. subst kb number. unfold kb_open_device.
  destruct (open_device n) as [h|] eqn:Eo; [|done]. destruct (create_event n) as [e|]; [|done].
  rewrite add_keyboard_ok by done. destruct free as [|y free]; [done|].
  apply Forall_cons in Hf as [_ Hf]. split; [|by simpl; rewrite !length_app].
  exists (used ++ [Keyboard n h e]), free. rewrite <- app_assoc. split; [done|].
  split; [|split; [done|rewrite length_app; simpl; lia]].
  apply Forall_app. split; [done|]. apply Forall_cons. split; [by eapply Hopen|done].
Qed.

Lemma open_devices_ok ns st :
  table_ok st → table_ok (foldl (fun st n => kb_open_device open_device create_event n st) st ns).
Proof.
  revert st. induction ns as [|n ns IH]; intros st Hst; [done|]. cbn [foldl].
  apply IH. by destruct (kb_open_device_ok n st Hst).
Qed.

Lemma kb_close_ok st : table_ok st →
  (kb_close st).2 = 0 ∧ Forall (fun k => hKbDevice k = 0) (kb_close st).1.
Proof.
  intros (used & free & E & Hu & Hf & Hn). unfold kb_close. rewrite E, Hn.
  rewrite close_keyboards_ok by done. split; [simpl; lia|]. simpl.
  apply Forall_app. split; [|done]. apply Forall_fmap, Forall_true. done.
Qed.

(** [kb_open] leaves the keyboards it found in the first slots of the table
    and their number in the counter, or none of them when a thread cannot be
    started; [kb_close] closes all of them and brings the counter back to
    zero. *)
Theorem kb_open_invariant r st :
  kb_open open_device create_event create_synch_event create_thread = (r, st) →
  table_ok st ∧ (r = 0 → 0 < st.2) ∧
  (kb_close st).2 = 0 ∧ Forall (fun k => hKbDevice k = 0) (kb_close st).1.
Proof.
  intros E. cut (table_ok st ∧ (r = 0 → 0 < st.2)).
  { intros [Ht Hr]. split; [done|]. split; [done|]. by apply kb_close_ok. }
  assert (H0 : table_ok (replicate (Z.to_nat MAX_NUM_OF_KEYBOARDS) no_keyboard, 0)).
  { exists [], (replicate (Z.to_nat MAX_NUM_OF_KEYBOARDS) no_keyboard). split; [done|].
    split; [done|]. split; [|done]. by apply Forall_replicate. }
  unfold kb_open in E. destruct create_synch_event; [|injection E as <- <-; done].
  apply (open_devices_ok (seqZ 0 MAX_NUM_OF_KEYBOARDS)) in H0. revert H0 E.
  generalize (foldl (fun st n => kb_open_device open_device create_event n st)
    (replicate (Z.to_nat MAX_NUM_OF_KEYBOARDS) no_keyboard, 0) (seqZ 0 MAX_NUM_OF_KEYBOARDS)).
  intros st1 H1 E. destruct (negb (start_threads create_thread st1.1)).
  - injection E as <- <-. split; [|done]. destruct (kb_close_ok st1 H1) as [Hn Hf].
    exists [], (kb_close st1).1. repeat split; done.
  - destruct H1 as (used & free & Eu & Hu & Hf & Hn).
    destruct (Z.eqb_spec (hKbDevice (nth 0 st1.1 no_keyboard)) 0) as [Hz|Hz]; injection E as <- <-.
    + split; [|done]. by exists used, free.
    + split; [by exists used, free|]. intros _. rewrite Hn. destruct used as [|x used]; [|simpl; lia].
      rewrite Eu in Hz. destruct free as [|y free]; [done|]. apply Forall_cons in Hf as [Hy _]. done.
Qed.
End devices_thy.

Lemma kb_open_invariant_witness :
  let od n := if n <? 2 then Some (n + 1) else None in
  let st := ([Keyboard 0 1 7; Keyboard 1 2 7] ++ replicate 98 no_keyboard, 2) in
  table_ok st ∧ (0 = 0 → 0 < st.2) ∧
  (kb_close st).2 = 0 ∧ Forall (fun k => hKbDevice k = 0) (kb_close st).1.
Proof.
  apply (kb_open_invariant (fun n => if n <? 2 then Some (Z.abs n + 1) else None) (fun _ => Some 7)
           (Some 1) (fun _ => true)).
  - intros n h. destruct (n <? 2); [|done]. intros [= <-]. lia.
  - vm_compute. reflexivity.
Defined.

(** The key in the upper left corner has a grave accent; the table has an
    apostrophe, as for the key at 0x28. *)
Example grave_accent_key : (IntTranslateKey (key 0x29 0) 0).1 = KbdRecord 0x29 0 0x27 true.
Proof. reflexivity. Qed.
