(* ===== verification/KbThreads.v ===== *)
(** * keyboard.c: the threads of the keyboards

    One thread per keyboard runs kb_wait_for_input while the program calls
    kb_open, kb_read and kb_close.  A system is the global variables, the
    threads, each at its place in its code, and the place of the program; a step
    of a thread or of the program is one access to what they share, and the
    increment and the decrement of a counter are two (a read and a write).  An
    [answer] is what the system says, or the call that the program makes next.
    Times are left out: a wait may end with a time-out whenever its event is not
    signaled (see [kb_read] for the polling in time). *)
From S2P Require Import Prelude DList CString FileInfo Keyboard.
From stdpp Require Import prelude gmap strings.
Open Scope Z_scope.

(** ** Data *)

(** The global variables; [hKbSynchEvent] is its state, [None] its handle being
    NULL. *)
Record globals : Type := Globals {
  kb : list KEYBOARD;
  number_of_keyboards : Z;
  kb_items : kb_queue;
  hKbSynchEvent : option bool;
  stop_kb_wait_for_input : bool;
  kb_wait_for_input_threads : Z;
}.

Definition set_kb (x : list KEYBOARD) (n : Z) (g : globals) : globals :=
  Globals x n (kb_items g) (hKbSynchEvent g) (stop_kb_wait_for_input g) (kb_wait_for_input_threads g).

Definition set_items (q : kb_queue) (g : globals) : globals :=
  Globals (kb g) (number_of_keyboards g) q (hKbSynchEvent g) (stop_kb_wait_for_input g) (kb_wait_for_input_threads g).

Definition set_synch (b : option bool) (g : globals) : globals :=
  Globals (kb g) (number_of_keyboards g) (kb_items g) b (stop_kb_wait_for_input g) (kb_wait_for_input_threads g).

Definition set_stop (b : bool) (g : globals) : globals :=
  Globals (kb g) (number_of_keyboards g) (kb_items g) (hKbSynchEvent g) b (kb_wait_for_input_threads g).

Definition set_counter (n : Z) (g : globals) : globals :=
  Globals (kb g) (number_of_keyboards g) (kb_items g) (hKbSynchEvent g) (stop_kb_wait_for_input g) n.

(** NtSetEvent; it fails for NULL. *)
Definition signal (g : globals) : globals :=
  set_synch (match hKbSynchEvent g with Some _ => Some true | None => None end) g.

(** How a wait for a key ends: with a key, with a time-out, or with an error
    (of the wait or of the read). *)
Inductive wait_status : Type :=
| Key (kid : KEYBOARD_INPUT_DATA)
| Timeout
| Error.

(** What the system answers. *)
Inductive answer : Type :=
| Success
| Failure
| Ended (status : wait_status)
| CallOpen
| CallRead
| CallClose.

(** Places in kb_wait_for_input. *)
Inductive pc : Type :=
| Starting
| Incrementing (n : Z)
| Looping
| Requesting
| Waiting
| Waited (status : wait_status)
| Cancelling
| Locking (kid : KEYBOARD_INPUT_DATA)
| Pushing (kid : KEYBOARD_INPUT_DATA)
| Releasing
| Done
| Decrementing (n : Z)
| Exited.

(** Places in the program: outside, in kb_open, in kb_read and in kb_close. *)
Inductive main_pc : Type :=
| Idle
| Opening
| Resetting
| Counting
| Launching (i : nat)
| Polling
| Popping
| Freeing (kid : option KEYBOARD_INPUT_DATA)
| Sleeping
| Stopping (n : nat)
| Closing (i : nat)
| Destroying.

(** What a step adds to the history. *)
Inductive note : Type :=
| Silent
| Gathered (kid : KEYBOARD_INPUT_DATA)
| Pushed (kid : KEYBOARD_INPUT_DATA) (full : bool)
| Popped (kid : KEYBOARD_INPUT_DATA)
| Launched (i : nat)
| Forced.

(** ** The thread *)

Definition device (i : nat) (g : globals) : Z := hKbDevice (nth i (kb g) no_keyboard).

(** One step of the thread for the slot [i]: its next place, the globals and
    what is noted; [None] when the answer does not fit.  Writing to the queue
    outside its array is [None] too (see [kb_items_safe]). *)
Definition kb_wait_for_input (i : nat) (a : answer) (p : pc) (g : globals) : option (pc * globals * note) :=
  match p, a with
  | Starting, Success => Some (Incrementing (kb_wait_for_input_threads g), g, Silent)
  | Incrementing n, Success => Some (Looping, set_counter (n + 1) g, Silent)
  | Looping, Success => Some (if stop_kb_wait_for_input g then Done else Requesting, g, Silent)
  | Requesting, Success => if device i g =? 0 then None else Some (Waiting, g, Silent)
  | Requesting, Failure => Some (Done, g, Silent)
  | Waiting, Ended status => Some (Waited status, g, Silent)
  | Waited status, Success =>
      if stop_kb_wait_for_input g
      then Some (match status with Timeout => Cancelling | _ => Done end, g, Silent)
      else match status with
           | Key kid => Some (Locking kid, g, Gathered kid)
           | Timeout => Some (Waiting, g, Silent)
           | Error => Some (Done, g, Silent)
           end
  | Cancelling, Success => Some (Done, g, Silent)
  | Locking kid, Success =>
      match hKbSynchEvent g with
      | Some true => Some (Pushing kid, set_synch (Some false) g, Silent)
      | _ => None
      end
  | Locking kid, Failure =>
      match hKbSynchEvent g with
      | Some true => None
      | _ => Some (Done, g, Silent)
      end
  | Pushing kid, Success =>
      match push_item kid (kb_items g) with
      | Ret q => Some (Releasing, set_items q g, Pushed kid (n_written (kb_items g) =? KB_QUEUE_LENGTH))
      | _ => None
      end
  | Releasing, Success => Some (Looping, signal g, Silent)
  | Done, Success => Some (Decrementing (kb_wait_for_input_threads g), g, Silent)
  | Decrementing n, Success => Some (Exited, set_counter (n - 1) g, Silent)
  | _, _ => None
  end.

(** ** The program *)

(** [memset] in kb_open. *)
Definition no_keyboards : list KEYBOARD := replicate (Z.to_nat MAX_NUM_OF_KEYBOARDS) no_keyboard.

Section program.
Context (open_device create_event : Z → option Z).

(** The devices that are there. *)
Definition opened_devices : list KEYBOARD * Z :=
  foldl (fun st n => kb_open_device open_device create_event n st)
    (no_keyboards, 0) (seqZ 0 MAX_NUM_OF_KEYBOARDS).

(** kb_open. *)
Definition open_step (a : answer) (p : main_pc) (g : globals) : option (main_pc * globals * note) :=
  match p, a with
  | Opening, Failure => Some (Idle, set_synch None g, Silent)
  | Opening, Success =>
      Some (Resetting, set_synch (Some true) (set_kb opened_devices.1 opened_devices.2 g), Silent)
  | Resetting, Success => Some (Counting, set_stop false g, Silent)
  | Counting, Success => Some (Launching 0, set_counter 0 g, Silent)
  | Launching i, Success => if device i g =? 0 then Some (Idle, g, Silent) else Some (Launching (S i), g, Launched i)
  | Launching i, Failure => if device i g =? 0 then None else Some (Stopping 30, set_stop true g, Silent)
  | _, _ => None
  end.

(** kb_read. *)
Definition read_step (a : answer) (p : main_pc) (g : globals) : option (main_pc * globals * note) :=
  match p, a with
  | Polling, Success =>
      if number_of_keyboards g =? 0 then Some (Idle, g, Silent) else
      match hKbSynchEvent g with
      | Some true => Some (Popping, set_synch (Some false) g, Silent)
      | _ => None
      end
  | Polling, Failure =>
      match hKbSynchEvent g with
      | Some true => None
      | _ => Some (Idle, g, Silent)
      end
  | Popping, Success =>
      match pop_item (kb_items g) with
      | Ret (kid, q) =>
          Some (Freeing kid, set_items q g, match kid with Some kid => Popped kid | None => Silent end)
      | _ => None
      end
  | Freeing (Some _), Success => Some (Idle, signal g, Silent)
  | Freeing None, Success => Some (Sleeping, signal g, Silent)
  | Sleeping, Success => Some (Polling, g, Silent)
  | Sleeping, Failure => Some (Idle, g, Silent)
  | _, _ => None
  end.

(** kb_close; when the threads do not end in time, that is [Forced]. *)
Definition close_step (a : answer) (p : main_pc) (g : globals) : option (main_pc * globals * note) :=
  match p, a with
  | Stopping (S n), Success =>
      if kb_wait_for_input_threads g =? 0 then Some (Closing 0, g, Silent) else Some (Stopping n, g, Silent)
  | Stopping O, Success =>
      if kb_wait_for_input_threads g =? 0 then Some (Closing 0, g, Silent) else Some (Closing 0, g, Forced)
  | Closing i, Success =>
      if device i g =? 0 then Some (Destroying, g, Silent) else
      Some (Closing (S i),
            set_kb (<[i := Keyboard (device_number (nth i (kb g) no_keyboard)) 0 0]> (kb g)) (number_of_keyboards g - 1) g,
            Silent)
  | Destroying, Success => Some (Idle, set_synch None g, Silent)
  | _, _ => None
  end.

Definition program_step (a : answer) (p : main_pc) (g : globals) : option (main_pc * globals * note) :=
  match p, a with
  | Idle, CallOpen =>
      Some (Opening, set_kb no_keyboards 0 g, Silent)
  | Idle, CallRead => Some (Polling, g, Silent)
  | Idle, CallClose => Some (Stopping 30, set_stop true g, Silent)
  | (Opening | Resetting | Counting | Launching _), _ => open_step a p g
  | (Polling | Popping | Freeing _ | Sleeping), _ => read_step a p g
  | (Stopping _ | Closing _ | Destroying), _ => close_step a p g
  | Idle, _ => None
  end.

(** ** Systems *)

(** Keys with the threads that read them; keys read by the program; whether a
    key was pushed to a full queue, and whether kb_close gave up waiting. *)
Record history : Type := History {
  gathered : list (nat * KEYBOARD_INPUT_DATA);
  pushed : list (nat * KEYBOARD_INPUT_DATA);
  popped : list KEYBOARD_INPUT_DATA;
  overflown : bool;
  forced : bool;
}.

Record kb_system : Type := KbSystem {
  state : globals;
  threads : list (nat * pc);
  program : main_pc;
  past : history;
}.

Definition noted (t : nat) (n : note) (h : history) : history :=
  match n with
  | Gathered kid => History (gathered h ++ [(t, kid)]) (pushed h) (popped h) (overflown h) (forced h)
  | Pushed kid full => History (gathered h) (pushed h ++ [(t, kid)]) (popped h) (overflown h || full) (forced h)
  | Popped kid => History (gathered h) (pushed h) (popped h ++ [kid]) (overflown h) (forced h)
  | Forced => History (gathered h) (pushed h) (popped h) (overflown h) true
  | _ => h
  end.

(** A step of the program, or of the thread [t]. *)
Inductive event : Type :=
| Main (a : answer)
| Thread (t : nat) (a : answer).

Definition kb_step (e : event) (s : kb_system) : option kb_system :=
  match e with
  | Main a =>
      '(p, g, n) ← program_step a (program s) (state s);
      Some (KbSystem g (match n with Launched i => threads s ++ [(i, Starting)] | _ => threads s end) p
              (noted 0 n (past s)))
  | Thread t a =>
      '(i, p) ← threads s !! t;
      '(p, g, n) ← kb_wait_for_input i a p (state s);
      Some (KbSystem g (<[t := (i, p)]> (threads s)) (program s) (noted t n (past s)))
  end.

Fixpoint kb_run (es : list event) (s : kb_system) : option kb_system :=
  match es with
  | [] => Some s
  | e :: es => s ← kb_step e s; kb_run es s
  end.

(** kb_open has opened the devices and starts the threads; [q] is the queue. *)
Definition session_start (q : kb_queue) : kb_system :=
  KbSystem (Globals opened_devices.1 opened_devices.2 q (Some true) false 0) [] (Launching 0)
    (History [] [] [] false false).
End program.

(** ** Theory *)

(** How many threads are at places with a property. *)
Fixpoint tally (f : pc → bool) (l : list (nat * pc)) : nat :=
  match l with
  | [] => 0
  | (_, p) :: l => Nat.b2n (f p) + tally f l
  end.

Lemma tally_insert f l t i p p' :
  l !! t = Some (i, p) →
  (tally f (<[t := (i, p')]> l) + Nat.b2n (f p) = tally f l + Nat.b2n (f p'))%nat.
Proof.
  revert t. induction l as [|[j q] l IH]; intros [|t] H; simplify_eq/=; [lia|].
  specialize (IH t H). lia.
Qed.

Lemma tally_app f l l' : tally f (l ++ l') = (tally f l + tally f l')%nat.
Proof. induction l as [|[j q] l IH]; simpl; lia. Qed.

Lemma tally_lookup f l t i p : l !! t = Some (i, p) → f p = true → (0 < tally f l)%nat.
Proof.
  revert t. induction l as [|[j q] l IH]; intros [|t] H Hf; simplify_eq/=; [rewrite Hf; simpl; lia|].
  specialize (IH t H Hf). lia.
Qed.

Lemma tally_mono f g l : (∀ p, f p = true → g p = true) → (tally f l ≤ tally g l)%nat.
Proof.
  intros H. induction l as [|[j q] l IH]; simpl; [lia|]. specialize (H q).
  destruct (f q), (g q); simpl; try lia; by specialize (H eq_refl).
Qed.

(** Places between a wait for the event of the queue and its signal. *)
Definition holding (p : pc) : bool := match p with Pushing _ | Releasing => true | _ => false end.
Definition main_holding (p : main_pc) : bool := match p with Popping | Freeing _ => true | _ => false end.

Definition holders (s : kb_system) : nat := tally holding (threads s) + Nat.b2n (main_holding (program s)).

Definition in_session (p : main_pc) : Prop :=
  match p with Opening | Resetting | Counting => False | _ => True end.

(** Threads that have not ended. *)
Definition running (p : pc) : bool := match p with Exited => false | _ => true end.

Definition all_exited (s : kb_system) : Prop := tally running (threads s) = 0%nat.

Lemma tally_exited f s : f Exited = false → all_exited s → tally f (threads s) = 0%nat.
Proof.
  unfold all_exited. intros Hf H. assert (tally f (threads s) ≤ tally running (threads s))%nat; [|lia].
  apply tally_mono. intros p Hp. destruct p; try done. congruence.
Qed.

(** kb_open is called again only when all threads have ended. *)
Definition orderly (e : event) (s : kb_system) : Prop := e = Main CallOpen → all_exited s.

(** The keys of one thread, in their order. *)
Definition keys_of (t : nat) (l : list (nat * KEYBOARD_INPUT_DATA)) : list KEYBOARD_INPUT_DATA :=
  (base.filter (fun x => x.1 = t) l).*2.

Lemma keys_of_app t l l' : keys_of t (l ++ l') = keys_of t l ++ keys_of t l'.
Proof. unfold keys_of. by rewrite filter_app, fmap_app. Qed.

Lemma keys_of_same t k : keys_of t [(t, k)] = [k].
Proof. unfold keys_of. by rewrite filter_cons_True. Qed.

Lemma keys_of_other t t' k : t ≠ t' → keys_of t [(t', k)] = [].
Proof. intros H. unfold keys_of. rewrite filter_cons_False; [done|]. simpl. congruence. Qed.

(** The key that a thread has gathered and not pushed. *)
Definition in_flight (p : pc) : list KEYBOARD_INPUT_DATA :=
  match p with Locking kid | Pushing kid => [kid] | _ => [] end.

Definition leaving (p : pc) : bool := match p with Done | Decrementing _ | Exited => true | _ => false end.

(** What a thread gathered is what it pushed and the key that it holds; one that
    leaves may have dropped its last key. *)
Definition keys_ok (t : nat) (p : pc) (h : history) : Prop :=
  ∃ dropped, keys_of t (gathered h) = keys_of t (pushed h) ++ in_flight p ++ dropped ∧
    if leaving p then (length dropped ≤ 1)%nat else dropped = [].

Record session_inv (s : kb_system) : Prop := {
  si_program : in_session (program s) ∨ all_exited s;
  si_synch : match hKbSynchEvent (state s) with
             | Some true => holders s = 0%nat
             | Some false => holders s = 1%nat
             | None => (holders s ≤ 1)%nat
             end;
  si_queue : overflown (past s) = false →
    ∃ l, represents (kb_items (state s)) l ∧ popped (past s) ++ l = (pushed (past s)).*2;
  si_keys t i p : threads s !! t = Some (i, p) → keys_ok t p (past s);
  si_new t : (length (threads s) ≤ t)%nat → keys_of t (gathered (past s)) = [] ∧ keys_of t (pushed (past s)) = [];
}.

#[local] Opaque opened_devices.
#[local] Opaque no_keyboards.

Section theory.
Context (open_device create_event : Z → option Z).
Abbreviation step := (kb_step open_device create_event).
Abbreviation run := (kb_run open_device create_event).
Abbreviation start := (session_start open_device create_event).
Implicit Types (s : kb_system) (g : globals).

Lemma start_inv q : represents q [] → session_inv (start q).
Proof.
  intros Hq. split; try done; [by left|]. intros _. by exists [].
Qed.

(** A push keeps a queue that does not overflow. *)
Lemma push_represents q l kid q' :
  represents q l → push_item kid q = Ret q' → (n_written q =? KB_QUEUE_LENGTH) = false →
  represents q' (l ++ [kid]).
Proof.
  intros Hq E Hn. pose proof (rep_count _ _ Hq) as Hc. pose proof (rep_bound _ _ Hq) as Hb.
  apply Z.eqb_neq in Hn. destruct (push_item_ok q l kid) as (q1 & E1 & H1); [done| |congruence].
  unfold KB_QUEUE_LENGTH in *. lia.
Qed.

Lemma pop_represents q l kid q' :
  represents q l → pop_item q = Ret (kid, q') →
  ∃ l', represents q' l' ∧ l = match kid with Some k => [k] | None => [] end ++ l'.
Proof.
  intros Hq E. destruct l as [|x l].
  - rewrite pop_item_empty in E by done. simplify_eq. by exists [].
  - destruct (pop_item_ok q x l Hq) as (q1 & E1 & H1). rewrite E1 in E. simplify_eq. by exists l.
Qed.

Lemma keys_ok_silent t p p' h :
  keys_ok t p h → in_flight p' = in_flight p → (leaving p = true → leaving p' = true) → keys_ok t p' h.
Proof.
  intros (d & E & Hd) Hf Hl. exists d. rewrite Hf. split; [done|].
  destruct (leaving p); [by rewrite Hl|]. subst. destruct (leaving p'); [simpl; lia|done].
Qed.

(** *** Steps of a thread *)
Ltac code_cases H :=
  repeat match type of H with context [match ?x with _ => _ end] => destruct x eqn:? end; simplify_eq/=.

(** A step leaves the event alone, or takes it, or gives it back. *)
Lemma thread_synch i a p g p' g' n :
  kb_wait_for_input i a p g = Some (p', g', n) →
  (holding p' = holding p ∧ hKbSynchEvent g' = hKbSynchEvent g) ∨
  (holding p = false ∧ holding p' = true ∧ hKbSynchEvent g = Some true ∧ hKbSynchEvent g' = Some false) ∨
  (holding p = true ∧ holding p' = false ∧ hKbSynchEvent g' = hKbSynchEvent (signal g)).
Proof. intros H. unfold kb_wait_for_input in H. destruct p, a; code_cases H; auto 6. Qed.

Lemma thread_items i a p g p' g' n t h :
  kb_wait_for_input i a p g = Some (p', g', n) →
  (∃ kid full, p = Pushing kid ∧ n = Pushed kid full ∧ push_item kid (kb_items g) = Ret (kb_items g') ∧
     full = (n_written (kb_items g) =? KB_QUEUE_LENGTH)) ∨
  (kb_items g' = kb_items g ∧ pushed (noted t n h) = pushed h ∧ popped (noted t n h) = popped h ∧
     overflown (noted t n h) = overflown h).
Proof. intros H. unfold kb_wait_for_input in H. destruct p, a; code_cases H; eauto 10. Qed.

Lemma thread_keys i a p g p' g' n t h :
  kb_wait_for_input i a p g = Some (p', g', n) → keys_ok t p h → keys_ok t p' (noted t n h).
Proof.
  intros H K. unfold kb_wait_for_input in H. destruct p, a; code_cases H;
    try (by apply (keys_ok_silent _ _ _ _ K)); destruct K as (d & E & Hd); simplify_eq/=.
  - exists []. split; [|done]. simpl. by rewrite keys_of_app, keys_of_same, E, !app_nil_r.
  - exists [kid]. split; [done|]. simpl. lia.
  - exists [kid]. split; [done|]. simpl. lia.
  - exists []. split; [|done]. simpl. by rewrite keys_of_app, keys_of_same, E, !app_nil_r.
Qed.

Lemma noted_other t t' n h :
  t ≠ t' → keys_of t (gathered (noted t' n h)) = keys_of t (gathered h) ∧
           keys_of t (pushed (noted t' n h)) = keys_of t (pushed h).
Proof. intros H. destruct n; simpl; rewrite ?keys_of_app, ?keys_of_other, ?app_nil_r by done; done. Qed.

Lemma keys_ok_other t t' p n h : t ≠ t' → keys_ok t p h → keys_ok t p (noted t' n h).
Proof. intros H. unfold keys_ok. by destruct (noted_other t t' n h H) as [-> ->]. Qed.

(** A thread that has ended makes no step. *)
Lemma thread_exited s t i p a g p' g' n :
  all_exited s → threads s !! t = Some (i, p) → kb_wait_for_input i a p g = Some (p', g', n) → False.
Proof.
  unfold all_exited. intros He Ht H. destruct (running p) eqn:E.
  - pose proof (tally_lookup running _ _ _ _ Ht E). lia.
  - destruct p; done.
Qed.

Lemma thread_step_inv t a s s' : session_inv s → step (Thread t a) s = Some s' → session_inv s'.
Proof.
  intros [Hp Hs Hq Hk Hn] H. simpl in H.
  apply bind_Some in H as ([i p] & Ht & H). apply bind_Some in H as ([[p' g'] n] & Hstep & [= <-]).
  pose proof (tally_insert holding _ _ _ _ p' Ht) as Hc. pose proof (tally_lookup holding _ _ _ _ Ht) as Hl.
  split; cbn [program state threads past].
  - destruct Hp as [Hp|Hp]; [by left|]. by apply (thread_exited _ _ _ _ _ _ _ _ _ Hp Ht) in Hstep.
  - unfold holders in *. cbn [program threads].
    destruct (thread_synch _ _ _ _ _ _ _ Hstep) as [[E ->]|[(E1 & E2 & E3 & ->)|(E1 & E2 & ->)]].
    + rewrite E in Hc. assert (tally holding (<[t:=(i, p')]> (threads s)) = tally holding (threads s)) as -> by lia. done.
    + rewrite E1, E2 in Hc. rewrite E3 in Hs. simpl in Hc. lia.
    + rewrite E1, E2 in Hc. specialize (Hl E1). simpl in Hc.
      unfold signal. simpl. destruct (hKbSynchEvent (state s)) as [[]|]; lia.
  - intros Ho. destruct (thread_items _ _ _ _ _ _ _ t (past s) Hstep) as [(kid & full & -> & -> & E & ->)|(-> & -> & -> & Eo)].
    + simpl in *. apply orb_false_iff in Ho as [Ho Hf]. destruct (Hq Ho) as (l & Hr & El).
      exists (l ++ [kid]). split; [by eapply push_represents|]. by rewrite fmap_app, <- El, app_assoc.
    + apply Hq. by rewrite <- Eo.
  - intros t' i' q' Ht'. destruct (decide (t' = t)) as [->|Hne].
    + rewrite list_lookup_insert_eq in Ht' by (by eapply lookup_lt_Some). simplify_eq.
      eapply thread_keys; eauto.
    + rewrite list_lookup_insert_ne in Ht' by done. apply keys_ok_other; eauto.
  - intros t' Ht'. rewrite length_insert in Ht'. apply lookup_lt_Some in Ht.
    destruct (noted_other t' t n (past s)) as [-> ->]; [lia|]. by apply Hn.
Qed.

(** *** Steps of the program *)
Lemma program_session a p g p' g' n :
  program_step open_device create_event a p g = Some (p', g', n) →
  in_session p' ∨ n = Silent ∧ (a = CallOpen ∨ ¬ in_session p).
Proof.
  intros H. unfold program_step, open_step, read_step, close_step in H. destruct p, a; try done; code_cases H; auto.
Qed.

(** A step leaves the event alone, or closes it, or takes it, or gives it back,
    or creates it. *)
Lemma program_synch a p g p' g' n :
  program_step open_device create_event a p g = Some (p', g', n) →
  (main_holding p' = main_holding p ∧ (hKbSynchEvent g' = hKbSynchEvent g ∨ hKbSynchEvent g' = None)) ∨
  (main_holding p = false ∧ main_holding p' = true ∧ hKbSynchEvent g = Some true ∧ hKbSynchEvent g' = Some false) ∨
  (main_holding p = true ∧ main_holding p' = false ∧ hKbSynchEvent g' = hKbSynchEvent (signal g)) ∨
  (¬ in_session p ∧ main_holding p' = false ∧ hKbSynchEvent g' = Some true).
Proof.
  intros H. unfold program_step, open_step, read_step, close_step in H. destruct p, a; try done;
    code_cases H; auto 7.
Qed.

Lemma program_items a p g p' g' n h :
  program_step open_device create_event a p g = Some (p', g', n) →
  pushed (noted 0 n h) = pushed h ∧ gathered (noted 0 n h) = gathered h ∧ overflown (noted 0 n h) = overflown h ∧
  ((∃ kid, pop_item (kb_items g) = Ret (kid, kb_items g') ∧
      popped (noted 0 n h) = popped h ++ match kid with Some k => [k] | None => [] end) ∨
   (kb_items g' = kb_items g ∧ popped (noted 0 n h) = popped h)).
Proof.
  intros H. unfold program_step, open_step, read_step, close_step in H. destruct p, a; try discriminate H;
    code_cases H; (split; [reflexivity|]); (split; [reflexivity|]); (split; [reflexivity|]); try (by right).
  - left. by eexists (Some _).
  - left. eexists None. by rewrite app_nil_r.
Qed.

Lemma program_step_inv a s s' :
  session_inv s → orderly (Main a) s → step (Main a) s = Some s' → session_inv s'.
Proof.
  intros [Hp Hs Hq Hk Hn] Ha H. simpl in H. apply bind_Some in H as ([[p' g'] n] & Hstep & [= <-]).
  destruct (program_items _ _ _ _ _ _ (past s) Hstep) as (Epu & Ega & Eo & Epo).
  pose proof (program_synch _ _ _ _ _ _ Hstep) as Hsy.
  assert (Hthr : ∃ new, match n with Launched i => threads s ++ [(i, Starting)] | _ => threads s end =
                   threads s ++ new ∧ Forall (fun x => x.2 = Starting) new ∧ (n = Silent → new = [])).
  { destruct n; try (exists []; by rewrite app_nil_r). exists [(i, Starting)].
    split; [done|]. split; [by repeat constructor | done]. }
  destruct Hthr as (new & -> & Hnew & Hsilent).
  assert (Hno : tally holding new = 0%nat) by (clear Hsilent; induction Hnew as [|[j q] l]; simplify_eq/=; done).
  split; cbn [program state threads past]; rewrite ?Epu, ?Ega, ?Eo.
  - destruct (program_session _ _ _ _ _ _ Hstep) as [?|[-> Hopen]]; [by left|]. right.
    unfold all_exited. cbn [threads]. rewrite (Hsilent eq_refl), app_nil_r.
    change (all_exited s). destruct Hopen as [->|Hopen]; [by apply Ha | destruct Hp as [Hp|Hp]; [by destruct Hopen | exact Hp]].
  - unfold holders in *. cbn [program threads]. rewrite tally_app, Hno.
    destruct Hsy as [(-> & [-> | ->])|[(E1 & -> & E3 & ->)|[(E1 & -> & ->)|(E1 & -> & ->)]]].
    + by rewrite Nat.add_0_r.
    + destruct (hKbSynchEvent (state s)) as [[]|]; lia.
    + rewrite E1, E3 in Hs. simpl in *. lia.
    + rewrite E1 in Hs. unfold signal. simpl in *. destruct (hKbSynchEvent (state s)) as [[]|]; lia.
    + destruct Hp as [Hp|Hp]; [by destruct E1|]. by rewrite (tally_exited holding s) by done.
  - intros Ho. destruct (Hq Ho) as (l & Hr & El). destruct Epo as [(kid & E & ->)|[-> ->]]; [|by exists l].
    destruct (pop_represents _ _ _ _ Hr E) as (l' & Hr' & ->). exists l'. split; [done|]. by rewrite <- app_assoc.
  - intros t i p Ht. unfold keys_ok. rewrite Epu, Ega. apply lookup_app_Some in Ht as [Ht|[Hl Ht]]; [by apply Hk in Ht|].
    destruct (Hn t Hl) as [-> ->]. apply (Forall_lookup_1 _ _ _ _ Hnew) in Ht. simpl in Ht. subst. by exists [].
  - intros t Ht. rewrite length_app in Ht. apply Hn. lia.
Qed.

(** A run in which kb_open is called again only when all threads have ended. *)
Fixpoint orderly_run (es : list event) (s : kb_system) : Prop :=
  match es with
  | [] => True
  | e :: es => orderly e s ∧ ∀ s', step e s = Some s' → orderly_run es s'
  end.

Lemma orderly_without es s : Main CallOpen ∉ es → orderly_run es s.
Proof.
  revert s. induction es as [|e es IH]; intros s He; [done|].
  apply not_elem_of_cons in He as [He1 He]. split; [by intros ->|]. auto.
Qed.

Lemma session_run_inv es s s' :
  session_inv s → orderly_run es s → run es s = Some s' → session_inv s'.
Proof.
  revert s. induction es as [|e es IH]; intros s Hs He H; [by simplify_eq/=|].
  destruct He as [He1 He]. simpl in H. apply bind_Some in H as (s1 & H1 & H).
  apply (IH s1); [|by apply He|done]. destruct e as [a|t a].
  - by apply (program_step_inv a s).
  - by apply (thread_step_inv t a s).
Qed.

(** *** The end of a thread *)

(** Steps that a thread takes at most once it is told to stop. *)
Definition remaining (p : pc) : nat :=
  match p with
  | Exited => 0
  | Decrementing _ => 1
  | Done => 2
  | Looping | Cancelling => 3
  | Incrementing _ | Waited _ | Releasing => 4
  | Starting | Waiting | Pushing _ => 5
  | Requesting | Locking _ => 6
  end.

Fixpoint own_steps (t : nat) (es : list event) : nat :=
  match es with
  | [] => 0
  | Thread t' _ :: es => (if decide (t = t') then 1 else 0) + own_steps t es
  | _ :: es => own_steps t es
  end.

Lemma thread_remaining i a p g p' g' n :
  kb_wait_for_input i a p g = Some (p', g', n) → stop_kb_wait_for_input g = true →
  (S (remaining p') ≤ remaining p)%nat ∧ stop_kb_wait_for_input g' = true.
Proof.
  intros H Hs. unfold kb_wait_for_input in H. rewrite Hs in H. destruct p, a; code_cases H; (split; [lia|done]).
Qed.

Lemma program_stop a p g p' g' n :
  program_step open_device create_event a p g = Some (p', g', n) → in_session p → a ≠ CallOpen →
  in_session p' ∧ (stop_kb_wait_for_input g = true → stop_kb_wait_for_input g' = true).
Proof.
  intros H Hp Ha. unfold program_step, open_step, read_step, close_step in H. destruct p, a; try done; code_cases H; done.
Qed.

Lemma stopped_run es s s' t i p :
  run es s = Some s' → Main CallOpen ∉ es → in_session (program s) → stop_kb_wait_for_input (state s) = true →
  threads s !! t = Some (i, p) →
  ∃ p', threads s' !! t = Some (i, p') ∧ (own_steps t es + remaining p' ≤ remaining p)%nat.
Proof.
  revert s p. induction es as [|e es IH]; intros s p H He Hp Hs Ht; [simplify_eq/=; by exists p|].
  apply not_elem_of_cons in He as [He1 He]. simpl in H. apply bind_Some in H as (s1 & H1 & H).
  destruct e as [a|t' a]; simpl in H1.
  - apply bind_Some in H1 as ([[p1 g1] n] & H1 & [= <-]).
    destruct (program_stop _ _ _ _ _ _ H1 Hp) as [Hp1 Hs1]; [congruence|].
    apply (IH _ p) in H; [done|done|done|by apply Hs1|]. cbn [threads].
    destruct n; try done. by apply lookup_app_l_Some.
  - apply bind_Some in H1 as ([j q] & Ht' & H1). apply bind_Some in H1 as ([[p1 g1] n] & H1 & [= <-]).
    destruct (thread_remaining _ _ _ _ _ _ _ H1 Hs) as [Hr Hs1]. cbn [own_steps].
    destruct (decide (t = t')) as [<-|Hne].
    + simplify_eq. destruct (IH _ p1 H) as (p' & Hl & Hle); [done..| |exists p'; split; [done|lia]].
      cbn [threads]. rewrite list_lookup_insert_eq; [done|by eapply lookup_lt_Some].
    + apply (IH _ p) in H; [done..|]. cbn [threads]. by rewrite list_lookup_insert_ne.
Qed.

Lemma run_in_session es s s' :
  run es s = Some s' → Main CallOpen ∉ es → in_session (program s) → in_session (program s').
Proof.
  revert s. induction es as [|e es IH]; intros s H He Hp; [by simplify_eq/=|].
  apply not_elem_of_cons in He as [He1 He]. simpl in H. apply bind_Some in H as (s1 & H1 & H).
  apply (IH s1); [done..|]. destruct e as [a|t' a]; simpl in H1.
  - apply bind_Some in H1 as ([[p1 g1] n] & H1 & [= <-]). eapply program_stop; [done..|congruence].
  - apply bind_Some in H1 as ([j q] & Ht' & H1). by apply bind_Some in H1 as ([[p1 g1] n] & H1 & [= <-]).
Qed.

(** A thread is never stuck while the queue has not overflown. *)
Lemma thread_progress s t i p :
  session_inv s → overflown (past s) = false → threads s !! t = Some (i, p) → p ≠ Exited →
  ∃ a s', step (Thread t a) s = Some s'.
Proof.
  intros [_ _ Hq _ _] Ho Ht Hp. simpl. rewrite Ht. simpl.
  assert (Hstep : ∃ a r, kb_wait_for_input i a p (state s) = Some r).
  { destruct p; try done; try (by exists Success; eexists).
    - by exists Failure; eexists.
    - by exists (Ended Timeout); eexists.
    - exists Success. simpl. destruct (stop_kb_wait_for_input (state s)), status; by eexists.
    - simpl. destruct (hKbSynchEvent (state s)) as [[]|] eqn:E; [exists Success|exists Failure|exists Failure];
        simpl; rewrite ?E; by eexists.
    - exists Success. simpl. destruct (Hq Ho) as (l & Hr & _). rewrite (push_item_eq _ _ kid Hr). by eexists. }
  destruct Hstep as (a & [[p' g'] n] & E). exists a. rewrite E. by eexists.
Qed.

(** *** The counter of the threads *)

(** Between the read and the write of the counter. *)
Definition updating (p : pc) : bool := match p with Incrementing _ | Decrementing _ => true | _ => false end.

(** Behind the increment and in front of the decrement. *)
Definition counted (p : pc) : bool := match p with Starting | Incrementing _ | Exited => false | _ => true end.

(** Where the device or the queue is used. *)
Definition engaged (p : pc) : bool :=
  match p with
  | Requesting | Waiting | Waited _ | Cancelling | Locking _ | Pushing _ | Releasing => true
  | _ => false
  end.

(** A step after which at most one thread is between the two halves of an
    update of the counter; kb_open is called only when all threads have ended. *)
Definition quiet_step s s' : Prop :=
  (∃ e, orderly e s ∧ step e s = Some s') ∧ (tally updating (threads s') ≤ 1)%nat.

(** kb_close has stopped waiting for the threads. *)
Definition closing (s : kb_system) : Prop :=
  match program s with Closing _ | Destroying => True | _ => hKbSynchEvent (state s) = None end.

Definition stopping (p : main_pc) : bool := match p with Stopping _ | Closing _ | Destroying => true | _ => false end.

(** kb_open behind the creation of the event. *)
Definition opened (p : main_pc) : Prop :=
  match p with Resetting | Counting | Launching _ => True | _ => False end.

Record quiet_inv (s : kb_system) : Prop := {
  qi_program : in_session (program s) ∨ all_exited s;
  qi_event : opened (program s) → hKbSynchEvent (state s) ≠ None;
  qi_updating : (tally updating (threads s) ≤ 1)%nat;
  qi_counter : kb_wait_for_input_threads (state s) = Z.of_nat (tally counted (threads s));
  qi_value t i n : threads s !! t = Some (i, Incrementing n) ∨ threads s !! t = Some (i, Decrementing n) →
    n = kb_wait_for_input_threads (state s);
  qi_stop : stopping (program s) = true → stop_kb_wait_for_input (state s) = true;
  qi_closing : forced (past s) = false → closing s →
    (stop_kb_wait_for_input (state s) = true ∨ all_exited s) ∧ tally engaged (threads s) = 0%nat;
}.

(** What one step of a thread does to the counter. *)
Lemma thread_counter i a p g p' g' n :
  kb_wait_for_input i a p g = Some (p', g', n) →
  stop_kb_wait_for_input g' = stop_kb_wait_for_input g ∧
  ((counted p' = counted p ∧ updating p = false ∧ kb_wait_for_input_threads g' = kb_wait_for_input_threads g ∧
     ∀ v, p' = Incrementing v ∨ p' = Decrementing v → v = kb_wait_for_input_threads g) ∨
   (∃ v, p = Incrementing v ∧ p' = Looping ∧ kb_wait_for_input_threads g' = v + 1) ∨
   (∃ v, p = Decrementing v ∧ p' = Exited ∧ kb_wait_for_input_threads g' = v - 1)).
Proof.
  intros H. unfold kb_wait_for_input in H. destruct p, a; code_cases H; (split; [done|]);
    first [by right; left; eexists | by right; right; eexists | left; split_and!; try done; by intros v [[=]|[=]]].
Qed.

(** A thread that is told to stop does not begin to use its device. *)
Lemma thread_engaged i a p g p' g' n :
  kb_wait_for_input i a p g = Some (p', g', n) → stop_kb_wait_for_input g = true →
  engaged p = false → engaged p' = false.
Proof. intros H Hs Hu. unfold kb_wait_for_input in H. rewrite Hs in H. destruct p, a; code_cases H; done. Qed.

Lemma updating_unique l t t' i i' p p' :
  (tally updating l ≤ 1)%nat → l !! t = Some (i, p) → l !! t' = Some (i', p') →
  updating p = true → updating p' = true → t = t'.
Proof.
  intros Hl Ht Ht' Hp Hp'. destruct (decide (t = t')) as [|Hne]; [done|]. exfalso.
  pose proof (tally_insert updating l t i p Exited Ht) as H1.
  assert (Ht2 : <[t := (i, Exited)]> l !! t' = Some (i', p')) by (by rewrite list_lookup_insert_ne).
  pose proof (tally_lookup updating _ _ _ _ Ht2 Hp'). rewrite Hp in H1. simpl in H1. lia.
Qed.

Lemma thread_quiet t a s s' :
  quiet_inv s → step (Thread t a) s = Some s' → (tally updating (threads s') ≤ 1)%nat → quiet_inv s'.
Proof.
  intros [Hp He Hu Hc Hv Hs Hcl] H Hu'. simpl in H.
  apply bind_Some in H as ([i p] & Ht & H). apply bind_Some in H as ([[p' g'] n] & Hstep & [= <-]).
  pose proof (tally_insert counted _ _ _ _ p' Ht) as Hct. pose proof (tally_insert engaged _ _ _ _ p' Ht) as Hus.
  destruct (thread_counter _ _ _ _ _ _ _ Hstep) as [Est Hk]. cbn [threads] in Hu'.
  split; cbn [program state threads past]; try done.
  - destruct Hp as [Hp|Hp]; [by left|]. by apply (thread_exited _ _ _ _ _ _ _ _ _ Hp Ht) in Hstep.
  - intros Ho. specialize (He Ho).
    destruct (thread_synch _ _ _ _ _ _ _ Hstep) as [[_ ->]|[(_ & _ & _ & ->)|(_ & _ & ->)]]; [done|done|].
    unfold signal. simpl. by destruct (hKbSynchEvent (state s)).
  - destruct Hk as [(E & _ & -> & _)|[(v & -> & -> & ->)|(v & -> & -> & ->)]].
    + rewrite E in Hct. rewrite Hc. lia.
    + rewrite (Hv t i v) by (by left). simpl in Hct. lia.
    + rewrite (Hv t i v) by (by right). simpl in Hct. lia.
  - intros t' i' v Hl. destruct (decide (t' = t)) as [->|Hne].
    + rewrite !list_lookup_insert_eq in Hl by (by eapply lookup_lt_Some).
      destruct Hk as [(_ & _ & -> & Hval)|[(w & _ & -> & _)|(w & _ & -> & _)]].
      * apply Hval. destruct Hl as [Hl|Hl]; simplify_eq; auto.
      * by destruct Hl as [Hl|Hl]; simplify_eq.
      * by destruct Hl as [Hl|Hl]; simplify_eq.
    + rewrite !list_lookup_insert_ne in Hl by done.
      assert (Hup : ∃ q, threads s !! t' = Some (i', q) ∧ updating q = true) by (destruct Hl; eauto).
      destruct Hup as (q & Hq & Hup).
      destruct Hk as [(_ & _ & -> & _)|[(w & -> & _)|(w & -> & _)]]; [by eapply Hv| |];
        (destruct Hne; by eapply (updating_unique (threads s))).
  - intros Hst. rewrite Est. by apply Hs.
  - intros Hf Hclo.
    assert (Hf' : forced (past s) = false) by (destruct n; done).
    assert (Hclo' : closing s).
    { revert Hclo. unfold closing. cbn [program state]. destruct (program s); try done;
        (destruct (thread_synch _ _ _ _ _ _ _ Hstep) as [[_ ->]|[(_ & _ & -> & ->)|(_ & _ & ->)]]; [done|done|]);
        unfold signal; simpl; by destruct (hKbSynchEvent (state s)). }
    destruct (Hcl Hf' Hclo') as [[Hstop|Hex] Hz];
      [|by apply (thread_exited _ _ _ _ _ _ _ _ _ Hex Ht) in Hstep].
    rewrite Est. split; [by left|].
    assert (engaged p = false) as E.
    { destruct (engaged p) eqn:E; [|done]. pose proof (tally_lookup engaged _ _ _ _ Ht E). lia. }
    rewrite E, (thread_engaged _ _ _ _ _ _ _ Hstep Hstop E) in Hus. simpl in Hus. lia.
Qed.

(** What one step of the program does. *)
Lemma program_counter a p g p' g' n :
  program_step open_device create_event a p g = Some (p', g', n) →
  (kb_wait_for_input_threads g' = kb_wait_for_input_threads g ∨
     p = Counting ∧ kb_wait_for_input_threads g' = 0) ∧
  (stopping p' = true → stop_kb_wait_for_input g' = true ∨
     stopping p = true ∧ stop_kb_wait_for_input g' = stop_kb_wait_for_input g) ∧
  (stop_kb_wait_for_input g = true → stop_kb_wait_for_input g' = true ∨ p = Resetting) ∧
  (opened p' → hKbSynchEvent g' ≠ None ∨ opened p ∧ hKbSynchEvent g' = hKbSynchEvent g) ∧
  ((∃ i, n = Launched i) → opened p).
Proof.
  intros H. unfold program_step, open_step, read_step, close_step in H. destruct p, a; try done;
    code_cases H; split_and!; first [done | solve [auto] | by intros [? ?] | idtac].
  all: auto.
Qed.

(** kb_close goes on behind its loop when the counter is zero, or gives up;
    kb_open may fail to create the event. *)
Lemma program_closing a p g p' g' n :
  program_step open_device create_event a p g = Some (p', g', n) → n ≠ Forced →
  match p' with Closing _ | Destroying => True | _ => hKbSynchEvent g' = None end →
  match p with Closing _ | Destroying => True | _ => hKbSynchEvent g = None end ∨
  stopping p = true ∧ kb_wait_for_input_threads g = 0 ∨ p = Opening.
Proof.
  intros H Hn. unfold program_step, open_step, read_step, close_step in H. destruct p, a; try done;
    code_cases H; auto; try (by unfold signal in *; simpl; destruct (hKbSynchEvent g); auto).
  all: intros; first [congruence | right; left; split; [done|by apply Z.eqb_eq]].
Qed.

Lemma tally_launched f n (l : list (nat * pc)) : f Starting = false →
  tally f (match n with Launched i => l ++ [(i, Starting)] | _ => l end) = tally f l.
Proof. intros H. destruct n; try done. rewrite tally_app. simpl. rewrite H. simpl. lia. Qed.

(** The program is at its place in kb_open only when all threads have ended. *)
Lemma opening_exited s : in_session (program s) ∨ all_exited s → ¬ in_session (program s) → all_exited s.
Proof. by intros [?|?]. Qed.

(** All threads have ended before a step that starts none: so they have after it. *)
Lemma exited_kept s n :
  all_exited s → ¬ (∃ i, n = Launched i) →
  tally running (match n with Launched i => threads s ++ [(i, Starting)] | _ => threads s end) = 0%nat.
Proof. intros He Hn. destruct n; try exact He. destruct Hn. eauto. Qed.

Lemma program_quiet a s s' : quiet_inv s → orderly (Main a) s → step (Main a) s = Some s' → quiet_inv s'.
Proof.
  intros [Hp He Hu Hc Hv Hs Hcl] Ha H. simpl in H. apply bind_Some in H as ([[p' g'] n] & Hstep & [= <-]).
  destruct (program_counter _ _ _ _ _ _ Hstep) as (Ec & Est & Emo & Eev & Ela).
  assert (Hcount : kb_wait_for_input_threads g' = Z.of_nat (tally counted (threads s))).
  { destruct Ec as [->|[E ->]]; [done|]. rewrite (tally_exited counted s); [done..|].
    apply opening_exited; [done|]. rewrite E. by intros []. }
  split; cbn [program state threads past]; rewrite ?tally_launched by done; try done.
  - destruct (program_session _ _ _ _ _ _ Hstep) as [?|[-> Hopen]]; [by left|]. right.
    apply (exited_kept s Silent); [|by intros [? ?]].
    destruct Hopen as [->|Hopen]; [by apply Ha | by apply opening_exited].
  - intros Ho. destruct (Eev Ho) as [?|[Ho' ->]]; [done | by apply He].
  - intros t i v Hl. rewrite Hcount, <- Hc. apply (Hv t i).
    destruct n; try done. destruct Hl as [Hl|Hl]; apply lookup_app_Some in Hl as [Hl|[_ Hl]]; auto;
      by apply list_lookup_singleton_Some in Hl as [_ [=]].
  - intros Hst. destruct (Est Hst) as [|[Hst' ->]]; [done|]. by apply Hs.
  - intros Hf Hclo. unfold closing in Hclo. cbn [program state] in Hclo.
    assert (n ≠ Forced) as Hn by (by intros ->).
    assert (Hf' : forced (past s) = false) by (by destruct n).
    destruct (program_closing _ _ _ _ _ _ Hstep Hn Hclo) as [Hold|[[Hst Hz]|E]].
    + destruct (Hcl Hf' Hold) as [Hstop Hus]. split; [|done].
      assert (Hno : ¬ opened (program s)).
      { intros Ho. specialize (He Ho). revert Hold He Ho. by destruct (program s). }
      destruct Hstop as [Hstop|Hex]; [left|right; apply (exited_kept s n); auto].
      destruct (Emo Hstop) as [?|E]; [done|]. destruct Hno. by rewrite E.
    + assert (stop_kb_wait_for_input g' = true) as ->.
      { destruct (Emo (Hs Hst)) as [?|E]; [done|]. by rewrite E in Hst. }
      split; [by left|].
      pose proof (tally_mono engaged counted (threads s)) as Hm. rewrite Hc in Hz.
      assert (tally engaged (threads s) ≤ tally counted (threads s))%nat; [|lia].
      apply Hm. by intros [].
    + assert (Hex : all_exited s) by (apply opening_exited; [done|]; rewrite E; by intros []).
      split; [right; apply (exited_kept s n); [done|] | by apply tally_exited].
      intros Hl. specialize (Ela Hl). by rewrite E in Ela.
Qed.

Lemma quiet_step_inv s s' : quiet_inv s → quiet_step s s' → quiet_inv s'.
Proof.
  intros Hs [(e & He & H) Hu]. destruct e as [a|t a].
  - by apply (program_quiet a s).
  - by apply (thread_quiet t a s).
Qed.

Lemma start_quiet q : quiet_inv (start q).
Proof. split; try done; simpl; [by left | lia |]. by intros t i n [[=]|[=]]. Qed.

Lemma quiet_steps_inv s s' : quiet_inv s → rtc quiet_step s s' → quiet_inv s'.
Proof. intros Hs. induction 1 as [|s1 s2 s3 H _ IH]; [done|]. by apply IH, (quiet_step_inv s1). Qed.

(** ** Theorems *)

(** C36: the queue is used by one at a time.  As long as it does not overflow the
    program reads the keys in the order in which they were pushed and no access
    to the queue is outside its array.  The keys of one thread were pushed in
    the order in which it gathered them, but for the last one, which may be on
    its way or have been dropped by a thread that leaves; the keys of different
    threads may be pushed in another order than they were gathered.  This holds
    however the threads and the program are interleaved, provided that kb_open
    is called again only when all threads have ended. *)
Theorem kb_threads_deliver q es s :
  represents q [] → orderly_run es (start q) → run es (start q) = Some s →
  (holders s ≤ 1)%nat ∧
  (overflown (past s) = false →
    (∃ l, represents (kb_items (state s)) l ∧ (pushed (past s)).*2 = popped (past s) ++ l) ∧
    (∀ t i kid, threads s !! t = Some (i, Pushing kid) → is_Some (step (Thread t Success) s)) ∧
    (program s = Popping → is_Some (step (Main Success) s))) ∧
  (∀ t i p, threads s !! t = Some (i, p) →
    ∃ rest, keys_of t (gathered (past s)) = keys_of t (pushed (past s)) ++ rest ∧ (length rest ≤ 1)%nat).
Proof.
  intros Hq Hes Hrun. pose proof (session_run_inv es _ _ (start_inv q Hq) Hes Hrun) as [Hp Hsy Hqu Hk Hn].
  split_and!.
  - destruct (hKbSynchEvent (state s)) as [[]|]; lia.
  - intros Ho. destruct (Hqu Ho) as (l & Hr & El). split_and!.
    + by exists l.
    + intros t i kid Ht. simpl. rewrite Ht. simpl. rewrite (push_item_eq _ _ kid Hr). by eexists.
    + intros E. simpl. rewrite E. simpl. destruct l as [|x l]; [rewrite pop_item_empty by done; by eexists|].
      destruct (pop_item_ok _ _ _ Hr) as (q' & -> & _). by eexists.
  - intros t i p Ht. destruct (Hk t i p Ht) as (d & E & Hd). exists (in_flight p ++ d). split; [done|].
    rewrite length_app. destruct p; simpl in *; subst; simpl; lia.
Qed.

(** Once kb_close has set its flag every thread ends: it takes at most six
    steps more, and until it has ended it can take the next one, whatever the
    others do. *)
Theorem kb_threads_end q es es' s s' t i p :
  represents q [] → Main CallOpen ∉ es ++ es' → run es (start q) = Some s →
  stop_kb_wait_for_input (state s) = true → run es' s = Some s' → overflown (past s') = false →
  threads s !! t = Some (i, p) →
  (own_steps t es' ≤ 6)%nat ∧
  ∃ p', threads s' !! t = Some (i, p') ∧ (p' = Exited ∨ ∃ a s2, step (Thread t a) s' = Some s2).
Proof.
  intros Hq Hes Hrun Hstop Hrun' Ho Ht. apply not_elem_of_app in Hes as [He He'].
  pose proof (session_run_inv es _ _ (start_inv q Hq) (orderly_without _ _ He) Hrun) as Hinv.
  pose proof (session_run_inv es' _ _ Hinv (orderly_without _ _ He') Hrun') as Hinv'.
  pose proof (run_in_session es _ _ Hrun He I) as Hses.
  destruct (stopped_run es' s s' t i p Hrun' He' Hses Hstop Ht) as (p' & Hl & Hle).
  split; [destruct p; simpl in Hle; lia|]. exists p'. split; [done|].
  destruct (decide (remaining p' = 0%nat)) as [E|E]; [left; by destruct p'|].
  right. apply (thread_progress s' t i p'); try done. by intros ->.
Qed.

(** C37: while the updates of the counter by the threads do not overlap and
    kb_open is called again only when all threads have ended, the counter is the
    number of the threads that have begun and not ended, and unless kb_close has
    given up waiting for them after three seconds ([forced]) no thread uses the
    devices or the event from the time on when it begins to close them. *)
Theorem kb_close_safe q s :
  rtc quiet_step (start q) s →
  kb_wait_for_input_threads (state s) = Z.of_nat (tally counted (threads s)) ∧
  (forced (past s) = false → closing s →
   ∀ t i p, threads s !! t = Some (i, p) → engaged p = false).
Proof.
  intros Hs. pose proof (quiet_steps_inv _ _ (start_quiet q) Hs) as [_ _ _ Hc _ _ Hcl]. split; [done|].
  intros Hf Hclo t i p Ht. destruct (Hcl Hf Hclo) as [_ Hz]. destruct (engaged p) eqn:E; [|done].
  pose proof (tally_lookup engaged _ _ _ _ Ht E). lia.
Qed.
End theory.

(** ** Concrete runs: two keyboards *)
Definition demo_device (n : Z) : option Z := if n <? 2 then Some (n + 10) else None.
Definition demo_event (n : Z) : option Z := Some (n + 50).

Abbreviation demo_run := (kb_run demo_device demo_event).
Abbreviation demo_start := (session_start demo_device demo_event empty_queue).

Definition main (n : nat) : list event := replicate n (Main Success).
Definition thread (t n : nat) : list event := replicate n (Thread t Success).

(** A thread goes from its start to its wait; it gets a key and pushes it. *)
Definition thread_waits (t : nat) : list event := thread t 4.
Definition thread_pushes (t : nat) (kid : KEYBOARD_INPUT_DATA) : list event :=
  Thread t (Ended (Key kid)) :: thread t 4.

(** Both keyboards send a key, the second one first; the program reads one. *)
Definition two_keys : list event :=
  main 3 ++ thread_waits 0 ++ thread_waits 1 ++ [Thread 0 (Ended (Key (key 30 0)))] ++ thread_pushes 1 (key 48 0) ++
  thread 0 2 ++ [Thread 0 Success; Main CallRead] ++ thread 0 1 ++ main 3.

Definition two_keys_end : kb_system := default demo_start (demo_run two_keys demo_start).

Example two_keys_run :
  demo_run two_keys demo_start = Some two_keys_end ∧ popped (past two_keys_end) = [key 48 0] ∧
  pushed (past two_keys_end) = [(1%nat, key 48 0); (0%nat, key 30 0)].
Proof. vm_compute. repeat split. Qed.

(** Runs that are orderly, decided. *)
Fixpoint orderly_runb (es : list event) (s : kb_system) : bool :=
  match es with
  | [] => true
  | e :: es =>
      match e with Main CallOpen => (tally running (threads s) =? 0)%nat | _ => true end &&
      match kb_step demo_device demo_event e s with
      | Some s => orderly_runb es s
      | None => true
      end
  end.

Lemma orderly_eventb e s :
  match e with Main CallOpen => (tally running (threads s) =? 0)%nat | _ => true end = true → orderly e s.
Proof. intros H ->. by apply Nat.eqb_eq in H. Qed.

Lemma orderly_runb_ok es s : orderly_runb es s = true → orderly_run demo_device demo_event es s.
Proof.
  revert s. induction es as [|e es IH]; intros s; [done|]. cbn [orderly_runb orderly_run].
  intros [H1 H2]%andb_prop. split; [by apply orderly_eventb|]. intros s' E. rewrite E in H2. by apply IH.
Qed.

Definition thread_stops (t : nat) : list event := Thread t (Ended Timeout) :: thread t 4.

(** The keyboards are closed and opened again before the keys are sent. *)
Definition reopened : list event :=
  main 3 ++ thread_waits 0 ++ thread_waits 1 ++ [Main CallClose] ++ thread_stops 0 ++ thread_stops 1 ++ main 5 ++
  [Main CallOpen] ++ main 6 ++ thread_waits 2 ++ thread_waits 3 ++
  [Thread 2 (Ended (Key (key 30 0)))] ++ thread_pushes 3 (key 48 0) ++ thread 2 4 ++ [Main CallRead] ++ main 3.

Definition reopened_end : kb_system := default demo_start (demo_run reopened demo_start).

Lemma kb_threads_deliver_witness :
  overflown (past reopened_end) = false ∧ popped (past reopened_end) = [key 48 0] ∧
  (holders reopened_end ≤ 1)%nat ∧
  (∃ l, represents (kb_items (state reopened_end)) l ∧
     (pushed (past reopened_end)).*2 = popped (past reopened_end) ++ l) ∧
  (∀ t i p, threads reopened_end !! t = Some (i, p) →
    ∃ rest, keys_of t (gathered (past reopened_end)) = keys_of t (pushed (past reopened_end)) ++ rest ∧
      (length rest ≤ 1)%nat).
Proof.
  assert (E : demo_run reopened demo_start = Some reopened_end) by (vm_compute; reflexivity).
  assert (Ho : overflown (past reopened_end) = false) by (vm_compute; reflexivity).
  split; [exact Ho|]. split; [vm_compute; reflexivity|].
  destruct (kb_threads_deliver demo_device demo_event empty_queue reopened reopened_end
    empty_queue_represents (orderly_runb_ok reopened demo_start ltac:(vm_compute; reflexivity)) E)
    as (H1 & H2 & H3).
  split; [exact H1|]. split; [apply (H2 Ho) | exact H3].
Defined.

(** kb_close is called while both threads wait. *)
Definition stopped : kb_system :=
  default demo_start (demo_run (main 3 ++ thread_waits 0 ++ thread_waits 1 ++ [Main CallClose]) demo_start).

Definition both_stopped : kb_system := default demo_start (demo_run (thread_stops 0 ++ thread_stops 1) stopped).

Lemma kb_threads_end_witness :
  (own_steps 1 (thread_stops 0 ++ thread_stops 1) ≤ 6)%nat ∧
  ∃ p', threads both_stopped !! 1%nat = Some (1%nat, p') ∧
    (p' = Exited ∨ ∃ a s2, kb_step demo_device demo_event (Thread 1 a) both_stopped = Some s2).
Proof.
  apply (kb_threads_end demo_device demo_event empty_queue
           (main 3 ++ thread_waits 0 ++ thread_waits 1 ++ [Main CallClose]) (thread_stops 0 ++ thread_stops 1)
           stopped both_stopped 1 1 Waiting).
  - apply empty_queue_represents.
  - intros H. apply list_elem_of_In in H. vm_compute in H. repeat (destruct H as [H|H]; [discriminate H|]). exact H.
  - vm_compute. reflexivity.
  - vm_compute. reflexivity.
  - vm_compute. reflexivity.
  - vm_compute. reflexivity.
  - vm_compute. reflexivity.
Defined.

(** Runs whose steps are all quiet. *)
Fixpoint quiet_run (es : list event) (s : kb_system) : bool :=
  match es with
  | [] => true
  | e :: es =>
      match e with Main CallOpen => (tally running (threads s) =? 0)%nat | _ => true end &&
      match kb_step demo_device demo_event e s with
      | Some s => (tally updating (threads s) <=? 1)%nat && quiet_run es s
      | None => false
      end
  end.

Lemma quiet_run_steps es s s' :
  demo_run es s = Some s' → quiet_run es s = true → rtc (quiet_step demo_device demo_event) s s'.
Proof.
  revert s. induction es as [|e es IH]; intros s H Hq; [by simplify_eq/=|].
  cbn [kb_run quiet_run] in H, Hq. apply andb_prop in Hq as [Ho Hq].
  destruct (kb_step _ _ e s) as [s1|] eqn:E; [|done]. apply andb_prop in Hq as [Hu Hq]. apply Nat.leb_le in Hu.
  apply rtc_l with s1; [|by apply IH]. split; [|done]. exists e. split; [by apply orderly_eventb | done].
Qed.

(** kb_close closes both keyboards after their threads have left; the keyboards
    are opened again, and closed again. *)
Definition closing_events : list event :=
  main 3 ++ thread_waits 0 ++ thread_waits 1 ++ [Main CallClose] ++ thread_stops 0 ++ main 2 ++ thread_stops 1 ++ main 5 ++
  [Main CallOpen] ++ main 6 ++ thread_waits 2 ++ thread_waits 3 ++ [Main CallClose] ++ thread_stops 3 ++ main 2 ++
  thread_stops 2 ++ main 3.

Definition closed_end : kb_system := default demo_start (demo_run closing_events demo_start).

Lemma kb_close_safe_witness :
  device 1 (state closed_end) = 0 ∧ length (threads closed_end) = 4%nat ∧
  kb_wait_for_input_threads (state closed_end) = Z.of_nat (tally counted (threads closed_end)) ∧
  ∀ t i p, threads closed_end !! t = Some (i, p) → engaged p = false.
Proof.
  split; [vm_compute; reflexivity|]. split; [vm_compute; reflexivity|].
  destruct (kb_close_safe demo_device demo_event empty_queue closed_end) as [Hc Hn].
  - apply (quiet_run_steps closing_events); vm_compute; reflexivity.
  - split; [exact Hc|]. apply Hn; vm_compute; [reflexivity | exact I].
Defined.

(** Two threads that enter at the same time are counted as one: when the first
    of them has left, kb_close takes the other to have left too and closes the
    device that it waits for. *)
Example kb_close_race :
  match demo_run (main 3 ++ [Thread 0 Success; Thread 1 Success] ++ thread 0 3 ++ thread 1 3 ++ [Main CallClose] ++
                  thread_stops 0 ++ main 3) demo_start with
  | Some s => forced (past s) = false ∧ threads s = [(0%nat, Exited); (1%nat, Waiting)] ∧ device 1 (state s) = 0
  | None => False
  end.
Proof. vm_compute. repeat split. Qed.

(** A thread that has not begun to run when kb_close is called is not waited
    for; after kb_open there are two threads for its keyboard. *)
Example kb_reopen_doubles_thread :
  match demo_run (main 3 ++ thread_waits 1 ++ [Main CallClose] ++ thread_stops 1 ++ main 5 ++ [Main CallOpen] ++ main 6 ++
                  thread_waits 0 ++ thread_waits 2) demo_start with
  | Some s => threads s = [(0%nat, Waiting); (1%nat, Exited); (0%nat, Waiting); (1%nat, Starting)] ∧
              program s = Idle
  | None => False
  end.
Proof. vm_compute. repeat split. Qed.

(** Neither kb_close nor kb_open empties the queue. *)
Example kb_reopen_keeps_keys :
  match demo_run (main 3 ++ thread_waits 0 ++ thread_waits 1 ++ thread_pushes 0 (key 30 0) ++ [Main CallClose] ++
                  thread 0 3 ++ thread_stops 1 ++ main 5 ++ [Main CallOpen] ++ main 6 ++ [Main CallRead] ++ main 3)
          demo_start with
  | Some s => program s = Idle ∧ popped (past s) = [key 30 0]
  | None => False
  end.
Proof. vm_compute. repeat split. Qed.
