(* ===== verification/KbDevices.v ===== *)
(** * keyboard.c: opening the devices of the keyboards

    The routines behind the parameters [open_device] and [create_event] of
    [Keyboard]: a device is opened, checked by way of its indicators, and gets an
    event.  [kb_open_device_refines] relates them to [Keyboard.kb_open_device].
    Messages for the user are left out. *)
From S2P Require Import Prelude DList Bitmap CString FileInfo FileIO Volume Sync System Keyboard.
From stdpp Require Import prelude gmap strings.
Open Scope Z_scope.

Definition FILE_DEVICE_KEYBOARD : Z := 0x0b.
Definition IOCTL_KEYBOARD_SET_INDICATORS : Z := CTL_CODE FILE_DEVICE_KEYBOARD 2.
Definition IOCTL_KEYBOARD_QUERY_INDICATORS : Z := CTL_CODE FILE_DEVICE_KEYBOARD 0x10.
Definition KEYBOARD_SCROLL_LOCK_ON : Z := 1.
Definition KEYBOARD_NUM_LOCK_ON : Z := 2.
Definition KEYBOARD_CAPS_LOCK_ON : Z := 4.
Definition LIGHTING_REPEAT_COUNT : nat := 5.
Definition LIGHTING_REPEAT_DELAY : Z := 100.
Definition KB_INIT_DELAY : nat := 10.
Definition STATUS_PENDING : Z := 0x103.
Definition GENERIC_READ : Z := 0x80000000.
Definition FILE_RESERVE_OPFILTER : Z := 0x100000.

(** KEYBOARD_INDICATOR_PARAMETERS in memory. *)
Definition indicator_bytes (UnitId LedFlags : Z) : list Z :=
  [u8 UnitId; u8 (Z.shiftr UnitId 8); u8 LedFlags; u8 (Z.shiftr LedFlags 8)].

Section devices.
Context {W : Type} `{!NtApi W, !NtControl W, !NtSync W, !NtSystem W}.
(** _snwprintf with a number; the buffers on the stack; NtClearEvent. *)
Context (vsnwprintf : str → Z → Z → Z * str) (uninit : nat → list Z) (NtClearEvent : Z → W → W).
Implicit Types (w : W).

Definition kb_light_up_indicators (hKbDevice LedFlags : Z) w : Z * W :=
  let '(status, _, _, w) :=
    NtDeviceIoControlFile hKbDevice IOCTL_KEYBOARD_SET_INDICATORS (indicator_bytes 0 LedFlags) 0 w in
  if negb (NT_SUCCESS status) || (status =? STATUS_PENDING) then (-1, w) else (0, w).

(** The loop of [kb_check]. *)
Fixpoint light_loop (n : nat) (hKbDevice : Z) w : W :=
  match n with
  | O => w
  | S n =>
      let flash flags w := winx_sleep LIGHTING_REPEAT_DELAY (kb_light_up_indicators hKbDevice flags w).2 in
      light_loop n hKbDevice
        (flash KEYBOARD_SCROLL_LOCK_ON (flash KEYBOARD_CAPS_LOCK_ON (flash KEYBOARD_NUM_LOCK_ON w)))
  end.

Definition kb_check (hKbDevice : Z) w : outcome (Z * W) :=
  let '(status, _, out, w) := NtDeviceIoControlFile hKbDevice IOCTL_KEYBOARD_QUERY_INDICATORS [] 4 w in
  kip ← blit (replicate 4 0) 0 out;
  if negb (NT_SUCCESS status) || (status =? STATUS_PENDING) then Ret (-1, w) else
  LedFlags ← rd 2 kip 2;
  let w := light_loop LIGHTING_REPEAT_COUNT hKbDevice w in
  Ret (0, (kb_light_up_indicators hKbDevice LedFlags w).2).

(** A name that is cut to 31 characters. *)
Definition numbered (format : str) (device_number : Z) : outcome str :=
  let '(_, stored) := vsnwprintf format device_number 32 in
  name ← blit (uninit 32) 0 stored;
  name ← put name 31 0;
  Ret (cstr name).

(** The handles of the device and of its event, or the reason for none. *)
Definition open_keyboard (device_number : Z) w : outcome (option Z * option Z * W) :=
  device_name ← numbered (text "\Device\KeyboardClass%u") device_number;
  let '(status, hKbDevice, w) :=
    NtCreateFile (CreateRequest (Z.lor GENERIC_READ (Z.lor FILE_RESERVE_OPFILTER FILE_READ_ATTRIBUTES)) device_name
      OBJ_CASE_INSENSITIVE FILE_ATTRIBUTE_NORMAL 0 FILE_OPEN FILE_DIRECTORY_FILE) w in
  if negb (NT_SUCCESS status) then Ret (None, None, w) else
  (* ensure that we have opened a really connected keyboard *)
  '(r, w) ← kb_check hKbDevice w;
  if r <? 0 then Ret (None, None, NtClose hKbDevice w) else
  event_name ← numbered (text "\kb_event%u") device_number;
  let '(r, hKbEvent, w) := winx_create_event (Some event_name) SynchronizationEvent w in
  if r <? 0 then Ret (Some hKbDevice, None, NtClose hKbDevice w) else
  Ret (Some hKbDevice, Some hKbEvent, NtClearEvent hKbEvent w).

Definition kb_open_device (device_number : Z) (st : list KEYBOARD * Z) w : outcome (Z * (list KEYBOARD * Z) * W) :=
  '(device, ev, w) ← open_keyboard device_number w;
  match device, ev with
  | Some hKbDevice, Some hKbEvent =>
      match add_keyboard (Keyboard device_number hKbDevice hKbEvent) st.1 with
      | Some kb => Ret (0, (kb, st.2 + 1), w)
      | None => Ret (-1, st, NtClose hKbDevice (NtClose hKbEvent w)) (* this case is very extraordinary *)
      end
  | _, _ => Ret (-1, st, w)
  end.
End devices.

(** ** winx_kb_init

    [S] is the state of the keyboards; a read tells too whether its time
    elapsed. *)
Section init.
Context {S : Type} (kb_open : S → Z * S) (kb_close : S → S).
Context (winx_kb_read : S → option KBD_RECORD * bool * S) (sleep : S → S).

Fixpoint init_loop (n : nat) (s : S) : S :=
  match n with
  | O => s
  | Datatypes.S n =>
      let '(kbd_rec, kb_read_time_elapsed, s) := winx_kb_read s in
      match kbd_rec with
      | Some r =>
          if AsciiChar r =? 0 then if wVirtualScanCode r =? 1 then s else init_loop n s
          else init_loop n (if kb_read_time_elapsed then s else sleep s)
      | None => init_loop n (if kb_read_time_elapsed then s else sleep s)
      end
  end.

Definition winx_kb_init (s : S) : Z * S :=
  let s := (kb_open s).2 in
  let s := init_loop KB_INIT_DELAY s in
  kb_open (kb_close s).
End init.

(** ** Theory *)

(** The indicators of a device: a request that succeeds sets them, and the
    query tells them. *)
Class NtIndicators (W : Type) `{!NtControl W, !NtSystem W} : Type := {
  leds : W → Z → Z;
  ni_range w h : 0 ≤ leds w h < 2 ^ 16;
  ni_query h w : ∃ status i out w', NtDeviceIoControlFile h IOCTL_KEYBOARD_QUERY_INDICATORS [] 4 w = (status, i, out, w') ∧
    leds w' h = leds w h ∧ (length out ≤ 4)%nat ∧
    (NT_SUCCESS status = true → status ≠ STATUS_PENDING → out = indicator_bytes 0 (leds w h));
  ni_set h f w : 0 ≤ f < 2 ^ 16 → ∃ status i out w',
    NtDeviceIoControlFile h IOCTL_KEYBOARD_SET_INDICATORS (indicator_bytes 0 f) 0 w = (status, i, out, w') ∧
    NT_SUCCESS status = true ∧ leds w' h = f;
  ni_sleep ms w h : leds (NtDelayExecution ms w) h = leds w h;
}.

Lemma led_flags f : 0 ≤ f < 2 ^ 16 → rd 2 (indicator_bytes 0 f) 2 = Ret f.
Proof.
  intros Hf. transitivity (Ret (u8 f + 256 * (u8 (Z.shiftr f 8) + 256 * 0))); [reflexivity|]. f_equal.
  unfold u8. rewrite Z.shiftr_div_pow2 by lia. change (2 ^ 8) with 256.
  rewrite (Z.mod_small (f / 256)); [pose proof (Z.div_mod f 256 ltac:(lia)); lia|].
  split; [apply Z.div_pos; lia|apply Z.div_lt_upper_bound; lia].
Qed.

(** The check of a keyboard lets its indicators flash and leaves them as they
    were. *)
Theorem kb_check_restores {W} `{!NtControl W, !NtSystem W, !NtIndicators W} h (w : W) :
  ∃ r w', kb_check h w = Ret (r, w') ∧ leds w' h = leds w h.
Proof.
  unfold kb_check. destruct (ni_query h w) as (status & i & out & w1 & -> & Hl & Hlen & Hout).
  assert (Hb : ∃ kip, blit (replicate 4 0) 0 out = Ret kip ∧ (out = indicator_bytes 0 (leds w h) → kip = out)).
  { do 5 (destruct out as [|? out]; [eexists; split; [reflexivity|done]|]). simpl in Hlen. lia. }
  destruct Hb as (kip & -> & Hk). rewrite outcome_bind_ret.
  destruct (NT_SUCCESS status) eqn:Es; cbn [negb orb]; [|by exists (-1), w1].
  destruct (Z.eqb_spec status STATUS_PENDING); [by exists (-1), w1|].
  rewrite Hk, Hout by auto. rewrite led_flags by apply ni_range. rewrite outcome_bind_ret.
  eexists 0, _. split; [reflexivity|]. unfold kb_light_up_indicators.
  destruct (ni_set h (leds w h) (light_loop LIGHTING_REPEAT_COUNT h w1) (ni_range w h)) as (st & j & o & w2 & -> & _ & E).
  by destruct (negb (NT_SUCCESS st) || (st =? STATUS_PENDING)).
Qed.

(** What becomes of the table is what [Keyboard.kb_open_device] says, for the
    handles that the system gives. *)
Theorem kb_open_device_refines {W} `{!NtApi W, !NtControl W, !NtSync W, !NtSystem W}
    vsnwprintf uninit clear n st (w w' : W) r st' :
  kb_open_device vsnwprintf uninit clear n st w = Ret (r, st', w') →
  ∃ device ev w1, open_keyboard vsnwprintf uninit clear n w = Ret (device, ev, w1) ∧
    st' = Keyboard.kb_open_device (fun _ => device) (fun _ => ev) n st ∧
    (r = 0 ∧ w' = w1 ∨ r = -1 ∧ st' = st).
Proof.
  intros H. unfold kb_open_device in H. apply outcome_bind_inv in H as ([[device ev] w1] & E & H).
  exists device, ev, w1. split; [done|]. unfold Keyboard.kb_open_device. destruct st as [kb number].
  destruct device as [h|]; [|simplify_eq; auto]. destruct ev as [e|]; [|simplify_eq; auto].
  cbn [fst snd] in H. destruct (add_keyboard _ kb); simplify_eq; auto.
Qed.
