(* ===== verification/Stdio.v ===== *)
(** * stdio.c: paging of texts, the prompt and its history

    What is printed is a sequence of events; the keys pressed are a sequence of
    records of key down events (see [Keyboard]), and when they are used up the
    read fails.  Line buffers are lists of cells, an access outside them is a
    fault.  The history is the sequence of its entries with the position of the
    current one (the circular list below it is in [DList]).  The drawing of the
    prompt is not modelled. *)
From S2P Require Import Prelude DList CString FileInfo Keyboard.
From stdpp Require Import prelude gmap strings.
Open Scope Z_scope.

(** ** Paging *)
Definition DEFAULT_TAB_WIDTH : nat := 2.
Definition SPACE : Z := 0x20.
Definition TAB : Z := 9.
Definition LF : Z := 10.
Definition CR : Z := 13.

Inductive output : Type :=
| Line (s : str)
| Prompt
| EndOfPrompt.

(** What is printed so far, the keys that are left, and the rows of the page. *)
Record screen : Type := Screen {
  out : list output;
  keys : list KBD_RECORD;
  rows_printed : Z;
}.

Definition emit (o : output) (s : screen) : screen := Screen (out s ++ [o]) (keys s) (rows_printed s).

(** [print_line]: whether to stop. *)
Definition is_break (r : KBD_RECORD) : bool :=
  (wVirtualScanCode r =? 0x1) ||
  (wVirtualScanCode r =? 0x1d) && negb (has_flag (dwControlKeyState r) LEFT_CTRL_PRESSED) &&
    negb (has_flag (dwControlKeyState r) RIGHT_CTRL_PRESSED).

Definition print_line (line_buffer : list Z) (max_rows : Z) (last_line : bool) (s : screen)
  : bool * screen :=
  let s := emit (Line (cstr line_buffer)) s in
  let rows := rows_printed s + 1 in
  if (rows =? max_rows) && negb last_line then
    let s := emit Prompt (Screen (out s) (keys s) 0) in
    match keys s with
    | [] => (true, s) (* break in case of errors *)
    | r :: ks =>
        let s := emit EndOfPrompt (Screen (out s) ks (rows_printed s)) in
        (is_break r, s)
    end
  else (false, Screen (out s) (keys s) rows).

(** How the handling of a character ends: with the next character, at
    [print_rest_of_string], or at [cleanup]. *)
Inductive control : Type :=
| Next (line_buffer : list Z) (index : nat) (s : screen)
| Rest (line_buffer : list Z) (index : nat) (s : screen)
| Cleanup (s : screen).

Section paging.
Context (line_width : nat) (max_rows : Z).

(** Printing a full line and starting a new one. *)
Definition flush_line (buf : list Z) (s : screen) : outcome control :=
  let '(stop, s) := print_line buf max_rows false s in
  if (stop : bool) then Ret (Cleanup s) else buf ← put buf 0 0; Ret (Next buf 0 s).

(** A tabulation: [k] more spaces. *)
Fixpoint tab_loop (k : nat) (last_char : bool) (buf : list Z) (index : nat) (s : screen)
  : outcome control :=
  match k with
  | O => Ret (Next buf index s)
  | S k =>
      buf ← put buf (Z.of_nat index) SPACE;
      let index := S index in
      if Nat.eqb index line_width then
        if last_char then Ret (Rest buf index s) else
        buf ← put buf (Z.of_nat index) 0;
        flush_line buf s
      else tab_loop k last_char buf index s
  end.

(** [for(k = index - 1; k > 0; k--) if(line_buffer[k] == 0x20) break;] *)
Fixpoint find_space (k : nat) (buf : list Z) : outcome nat :=
  match k with
  | O => Ret O
  | S k' => c ← rd8 buf (Z.of_nat k); if c =? SPACE then Ret k else find_space k' buf
  end.

(** An ordinary character; a full line is broken between words, if possible. *)
Definition ordinary_char (c : Z) (last_char : bool) (buf : list Z) (index : nat) (s : screen)
  : outcome control :=
  buf ← put buf (Z.of_nat index) c;
  let index := S index in
  if Nat.eqb index line_width then
    if last_char then Ret (Rest buf index s) else
    buf ← put buf (Z.of_nat index) 0;
    k ← find_space (index - 1) buf;
    ck ← rd8 buf (Z.of_nat k);
    if ck =? SPACE then
      let second_buffer := cstr (drop (k + 1) buf) in
      buf ← put buf (Z.of_nat k) 0;
      let '(stop, s) := print_line buf max_rows false s in
      if (stop : bool) then Ret (Cleanup s) else
      buf ← blit buf 0 (second_buffer ++ [0]);
      Ret (Next buf (length second_buffer) s)
    else flush_line buf s
  else Ret (Next buf index s).

Definition handle_char (c : Z) (last_char : bool) (buf : list Z) (index : nat) (s : screen)
  : outcome control :=
  if c =? TAB then tab_loop DEFAULT_TAB_WIDTH last_char buf index s
  else ordinary_char c last_char buf index s.

Definition is_newline (c : Z) : bool := (c =? LF) || (c =? CR).

(** The loop through the characters of a string; the result is never [Next]. *)
Fixpoint chars_loop (string : str) (buf : list Z) (index : nat) (s : screen) : outcome control :=
  match string with
  | [] => Ret (Rest buf index s)
  | c :: string' =>
      if is_newline c then
        (* print buffer *)
        buf ← put buf (Z.of_nat index) 0;
        r ← flush_line buf s;
        match r with
        | Next buf index s =>
            (* skip sequence *)
            match string' with
            | [] => Ret (Rest buf index s)
            | c2 :: string'' =>
                if is_newline c2 then
                  if negb (c2 =? c) then chars_loop string'' buf index s
                  else chars_loop string' buf index s (* repeating new lines *)
                else
                  r ← handle_char c2 (bool_decide (string'' = [])) buf index s;
                  match r with
                  | Next buf index s => chars_loop string'' buf index s
                  | _ => Ret r
                  end
            end
        | _ => Ret r
        end
      else
        r ← handle_char c (bool_decide (string' = [])) buf index s;
        match r with
        | Next buf index s => chars_loop string' buf index s
        | _ => Ret r
        end
  end.

(** The loop through the strings. *)
Fixpoint strings_loop (strings : list str) (buf : list Z) (s : screen) : outcome screen :=
  match strings with
  | [] => Ret s
  | string :: strings =>
      buf ← put buf 0 0;
      r ← chars_loop string buf 0 s;
      match r with
      | Rest buf index s =>
          buf ← put buf (Z.of_nat index) 0;
          let '(stop, s) := print_line buf max_rows (bool_decide (strings = [])) s in
          if (stop : bool) then Ret s else strings_loop strings buf s
      | Next _ _ s | Cleanup s => Ret s
      end
  end.
End paging.

(** [winx_print_strings]: the result and the screen.  [uninit] is the contents
    of a new block; for a negative width no block can be allocated, and the
    allocator ends the program. *)
Definition winx_print_strings (uninit : nat → list Z) (strings : list str) (line_width max_rows : Z)
    (divide_to_pages : bool) (s : screen) : outcome (Z * screen) :=
  if negb divide_to_pages then
    Ret (0, Screen (out s ++ (Line <$> strings)) (keys s) (rows_printed s))
  else if line_width =? 0 then Ret (-1, s)
  else if max_rows =? 0 then Ret (-1, s)
  else if line_width <? 0 then Fault
  else
    let w := Z.to_nat line_width in
    s ← strings_loop w (max_rows - 4) strings (uninit (S w)) (Screen (out s) (keys s) 0);
    Ret (0, s).

(** ** The prompt *)
Record winx_history : Type := History {
  entries : list str;
  current : option nat;
  n_entries : Z;
}.

Definition winx_init_history : winx_history := History [] None 0.

Definition winx_destroy_history (h : winx_history) : winx_history := History [] None 0.

(** [winx_add_history_entry] for a string in its buffer; NULL is [None]. *)
Definition winx_add_history_entry (tmalloc : Z → bool) (h : option winx_history) (string : list Z)
  : outcome (option winx_history) :=
  match h with
  | None => Ret None
  | Some h =>
      if decide (0 ∈ string) then
        if tmalloc (Z.of_nat (length (cstr string)) + 1)
        then Ret (Some (History (entries h ++ [cstr string]) (Some (length (entries h)))
                          (n_entries h + 1)))
        else Ret (Some h)
      else Fault
  end.

(** [RtlZeroMemory] of the string. *)
Definition zero_string (n : nat) (string : list Z) : outcome (list Z) :=
  blit string 0 (replicate n 0).

(** [strcpy] of a history entry to the zeroed string. *)
Definition recall (n : nat) (entry : str) (string : list Z) : outcome (list Z) :=
  string ← zero_string n string;
  blit string 0 (entry ++ [0]).

Definition BACKSPACE : Z := 0x08.
Definition ESC : Z := 0x1.
Definition ARROW_UP : Z := 0x48.
Definition ARROW_DOWN : Z := 0x50.

(** The keys that edit the line. *)
Definition is_special (r : KBD_RECORD) : bool :=
  (AsciiChar r =? BACKSPACE) || (wVirtualScanCode r =? ESC) ||
  (wVirtualScanCode r =? ARROW_UP) || (wVirtualScanCode r =? ARROW_DOWN).

(** What the prompt works on: the string, [i], the history and the flag
    [history_listed_to_the_last_entry]. *)
Record prompt_state : Type := PromptState {
  ps_string : list Z;
  ps_i : nat;
  ps_history : option winx_history;
  ps_listed : bool;
}.

(** Arrow up: the entry before the current one, or the current one when it is
    the last and has not been listed yet. *)
Definition list_back (h : winx_history) (cur : nat) (listed : bool) : nat * bool :=
  if Nat.eqb cur (length (entries h) - 1) && negb listed then (cur, true)
  else (Nat.pred cur, false).

Definition arrow_keys (n : nat) (r : KBD_RECORD) (p : prompt_state) : outcome prompt_state :=
  match ps_history p with
  | Some h =>
      match current h with
      | Some cur =>
          if bool_decide (entries h = []) then Ret p else
          if wVirtualScanCode r =? ARROW_UP then
            let '(cur, listed) := list_back h cur (ps_listed p) in
            let h := History (entries h) (Some cur) (n_entries h) in
            let e := nth cur (entries h) [] in
            string ← recall n e (ps_string p);
            Ret (PromptState string (length e) (Some h) listed)
          else if wVirtualScanCode r =? ARROW_DOWN then
            if negb (Nat.eqb (S cur) (length (entries h))) then
              let cur := S cur in
              let e := nth cur (entries h) [] in
              string ← recall n e (ps_string p);
              Ret (PromptState string (length e) (Some (History (entries h) (Some cur) (n_entries h)))
                     (Nat.eqb cur (length (entries h) - 1)))
            else Ret p
          else Ret p
      | None => Ret p
      end
  | None => Ret p
  end.

Definition special_key (n : nat) (r : KBD_RECORD) (p : prompt_state) : outcome prompt_state :=
  (* handle escape key *)
  p ← (if wVirtualScanCode r =? ESC
       then string ← zero_string n (ps_string p);
            Ret (PromptState string 0 (ps_history p) (ps_listed p))
       else Ret p);
  (* handle backspace key *)
  p ← (if AsciiChar r =? BACKSPACE then
         match ps_i p with
         | O => Ret p
         | S i => string ← put (ps_string p) (Z.of_nat i) 0;
                  Ret (PromptState string i (ps_history p) (ps_listed p))
         end
       else Ret p);
  (* handle arrow keys *)
  p ← arrow_keys n r p;
  Ret (if (AsciiChar r =? BACKSPACE) || (wVirtualScanCode r =? ESC)
       then PromptState (ps_string p) (ps_i p) (ps_history p) false else p).

(** How the reading of the line ends. *)
Inductive prompt_end : Type := Done (p : prompt_state) | Failed (p : prompt_state).

(** The two loops of [winx_prompt] from a key that is to be read. *)
Fixpoint prompt_loop (n : nat) (ks : list KBD_RECORD) (p : prompt_state) : outcome prompt_end :=
  match ks with
  | [] => Ret (Failed p)
  | r :: ks =>
      if is_special r then p ← special_key n r p; prompt_loop n ks p
      else if AsciiChar r =? 0 then prompt_loop n ks p
      else if AsciiChar r =? CR then Ret (Done p)
      else
        (* an ordinary character *)
        string ← put (ps_string p) (Z.of_nat (ps_i p)) (AsciiChar r);
        let p := PromptState string (S (ps_i p)) (ps_history p) false in
        if (S (ps_i p) <? n)%nat then prompt_loop n ks p else Ret (Done p) (* buffer overflow *)
  end.

(** [winx_prompt]: the result, the string and the history. *)
Definition winx_prompt (tmalloc : Z → bool) (string : option (list Z)) (n : Z)
    (h : option winx_history) (ks : list KBD_RECORD)
  : outcome (Z * option (list Z) * option winx_history) :=
  match string with
  | None => Ret (-1, None, h)
  | Some string =>
      if n <=? 0 then Ret (-1, Some string, h) else
      string ← zero_string (Z.to_nat n) string;
      let p := PromptState string 0 h false in
      r ← (if 0 <? n - 1 then prompt_loop (Z.to_nat n) ks p else Ret (Done p));
      match r with
      | Failed p => Ret (-1, Some (ps_string p), ps_history p)
      | Done p =>
          c ← rd8 (ps_string p) 0;
          h ← (if negb (c =? 0) then winx_add_history_entry tmalloc (ps_history p) (ps_string p)
               else Ret (ps_history p));
          Ret (Z.of_nat (ps_i p) + 1, Some (ps_string p), h)
      end
  end.

Definition winx_gets (tmalloc : Z → bool) (string : option (list Z)) (n : Z) (ks : list KBD_RECORD)
  : outcome (Z * option (list Z) * option winx_history) :=
  winx_prompt tmalloc string n None ks.

(** ** Nothing visible gets lost *)

Definition visible (c : Z) : Prop := c ≠ SPACE ∧ c ≠ TAB ∧ c ≠ LF ∧ c ≠ CR.

#[export] Instance visible_dec c : Decision (visible c) :=
  decide (c ≠ SPACE ∧ c ≠ TAB ∧ c ≠ LF ∧ c ≠ CR).

Definition vis (l : list Z) : list Z := base.filter visible l.

(** The text of the lines that were printed. *)
Definition shown (o : list output) : list Z :=
  concat ((fun x => match x with Line s => s | _ => [] end) <$> o).

Lemma vis_app a b : vis (a ++ b) = vis a ++ vis b.
Proof. apply filter_app. Qed.

Lemma vis_space l : vis (SPACE :: l) = vis l.
Proof. unfold vis. by rewrite filter_cons_False by (by intros [[] _]). Qed.

Lemma shown_app a b : shown (a ++ b) = shown a ++ shown b.
Proof. unfold shown. by rewrite fmap_app, concat_app. Qed.

Section paging_thy.
Context (w : nat) (max_rows : Z).

Definition line_fits (o : output) : Prop :=
  match o with Line s => (length s ≤ w)%nat | _ => True end.

Definition fits (s : screen) : Prop := Forall line_fits (out s).

(** The listing was broken at a prompt. *)
Definition stopped (o : list output) : Prop :=
  last o = Some Prompt ∨ last o = Some EndOfPrompt.

(** The buffer holds [i] characters. *)
Definition ok_buf (buf : list Z) (i : nat) : Prop :=
  length buf = S w ∧ (i ≤ w)%nat ∧ Forall (fun c => c ≠ 0) (take i buf).

Definition total (buf : list Z) (i : nat) (s : screen) : list Z :=
  vis (shown (out s)) ++ vis (take i buf).

Definition good (T : list Z) (r : control) : Prop :=
  match r with
  | Next buf i s => ok_buf buf i ∧ (i < w)%nat ∧ fits s ∧ total buf i s = T
  | Rest buf i s => ok_buf buf i ∧ fits s ∧ total buf i s = T
  | Cleanup s => fits s ∧ stopped (out s)
  end.

Lemma cstr_terminated buf i : (i < length buf)%nat → Forall (fun c => c ≠ 0) (take i buf) →
  cstr (<[i := 0]> buf) = take i buf.
Proof.
  revert i. induction buf as [|c buf IH]; intros [|i]; simpl; [lia|lia|done|].
  intros Hi [Hc HF]%Forall_cons. rewrite (proj2 (Z.eqb_neq c 0)) by done. by rewrite IH by (done || lia).
Qed.

Lemma print_line_ok buf i last_line s :
  ok_buf buf i → fits s →
  let '(stop, s') := print_line (<[i := 0]> buf) max_rows last_line s in
  fits s' ∧ (if (stop : bool) then stopped (out s')
             else shown (out s') = shown (out s) ++ take i buf ∧ (last_line = true → out s' = out s ++ [Line (take i buf)])).
Proof.
  intros (Hl & Hi & Hnz) Hf. unfold print_line. rewrite cstr_terminated by (done || lia).
  assert (HL : Forall line_fits (out s ++ [Line (take i buf)])).
  { apply Forall_app. split; [done|]. apply Forall_singleton. simpl. rewrite length_take. lia. }
  destruct (_ && _) eqn:E; simpl.
  - destruct (keys s) as [|r ks]; unfold fits in *; simpl; rewrite !Forall_app, !Forall_singleton in *.
    + split; [done|]. left. by rewrite last_snoc.
    + split; [done|]. destruct (is_break r); [right; by rewrite last_snoc|]. split.
      { rewrite !shown_app. unfold shown at 2 3 4. simpl. by rewrite !app_nil_r. }
      intros ->. by rewrite andb_false_r in E.
  - split; [done|]. rewrite shown_app. split; [|done]. unfold shown at 2. simpl. by rewrite app_nil_r.
Qed.

Lemma put_nat buf i c : (i < length buf)%nat → put buf (Z.of_nat i) c = Ret (<[i := c]> buf).
Proof. apply put_lookup. Qed.

Lemma put_first buf c : (0 < length buf)%nat → put buf 0 c = Ret (<[0%nat := c]> buf).
Proof. apply (put_nat buf 0). Qed.

(** A flushed line. *)
Lemma flush_line_ok buf i s :
  (0 < w)%nat → ok_buf buf i → fits s →
  ∃ r, flush_line max_rows (<[i := 0]> buf) s = Ret r ∧ good (total buf i s) r ∧
    match r with Rest _ _ _ => False | Next _ j _ => j = 0%nat | _ => True end.
Proof.
  intros Hw Hb Hf. unfold flush_line. pose proof (print_line_ok buf i false s Hb Hf) as H.
  destruct Hb as (Hl & Hi & Hnz).
  destruct (print_line _ _ _ s) as [[] s']; destruct H as [Hf' H].
  - eexists. split; [done|]. done.
  - rewrite put_first by (rewrite length_insert; lia). simpl.
    eexists. split; [done|]. split; [|done]. destruct H as [H _]. split; [|split; [done|split; [done|]]].
    + split; [by rewrite !length_insert|]. split; [lia|]. rewrite take_0. constructor.
    + unfold total. rewrite take_0, H, vis_app. by rewrite app_nil_r.
Qed.

(** Adding a character. *)
Lemma ok_buf_snoc buf i c : ok_buf buf i → (i < w)%nat → c ≠ 0 →
  ok_buf (<[i := c]> buf) (S i) ∧ take (S i) (<[i := c]> buf) = take i buf ++ [c].
Proof.
  intros (Hl & Hi & Hnz) Hlt Hc.
  assert (E : take (S i) (<[i := c]> buf) = take i buf ++ [c]).
  { rewrite (take_S_r _ _ c) by (apply list_lookup_insert_eq; lia). by rewrite take_insert_ge by lia. }
  split; [|done]. split; [by rewrite length_insert|]. split; [lia|]. rewrite E. apply Forall_app.
  by split; [|apply Forall_singleton].
Qed.

Lemma total_snoc buf i c s : ok_buf buf i → (i < w)%nat → c ≠ 0 →
  total (<[i := c]> buf) (S i) s = total buf i s ++ vis [c].
Proof.
  intros Hb Hlt Hc. destruct (ok_buf_snoc buf i c Hb Hlt Hc) as [_ E].
  unfold total. by rewrite E, vis_app, app_assoc.
Qed.

Lemma tab_loop_ok k last_char buf i s :
  ok_buf buf i → (i < w)%nat → fits s →
  ∃ r, tab_loop w max_rows k last_char buf i s = Ret r ∧ good (total buf i s) r ∧
    match r with Rest _ _ _ => last_char = true | _ => True end.
Proof.
  revert buf i. induction k as [|k IH]; intros buf i Hb Hi Hf; cbn [tab_loop].
  { eexists. split; [done|]. split; [|done]. by repeat split; try apply Hb. }
  rewrite put_nat, outcome_bind_ret by (destruct Hb; lia). cbv zeta.
  destruct (ok_buf_snoc buf i SPACE Hb Hi) as [Hb' _]; [done|].
  pose proof (total_snoc buf i SPACE s Hb Hi ltac:(done)) as ET.
  rewrite vis_space, app_nil_r in ET.
  destruct (Nat.eqb_spec (S i) w) as [E|E].
  - destruct last_char.
    + eexists. split; [done|]. split; [|done]. split; [done|]. split; [done|]. done.
    + rewrite put_nat, outcome_bind_ret by (rewrite length_insert; destruct Hb; lia).
      destruct (flush_line_ok (<[i := SPACE]> buf) (S i) s) as (r & Er & Hg & Hr); [lia|done..|].
      rewrite Er. eexists. split; [done|]. rewrite ET in Hg. split; [done|]. by destruct r.
  - destruct (IH (<[i := SPACE]> buf) (S i) Hb') as (r & Er & Hg & Hr); [destruct Hb'; lia|done|].
    rewrite Er. eexists. split; [done|]. by rewrite ET in Hg.
Qed.

Lemma find_space_ok k buf : (k < length buf)%nat →
  ∃ j, find_space k buf = Ret j ∧ (j ≤ k)%nat.
Proof.
  induction k as [|k IH]; intros Hk; cbn [find_space]; [by exists O|].
  destruct (lookup_lt_is_Some_2 buf (S k)) as [c Ec]; [lia|].
  rewrite (rd8_lookup _ _ _ Ec). simpl. destruct (c =? SPACE); [by exists (S k)|].
  destruct IH as (j & -> & Hj); [lia|]. exists j. split; [done|lia].
Qed.

(** Breaking a full line at a space. *)
Lemma ordinary_char_ok c last_char buf i s :
  ok_buf buf i → (i < w)%nat → fits s → c ≠ 0 →
  ∃ r, ordinary_char w max_rows c last_char buf i s = Ret r ∧ good (total buf i s ++ vis [c]) r ∧
    match r with Rest _ _ _ => last_char = true | _ => True end.
Proof.
  intros Hb Hi Hf Hc. unfold ordinary_char.
  rewrite put_nat, outcome_bind_ret by (destruct Hb; lia). cbv zeta.
  destruct (ok_buf_snoc buf i c Hb Hi Hc) as [Hb' _].
  pose proof (total_snoc buf i c s Hb Hi Hc) as ET. rewrite <- ET. clear ET.
  set (b1 := <[i := c]> buf) in *. clearbody b1. clear Hb.
  destruct (Nat.eqb_spec (S i) w) as [E|E].
  2: { eexists. split; [done|]. split; [|done]. split; [done|]. split; [destruct Hb'; lia|done]. }
  destruct last_char.
  { eexists. split; [done|]. done. }
  pose proof Hb' as (Hl & Hle & Hnz).
  rewrite put_nat, outcome_bind_ret by lia. cbn [Nat.sub]. rewrite Nat.sub_0_r.
  destruct (find_space_ok i (<[S i := 0]> b1)) as (k & -> & Hk); [rewrite length_insert; lia|].
  rewrite outcome_bind_ret.
  destruct (lookup_lt_is_Some_2 (<[S i := 0]> b1) k) as [ck Eck]; [rewrite length_insert; lia|].
  rewrite (rd8_lookup _ _ _ Eck), outcome_bind_ret.
  destruct (Z.eqb_spec ck SPACE) as [->|Hck].
  2: { destruct (flush_line_ok b1 (S i) s) as (r & Er & Hg & Hr); [lia|done..|].
       rewrite Er. eexists. split; [done|]. split; [done|]. by destruct r. }
  rewrite list_lookup_insert_ne in Eck by lia. rewrite put_nat, outcome_bind_ret by (rewrite length_insert; lia).
  assert (Esplit : take (S i) b1 = take k b1 ++ SPACE :: drop (k + 1) (take (S i) b1)).
  { rewrite <- (take_drop k (take (S i) b1)) at 1. rewrite take_take, Nat.min_l by lia. f_equal.
    rewrite Nat.add_1_r. apply drop_S. by rewrite lookup_take_lt by lia. }
  set (rest := drop (k + 1) (take (S i) b1)) in *.
  assert (Hlr : length rest = (i - k)%nat) by (subst rest; rewrite length_drop, length_take; lia).
  rewrite Esplit in Hnz. apply Forall_app in Hnz as [Hnz1 [_ Hnz2]%Forall_cons].
  assert (Es : cstr (drop (k + 1) (<[S i := 0]> b1)) = rest).
  { rewrite drop_insert_ge by lia.
    assert (Er : take (S i - (k + 1)) (drop (k + 1) b1) = rest)
      by (rewrite take_drop_commute; subst rest; do 2 f_equal; lia).
    rewrite cstr_terminated, Er; [done|rewrite length_drop; lia|by rewrite Er]. }
  rewrite Es. clear Es. clearbody rest.
  pose proof (print_line_ok (<[S i := 0]> b1) k false s) as HP.
  assert (Ek : take k (<[S i := 0]> b1) = take k b1) by (by rewrite take_insert_ge by lia).
  rewrite Ek in HP. destruct (print_line (<[k:=0]> (<[S i:=0]> b1)) max_rows false s) as [stop s'].
  destruct HP as [Hf' HP]; [split; [by rewrite length_insert|split; [lia|by rewrite Ek]]|done|].
  destruct stop; [by eexists|]. unfold blit. rewrite length_app, !length_insert. simpl.
  rewrite (proj2 (Z.ltb_ge _ _)) by lia. simpl. eexists. split; [done|]. split; [|done].
  destruct HP as [HP _]. rewrite <- app_assoc. split; [|split; [lia|split; [done|]]].
  - split; [|split; [lia|by rewrite take_app_length]].
    rewrite length_app. simpl. rewrite length_drop, !length_insert. lia.
  - unfold total. rewrite take_app_length, HP, Esplit, !vis_app, vis_space. by rewrite app_assoc.
Qed.

Lemma handle_char_ok c last_char buf i s :
  ok_buf buf i → (i < w)%nat → fits s → c ≠ 0 →
  ∃ r, handle_char w max_rows c last_char buf i s = Ret r ∧ good (total buf i s ++ vis [c]) r ∧
    match r with Rest _ _ _ => last_char = true | _ => True end.
Proof.
  intros Hb Hi Hf Hc. unfold handle_char. destruct (Z.eqb_spec c TAB) as [->|].
  - assert (vis [TAB] = []) as -> by done. rewrite app_nil_r. by apply tab_loop_ok.
  - by apply ordinary_char_ok.
Qed.

Lemma vis_newline c l : is_newline c = true → vis (c :: l) = vis l.
Proof.
  intros H. unfold vis. apply filter_cons_False. intros (_ & _ & H1 & H2).
  unfold is_newline in H. lia.
Qed.

Lemma vis_cons c l : vis (c :: l) = vis [c] ++ vis l.
Proof. by rewrite <- vis_app. Qed.

(** The characters of a string. *)
Lemma chars_loop_ok n string buf i s :
  (length string ≤ n)%nat → Forall (fun c => c ≠ 0) string →
  ok_buf buf i → (i < w)%nat → fits s →
  ∃ r, chars_loop w max_rows string buf i s = Ret r ∧ good (total buf i s ++ vis string) r ∧
    match r with Next _ _ _ => False | _ => True end.
Proof.
  revert string buf i s. induction n as [|n IH]; intros string buf i s Hn Hnz Hb Hi Hf;
    (destruct string as [|c string];
     [eexists; split; [done|]; rewrite app_nil_r; done|simpl in Hn; try lia]).
  apply Forall_cons in Hnz as [Hc Hnz]. cbn [chars_loop].
  assert (Hstep : ∀ c string buf i s, (length string < S n)%nat → Forall (fun c => c ≠ 0) string →
    c ≠ 0 → ok_buf buf i → (i < w)%nat → fits s →
    ∃ r, (r ← handle_char w max_rows c (bool_decide (string = [])) buf i s;
          match r with Next buf i s => chars_loop w max_rows string buf i s | _ => Ret r end) = Ret r ∧
      good (total buf i s ++ vis (c :: string)) r ∧ match r with Next _ _ _ => False | _ => True end).
  { clear - IH. intros c string buf i s Hn Hnz Hc Hb Hi Hf. rewrite (vis_cons c), app_assoc.
    destruct (handle_char_ok c (bool_decide (string = [])) buf i s) as (r & -> & Hg & Hr); [done..|].
    rewrite outcome_bind_ret. destruct r as [buf' i' s'|buf' i' s'|s'].
    - destruct Hg as (Hb' & Hi' & Hf' & <-). apply IH; (done || lia).
    - apply bool_decide_eq_true in Hr as ->. rewrite app_nil_r. by eexists.
    - by eexists. }
  destruct (is_newline c) eqn:Ec; [|by apply Hstep].
  rewrite put_nat, outcome_bind_ret by (destruct Hb; lia).
  destruct (flush_line_ok buf i s) as (r & -> & Hg & Hr); [lia|done..|]. rewrite outcome_bind_ret.
  rewrite vis_newline by done. destruct r as [buf' i' s'|buf' i' s'|s']; [|done|by eexists].
  destruct Hg as (Hb' & Hi' & Hf' & <-). destruct string as [|c2 string].
  { eexists. split; [done|]. rewrite app_nil_r. done. }
  pose proof Hnz as [Hc2 Hnz2]%Forall_cons. simpl in Hn.
  destruct (is_newline c2) eqn:Ec2; [|by apply Hstep; (done || lia)].
  destruct (negb (c2 =? c)); [|apply IH; (done || simpl; lia)].
  rewrite vis_newline by done. apply IH; (done || lia).
Qed.

Lemma strings_loop_ok strings buf s :
  (0 < w)%nat → length buf = S w → Forall (Forall (fun c => c ≠ 0)) strings → fits s →
  ∃ s', strings_loop w max_rows strings buf s = Ret s' ∧ fits s' ∧
    (stopped (out s') ∨ vis (shown (out s')) = vis (shown (out s)) ++ vis (concat strings)) ∧
    (strings = [] → s' = s).
Proof.
  intros Hw. revert buf s. induction strings as [|string strings IH]; intros buf s Hl HF Hf.
  { exists s. split; [done|]. split; [done|]. split; [right; by rewrite app_nil_r|done]. }
  apply Forall_cons in HF as [Hs HF]. cbn [strings_loop].
  rewrite put_first, outcome_bind_ret by lia.
  destruct (chars_loop_ok (length string) string (<[0%nat := 0]> buf) 0 s) as (r & -> & Hg & Hr);
    [done|done| |done|done|].
  { split; [by rewrite length_insert|]. split; [lia|]. rewrite take_0. constructor. }
  unfold total in Hg at 1. rewrite take_0 in Hg. change (vis []) with (@nil Z) in Hg.
  rewrite app_nil_r in Hg. rewrite outcome_bind_ret.
  destruct r as [buf' i' s'|buf' i' s'|s']; [done| |].
  2: { exists s'. destruct Hg. split; [done|]. split; [done|]. split; [by left|done]. }
  destruct Hg as (Hb' & Hf' & HT). rewrite put_nat, outcome_bind_ret by (destruct Hb'; lia).
  pose proof (print_line_ok buf' i' (bool_decide (strings = [])) s' Hb' Hf') as HP.
  destruct (print_line _ _ _ s') as [[] s1]; destruct HP as [Hf1 HP].
  { exists s1. split; [done|]. split; [done|]. split; [by left|done]. }
  destruct HP as [HP _].
  destruct (IH (<[i' := 0]> buf') s1) as (s2 & -> & Hf2 & HT2 & _);
    [rewrite length_insert; apply Hb'|done|done|].
  exists s2. split; [done|]. split; [done|]. split; [|done].
  destruct HT2 as [?|HT2]; [by left|]. right. rewrite HT2, HP. simpl. rewrite !vis_app.
  unfold total in HT. by rewrite HT, !app_assoc.
Qed.
End paging_thy.

(** Paging a text never leaves the line buffer, no printed line is longer
    than the line width, and no visible character is lost, added or moved
    unless the listing was broken at a prompt. *)
Theorem winx_print_strings_correct uninit strings line_width max_rows ks :
  (∀ n, length (uninit n) = n) → 0 < line_width → max_rows ≠ 0 →
  Forall (Forall (fun c => c ≠ 0)) strings →
  ∃ s, winx_print_strings uninit strings line_width max_rows true (Screen [] ks 0) = Ret (0, s) ∧
    Forall (line_fits (Z.to_nat line_width)) (out s) ∧
    (stopped (out s) ∨ vis (shown (out s)) = vis (concat strings)).
Proof.
  intros Hu Hw Hr HF. unfold winx_print_strings. cbn [negb].
  rewrite (proj2 (Z.eqb_neq _ _)), (proj2 (Z.eqb_neq _ _)), (proj2 (Z.ltb_ge _ _)) by lia.
  cbn [out keys].
  destruct (strings_loop_ok (Z.to_nat line_width) (max_rows - 4) strings
    (uninit (S (Z.to_nat line_width))) (Screen [] ks 0)) as (s & -> & Hf & HT & _);
    [lia|done|done|constructor|].
  exists s. split; [done|]. split; [done|]. by destruct HT as [?|?]; [left|right].
Qed.

Lemma winx_print_strings_correct_witness :
  ∃ s, winx_print_strings (fun n => replicate n 7) [text "to be or not" ++ [10] ++ text "to be"] 7 24 true
         (Screen [] [] 0) = Ret (0, s) ∧
    Forall (line_fits 7) (out s) ∧
    (stopped (out s) ∨ vis (shown (out s)) = vis (concat [text "to be or not" ++ [10] ++ text "to be"])).
Proof.
  apply (winx_print_strings_correct (fun n => replicate n 7)
           [text "to be or not" ++ [10] ++ text "to be"] 7 24 []).
  - intros n. apply length_replicate.
  - lia.
  - lia.
  - apply Forall_singleton. apply (bool_decide_unpack _). vm_compute. exact I.
Defined.

Example print_strings_run :
  (λ r : outcome (Z * screen), match r with Ret (_, s) => out s | _ => [] end)
    (winx_print_strings (fun n => replicate n 7) [text "to be or not" ++ [10] ++ text "to be"] 7 24 true
       (Screen [] [] 0)) =
  [Line (text "to be"); Line (text "or not"); Line (text "to be")].
Proof. vm_compute. reflexivity. Qed.

(** ** The prompt edits a line *)

(** The line, the history and the flag as the keys change them. *)
Record editor : Type := Editor {
  line : str;
  hist : option winx_history;
  listed : bool;
}.

Definition edit_arrow (r : KBD_RECORD) (e : editor) : editor :=
  match hist e with
  | Some (History (x :: es) (Some cur) n) =>
      let h := History (x :: es) (Some cur) n in
      if wVirtualScanCode r =? ARROW_UP then
        let '(cur, l) := list_back h cur (listed e) in
        Editor (nth cur (x :: es) []) (Some (History (x :: es) (Some cur) n)) l
      else if (wVirtualScanCode r =? ARROW_DOWN) && negb (Nat.eqb (S cur) (length (x :: es))) then
        Editor (nth (S cur) (x :: es) []) (Some (History (x :: es) (Some (S cur)) n))
          (Nat.eqb (S cur) (length es))
      else e
  | _ => e
  end.

Definition edit_special (r : KBD_RECORD) (e : editor) : editor :=
  let esc := wVirtualScanCode r =? ESC in
  let back := AsciiChar r =? BACKSPACE in
  let l := if esc then [] else line e in
  let l := if back then removelast l else l in
  let e := edit_arrow r (Editor l (hist e) (listed e)) in
  if back || esc then Editor (line e) (hist e) false else e.

(** The run over the keys: whether the line is complete, by the return key or
    because it has [n - 1] characters. *)
Fixpoint edit (n : nat) (ks : list KBD_RECORD) (e : editor) : bool * editor :=
  match ks with
  | [] => (false, e)
  | r :: ks =>
      if is_special r then edit n ks (edit_special r e)
      else if AsciiChar r =? 0 then edit n ks e
      else if AsciiChar r =? CR then (true, e)
      else
        let e := Editor (line e ++ [AsciiChar r]) (hist e) false in
        if (S (length (line e)) <? n)%nat then edit n ks e else (true, e)
  end.

(** The entries of a history leave room for one more character. *)
Definition history_fits (n : nat) (h : option winx_history) : Prop :=
  match h with
  | Some h => Forall (fun s => (S (length s) < n)%nat ∧ Forall (fun c => c ≠ 0) s) (entries h)
  | None => True
  end.

Lemma blit_first b d : (length d ≤ length b)%nat → blit b 0 d = Ret (d ++ drop (length d) b).
Proof. intros H. unfold blit. simpl. by rewrite (proj2 (Z.ltb_ge _ _)) by lia. Qed.

Section prompt_thy.
Context (n : nat).

(** A line in the string of [n] characters. *)
Definition cells (l : str) : list Z := l ++ replicate (n - length l) 0.

Definition to_state (e : editor) : prompt_state :=
  PromptState (cells (line e)) (length (line e)) (hist e) (listed e).

Definition editor_ok (e : editor) : Prop :=
  (S (length (line e)) < n)%nat ∧ Forall (fun c => c ≠ 0) (line e) ∧ history_fits n (hist e).

Lemma cells_length l : (length l ≤ n)%nat → length (cells l) = n.
Proof. intros H. unfold cells. rewrite length_app, length_replicate. lia. Qed.

Lemma zero_string_ok b : length b = n → zero_string n b = Ret (replicate n 0).
Proof.
  intros Hb. unfold zero_string. rewrite blit_first by (rewrite length_replicate; lia).
  by rewrite length_replicate, drop_ge, app_nil_r by lia.
Qed.

Lemma recall_ok e b : length b = n → (length e < n)%nat → recall n e b = Ret (cells e).
Proof.
  intros Hb He. unfold recall. rewrite zero_string_ok, outcome_bind_ret by done.
  rewrite blit_first by (rewrite length_app, length_replicate; simpl; lia). f_equal.
  unfold cells. rewrite drop_replicate, length_app, <- app_assoc. f_equal. simpl.
  replace (n - length e)%nat with (S (n - (length e + 1))) by lia. done.
Qed.

Lemma put_cell l c : (length l < n)%nat → put (cells l) (Z.of_nat (length l)) c = Ret (cells (l ++ [c])).
Proof.
  intros Hl. rewrite put_lookup by (rewrite cells_length; lia). f_equal. unfold cells.
  rewrite insert_app_r_alt, Nat.sub_diag, length_app by lia.
  replace (n - length l)%nat with (S (n - (length l + 1))) by lia. simpl. by rewrite <- app_assoc.
Qed.

Lemma put_back l c : (length (l ++ [c]) ≤ n)%nat →
  put (cells (l ++ [c])) (Z.of_nat (length l)) 0 = Ret (cells l).
Proof.
  rewrite length_app. simpl. intros Hl. rewrite put_lookup by (rewrite cells_length; rewrite ?length_app; simpl; lia).
  f_equal. unfold cells. rewrite <- app_assoc, insert_app_r_alt, Nat.sub_diag, length_app by lia.
  replace (n - length l)%nat with (S (n - (length l + 1))) by lia. done.
Qed.

Lemma arrow_keys_ok r e :
  editor_ok e → arrow_keys n r (to_state e) = Ret (to_state (edit_arrow r e)) ∧ editor_ok (edit_arrow r e).
Proof.
  unfold editor_ok. intros (Hl & Hnz & Hh). unfold arrow_keys, edit_arrow. destruct e as [l h ls]. simpl in *.
  destruct h as [[[|x es] [cur|] k]|]; simpl in Hh |- *; try done.
  assert (HE : ∀ i, (S (length (nth i (x :: es) [])) < n)%nat ∧ Forall (fun c => c ≠ 0) (nth i (x :: es) [])).
  { intros i. destruct (nth_in_or_default i (x :: es) []) as [Hin| ->]; [|split; [simpl; lia|done]].
    rewrite Forall_forall in Hh. apply Hh. by apply list_elem_of_In. }
  destruct (wVirtualScanCode r =? ARROW_UP).
  - destruct (list_back _ _ _) as [cur' ls'].
    destruct (HE cur') as [H1 H2]. simpl in H1, H2. rewrite recall_ok by (try apply cells_length; lia). simpl.
    unfold to_state; simpl. split; [done|]. done.
  - destruct (wVirtualScanCode r =? ARROW_DOWN); simpl; [|done].
    destruct (negb _); [|done]. destruct (HE (S cur)) as [H1 H2].
    simpl in H1, H2. rewrite recall_ok by (try apply cells_length; lia). simpl.
    unfold to_state; simpl. rewrite Nat.sub_0_r. done.
Qed.
Lemma special_key_ok r e :
  editor_ok e → special_key n r (to_state e) = Ret (to_state (edit_special r e)) ∧
    editor_ok (edit_special r e).
Proof.
  intros He. unfold special_key, edit_special.
  assert (H1 : ∃ e1, (if wVirtualScanCode r =? ESC
      then string ← zero_string n (ps_string (to_state e));
           Ret (PromptState string 0 (ps_history (to_state e)) (ps_listed (to_state e)))
      else Ret (to_state e)) = Ret (to_state e1) ∧ editor_ok e1 ∧
    e1 = Editor (if wVirtualScanCode r =? ESC then [] else line e) (hist e) (listed e)).
  { destruct He as (Hl & Hnz & Hh). eexists. split; [|split; [|done]].
    - destruct (_ =? ESC); [|by destruct e]. simpl. rewrite zero_string_ok by (apply cells_length; lia).
      simpl. unfold to_state, cells. simpl. by rewrite Nat.sub_0_r.
    - destruct (_ =? ESC); split; simpl; try done; lia. }
  destruct H1 as (e1 & E1 & He1 & Ee1). rewrite E1, outcome_bind_ret. clear E1.
  assert (H2 : ∃ e2, (if AsciiChar r =? BACKSPACE then
         match ps_i (to_state e1) with
         | O => Ret (to_state e1)
         | S i => string ← put (ps_string (to_state e1)) (Z.of_nat i) 0;
                  Ret (PromptState string i (ps_history (to_state e1)) (ps_listed (to_state e1)))
         end
       else Ret (to_state e1)) = Ret (to_state e2) ∧ editor_ok e2 ∧
    e2 = Editor (if AsciiChar r =? BACKSPACE then removelast (line e1) else line e1) (hist e1) (listed e1)).
  { destruct He1 as (Hl & Hnz & Hh). eexists. split; [|split; [|done]].
    - destruct (_ =? BACKSPACE); [|by destruct e1]. clear Ee1. destruct e1 as [l h ls]. simpl in *.
      destruct (decide (l = [])) as [->|Hne]; [done|]. destruct (exists_last Hne) as (l' & c & ->).
      rewrite length_app, Nat.add_1_r, put_back, removelast_last by lia. done.
    - destruct (_ =? BACKSPACE); [|done]. simpl. clear Ee1. destruct e1 as [l h ls]. simpl in *.
      destruct (decide (l = [])) as [->|Hne]; [done|]. destruct (exists_last Hne) as (l' & c & ->).
      rewrite removelast_last. rewrite length_app in Hl. simpl in Hl. split; [simpl; lia|].
      split; [|done]. by apply Forall_app in Hnz as [? _]. }
  destruct H2 as (e2 & E2 & He2 & Ee2). rewrite E2, outcome_bind_ret. clear E2.
  destruct (arrow_keys_ok r e2 He2) as [E3 He3]. rewrite E3, outcome_bind_ret.
  subst e2 e1. cbn [line hist listed] in *.
  destruct ((AsciiChar r =? BACKSPACE) || (wVirtualScanCode r =? ESC)); [|done]. by split.
Qed.

Lemma prompt_loop_ok ks e :
  editor_ok e →
  prompt_loop n ks (to_state e) =
    Ret (let '(finished, e) := edit n ks e in
         if finished then Done (to_state e) else Failed (to_state e)) ∧
  let '(finished, e') := edit n ks e in
  (length (line e') < n)%nat ∧ Forall (fun c => c ≠ 0) (line e').
Proof.
  revert e. induction ks as [|r ks IH]; intros e He; cbn [prompt_loop edit].
  { destruct He as (? & ? & ?). split; [done|]. split; [lia|done]. }
  destruct (is_special r).
  { destruct (special_key_ok r e He) as [-> He']. by apply IH. }
  destruct (Z.eqb_spec (AsciiChar r) 0) as [|Hc]; [by apply IH|].
  destruct (AsciiChar r =? CR).
  { destruct He as (? & ? & ?). split; [done|]. split; [lia|done]. }
  destruct He as (Hl & Hnz & Hh). cbn [to_state ps_string ps_i].
  rewrite put_cell, outcome_bind_ret by lia. cbv zeta. cbn [ps_i line].
  assert (Hlen : length (line e ++ [AsciiChar r]) = S (length (line e)))
    by (rewrite length_app; simpl; lia).
  assert (Hnz' : Forall (fun c => c ≠ 0) (line e ++ [AsciiChar r]))
    by (apply Forall_app; split; [done|by apply Forall_singleton]).
  rewrite Hlen. set (e' := Editor (line e ++ [AsciiChar r]) (hist e) false).
  assert (Es : to_state e' =
    PromptState (cells (line e ++ [AsciiChar r])) (S (length (line e))) (hist e) false)
    by (unfold to_state, e'; simpl; by rewrite Hlen).
  cbn [ps_history to_state]. rewrite <- Es. destruct (Nat.ltb_spec (S (S (length (line e)))) n) as [Hlt|Hge].
  - apply IH. split; [subst e'; simpl; lia|]. done.
  - split; [done|]. subst e'. simpl. split; [lia|done].
Qed.
End prompt_thy.

(** C38: when memory is there and each entry of the history leaves room for one
    more character in the string ([history_fits]; without that an entry that is
    recalled leads out of the string, [winx_prompt_overrun]), [winx_prompt] on a
    string of [n] characters is a line editor: it never leaves the string, the
    string is the edited line followed by zeros, the result is its length with
    the terminating zero or -1 when the keys end, and a finished nonempty line
    becomes the last entry of the history. *)
Theorem winx_prompt_edits tmalloc string n h ks :
  (1 < n)%nat → length string = n → history_fits n h → (∀ k, tmalloc k = true) →
  let '(finished, e) := edit n ks (Editor [] h false) in
  winx_prompt tmalloc (Some string) (Z.of_nat n) h ks =
  Ret (if finished then Z.of_nat (length (line e)) + 1 else -1,
       Some (line e ++ replicate (n - length (line e)) 0),
       if finished && negb (bool_decide (line e = [])) then
         match hist e with
         | Some h => Some (History (entries h ++ [line e]) (Some (length (entries h))) (n_entries h + 1))
         | None => None
         end
       else hist e).
Proof.
  intros Hn Hs Hh Hm. unfold winx_prompt. rewrite (proj2 (Z.leb_gt _ _)), Nat2Z.id by lia.
  rewrite zero_string_ok, outcome_bind_ret by done.
  rewrite (proj2 (Z.ltb_lt _ _)) by lia. cbv zeta.
  assert (Es : PromptState (replicate n 0) 0 h false = to_state n (Editor [] h false)).
  { unfold to_state, cells. simpl. by rewrite Nat.sub_0_r. }
  rewrite Es. destruct (prompt_loop_ok n ks (Editor [] h false)) as [E He]; [by split; [simpl; lia|]|].
  rewrite E, outcome_bind_ret. clear E Es. destruct (edit n ks (Editor [] h false)) as [[] e]; [|done].
  destruct He as [Hl Hnz]. simpl.
  change (cells n (line e)) with (line e ++ replicate (n - length (line e)) 0).
  assert (E0 : rd8 (line e ++ replicate (n - length (line e)) 0) 0 = Ret (ch (line e))).
  { apply (rd8_lookup _ 0). destruct (line e) as [|c l]; [|done]. simpl in Hl |- *.
    by rewrite lookup_replicate_2 by lia. }
  rewrite E0, outcome_bind_ret. destruct (line e) as [|c l] eqn:El; [done|].
  apply Forall_cons in Hnz as [Hc Hnz]. simpl. rewrite (proj2 (Z.eqb_neq c 0)) by done. simpl.
  destruct (hist e) as [h'|]; [|done]. unfold winx_add_history_entry.
  rewrite app_comm_cons, decide_True, Hm, (cstr_zeros (c :: l)); [done| |simpl in Hl; lia|].
  - by apply Forall_cons.
  - apply elem_of_app. right. apply elem_of_replicate. split; [done|]. simpl in Hl. lia.
Qed.

(** A key with a character, and the arrow up. *)
Definition char_key (c : Z) : KBD_RECORD := KbdRecord 0 0 c true.

Definition up_key : KBD_RECORD := KbdRecord ARROW_UP 0 0 true.

Lemma winx_prompt_edits_witness :
  winx_prompt (fun _ => true) (Some [7; 7; 7; 7]) 4 (Some (History [text "ab"] (Some 0%nat) 1))
    [char_key 0x78; up_key; char_key BACKSPACE; char_key 0x79; char_key CR] =
  Ret (3, Some (text "ay" ++ [0; 0]),
       Some (History [text "ab"; text "ay"] (Some 1%nat) 2)).
Proof.
  apply (winx_prompt_edits (fun _ => true) [7; 7; 7; 7] 4 (Some (History [text "ab"] (Some 0%nat) 1))
    [char_key 0x78; up_key; char_key BACKSPACE; char_key 0x79; char_key CR]); try done.
  - lia.
  - apply Forall_singleton. split; [simpl; lia|]. apply (bool_decide_unpack _). vm_compute. exact I.
Defined.

(** The condition on the history is needed: a line that fills the string is
    added to the history, and when it is recalled by the arrow key the next
    character overwrites the terminating zero of the string, so that the
    history reads past its end. *)
Theorem winx_prompt_overrun tmalloc string l n_e c :
  (0 < length l)%nat → length string = S (length l) → Forall (fun c => c ≠ 0) l →
  c ≠ 0 → c ≠ BACKSPACE → c ≠ CR →
  winx_prompt tmalloc (Some string) (Z.of_nat (S (length l)))
    (Some (History [l] (Some 0%nat) n_e)) [up_key; char_key c] = Fault.
Proof.
  intros Hl Hs Hnz Hc Hb Hr. unfold winx_prompt. rewrite (proj2 (Z.leb_gt _ _)), Nat2Z.id by lia.
  rewrite zero_string_ok, outcome_bind_ret by done. rewrite (proj2 (Z.ltb_lt _ _)) by lia. cbv zeta.
  cbn [prompt_loop]. change (is_special up_key) with true. cbn iota.
  assert (E1 : special_key (S (length l)) up_key
      (PromptState (replicate (S (length l)) 0) 0 (Some (History [l] (Some 0%nat) n_e)) false) =
    Ret (PromptState (l ++ [0]) (length l) (Some (History [l] (Some 0%nat) n_e)) true)).
  { unfold special_key, arrow_keys. cbn -[recall replicate].
    rewrite recall_ok by (rewrite ?length_replicate; lia). simpl. do 2 f_equal. unfold cells.
    by replace (S (length l) - length l)%nat with 1%nat by lia. }
  rewrite E1, outcome_bind_ret. unfold is_special. cbn [char_key AsciiChar wVirtualScanCode].
  rewrite (proj2 (Z.eqb_neq c BACKSPACE)), (proj2 (Z.eqb_neq c 0)), (proj2 (Z.eqb_neq c CR)) by done.
  cbn [orb]. change (0 =? ESC) with false. change (0 =? ARROW_UP) with false.
  change (0 =? ARROW_DOWN) with false. cbn [orb ps_string ps_i].
  rewrite put_lookup by (rewrite length_app; simpl; lia). rewrite outcome_bind_ret.
  rewrite insert_app_r_alt, Nat.sub_diag by lia. cbv zeta. cbn [ps_i].
  rewrite (proj2 (Nat.ltb_ge _ _)) by lia. rewrite outcome_bind_ret. cbn [ps_string ps_history].
  destruct l as [|x l]; [simpl in Hl; lia|]. apply Forall_cons in Hnz as [Hx Hnz].
  rewrite (rd8_lookup _ 0 x) by done. rewrite outcome_bind_ret, (proj2 (Z.eqb_neq x 0)) by done.
  cbn [negb]. unfold winx_add_history_entry. rewrite decide_False; [done|].
  rewrite Forall_forall in Hnz. simpl. intros [E|[Hin|Hin%list_elem_of_singleton]%elem_of_app]%elem_of_cons;
    [by subst x|by apply Hnz in Hin|by subst c].
Qed.

Lemma winx_prompt_overrun_witness :
  winx_prompt (fun _ => true) (Some [0; 0; 0]) 3 (Some (History [text "ab"] (Some 0%nat) 1))
    [up_key; char_key 0x63] = Fault.
Proof.
  apply (winx_prompt_overrun (fun _ => true) [0; 0; 0] (text "ab") 1 0x63); try done.
  - simpl. lia.
  - apply (bool_decide_unpack _). vm_compute. exact I.
Defined.

(** Such an entry comes from a line that fills the string. *)
Example winx_prompt_full_line :
  winx_prompt (fun _ => true) (Some [7; 7; 7]) 3 (Some winx_init_history) [char_key 0x61; char_key 0x62] =
  Ret (3, Some (text "ab" ++ [0]), Some (History [text "ab"] (Some 0%nat) 1)).
Proof. vm_compute. reflexivity. Qed.
