(* ===== verification/Reg.v ===== *)
(** * reg.c: the programs executed during the boot

    The value BootExecute of the registry is a sequence of commands.  It is read
    into a circular list, searched or changed there, and written back as a block
    of strings each with its terminator, with a zero behind the last one.  The
    registry is the class [Registry]; [RegistryLaws] says what the code relies
    on from it.  Every routine leaves the heap of list nodes as it was. *)
From S2P Require Import Prelude DList Bitmap CString FileInfo FileIO.
From stdpp Require Import prelude gmap strings.
Open Scope Z_scope.

Definition STATUS_UNSUCCESSFUL : Z := 0xC0000001.

Definition STATUS_NO_MEMORY : Z := 0xC0000017.

Definition REG_SZ : Z := 1.

(** [sizeof(struct cmd)] on a 64-bit target. *)
Definition sizeof_cmd : Z := 24.

Class Registry (W : Type) := {
  (** the type and the data of each string RtlQueryRegistryValues hands to its
      callback; [None] when the key cannot be read *)
  r_query : W → option (list (Z * str));
  (** RtlWriteRegistryValue with a block of type REG_MULTI_SZ *)
  r_write : W → list Z → Z * W;
}.

Section reg.
Context {W : Type} `{!Registry W} `{!Allocator (node str)}.
Context (tmalloc : Z → bool).
(** Formatting with one argument, see [winx_vswprintf]. *)
Context (vsnwprintf : str → str → Z → Z * str).
Abbreviation cheap := (gmap loc (node str)).

Definition query_routine (ValueType : Z) (ValueData : str) (list : ptr) : ST cheap (Z * ptr) :=
  if negb (ValueType =? REG_SZ) then mret (STATUS_UNSUCCESSFUL, list) else
  if negb (tmalloc (2 * Z.of_nat (length ValueData) + 2)) then mret (STATUS_NO_MEMORY, list) else
  prev_command ← match list with
                 | Some _ => hd ← load list; mret (prev hd)
                 | None => mret None
                 end;
  '(command, list') ← winx_list_insert list prev_command sizeof_cmd [];
  _ ← modify command (set_data (fun _ => cstr ValueData));
  mret (STATUS_SUCCESS, list').

(** RtlQueryRegistryValues calls the callback for one string after the other
    until it fails. *)
Fixpoint query_values (values : list (Z * str)) (list : ptr) : ST cheap (Z * ptr) :=
  match values with
  | [] => mret (STATUS_SUCCESS, list)
  | (ValueType, ValueData) :: values =>
      '(status, list') ← query_routine ValueType ValueData list;
      if NT_SUCCESS status then query_values values list' else mret (status, list')
  end.

Definition get_boot_exec_list (w : W) (list : ptr) : ST cheap (Z * ptr) :=
  match r_query w with
  | None => mret (-1, list)
  | Some values =>
      '(status, list') ← query_values values list;
      mret (if NT_SUCCESS status then 0 else -1, list')
  end.

Definition autocheck : str := text "autocheck ".

(** Positive for equal commands, zero for different ones, negative for a
    failure. *)
Definition cmd_compare (reg_cmd cmd : str) : outcome Z :=
  if winx_wcsicmp (Some cmd) (Some reg_cmd) =? 0 then Ret 1 else
  long_cmd ← winx_swprintf tmalloc (vsnwprintf cmd) (Some (autocheck ++ text "%ws"));
  match long_cmd with
  | None => Ret (-1)
  | Some l => Ret (if winx_wcsicmp (Some l) (Some reg_cmd) =? 0 then 1 else 0)
  end.

(** The loop of [winx_bootex_check] and [winx_bootex_register]. *)
Fixpoint find_loop (fuel : nat) (list c : ptr) (command : str) : ST cheap bool :=
  match fuel with
  | O => st_nofuel
  | S fuel =>
      match c with
      | None => mret false
      | Some _ =>
          nd ← load c;
          result ← st_lift (cmd_compare (data nd) command);
          if 0 <? result then mret true
          else if decide (next nd = list) then mret false
          else find_loop fuel list (next nd) command
      end
  end.

(** The two loops of [save_boot_exec_list]: the length of the block, and the
    copies. *)
Fixpoint length_loop (fuel : nat) (list c : ptr) (length : Z) : ST cheap Z :=
  match fuel with
  | O => st_nofuel
  | S fuel =>
      match c with
      | None => mret length
      | Some _ =>
          nd ← load c;
          let length := match data nd with
                        | [] => length
                        | s => s32 (length + s32 (Z.of_nat (base.length s)) + 1)
                        end in
          if decide (next nd = list) then mret length
          else length_loop fuel list (next nd) length
      end
  end.

Fixpoint copy_loop (fuel : nat) (list c : ptr) (commands : Datatypes.list Z) (p : Z)
  : ST cheap (Datatypes.list Z) :=
  match fuel with
  | O => st_nofuel
  | S fuel =>
      match c with
      | None => mret commands
      | Some _ =>
          nd ← load c;
          '(commands, p) ← (match data nd with
                            | [] => mret (commands, p)
                            | s => commands ← st_lift (blit commands p (s ++ [0]));
                                   mret (commands, p + Z.of_nat (base.length s) + 1)
                            end);
          if decide (next nd = list) then mret commands
          else copy_loop fuel list (next nd) commands p
      end
  end.

Definition save_boot_exec_list (fuel : nat) (list : ptr) (w : W) : ST cheap (Z * W) :=
  length ← length_loop fuel list list 1;
  commands ← copy_loop fuel list list (replicate (Z.to_nat length) 0) 0;
  let '(status, w') := r_write w commands in
  mret (if NT_SUCCESS status then 0 else -1, w').

Definition destroy_boot_exec_list (fuel : nat) (list : ptr) : ST cheap unit :=
  _ ← winx_list_destroy fuel list; mret tt.

Definition winx_bootex_check (fuel : nat) (command : option str) (w : W) : ST cheap Z :=
  match command with
  | None => mret (-1)
  | Some [] => mret 0
  | Some cmd =>
      '(status, list) ← get_boot_exec_list w None;
      result ← (if status <? 0 then mret (-1)
                else found ← find_loop fuel list list cmd; mret (if (found : bool) then 1 else 0));
      _ ← destroy_boot_exec_list fuel list;
      mret result
  end.

(** The body of [winx_bootex_register] between the guards and the label
    [done]. *)
Definition register (fuel : nat) (cmd : str) (list : ptr) (w : W) : ST cheap (Z * W * ptr) :=
  cmd_found ← find_loop fuel list list cmd;
  if (cmd_found : bool) then mret (0, w, list) else
  match winx_wcsdup tmalloc (Some cmd) with
  | None => mret (-1, w, list)
  | Some cmd_copy =>
      prev_command ← match list with
                     | Some _ => hd ← load list; mret (prev hd)
                     | None => mret None
                     end;
      '(c, list) ← winx_list_insert list prev_command sizeof_cmd [];
      _ ← modify c (set_data (fun _ => cmd_copy));
      '(result, w) ← save_boot_exec_list fuel list w;
      mret (result, w, list)
  end.

Definition winx_bootex_register (fuel : nat) (command : option str) (w : W) : ST cheap (Z * W) :=
  match command with
  | None => mret (-1, w)
  | Some [] => mret (0, w)
  | Some cmd =>
      '(status, list) ← get_boot_exec_list w None;
      '(result, w, list) ← (if status <? 0 then mret (-1, w, list) else register fuel cmd list w);
      _ ← destroy_boot_exec_list fuel list;
      mret (result, w)
  end.

(** The loop of [winx_bootex_unregister]: [next] and the head are read before
    the command is removed. *)
Fixpoint unregister_loop (fuel : nat) (cmd : str) (list c : ptr) : ST cheap ptr :=
  match fuel with
  | O => st_nofuel
  | S fuel =>
      match c with
      | None => mret list
      | Some _ =>
          let head := list in
          nd ← load c;
          let nxt := next nd in
          result ← st_lift (cmd_compare (data nd) cmd);
          list ← (if 0 <? result then winx_list_remove list c else mret list);
          if decide (list = None) then mret list
          else if decide (nxt = head) then mret list
          else unregister_loop fuel cmd list nxt
      end
  end.

Definition winx_bootex_unregister (fuel : nat) (command : option str) (w : W) : ST cheap (Z * W) :=
  match command with
  | None => mret (-1, w)
  | Some [] => mret (0, w)
  | Some cmd =>
      '(status, list) ← get_boot_exec_list w None;
      '(result, w, list) ← (if status <? 0 then mret (-1, w, list) else
          list ← unregister_loop fuel cmd list list;
          '(result, w) ← save_boot_exec_list fuel list w;
          mret (result, w, list));
      _ ← destroy_boot_exec_list fuel list;
      mret (result, w)
  end.
End reg.

(** ** The registry *)

(** The strings of a block of type REG_MULTI_SZ: each ends with a zero, an empty
    one ends the block. *)
Fixpoint multi_strings (acc : str) (block : list Z) : list str :=
  match block with
  | [] => []
  | c :: block =>
      if c =? 0 then match acc with [] => [] | _ => reverse acc :: multi_strings [] block end
      else multi_strings (c :: acc) block
  end.

(** BootExecute is a sequence of strings, handed out one by one with their
    terminators; a block that was written is taken apart, and one that was not
    changes nothing. *)
Class RegistryLaws (W : Type) `{!Registry W} := {
  values : W → list str;
  rl_wstr w : Forall wstr (values w);
  rl_query w : r_query w = Some ((fun s => (REG_SZ, s ++ [0])) <$> values w);
  rl_write w block status w' : r_write w block = (status, w') →
    values w' = if NT_SUCCESS status then multi_strings [] block else values w;
}.

(** The command, as it is or behind [autocheck]. *)
Definition names (cmd s : str) : bool :=
  (winx_wcsicmp (Some cmd) (Some s) =? 0) || (winx_wcsicmp (Some (autocheck ++ cmd)) (Some s) =? 0).

(** What is written for a sequence of commands, less the last zero. *)
Definition block_of (ss : list str) : list Z :=
  mjoin ((fun s => match s with [] => [] | _ => s ++ [0] end) <$> ss).

Definition nonempty (ss : list str) : list str := base.filter (fun s => s ≠ []) ss.

Lemma block_of_cons s ss : block_of (s :: ss) = match s with [] => [] | _ => s ++ [0] end ++ block_of ss.
Proof. done. Qed.

Lemma multi_strings_string acc s rest :
  wstr s → multi_strings acc (s ++ 0 :: rest) =
    match reverse acc ++ s with [] => [] | t => t :: multi_strings [] rest end.
Proof.
  intros Hs. revert acc. induction Hs as [|c s Hc _ IH]; intros acc; simpl.
  - rewrite app_nil_r. destruct acc as [|c acc]; [done|]. rewrite reverse_cons.
    by destruct (reverse acc).
  - rewrite (proj2 (Z.eqb_neq c 0)) by lia. rewrite IH, reverse_cons, <- app_assoc. done.
Qed.

(** Reading back what was written. *)
Lemma multi_strings_block ss : Forall wstr ss → multi_strings [] (block_of ss ++ [0]) = nonempty ss.
Proof.
  unfold nonempty. induction 1 as [|s ss Hs _ IH]; [done|].
  rewrite block_of_cons, filter_cons. destruct s as [|c s].
  - by rewrite decide_False by naive_solver.
  - rewrite decide_True by done. rewrite <- !app_assoc. change ([0] ++ ?l) with (0 :: l).
    rewrite multi_strings_string by done. simpl. by rewrite IH.
Qed.

Lemma blit_zeros (a : list Z) n (d : list Z) :
  (length d ≤ n)%nat →
  blit (a ++ replicate n 0) (Z.of_nat (length a)) d = Ret ((a ++ d) ++ replicate (n - length d) 0).
Proof.
  intros Hd. unfold blit. rewrite length_app, length_replicate.
  rewrite (proj2 (Z.ltb_ge _ _)), (proj2 (Z.ltb_ge _ _)) by lia. simpl. rewrite Nat2Z.id.
  rewrite take_app_length, drop_app_ge by lia. rewrite <- !app_assoc. do 3 f_equal.
  rewrite drop_replicate. f_equal. lia.
Qed.

Section theory.
Context {W : Type} `{!Registry W, !RegistryLaws W} `{!Allocator (node str)}.
Context (alloc_total : ∀ h : gmap loc (node str), is_Some (alloc h)).
Context (tmalloc : Z → bool) (tmalloc_total : ∀ n, tmalloc n = true).
Context (vsnwprintf : str → str → Z → Z * str).
Context (vsnwprintf_formats : ∀ cmd,
  formats (autocheck ++ cmd) (vsnwprintf cmd (autocheck ++ text "%ws"))).
Abbreviation cheap := (gmap loc (node str)).
Implicit Types (h : cheap) (l : list (loc * str)) (w : W).

Definition short (cmd : str) : Prop := wstr cmd ∧ Z.of_nat (length cmd) < 2 ^ 29.

Lemma cmd_compare_run s cmd :
  short cmd → cmd_compare tmalloc vsnwprintf s cmd = Ret (if names cmd s then 1 else 0).
Proof.
  intros [Hw Hlen]. unfold cmd_compare, names. destruct (winx_wcsicmp (Some cmd) (Some s) =? 0); [done|].
  unfold winx_swprintf, winx_vswprintf.
  rewrite (vsprintf_loop_spec tmalloc 2 _ (autocheck ++ cmd) 23 25); [| done | | done | lia | lia].
  - rewrite (proj2 (Z.ltb_lt _ _)); [done|]. rewrite length_app. change (length autocheck) with 10%nat. lia.
  - apply Forall_app. split.
    + apply (bool_decide_unpack _). vm_compute. exact I.
    + eapply Forall_impl; [exact Hw|]. simpl. lia.
Qed.

(** The heap is [h0] with the nodes of the list. *)
Definition extends (h0 h : cheap) l : Prop :=
  (∀ k, k ∉ l.*1 → h !! k = h0 !! k) ∧ ∀ k, k ∈ l.*1 → h0 !! k = None.

Lemma destroy_run h0 h head l fuel :
  is_list h head l → extends h0 h l → (length l ≤ fuel)%nat →
  destroy_boot_exec_list fuel head h = Ret (tt, h0).
Proof.
  intros Hl [He Hn] Hf. unfold destroy_boot_exec_list.
  destruct (winx_list_destroy_spec fuel h head l Hl Hf) as (h' & E & Hin & Hout). step E.
  unfold mret, st_ret. do 2 f_equal. apply map_eq. intros k.
  destruct (decide (k ∈ l.*1)); [by rewrite Hin, Hn | by rewrite Hout, He].
Qed.

Lemma sizeof_cmd_ok : sizeof_list_entry ≤ sizeof_cmd < 2 ^ 31.
Proof. unfold sizeof_list_entry, sizeof_cmd. lia. Qed.

Lemma insert_last_run h head l :
  is_list h head l →
  ∃ h' head' x, winx_list_insert head (lst_ptr l None) sizeof_cmd [] h = Ret ((Some x, head'), h') ∧
    x ∉ l.*1 ∧ h !! x = None ∧ is_list h' head' (l ++ [(x, [])]) ∧ ∀ k, k ∉ x :: l.*1 → h' !! k = h !! k.
Proof.
  intros Hl. destruct (alloc_total h) as [x Hx]. pose proof (fresh_node _ _ _ _ Hl Hx) as Hxl.
  pose proof (alloc_fresh _ _ Hx) as Hfr. destruct l as [|[q b] l _] using rev_ind.
  - pose proof Hl as [-> _].
    destruct (winx_list_insert_head h None [] x [] sizeof_cmd Hl Hx sizeof_cmd_ok) as (h1 & ? & ? & ?).
    by exists h1, (Some x), x.
  - destruct (winx_list_insert_after h head l [] q b x [] sizeof_cmd Hl Hx sizeof_cmd_ok) as (h1 & ? & ? & ?).
    exists h1, head, x. rewrite lst_ptr_snoc, <- app_assoc. by split_and!.
Qed.

(** The program that appends a command; [k] goes on with the head. *)
Lemma append_run {A} h0 h head l (d : str) (k : ptr → ST cheap A) :
  is_list h head l → extends h0 h l →
  ∃ h' head' x,
    (prev_command ← match head with
                    | Some _ => hd ← load head; mret (prev hd)
                    | None => mret None
                    end;
     '(c, list) ← winx_list_insert head prev_command sizeof_cmd [];
     _ ← modify c (set_data (fun _ => d));
     k list) h = k head' h' ∧
    is_list h' head' (l ++ [(x, d)]) ∧ extends h0 h' (l ++ [(x, d)]).
Proof.
  intros Hl [He Hn]. step (last_run _ _ _ Hl).
  destruct (insert_last_run _ _ _ Hl) as (h1 & head1 & x & E1 & Hxl & Hx & Hl1 & He1). step E1.
  destruct (is_list_update _ _ _ _ _ _ (fun _ => d) Hl1) as (h2 & E2 & Hl2 & He2). step E2.
  exists h2, head1, x. split_and!; [done | done | split].
  - intros j Hj. rewrite fmap_app in Hj. rewrite He2, He1 by set_solver. apply He. set_solver.
  - intros j. rewrite fmap_app. intros [Hj| ->%list_elem_of_singleton]%elem_of_app; [by apply Hn|].
    by rewrite <- He.
Qed.

Lemma cstr_of_wstr s : wstr s → cstr (s ++ [0]) = s.
Proof. induction 1 as [|c s Hc _ IH]; [done|]. simpl. rewrite (proj2 (Z.eqb_neq c 0)) by lia. by rewrite IH. Qed.

Lemma query_values_run ss h0 h head l :
  Forall wstr ss → is_list h head l → extends h0 h l →
  ∃ h' head' l', query_values tmalloc ((fun s => (REG_SZ, s ++ [0])) <$> ss) head h
      = Ret ((STATUS_SUCCESS, head'), h') ∧
    is_list h' head' (l ++ l') ∧ extends h0 h' (l ++ l') ∧ l'.*2 = ss.
Proof.
  intros Hss. revert h head l. induction Hss as [|s ss Hs _ IH]; intros h head l Hl He; simpl.
  { exists h, head, []. by rewrite app_nil_r. }
  destruct (append_run h0 h head l s (fun list => mret (STATUS_SUCCESS, list)) Hl He)
    as (h1 & head1 & x & E1 & Hl1 & He1).
  destruct (IH h1 head1 (l ++ [(x, s)]) Hl1 He1) as (h' & head' & l' & E & Hl' & He' & Hd).
  exists h', head', ((x, s) :: l'). rewrite <- app_assoc in Hl', He'. split_and!; [| done | done |].
  - assert (Er : query_routine tmalloc REG_SZ (s ++ [0]) head h = Ret ((STATUS_SUCCESS, head1), h1)).
    { unfold query_routine. rewrite tmalloc_total, cstr_of_wstr by done. exact E1. }
    step Er. exact E.
  - by rewrite fmap_cons, Hd.
Qed.

Lemma get_run w h :
  ∃ h' head l, get_boot_exec_list tmalloc w None h = Ret ((0, head), h') ∧
    is_list h' head l ∧ extends h h' l ∧ l.*2 = values w.
Proof.
  destruct (query_values_run (values w) h h None [] (rl_wstr w)) as (h' & head & l & E & Hl & He & Hd).
  { by apply is_list_nil. }
  { split; [done|]. by intros k ?%elem_of_nil. }
  exists h', head, l. split_and!; [|done..]. unfold get_boot_exec_list. rewrite rl_query. by step E.
Qed.

Section walks.
Context (cmd : str) (Hcmd : short cmd).

Lemma find_loop_from fuel h head l1 l2 p a :
  is_list h head (l1 ++ (p, a) :: l2) → (length l2 < fuel)%nat →
  find_loop tmalloc vsnwprintf fuel head (Some p) cmd h = Ret (existsb (names cmd) (a :: l2.*2), h).
Proof.
  revert l1 l2 p a. induction fuel as [|fuel IH]; intros l1 l2 p a Hl Hf; [lia|].
  pose proof (next_is_head _ _ _ _ _ _ Hl) as Hnext.
  cbn [find_loop]. step (load_ok _ _ _ (is_list_lookup _ _ _ _ _ _ Hl)). cbn [data next].
  rewrite (cmd_compare_run a cmd Hcmd), st_lift_ret. cbn [existsb].
  destruct (names cmd a); [done|]. cbn [Z.ltb Z.compare orb].
  destruct l2 as [|[q b] l2]; [by rewrite decide_True by by apply Hnext|].
  rewrite decide_False by (rewrite Hnext; done). rewrite cons_middle, app_assoc in Hl. simpl in Hf.
  apply (IH _ l2 q b Hl). lia.
Qed.

Lemma find_loop_run fuel h head l :
  is_list h head l → (length l < fuel)%nat →
  find_loop tmalloc vsnwprintf fuel head head cmd h = Ret (existsb (names cmd) l.*2, h).
Proof.
  intros Hl Hf. destruct l as [|[p a] l].
  - apply is_list_nil in Hl as ->. by destruct fuel; [simpl in Hf; lia|].
  - pose proof Hl as [-> _]. apply (find_loop_from fuel h _ [] l p a Hl). simpl in Hf. lia.
Qed.

Definition unnamed l : list (loc * str) := base.filter (fun x => names cmd x.2 = false) l.

Lemma unregister_loop_from fuel h0 h head l1 l2 p a :
  is_list h head (l1 ++ (p, a) :: l2) → extends h0 h (l1 ++ (p, a) :: l2) → (length l2 < fuel)%nat →
  ∃ h' head', unregister_loop tmalloc vsnwprintf fuel cmd head (Some p) h = Ret (head', h') ∧
    is_list h' head' (l1 ++ unnamed ((p, a) :: l2)) ∧ extends h0 h' (l1 ++ unnamed ((p, a) :: l2)).
Proof.
  revert h head l1 l2 p a. induction fuel as [|fuel IH]; intros h head l1 l2 p a Hl He Hf; [lia|].
  pose proof Hl as [Hhead _]. pose proof (next_is_head _ _ _ _ _ _ Hl) as Hnext.
  cbn [unregister_loop]. step (load_ok _ _ _ (is_list_lookup _ _ _ _ _ _ Hl)). cbn [data next].
  rewrite (cmd_compare_run a cmd Hcmd), st_lift_ret. unfold unnamed. rewrite filter_cons. simpl.
  destruct (names cmd a) eqn:Ea; cbn [Z.ltb Z.compare].
  - rewrite (decide_False (P := true = false)) by done.
    destruct (winx_list_remove_spec h head l1 l2 p a Hl) as (h1 & E1 & Hl1 & Hp & He1). step E1.
    assert (Hext : extends h0 h1 (l1 ++ l2)).
    { destruct He as [He Hn]. rewrite fmap_app in *. simpl in *. split; intros k Hk.
      - destruct (decide (k = p)) as [->|Hkp]; [rewrite Hp, Hn; [done | set_solver]|].
        rewrite He1, He; [done | set_solver..].
      - apply Hn. set_solver. }
    destruct l2 as [|[q b] l2].
    + destruct (decide (fst_ptr (l1 ++ []) None = None)); [|rewrite decide_True by by apply Hnext];
        (eexists _, _; split_and!; [reflexivity | exact Hl1 | exact Hext]).
    + rewrite decide_False by (by destruct l1 as [|[]]). rewrite decide_False by (rewrite Hnext; done).
      cbn [fst_ptr]. simpl in Hf. apply (IH h1 _ l1 l2 q b Hl1 Hext). lia.
  - rewrite (decide_True (P := false = false)) by done. erewrite st_bind_ret by reflexivity.
    rewrite decide_False by (rewrite Hhead; by destruct l1 as [|[]]). destruct l2 as [|[q b] l2].
    + rewrite decide_True by by apply Hnext. eexists _, _. split; [reflexivity|]. by split.
    + rewrite decide_False by (rewrite Hnext; done). rewrite cons_middle, app_assoc in Hl, He. simpl in Hf.
      cbn [fst_ptr]. destruct (IH h head (l1 ++ [(p, a)]) l2 q b Hl He) as (h' & head' & E & Hl' & He'); [lia|].
      exists h', head'. rewrite <- app_assoc in Hl', He'. done.
Qed.

Lemma unregister_loop_run fuel h0 h head l :
  is_list h head l → extends h0 h l → (length l < fuel)%nat →
  ∃ h' head', unregister_loop tmalloc vsnwprintf fuel cmd head head h = Ret (head', h') ∧
    is_list h' head' (unnamed l) ∧ extends h0 h' (unnamed l).
Proof.
  intros Hl He Hf. destruct l as [|[p a] l].
  - apply is_list_nil in Hl as ->. destruct fuel; [simpl in Hf; lia|].
    exists h, None. split_and!; [done | by apply is_list_nil | done].
  - pose proof Hl as [-> _]. apply (unregister_loop_from fuel h0 h _ [] l p a Hl He). simpl in Hf. lia.
Qed.
End walks.

(** *** Saving *)
Lemma length_loop_from fuel h head l1 l2 p a n :
  is_list h head (l1 ++ (p, a) :: l2) → (length l2 < fuel)%nat →
  0 ≤ n → n + Z.of_nat (length (block_of (a :: l2.*2))) < 2 ^ 31 →
  length_loop fuel head (Some p) n h = Ret (n + Z.of_nat (length (block_of (a :: l2.*2))), h).
Proof.
  revert l1 l2 p a n. induction fuel as [|fuel IH]; intros l1 l2 p a n Hl Hf Hn Hlen; [lia|].
  pose proof (next_is_head _ _ _ _ _ _ Hl) as Hnext. rewrite block_of_cons, length_app in *.
  cbn [length_loop]. step (load_ok _ _ _ (is_list_lookup _ _ _ _ _ _ Hl)). cbn [data next].
  set (m := match a with [] => n | _ => _ end).
  assert (Hm : m = n + Z.of_nat (length (match a with [] => [] | _ => a ++ [0] end))).
  { subst m. destruct a as [|c a]; [simpl; lia|]. rewrite length_app in *. simpl length in *.
    rewrite (s32_small (Z.of_nat _)) by lia. rewrite s32_small; lia. }
  destruct l2 as [|[q b] l2].
  - rewrite decide_True by by apply Hnext. unfold mret, st_ret. do 2 f_equal. simpl. lia.
  - rewrite decide_False by (rewrite Hnext; done). rewrite cons_middle, app_assoc in Hl. simpl in Hf.
    cbn [fst_ptr]. rewrite fmap_cons in *. cbn [snd] in *.
    rewrite (IH _ l2 q b m Hl); [do 2 f_equal; lia | lia..].
Qed.

Lemma copy_loop_from fuel h head l1 l2 p a pre n :
  is_list h head (l1 ++ (p, a) :: l2) → (length l2 < fuel)%nat →
  (length (block_of (a :: l2.*2)) ≤ n)%nat →
  copy_loop fuel head (Some p) (pre ++ replicate n 0) (Z.of_nat (length pre)) h =
    Ret ((pre ++ block_of (a :: l2.*2)) ++ replicate (n - length (block_of (a :: l2.*2))) 0, h).
Proof.
  revert l1 l2 p a pre n. induction fuel as [|fuel IH]; intros l1 l2 p a pre n Hl Hf Hn; [lia|].
  pose proof (next_is_head _ _ _ _ _ _ Hl) as Hnext. rewrite block_of_cons, length_app in *.
  cbn [copy_loop]. step (load_ok _ _ _ (is_list_lookup _ _ _ _ _ _ Hl)). cbn [data next].
  set (d := match a with [] => [] | _ => a ++ [0] end) in *.
  erewrite (st_bind_ret _ _ _ ((pre ++ d) ++ replicate (n - length d) 0, Z.of_nat (length (pre ++ d)))).
  2: { subst d. destruct a as [|c a].
       - simpl. by rewrite app_nil_r, Nat.sub_0_r.
       - rewrite blit_zeros, st_lift_ret by lia. unfold mret, st_ret. do 3 f_equal.
         rewrite !length_app. simpl. lia. }
  cbn beta iota. destruct l2 as [|[q b] l2].
  - rewrite decide_True by by apply Hnext. unfold mret, st_ret. simpl. by rewrite app_nil_r, Nat.add_0_r.
  - rewrite decide_False by (rewrite Hnext; done). rewrite cons_middle, app_assoc in Hl. simpl in Hf.
    cbn [fst_ptr]. rewrite fmap_cons in *. cbn [snd] in *.
    rewrite (IH _ l2 q b (pre ++ d) _ Hl) by lia. rewrite <- !app_assoc. do 6 f_equal. lia.
Qed.

Definition block_fits (ss : list str) : Prop := Z.of_nat (length (block_of ss)) + 1 < 2 ^ 31.

(** What is read back after the list was written, unless the registry refused
    it. *)
Definition saved (w w' : W) (r : Z) (ss : list str) : Prop :=
  (r = 0 ∧ values w' = nonempty ss) ∨ (r = -1 ∧ values w' = values w).

Lemma save_run fuel h head l w :
  is_list h head l → (length l < fuel)%nat → Forall wstr l.*2 → block_fits l.*2 →
  ∃ r w', save_boot_exec_list fuel head w h = Ret ((r, w'), h) ∧ saved w w' r l.*2.
Proof.
  intros Hl Hf Hw Hfit. unfold block_fits in Hfit. set (n := length (block_of l.*2)) in *.
  assert (length_loop fuel head head 1 h = Ret (1 + Z.of_nat n, h) ∧
    copy_loop fuel head head (replicate (S n) 0) 0 h = Ret (block_of l.*2 ++ [0], h)) as [E1 E2].
  { destruct l as [|[p a] l].
    - apply is_list_nil in Hl as ->. by destruct fuel; [simpl in Hf; lia|].
    - assert (head = Some p) as -> by (by destruct Hl). simpl in Hf. split.
      + rewrite (length_loop_from fuel h _ [] l p a 1 Hl); [done | lia..|].
        change (a :: l.*2) with ((p, a) :: l).*2. fold n. lia.
      + pose proof (copy_loop_from fuel h _ [] l p a [] (S n) Hl) as E.
        change (a :: l.*2) with ((p, a) :: l).*2 in E. fold n in E. simpl app in E.
        replace (S n - n)%nat with 1%nat in E by lia. apply E; lia. }
  unfold save_boot_exec_list. step E1. replace (Z.to_nat (1 + Z.of_nat n)) with (S n) by lia. step E2.
  destruct (r_write w _) as [status w'] eqn:Ew. apply rl_write in Ew.
  exists (if NT_SUCCESS status then 0 else -1), w'. split; [done|].
  destruct (NT_SUCCESS status); [left | right]; (split; [done|]); [|done].
  by rewrite Ew, multi_strings_block.
Qed.

Lemma names_self cmd : wstr cmd → names cmd cmd = true.
Proof.
  intros Hw%wstr_lower. unfold names, winx_wcsicmp.
  destruct (wcsicmp_loop_sign fast_towlower cmd cmd) as [E _]; [by vm_compute | done | done |].
  by rewrite (proj2 E).
Qed.

Lemma short_cons cmd : short cmd → cmd ≠ [] → ∃ c s, cmd = c :: s.
Proof. destruct cmd; [done | eauto]. Qed.

(** [winx_bootex_check] is positive exactly when the command is registered,
    as it is or behind autocheck; the list it reads into is freed. *)
Theorem winx_bootex_check_correct fuel cmd w h :
  short cmd → cmd ≠ [] → (length (values w) < fuel)%nat →
  winx_bootex_check tmalloc vsnwprintf fuel (Some cmd) w h =
    Ret (if existsb (names cmd) (values w) then 1 else 0, h).
Proof.
  intros Hc Hne Hf. destruct (get_run w h) as (h1 & head & l & E & Hl & He & Hd).
  assert (length l < fuel)%nat by (by rewrite <- (length_fmap snd l), Hd).
  destruct (short_cons cmd Hc Hne) as (c & s & ->). unfold winx_bootex_check. step E. cbn [Z.ltb Z.compare].
  erewrite st_bind_ret by (step (find_loop_run _ Hc fuel h1 head l Hl ltac:(done)); reflexivity).
  step (destroy_run h h1 head l fuel Hl He ltac:(lia)). by rewrite Hd.
Qed.

(** C39: [winx_bootex_register] leaves the registry alone when the command is
    registered; otherwise it writes the commands, less empty ones, with the new
    one behind them, and the block it writes neither overruns its buffer nor
    loses a command. When it returns zero the command is registered. *)
Theorem winx_bootex_register_correct fuel cmd w h :
  short cmd → cmd ≠ [] → (length (values w) + 1 < fuel)%nat → block_fits (values w ++ [cmd]) →
  ∃ r w', winx_bootex_register tmalloc vsnwprintf fuel (Some cmd) w h = Ret ((r, w'), h) ∧
    (if existsb (names cmd) (values w) then r = 0 ∧ w' = w else saved w w' r (values w ++ [cmd])) ∧
    (r = 0 → existsb (names cmd) (values w') = true).
Proof.
  intros Hc Hne Hf Hfit. destruct (get_run w h) as (h1 & head & l & E & Hl & He & Hd).
  assert (Hlen : length l = length (values w)) by (by rewrite <- (length_fmap snd l), Hd).
  destruct (short_cons cmd Hc Hne) as (c & s & ->). unfold winx_bootex_register. step E.
  cbn [Z.ltb Z.compare]. pose proof (find_loop_run _ Hc fuel h1 head l Hl ltac:(lia)) as Ef. rewrite Hd in Ef.
  destruct (existsb (names (c :: s)) (values w)) eqn:Ex.
  - exists 0, w. erewrite st_bind_ret by (unfold register; step Ef; reflexivity).
    cbn beta iota. step (destroy_run h h1 head l fuel Hl He ltac:(lia)). by split_and!.
  - destruct (append_run h h1 head l (c :: s)
      (fun list => '(result, w') ← save_boot_exec_list fuel list w; mret (result, w', list)) Hl He)
      as (h2 & head2 & x & E2 & Hl2 & He2).
    destruct (save_run fuel h2 head2 (l ++ [(x, c :: s)]) w Hl2) as (r & w' & E3 & Hs).
    { rewrite length_app. simpl. lia. }
    { rewrite fmap_app, Hd. apply Forall_app. split; [apply rl_wstr | by constructor; [apply Hc|]]. }
    { by rewrite fmap_app, Hd. }
    rewrite fmap_app, Hd in Hs. exists r, w'. split_and!; [| done |].
    + erewrite st_bind_ret.
      2: { unfold register. step Ef. unfold winx_wcsdup. cbn [option_bind mbind].
           rewrite tmalloc_total. rewrite E2. step E3. reflexivity. }
      cbn beta iota. step (destroy_run h h2 head2 _ fuel Hl2 He2 ltac:(rewrite length_app; simpl; lia)). done.
    + intros ->. destruct Hs as [[_ ->]|[? _]]; [|done]. unfold nonempty.
      rewrite filter_app, existsb_app. cbn [fmap list_fmap snd]. rewrite filter_cons, decide_True by done. simpl.
      rewrite names_self by apply Hc. by rewrite orb_true_r.
Qed.

(** [winx_bootex_unregister] takes every entry of the command out, behind
    autocheck or not, keeps the other commands in their order, less empty ones,
    and touches no freed node. When it returns zero the command is not
    registered any more. *)
Theorem winx_bootex_unregister_correct fuel cmd w h :
  short cmd → cmd ≠ [] → (length (values w) < fuel)%nat →
  block_fits (base.filter (fun s => names cmd s = false) (values w)) →
  ∃ r w', winx_bootex_unregister tmalloc vsnwprintf fuel (Some cmd) w h = Ret ((r, w'), h) ∧
    saved w w' r (base.filter (fun s => names cmd s = false) (values w)) ∧
    (r = 0 → existsb (names cmd) (values w') = false).
Proof.
  intros Hc Hne Hf Hfit. destruct (get_run w h) as (h1 & head & l & E & Hl & He & Hd).
  assert (Hlen : length l = length (values w)) by (by rewrite <- (length_fmap snd l), Hd).
  destruct (unregister_loop_run cmd Hc fuel h h1 head l Hl He) as (h2 & head2 & E2 & Hl2 & He2); [lia|].
  assert (Hu : (unnamed cmd l).*2 = base.filter (fun s => names cmd s = false) (values w)).
  { rewrite <- Hd. unfold unnamed. clear. induction l as [|[p a] l IH]; [done|].
    rewrite fmap_cons, !filter_cons. simpl. case_decide; [rewrite fmap_cons|]; by rewrite IH. }
  assert (Hul : (length (unnamed cmd l) ≤ length l)%nat) by apply length_filter.
  destruct (save_run fuel h2 head2 (unnamed cmd l) w Hl2) as (r & w' & E3 & Hs); [lia | | by rewrite Hu |].
  { rewrite Hu. pose proof (rl_wstr w) as Hw. rewrite Forall_forall in *.
    intros s Hs. apply list_elem_of_filter in Hs as [_ Hs]. auto. }
  rewrite Hu in Hs. exists r, w'. split_and!; [| done |].
  - destruct (short_cons cmd Hc Hne) as (c & s & ->). unfold winx_bootex_unregister. step E.
    cbn [Z.ltb Z.compare]. erewrite st_bind_ret by (step E2; step E3; reflexivity).
    cbn beta iota. step (destroy_run h h2 head2 _ fuel Hl2 He2 ltac:(lia)). done.
  - intros ->. destruct Hs as [[_ ->]|[? _]]; [|done]. apply not_true_iff_false. intros Hx.
    apply existsb_exists in Hx as (x & Hx & Hn). apply list_elem_of_In in Hx.
    apply list_elem_of_filter in Hx as [_ Hx]. apply list_elem_of_filter in Hx as [? _]. congruence.
Qed.
End theory.

(** ** A registry

    The registry is the block that was written last; a block with a value that
    is no [wchar_t] is refused. *)
Definition wchars (block : list Z) : bool := forallb (fun c => (0 <=? c) && (c <? 2 ^ 16)) block.

Definition block_values (block : list Z) : list str :=
  if wchars block then multi_strings [] block else [].

#[export] Instance block_registry : Registry (list Z) := {|
  r_query w := Some ((fun s => (REG_SZ, s ++ [0])) <$> block_values w);
  r_write w block := if wchars block then (STATUS_SUCCESS, block) else (STATUS_UNSUCCESSFUL, w);
|}.

Lemma multi_strings_wstr block acc :
  wchars block = true → wstr acc → Forall wstr (multi_strings acc block).
Proof.
  revert acc. induction block as [|c block IH]; intros acc; simpl; [by constructor|].
  intros [[H1%Z.leb_le H2%Z.ltb_lt]%andb_prop Hb]%andb_prop Ha. destruct (Z.eqb_spec c 0).
  - destruct acc as [|d acc]; [constructor|]. constructor.
    + unfold wstr. by apply Forall_reverse.
    + apply IH; [done | constructor].
  - apply IH; [done|]. constructor; [lia | done].
Qed.

#[export, program] Instance block_registry_laws : RegistryLaws (list Z) := {| values := block_values |}.
Next Obligation.
  intros w. unfold block_values. destruct (wchars w) eqn:E; [|constructor].
  apply multi_strings_wstr; [done | constructor].
Qed.
Next Obligation. done. Qed.
Next Obligation.
  intros w block status w'. simpl. destruct (wchars block) eqn:E; intros [= <- <-]; [|done].
  unfold block_values. by rewrite E.
Qed.

(** The formatting function of the concrete runs. *)
Definition demo_vsnwprintf (cmd _ : str) (size : Z) : Z * str :=
  let s := autocheck ++ cmd in
  let n := Z.of_nat (length s) in
  if n <? size then (n, s ++ replicate (Z.to_nat (size - n)) 0)
  else if n =? size then (n, s) else (-1, take (Z.to_nat size) s).

Lemma demo_formats cmd : formats (autocheck ++ cmd) (demo_vsnwprintf cmd (autocheck ++ text "%ws")).
Proof.
  intros size Hsz. unfold demo_vsnwprintf. cbn zeta. set (n := Z.of_nat _). split_and!; intros H.
  - by rewrite (proj2 (Z.ltb_lt _ _)).
  - rewrite (proj2 (Z.ltb_ge _ _)), (proj2 (Z.eqb_eq _ _)) by lia. done.
  - rewrite (proj2 (Z.ltb_ge _ _)), (proj2 (Z.eqb_neq _ _)) by lia. done.
Qed.

(** autocheck autochk *, and an empty command. *)
Definition demo_registry : list Z := text "autocheck autochk *" ++ [0; 0].

Lemma demo_short s : bool_decide (Forall (fun c => 0 < c < 2 ^ 16) s) = true → (length s < 20)%nat → short s.
Proof. intros H Hl. split; [by apply (bool_decide_eq_true_1 _ H) | lia]. Qed.

Lemma winx_bootex_check_correct_witness :
  let A := bump_allocator (node str) in
  winx_bootex_check (fun _ => true) demo_vsnwprintf 3 (Some (text "stopgap")) demo_registry ∅ =
    Ret (if existsb (names (text "stopgap")) (values demo_registry) then 1 else 0, ∅).
Proof.
  intros A. apply (winx_bootex_check_correct (Allocator0 := A)); [by eexists | done | apply demo_formats | | done | vm_compute; lia].
  apply demo_short; [by vm_compute | simpl; lia].
Defined.

Lemma winx_bootex_register_correct_witness :
  let A := bump_allocator (node str) in
  ∃ r w', winx_bootex_register (fun _ => true) demo_vsnwprintf 4 (Some (text "stopgap")) demo_registry ∅ = Ret ((r, w'), ∅) ∧
    (if existsb (names (text "stopgap")) (values demo_registry) then r = 0 ∧ w' = demo_registry
     else saved demo_registry w' r (values demo_registry ++ [text "stopgap"])) ∧
    (r = 0 → existsb (names (text "stopgap")) (values w') = true).
Proof.
  intros A. apply (winx_bootex_register_correct (Allocator0 := A));
    [by eexists | done | apply demo_formats | | done | vm_compute; lia | vm_compute; done].
  apply demo_short; [by vm_compute | simpl; lia].
Defined.

Lemma winx_bootex_unregister_correct_witness :
  let A := bump_allocator (node str) in
  ∃ r w', winx_bootex_unregister (fun _ => true) demo_vsnwprintf 3 (Some (text "autochk *")) demo_registry ∅ = Ret ((r, w'), ∅) ∧
    saved demo_registry w' r (base.filter (fun s => names (text "autochk *") s = false) (values demo_registry)) ∧
    (r = 0 → existsb (names (text "autochk *")) (values w') = false).
Proof.
  intros A. apply (winx_bootex_unregister_correct (Allocator0 := A));
    [by eexists | done | apply demo_formats | | done | vm_compute; lia | vm_compute; done].
  apply demo_short; [by vm_compute | simpl; lia].
Defined.
