(* ===== verification/Dbg.v ===== *)
(** * dbg.c: the debugging log

    Messages are collected in a circular list ([DList]) of entries, which
    winx_flush_dbg_log writes to the log file through a buffered file ([FileIO])
    and which winx_set_dbg_log redirects to another file ([Path]).  The list
    and the strings of the messages live in heaps of their own.

    An event that protects the log is its state when the program waits for it
    (signalled, or held by another thread for longer than MAX_WAIT_INTERVAL);
    [None] is the handle before winx_dbg_init.  printf is a parameter, applied
    to a format and its arguments; so are the clock, the messages of
    kernel32.dll and the debugger that listens to the program. *)
From S2P Require Import Prelude DList Bitmap CaseTables CString FileInfo FileIO Path Time.
From stdpp Require Import prelude gmap strings.
Open Scope Z_scope.

(** ** Data *)

(** The arguments of a format. *)
Inductive printf_arg : Type :=
| Str (s : str)   (* %s *)
| WStr (s : str)  (* %ws, %ls *)
| Num (z : Z).    (* %u, %x, %d *)

(** [winx_dbg_log_entry], less its links. *)
Record winx_dbg_log_entry : Type := LogEntry {
  time_stamp : winx_time;
  buffer : ptr;
}.

Definition set_time_stamp (t : winx_time) (e : winx_dbg_log_entry) : winx_dbg_log_entry :=
  LogEntry t (buffer e).

Definition set_buffer (p : ptr) (e : winx_dbg_log_entry) : winx_dbg_log_entry :=
  LogEntry (time_stamp e) p.

Definition sizeof_winx_dbg_log_entry : Z := 40.

Abbreviation log_nodes := (gmap loc (node winx_dbg_log_entry)).

(** Strings of [char], with their terminating zeros. *)
Abbreviation log_strings := (gmap loc (list Z)).

(** The global variables, the last error codes of the thread, how often the
    clock was read, what the debugger received, and the volumes. *)
Record log_state (W : Type) : Type := LogState {
  nodes : log_nodes;
  strings : log_strings;
  dbg_log : ptr;
  logging_enabled : bool;
  log_path : option str;
  hListSynchEvent : option bool;
  hLogSynchEvent : option bool;
  reserved_memory : bool;
  LastStatusValue : Z;
  LastErrorValue : Z;
  ticks : nat;
  debugger : list (list Z);
  world : W;
}.
Arguments LogState {W}.
Arguments nodes {W}.
Arguments strings {W}.
Arguments dbg_log {W}.
Arguments logging_enabled {W}.
Arguments log_path {W}.
Arguments hListSynchEvent {W}.
Arguments hLogSynchEvent {W}.
Arguments reserved_memory {W}.
Arguments LastStatusValue {W}.
Arguments LastErrorValue {W}.
Arguments ticks {W}.
Arguments debugger {W}.
Arguments world {W}.

Definition set_list {W} (h : log_nodes) (head : ptr) (s : log_state W) : log_state W :=
  LogState h (strings s) head (logging_enabled s) (log_path s) (hListSynchEvent s) (hLogSynchEvent s)
    (reserved_memory s) (LastStatusValue s) (LastErrorValue s) (ticks s) (debugger s) (world s).

Definition set_strings {W} (h : log_strings) (s : log_state W) : log_state W :=
  LogState (nodes s) h (dbg_log s) (logging_enabled s) (log_path s) (hListSynchEvent s) (hLogSynchEvent s)
    (reserved_memory s) (LastStatusValue s) (LastErrorValue s) (ticks s) (debugger s) (world s).

Definition set_logging {W} (b : bool) (path : option str) (s : log_state W) : log_state W :=
  LogState (nodes s) (strings s) (dbg_log s) b path (hListSynchEvent s) (hLogSynchEvent s)
    (reserved_memory s) (LastStatusValue s) (LastErrorValue s) (ticks s) (debugger s) (world s).

Definition set_events {W} (list_event log_event : option bool) (s : log_state W) : log_state W :=
  LogState (nodes s) (strings s) (dbg_log s) (logging_enabled s) (log_path s) list_event log_event
    (reserved_memory s) (LastStatusValue s) (LastErrorValue s) (ticks s) (debugger s) (world s).

Definition set_reserved {W} (b : bool) (s : log_state W) : log_state W :=
  LogState (nodes s) (strings s) (dbg_log s) (logging_enabled s) (log_path s) (hListSynchEvent s)
    (hLogSynchEvent s) b (LastStatusValue s) (LastErrorValue s) (ticks s) (debugger s) (world s).

Definition tick {W} (s : log_state W) : log_state W :=
  LogState (nodes s) (strings s) (dbg_log s) (logging_enabled s) (log_path s) (hListSynchEvent s)
    (hLogSynchEvent s) (reserved_memory s) (LastStatusValue s) (LastErrorValue s) (S (ticks s))
    (debugger s) (world s).

Definition delivered {W} (m : list Z) (s : log_state W) : log_state W :=
  LogState (nodes s) (strings s) (dbg_log s) (logging_enabled s) (log_path s) (hListSynchEvent s)
    (hLogSynchEvent s) (reserved_memory s) (LastStatusValue s) (LastErrorValue s) (ticks s)
    (debugger s ++ [m]) (world s).

Definition set_world {W} (w : W) (s : log_state W) : log_state W :=
  LogState (nodes s) (strings s) (dbg_log s) (logging_enabled s) (log_path s) (hListSynchEvent s)
    (hLogSynchEvent s) (reserved_memory s) (LastStatusValue s) (LastErrorValue s) (ticks s)
    (debugger s) w.

(** ** Descriptions of status codes *)

Definition descriptions : list (Z * str) :=
  [ (0x00000000, text "operation successful"); (0xC0000033, text "object name invalid");
    (0xC0000034, text "object name not found"); (0xC0000035, text "object name already exists");
    (0xC0000039, text "path is invalid"); (0xC000003A, text "path not found");
    (0xC000003B, text "bad syntax in path"); (0xC0000023, text "buffer is too small");
    (0xC0000022, text "access denied"); (0xC0000017, text "not enough memory");
    (0xC0000001, text "operation failed"); (0xC0000002, text "not implemented");
    (0xC0000003, text "invalid info class"); (0xC0000004, text "info length mismatch");
    (0xC0000005, text "access violation"); (0xC0000008, text "invalid handle");
    (0xC000000D, text "invalid parameter"); (0xC000000E, text "device not found");
    (0xC000000F, text "file not found"); (0xC0000010, text "invalid device request");
    (0xC0000011, text "end of file reached"); (0xC0000012, text "wrong volume");
    (0xC0000013, text "no media in device"); (0xC000014F, text "cannot recognize file system");
    (0xC0000100, text "environment variable not found");
    (0xC0000043, text "file is locked by another process");
    (0xC0000021, text "target clusters are already in use") ].

Fixpoint description_loop (table : list (Z * str)) (status : Z) : str :=
  match table with
  | [] => []
  | (code, desc) :: table => if code =? status then desc else description_loop table status
  end.

Definition winx_get_status_description (status : Z) : str := description_loop descriptions status.

(** ** Text *)

Definition LF : Z := 10.
Definition CR : Z := 13.
Definition CRLF : list Z := [CR; LF].

(** [remove_crlf]. *)
Definition remove_crlf (s : option str) : option str :=
  map (fun c => if (c =? CR) || (c =? LF) then 32 else c) <$> s.

Definition DBG_OUT_BUFFER_SIZE : Z := 4092.

(** What deliver_message puts into the debugger's buffer [Msg]. *)
Definition debugger_message (string : str) : outcome (list Z) :=
  let n := Z.to_nat DBG_OUT_BUFFER_SIZE in
  let Msg := take n string ++ replicate (n - length string) 0 in
  Msg ← put Msg (DBG_OUT_BUFFER_SIZE - 1) 0;
  let length := Z.of_nat (length (cstr Msg)) in
  if 0 <? length then
    c ← rd8 Msg (length - 1);
    if negb (c =? LF) then
      if length =? DBG_OUT_BUFFER_SIZE - 1 then put Msg (length - 1) LF
      else Msg ← put Msg length LF; put Msg (length + 1) 0
    else Ret Msg
  else blit Msg 0 [LF; 0].

(** The prefixes of messages. *)
Definition INFO : str := text "INFO:  ".
Definition ERROR : str := text "ERROR: ".
Definition DEBUG : str := text "DEBUG: ".

Definition NT_STATUS_FLAG : Z := 1.
Definition LAST_ERROR_FLAG : Z := 2.
Definition FLUSH_ALREADY_SYNCHRONIZED : Z := 1.
Definition FLUSH_IN_OUT_OF_MEMORY : Z := 2.
Definition DBG_BUFFER_SIZE : Z := 100 * 1024.
Definition DEFAULT_DBG_PRINT_DECORATION_CHAR : Z := 0x2D.
Definition DEFAULT_DBG_PRINT_HEADER_WIDTH : Z := 64.

(** The prefix and the body of a header; [strstr] finds a prefix at the start of
    the string. *)
Definition split_prefix (string : str) : str * str :=
  if bool_decide (INFO `prefix_of` string) then (INFO, drop (length INFO) string)
  else if bool_decide (ERROR `prefix_of` string) then (ERROR, drop (length ERROR) string)
  else if bool_decide (DEBUG `prefix_of` string) then (DEBUG, drop (length DEBUG) string)
  else ([], string).

Definition zero_time : winx_time := WinxTime 0 0 0 0 0 0 0 0.

(** ** Operations *)

Section dbg.
Context {W : Type} `{!NtApi W} `{!Allocator (node winx_dbg_log_entry)} `{!Allocator (list Z)}.
(** Whether an allocation succeeds, and the contents of new blocks. *)
Context (tmalloc : Z → bool) (uninit : nat → list Z) (uninit_entry : winx_dbg_log_entry).
(** The formatting of the C library. *)
Context (vsnprintf : str → list printf_arg → Z → Z * str).
(** NtQuerySystemTime at the n-th time, RtlSystemTimeToLocalTime and
    RtlTimeToTimeFields. *)
Context (query_system_time : nat → Z * Z) (to_local_time : Z → Z * Z) (to_fields : Z → winx_time).
(** RtlNtStatusToDosError; the text kernel32.dll has for an error, in UTF-16
    when the flag is set. *)
Context (status_to_error : Z → Z) (error_message : Z → option (bool * str)).
(** Whether the debugger takes a message. *)
Context (listens : list (list Z) → bool).
(** What winx_create_path needs, and NtCreateEvent for the n-th event. *)
Context (get_volume_information : Z → W → Z) (create_event : nat → bool).

Abbreviation L := (ST (log_state W)).

Definition asks {A} (f : log_state W → A) : L A := fun s => Ret (f s, s).

Definition upds (f : log_state W → log_state W) : L unit := fun s => Ret (tt, f s).

(** Programs over the list, the strings and the volumes. *)
Definition on_nodes {A} (m : ST log_nodes A) : L A := fun s =>
  '(a, h) ← m (nodes s); Ret (a, set_list h (dbg_log s) s).

(** A call with [&dbg_log]. *)
Definition on_list {A} (m : ptr → ST log_nodes (A * ptr)) : L A := fun s =>
  '(a, head, h) ← m (dbg_log s) (nodes s); Ret (a, set_list h head s).

Definition on_strings {A} (m : ST log_strings A) : L A := fun s =>
  '(a, h) ← m (strings s); Ret (a, set_strings h s).

Definition on_files {A} (m : W → outcome (A * W)) : L A := fun s =>
  '(a, w) ← m (world s); Ret (a, set_world w s).

(** *** The list *)

(** [dbg_list_insert]: the new item and the new value of [*phead]. *)
Definition dbg_list_insert (phead prev_item : ptr) : ST log_nodes (ptr * ptr) :=
  new_item ← malloc_node uninit_entry;
  match new_item with
  | None => mret (None, phead)
  | Some _ =>
      match phead with
      | None =>
          _ ← modify new_item (set_next new_item);
          _ ← modify new_item (set_prev new_item);
          mret (new_item, new_item)
      | Some _ =>
          '(p, phead') ← (match prev_item with
                          | None => hd ← load phead; mret (prev hd, new_item)
                          | Some _ => mret (prev_item, phead)
                          end);
          _ ← modify new_item (set_prev p);
          np ← load p;
          _ ← modify new_item (set_next (next np));
          n1 ← load new_item;
          _ ← modify (prev n1) (set_next new_item);
          n2 ← load new_item;
          _ ← modify (next n2) (set_prev new_item);
          mret (new_item, phead')
      end
  end.

(** [dbg_get_local_time]: the result and what is stored in the structure. *)
Definition dbg_get_local_time : L (Z * option winx_time) :=
  n ← asks ticks;
  _ ← upds tick;
  let '(status, SystemTime) := query_system_time n in
  if negb (status =? STATUS_SUCCESS) then mret (-1, None) else
  let '(status, LocalTime) := to_local_time SystemTime in
  if negb (status =? STATUS_SUCCESS) then mret (-1, None) else mret (0, Some (to_fields LocalTime)).

(** [winx_strdup], with the copy in the heap. *)
Definition dup_string (msg : str) : L ptr :=
  on_strings (fun h =>
    match alloc h with
    | None => Ret (None, h)
    | Some l => Ret (Some l, <[l := msg ++ [0]]> h)
    end).

(** NtWaitForSingleObject and NtSetEvent. *)
Definition wait_list_event : L bool :=
  e ← asks hListSynchEvent;
  match e with
  | Some true => _ ← upds (fun s => set_events (Some false) (hLogSynchEvent s) s); mret true
  | _ => mret false
  end.

Definition set_list_event : L unit :=
  upds (fun s => set_events (match hListSynchEvent s with Some _ => Some true | None => None end)
                   (hLogSynchEvent s) s).

Definition wait_log_event : L bool :=
  e ← asks hLogSynchEvent;
  match e with
  | Some true => _ ← upds (fun s => set_events (hListSynchEvent s) (Some false) s); mret true
  | _ => mret false
  end.

Definition set_log_event : L unit :=
  upds (fun s => set_events (hListSynchEvent s)
                   (match hLogSynchEvent s with Some _ => Some true | None => None end) s).

(** The new entry of [add_dbg_log_entry]. *)
Definition fill_log_entry (new_log_entry : ptr) (msg : str) : L unit :=
  copy ← dup_string msg;
  _ ← on_nodes (modify new_log_entry (set_data (set_buffer copy)));
  match copy with
  | None =>
      on_list (fun head => head ← winx_list_remove head new_log_entry; mret (tt, head))
  | Some _ =>
      _ ← on_nodes (modify new_log_entry (set_data (set_time_stamp zero_time)));
      '(_, t) ← dbg_get_local_time;
      match t with
      | Some t => on_nodes (modify new_log_entry (set_data (set_time_stamp t)))
      | None => mret tt
      end
  end.

(** [add_dbg_log_entry] while it owns the list. *)
Definition append_log_entry (msg : str) : L unit :=
  head ← asks dbg_log;
  last_log_entry ← on_nodes match head with
                            | Some _ => hd ← load head; mret (prev hd)
                            | None => mret None
                            end;
  new_log_entry ← on_list (fun head => dbg_list_insert head last_log_entry);
  match new_log_entry with
  | None => mret tt
  | Some _ => fill_log_entry new_log_entry msg
  end.

(** [add_dbg_log_entry]. *)
Definition add_dbg_log_entry (msg : str) : L unit :=
  ok ← wait_list_event;
  if negb ok then mret tt else
  enabled ← asks logging_enabled;
  _ ← (if enabled : bool then append_log_entry msg else mret tt);
  set_list_event.

(** [deliver_message]. *)
Definition deliver_message (string : str) : L unit :=
  received ← asks debugger;
  if negb (listens received) then mret tt else
  m ← st_lift (debugger_message string);
  upds (delivered m).

(** *** Messages *)

Definition vsprintf (format : str) (args : list printf_arg) : L (option str) :=
  st_lift (winx_vsprintf tmalloc (fun f => vsnprintf f args) (Some format)).

(** The last argument of the messages with a code. *)
Definition code_args (msg : str) (ns_flag : bool) (status error : Z) : list printf_arg :=
  [Str msg; Num (if ns_flag then status else error);
   Str (if ns_flag then text "status" else text "error")].

Definition log_and_deliver (msg : str) (ext_msg : option str) : L unit :=
  let m := default msg ext_msg in
  _ ← add_dbg_log_entry m;
  deliver_message m.

Definition no_description (msg : str) (ns_flag : bool) (status error : Z) : L unit :=
  ext_msg ← vsprintf (text "%s: 0x%x %s") (code_args msg ns_flag status error);
  log_and_deliver msg ext_msg.

(** A description in UTF-16: UTF-8 for the log, ANSI for the debugger. *)
Definition wide_description (msg : str) (ns_flag : bool) (status error : Z) (err_msg : str) : L unit :=
  let length := s32 ((Z.of_nat (length err_msg) + 1) * 2) in
  let length := s32 (length * 2) in
  if negb (tmalloc length) then no_description msg ns_flag status error else
  cnv_msg ← st_lift (winx_to_utf8 (uninit (Z.to_nat length)) length (Some err_msg));
  ext_msg ← vsprintf (text "%s: 0x%x %s: %s") (code_args msg ns_flag status error ++ [Str (cstr cnv_msg)]);
  let ext_msg := remove_crlf ext_msg in
  _ ← add_dbg_log_entry (default msg ext_msg);
  let '(_, stored) := vsnprintf (text "%ls") [WStr err_msg] length in
  cnv_msg ← st_lift (blit cnv_msg 0 stored);
  cnv_msg ← st_lift (put cnv_msg (length - 1) 0);
  ext_msg ← vsprintf (text "%s: 0x%x %s: %s") (code_args msg ns_flag status error ++ [Str (cstr cnv_msg)]);
  deliver_message (default msg (remove_crlf ext_msg)).

Definition describe (msg : str) (ns_flag : bool) (status error : Z) : L unit :=
  match (match error_message error with
         | Some e => Some e
         | None => if ns_flag then Some (false, winx_get_status_description status) else None
         end) with
  | Some (false, err_msg) =>
      ext_msg ← vsprintf (text "%s: 0x%x %s: %s") (code_args msg ns_flag status error ++ [Str err_msg]);
      log_and_deliver msg (remove_crlf ext_msg)
  | Some (true, err_msg) => wide_description msg ns_flag status error err_msg
  | None => no_description msg ns_flag status error
  end.

(** The message without its trailing new line character. *)
Definition chomp (msg : str) : str :=
  if bool_decide (last msg = Some LF) then removelast msg else msg.

(** [winx_dbg_print]. *)
Definition winx_dbg_print (flags : Z) (format : option str) (args : list printf_arg) : L unit :=
  status ← asks LastStatusValue;
  error ← asks LastErrorValue;
  msg ← match format with Some format => vsprintf format args | None => mret None end;
  match msg with
  | None => mret tt
  | Some msg =>
      let msg := chomp msg in
      let ns_flag := has_flag flags NT_STATUS_FLAG in
      let error := if ns_flag then status_to_error status else error in
      if ns_flag || has_flag flags LAST_ERROR_FLAG then describe msg ns_flag status error
      else log_and_deliver msg None
  end.

(** [winx_dbg_print_header]. *)
Definition winx_dbg_print_header (ch width : Z) (format : option str) (args : list printf_arg) : L unit :=
  let ch := if ch =? 0 then DEFAULT_DBG_PRINT_DECORATION_CHAR else ch in
  let width := if width <=? 0 then DEFAULT_DBG_PRINT_HEADER_WIDTH else width in
  match format with
  | None => mret tt
  | Some format =>
      string ← vsprintf format args;
      match string with
      | None => mret tt
      | Some string =>
          let '(prefix, body) := split_prefix string in
          let length := Z.of_nat (length body) in
          if (width - 4 <? length) || negb (tmalloc (width + 1))
          then winx_dbg_print 0 (Some (text "%s")) [Str string]
          else
            buffer ← st_lift (blit (uninit (Z.to_nat (width + 1))) 0 (replicate (Z.to_nat width) ch));
            buffer ← st_lift (put buffer width 0);
            let left := Z.quot (width - length - 2) 2 in
            buffer ← st_lift (put buffer left 0x20);
            buffer ← st_lift (blit buffer (left + 1) body);
            buffer ← st_lift (put buffer (left + 1 + length) 0x20);
            winx_dbg_print 0 (Some (text "%s%s")) [Str prefix; Str (cstr buffer)]
      end
  end.

(** etrace and itrace in winx_set_dbg_log. *)
Definition etrace (format : str) (args : list printf_arg) : L unit :=
  winx_dbg_print 0 (Some (ERROR ++ text "%s: " ++ format)) (Str (text "winx_set_dbg_log") :: args).

Definition itrace (format : str) (args : list printf_arg) : L unit :=
  winx_dbg_print 0 (Some (INFO ++ text "%s: " ++ format)) (Str (text "winx_set_dbg_log") :: args).

(** *** The log file *)

Definition fwrite (data : list Z) (count : Z) (f : WINX_FILE) : L WINX_FILE :=
  on_files (fun w => '(_, f, w) ← winx_fwrite data 1 count f w; Ret (f, w)).

Definition stamp_format : str := text "%04d-%02d-%02d %02d:%02d:%02d.%03d ".

Definition stamp_args (t : winx_time) : list printf_arg :=
  [Num (year t); Num (month t); Num (day t); Num (hour t); Num (minute t); Num (second t);
   Num (milliseconds t)].

(** The time stamp, the first [length] characters of the message, a new line. *)
Definition write_line (e : winx_dbg_log_entry) (length : Z) (f : WINX_FILE) : L WINX_FILE :=
  stamp ← vsprintf stamp_format (stamp_args (time_stamp e));
  f ← match stamp with
      | Some stamp => fwrite stamp (Z.of_nat (base.length stamp)) f
      | None => mret f
      end;
  b ← on_strings (load (buffer e));
  f ← fwrite b length f;
  fwrite CRLF 2 f.

(** One entry with a message. *)
Definition save_message (e : winx_dbg_log_entry) (f : WINX_FILE) : L WINX_FILE :=
  b ← on_strings (load (buffer e));
  let length := Z.of_nat (length (cstr b)) in
  if length =? 0 then mret f else
  c ← st_lift (rd8 b (length - 1));
  length ← (if c =? LF then
              b ← st_lift (put b (length - 1) 0);
              _ ← on_strings (modify (buffer e) (fun _ => b));
              mret (length - 1)
            else mret length);
  write_line e length f.

(** The loop over the entries. *)
Fixpoint save_loop (fuel : nat) (old_dbg_log log_entry : ptr) (f : WINX_FILE) : L WINX_FILE :=
  match fuel with
  | O => st_nofuel
  | S fuel =>
      match log_entry with
      | None => mret f
      | Some _ =>
          e ← on_nodes (load log_entry);
          f ← match buffer (data e) with
              | None => mret f
              | Some _ => save_message (data e) f
              end;
          if decide (next e = old_dbg_log) then mret f else save_loop fuel old_dbg_log (next e) f
      end
  end.

Definition out_of_memory : list Z := CRLF ++ text "*** Out of memory! ***" ++ CRLF.

(** winx_fbopen, or winx_fopen without a buffer. *)
Definition open_log (path : str) : L (option WINX_FILE) :=
  f ← on_files (winx_fbopen tmalloc uninit path (text "a") DBG_BUFFER_SIZE);
  match f with
  | Some f => mret (Some f)
  | None => on_files (fun w => Ret (winx_fopen tmalloc path (text "a") w))
  end.

(** Saving the log that was taken out of [dbg_log]. *)
Definition save_log (fuel : nat) (flags : Z) (old_dbg_log : ptr) (path : str) : L unit :=
  f ← open_log path;
  match f with
  | None => mret tt
  | Some f =>
      f ← save_loop fuel old_dbg_log old_dbg_log f;
      f ← (if has_flag flags FLUSH_IN_OUT_OF_MEMORY
           then fwrite out_of_memory (Z.of_nat (length out_of_memory)) f else mret f);
      _ ← on_files (fun w => w ← winx_fclose f w; Ret (tt, w));
      _ ← on_nodes (winx_list_destroy fuel old_dbg_log);
      mret tt
  end.

(** [winx_flush_dbg_log] up to its label. *)
Definition flush_log (fuel : nat) (flags : Z) : L unit :=
  _ ← upds (set_reserved false);
  ok ← wait_list_event;
  if negb ok then mret tt else
  old_dbg_log ← asks dbg_log;
  _ ← upds (fun s => set_list (nodes s) None s);
  _ ← set_list_event;
  path ← asks log_path;
  match old_dbg_log, path with
  | Some _, Some path => if bool_decide (path = []) then mret tt else save_log fuel flags old_dbg_log path
  | _, _ => mret tt
  end.

(** [winx_flush_dbg_log]. *)
Definition winx_flush_dbg_log (fuel : nat) (flags : Z) : L unit :=
  let synchronized := has_flag flags FLUSH_ALREADY_SYNCHRONIZED in
  ok ← (if synchronized then mret true else wait_log_event);
  if negb ok then mret tt else
  _ ← flush_log fuel flags;
  _ ← upds (set_reserved (tmalloc (1024 * 1024)));
  if synchronized then mret tt else set_log_event.

(** The directory of the log is created. *)
Definition create_log_path (path : str) : L unit :=
  lb ← st_lift (wcsrchr (path ++ [0]) BACKSLASH);
  let dir := match lb with Some i => take i path | None => path end in
  r ← on_files (winx_create_path get_volume_information (Some dir));
  if r <? 0 then etrace (text "cannot create directory tree for log path") [] else mret tt.

(** [winx_set_dbg_log]. *)
Definition winx_set_dbg_log (fuel : nat) (path : option str) : L unit :=
  let enabled := match path with Some (_ :: _) => true | _ => false end in
  old_path ← asks log_path;
  _ ← upds (set_logging enabled old_path);
  _ ← match path with
      | Some p => if enabled then create_log_path p else mret tt
      | None => mret tt
      end;
  ok ← wait_log_event;
  if negb ok then etrace (text "synchronization failed") [] else
  _ ← (match path, old_path with
       | None, None => mret tt
       | Some p, Some q => if bool_decide (p = q) then mret tt
                           else winx_flush_dbg_log fuel FLUSH_ALREADY_SYNCHRONIZED
       | _, _ => winx_flush_dbg_log fuel FLUSH_ALREADY_SYNCHRONIZED
       end);
  _ ← upds (set_logging enabled None);
  _ ← (match path with
       | Some p =>
           if enabled then
             _ ← itrace (text "log_path = %ws") [WStr p];
             let copy := winx_wcsdup tmalloc (Some p) in
             _ ← upds (set_logging enabled copy);
             match copy with None => etrace (text "not enough memory") [] | Some _ => mret tt end
           else mret tt
       | None => mret tt
       end);
  set_log_event.

(** *** Start and end *)

Definition lock_name (format : str) (pid : Z) : outcome (option str) :=
  winx_swprintf tmalloc (fun f => vsnprintf f [Num pid]) (Some format).

(** [winx_dbg_init]. *)
Definition winx_dbg_init (pid : Z) : L Z :=
  list_event ← asks hListSynchEvent;
  ok ← match list_event with
       | Some _ => mret true
       | None =>
           name ← st_lift (lock_name (text "\winx_dbg_list_lock_%u") pid);
           match name with
           | None => mret false
           | Some _ =>
               if create_event 0 then
                 _ ← upds (fun s => set_events (Some true) (hLogSynchEvent s) s); mret true
               else mret false
           end
       end;
  if negb ok then mret (-1) else
  log_event ← asks hLogSynchEvent;
  match log_event with
  | Some _ => mret 0
  | None =>
      name ← st_lift (lock_name (text "\winx_dbg_log_lock_%u") pid);
      match name with
      | None => _ ← upds (fun s => set_events None (hLogSynchEvent s) s); mret (-1)
      | Some _ =>
          if create_event 1 then
            _ ← upds (fun s => set_events (hListSynchEvent s) (Some true) s); mret 0
          else _ ← upds (fun s => set_events None None s); mret (-1)
      end
  end.

(** [winx_dbg_close]. *)
Definition winx_dbg_close (fuel : nat) : L unit :=
  _ ← winx_flush_dbg_log fuel 0;
  s ← asks logging_enabled;
  _ ← upds (set_logging s None);
  upds (set_events None None).
End dbg.

(** ** Theory *)

(** A string of [char]s without its zero. *)
Definition chars (s : str) : Prop := Forall (fun c => c ≠ 0) s.

Lemma cstr_pad s n : chars s → cstr (s ++ replicate n 0) = s.
Proof.
  intros Hs. induction Hs as [|c s Hc _ IH]; simpl; [by destruct n|].
  by rewrite (proj2 (Z.eqb_neq c 0)), IH.
Qed.

Lemma cstr_chars s : chars s → cstr (s ++ [0]) = s.
Proof. exact (cstr_pad s 1). Qed.

(** The last character before the terminator. *)
Lemma rd8_snoc s c r : rd8 ((s ++ [c]) ++ r) (Z.of_nat (length (s ++ [c])) - 1) = Ret c.
Proof.
  rewrite length_app, <- app_assoc. simpl. replace (Z.of_nat _ - 1) with (Z.of_nat (length s)) by lia.
  apply rd8_lookup. by rewrite list_lookup_middle.
Qed.

(** *** The debugger's buffer *)

(** strncpy and the terminator. *)
Lemma copy_cut (s : str) n :
  put (take (S n) s ++ replicate (S n - length s) 0) (Z.of_nat n) 0 =
  Ret (take n s ++ replicate (S n - length (take n s)) 0).
Proof.
  rewrite put_lookup by (rewrite length_app, length_take, length_replicate; lia). f_equal.
  destruct (decide (length s ≤ n)%nat) as [Hs|Hs].
  - rewrite !take_ge by lia. apply list_eq. intros i. rewrite list_lookup_insert.
    case_decide as Hi; [|done]. destruct Hi as [-> Hi].
    rewrite lookup_app_r by lia. symmetry. apply lookup_replicate. split; [done|lia].
  - assert (length (take n s) = n) as -> by (rewrite length_take; lia).
    destruct (lookup_lt_is_Some_2 s n) as [c Hc]; [lia|].
    rewrite (take_S_r s n c Hc). replace (S n - length s)%nat with 0%nat by lia.
    rewrite app_nil_r. replace (S n - n)%nat with 1%nat by lia.
    rewrite insert_app_r_alt by (rewrite length_take; lia).
    by rewrite length_take, Nat.min_l, Nat.sub_diag by lia.
Qed.

(** What the debugger shows of a message. *)
Definition shown_message (string : str) : str :=
  let s := take 4091 string in
  if bool_decide (last s = Some LF) then s
  else (if bool_decide (length s = 4091%nat) then removelast s else s) ++ [LF].

Lemma new_line_ok n (s : str) c :
  chars (s ++ [c]) → (length (s ++ [c]) ≤ n)%nat →
  ∃ m, (if negb (c =? LF)
        then if Z.of_nat (length (s ++ [c])) =? Z.of_nat n
             then put ((s ++ [c]) ++ replicate (S n - length (s ++ [c])) 0) (Z.of_nat (length (s ++ [c])) - 1) LF
             else Msg ← put ((s ++ [c]) ++ replicate (S n - length (s ++ [c])) 0)
                          (Z.of_nat (length (s ++ [c]))) LF;
                  put Msg (Z.of_nat (length (s ++ [c])) + 1) 0
        else Ret ((s ++ [c]) ++ replicate (S n - length (s ++ [c])) 0)) = Ret m ∧
    length m = S n ∧
    cstr m = if bool_decide (c = LF) then s ++ [c]
             else (if bool_decide (length (s ++ [c]) = n) then s else s ++ [c]) ++ [LF].
Proof.
  intros Hc Hn. set (t := s ++ [c]) in *. assert (Ht : length t = S (length s)) by (unfold t; rewrite length_app; simpl; lia).
  destruct (Z.eqb_spec c LF) as [->|HLF]; cbn [negb].
  { eexists. split; [done|]. rewrite bool_decide_true by done. split.
    - rewrite length_app, length_replicate. lia.
    - by rewrite cstr_pad. }
  rewrite (bool_decide_false (c = LF)) by done. destruct (Z.eqb_spec (Z.of_nat (length t)) (Z.of_nat n)) as [E|E].
  - rewrite (bool_decide_true (length t = n)) by lia. unfold t. rewrite <- app_assoc. simpl.
    fold t. rewrite Ht. replace (Z.of_nat (S (length s)) - 1) with (Z.of_nat (length s)) by lia.
    rewrite put_middle by done. eexists. split; [done|]. split.
    + rewrite length_app. simpl. rewrite length_replicate. lia.
    + rewrite cons_middle, app_assoc, cstr_pad; [done|].
      apply Forall_app in Hc as [Hs _]. apply Forall_app. split; [done|]. by repeat constructor.
  - rewrite (bool_decide_false (length t = n)) by lia.
    destruct (S n - length t)%nat as [|[|k]] eqn:Ek; [lia|lia|]. cbn [replicate].
    rewrite put_middle by done. rewrite outcome_bind_ret, cons_middle, app_assoc.
    replace (Z.of_nat (length t) + 1) with (Z.of_nat (length (t ++ [LF]))) by (rewrite length_app; simpl; lia).
    rewrite put_middle by done. eexists. split; [done|]. split.
    + rewrite !length_app. simpl. rewrite length_replicate. lia.
    + change (0 :: replicate k 0) with (replicate (S k) 0). rewrite cstr_pad; [done|].
      apply Forall_app. split; [done|]. by repeat constructor.
Qed.

Lemma debugger_message_ok string :
  chars string →
  ∃ m, debugger_message string = Ret m ∧ length m = 4092%nat ∧ cstr m = shown_message string.
Proof.
  intros Hs. unfold debugger_message, shown_message.
  change (Z.to_nat DBG_OUT_BUFFER_SIZE) with (S 4091). change (DBG_OUT_BUFFER_SIZE - 1) with (Z.of_nat 4091).
  change 4092%nat with (S 4091). assert (Hn : (2 ≤ 4091)%nat) by (apply Nat.leb_le; reflexivity).
  generalize dependent 4091%nat. intros n Hn. rewrite copy_cut, outcome_bind_ret.
  assert (Ht : chars (take n string)) by by apply Forall_take.
  assert (Hl : (length (take n string) ≤ n)%nat) by (rewrite length_take; lia).
  generalize dependent (take n string). intros t Ht Hl. rewrite cstr_pad by done.
  destruct t as [|c t _] using rev_ind.
  - cbn [length Z.of_nat app Z.ltb Z.compare last].
    rewrite Nat.sub_0_r, !bool_decide_false by (done || lia). destruct n as [|[|n]]; [lia|lia|].
    unfold blit. rewrite length_replicate, (proj2 (Z.ltb_ge (Z.of_nat _) _)) by (simpl; lia).
    eexists. split; [reflexivity|]. split; [|done]. simpl. by rewrite length_replicate.
  - rewrite last_snoc. assert (Hp : length (t ++ [c]) = S (length t)) by (rewrite length_app; simpl; lia).
    destruct (new_line_ok n t c Ht Hl) as (m & E & H1 & H2). exists m.
    rewrite (proj2 (Z.ltb_lt 0 _)) by lia. split_and!; [|done|].
    + by rewrite rd8_snoc.
    + rewrite H2, List.removelast_last. destruct (decide (c = LF)) as [->|Hc].
      * by rewrite !bool_decide_true.
      * by rewrite (bool_decide_false (c = LF)), (bool_decide_false (Some c = Some LF)) by congruence.
Qed.

(** ** Theorems *)

Lemma shown_message_last string : last (shown_message string) = Some LF.
Proof. unfold shown_message. case_bool_decide; [done|]. apply last_snoc. Qed.

(** Whatever the length of a message, what is sent to the debugger stays
    inside the shared buffer, is a terminated string, is the longest prefix of
    the message that fits and ends with a new line character. *)
Theorem debugger_message_correct string :
  chars string →
  ∃ m, debugger_message string = Ret m ∧ length m = 4092%nat ∧ cstr m = shown_message string ∧
    last (cstr m) = Some LF.
Proof.
  intros Hs. destruct (debugger_message_ok string Hs) as (m & E & Hl & Hm). exists m.
  split_and!; [done..|]. rewrite Hm. apply shown_message_last.
Qed.

Lemma debugger_message_correct_witness :
  ∃ m, debugger_message (replicate 5000 0x41) = Ret m ∧ length m = 4092%nat ∧
    cstr m = shown_message (replicate 5000 0x41) ∧ last (cstr m) = Some LF.
Proof. apply (debugger_message_correct (replicate 5000 0x41)). apply Forall_replicate. done. Defined.
