(* ===== verification/DbgLog.v ===== *)
(** * dbg.c: what the log promises

    The log is a sequence of messages with time stamps ([log_spec]): printing
    appends to it, flushing moves it to the file.  [log_rel] relates the
    program's state to it, [run_op_refines] is the simulation of one call, and
    the theorems at the end lift it to sequences of calls and to a change of
    the log file. *)
From S2P Require Import Prelude DList Bitmap CaseTables CString FileInfo FileIO Path Time Dbg.
From stdpp Require Import prelude gmap strings.
Open Scope Z_scope.

(** *** The list of messages *)
Section theory.
Context {W : Type} `{!NtApi W, !NtFileLaws W}.
Context `{!Allocator (node winx_dbg_log_entry)} `{!Allocator (list Z)}.
Context (uninit_entry : winx_dbg_log_entry).
Context (query_system_time : nat → Z * Z) (to_local_time : Z → Z * Z) (to_fields : Z → winx_time).
Implicit Types (s : log_state W) (h : log_nodes) (l : list (winx_time * str)).

(** The time stamp of a message whose clock reading is the n-th. *)
Definition stamp_at (n : nat) : winx_time :=
  let '(status, t) := query_system_time n in
  if negb (status =? STATUS_SUCCESS) then zero_time else
  let '(status, t) := to_local_time t in
  if negb (status =? STATUS_SUCCESS) then zero_time else to_fields t.

(** An item of the list holds a message. *)
Definition entry_ok (st : log_strings) (x : loc * winx_dbg_log_entry) (e : winx_time * str) : Prop :=
  time_stamp x.2 = e.1 ∧ (∃ p, buffer x.2 = Some p ∧ st !! p = Some (e.2 ++ [0])) ∧ chars e.2.

(** [dbg_log] holds the messages [l], each in a string of its own, and there
    are no other list items. *)
Definition collected s l : Prop :=
  ∃ ln, is_list (nodes s) (dbg_log s) ln ∧ (∀ k, k ∉ ln.*1 → nodes s !! k = None) ∧
    Forall2 (entry_ok (strings s)) ln l ∧ NoDup (buffer <$> ln.*2).

Lemma on_nodes_run {A} (m : ST log_nodes A) a h s :
  m (nodes s) = Ret (a, h) → on_nodes m s = Ret (a, set_list h (dbg_log s) s).
Proof. intros E. unfold on_nodes. by rewrite E. Qed.

Lemma on_list_run {A} (m : ptr → ST log_nodes (A * ptr)) a head h s :
  m (dbg_log s) (nodes s) = Ret ((a, head), h) → on_list m s = Ret (a, set_list h head s).
Proof. intros E. unfold on_list. by rewrite E. Qed.

Lemma on_strings_run {A} (m : ST log_strings A) a (h : log_strings) s :
  m (strings s) = Ret (a, h) → on_strings m s = Ret (a, set_strings h s).
Proof. intros E. unfold on_strings. by rewrite E. Qed.

(** When there is memory the insertion is the one of list.c. *)
Lemma dbg_list_insert_eq head prev_item h x :
  alloc h = Some x →
  dbg_list_insert uninit_entry head prev_item h =
  winx_list_insert head prev_item sizeof_winx_dbg_log_entry uninit_entry h.
Proof.
  intros Hx. unfold dbg_list_insert, winx_list_insert.
  assert (E : malloc_node uninit_entry h = Ret (Some x, <[x := Node None None uninit_entry]> h))
    by (unfold malloc_node; by rewrite Hx).
  change (u64 sizeof_winx_dbg_log_entry <? sizeof_list_entry) with false. cbn iota.
  step E. symmetry. by step E.
Qed.

Lemma get_local_time_run s :
  ∃ r o, dbg_get_local_time query_system_time to_local_time to_fields s = Ret ((r, o), tick s) ∧
    default zero_time o = stamp_at (ticks s).
Proof.
  unfold dbg_get_local_time, stamp_at, asks, upds, mbind, st_bind.
  destruct (query_system_time (ticks s)) as [st t]. destruct (negb (st =? _)); [by eexists _, _|].
  destruct (to_local_time t) as [st' t']. destruct (negb (st' =? _)); by eexists _, _.
Qed.

(** The new item [x] is filled in. *)
Lemma fill_run s ln x d msg p :
  is_list (nodes s) (dbg_log s) (ln ++ [(x, d)]) → alloc (strings s) = Some p →
  ∃ h, fill_log_entry query_system_time to_local_time to_fields (Some x) msg s =
      Ret (tt, tick (set_list h (dbg_log s) (set_strings (<[p := msg ++ [0]]> (strings s)) s))) ∧
    is_list h (dbg_log s) (ln ++ [(x, LogEntry (stamp_at (ticks s)) (Some p))]) ∧
    ∀ k, k ≠ x → h !! k = nodes s !! k.
Proof.
  intros Hl Hp. unfold fill_log_entry, dup_string.
  erewrite st_bind_ret by (apply on_strings_run; by rewrite Hp).
  destruct (is_list_update _ _ _ _ _ _ (set_buffer (Some p)) Hl) as (h1 & E1 & Hl1 & He1).
  erewrite st_bind_ret by (apply on_nodes_run; exact E1). cbn iota.
  destruct (is_list_update _ _ _ _ _ _ (set_time_stamp zero_time) Hl1) as (h2 & E2 & Hl2 & He2).
  erewrite st_bind_ret by (apply on_nodes_run; exact E2).
  match goal with |- context [(dbg_get_local_time _ _ _ ≫= _) ?s] =>
    destruct (get_local_time_run s) as (r & o & E3 & Ho); step E3 end.
  simpl in Ho. destruct o as [t|]; simpl in Ho; subst.
  - destruct (is_list_update _ _ _ _ _ _ (set_time_stamp (stamp_at (ticks s))) Hl2) as (h3 & E4 & Hl4 & He4).
    exists h3. split; [exact (on_nodes_run _ tt h3 _ E4)|]. split; [exact Hl4|].
    intros k Hk. by rewrite He4, He2, He1.
  - exists h2. split; [done|]. split; [by rewrite <- Ho in *|]. intros k Hk. by rewrite He2, He1.
Qed.

(** Without memory for the text the new item is removed again. *)
Lemma fill_no_memory s ln x d msg :
  is_list (nodes s) (dbg_log s) (ln ++ [(x, d)]) → alloc (strings s) = None →
  ∃ h, fill_log_entry query_system_time to_local_time to_fields (Some x) msg s =
      Ret (tt, set_list h (fst_ptr ln None) s) ∧
    is_list h (fst_ptr ln None) ln ∧ h !! x = None ∧ ∀ k, k ∉ x :: ln.*1 → h !! k = nodes s !! k.
Proof.
  intros Hl Hp. unfold fill_log_entry, dup_string.
  erewrite st_bind_ret by (apply on_strings_run; by rewrite Hp).
  destruct (is_list_update _ _ _ _ _ _ (set_buffer None) Hl) as (h1 & E1 & Hl1 & He1).
  erewrite st_bind_ret by (apply on_nodes_run; exact E1). cbn iota.
  destruct (winx_list_remove_spec _ _ _ _ _ _ Hl1) as (h2 & E2 & Hl2 & Hx & He2). rewrite app_nil_r in *.
  exists h2. split_and!; [|done|done|].
  - unfold on_list. cbn [dbg_log nodes set_list set_strings]. by step E2.
  - intros k Hk. rewrite He2, He1; [done|set_solver|]. rewrite fmap_app. set_solver.
Qed.

(** The state with another log. *)
Definition with_log (h : log_nodes) (st : log_strings) (head : ptr) (n : nat) s : log_state W :=
  LogState h st head (logging_enabled s) (log_path s) (hListSynchEvent s) (hLogSynchEvent s)
    (reserved_memory s) (LastStatusValue s) (LastErrorValue s) n (debugger s) (world s).

(** What an attempt to append a message appends. *)
Definition appended s (msg : str) : list (winx_time * str) :=
  match alloc (nodes s), alloc (strings s) with
  | Some _, Some _ => [(stamp_at (ticks s), msg)]
  | _, _ => []
  end.

Lemma entries_ext (st st' : log_strings) ln l :
  (∀ p x, Some p ∈ buffer <$> ln.*2 → st !! p = Some x → st' !! p = Some x) →
  Forall2 (entry_ok st) ln l → Forall2 (entry_ok st') ln l.
Proof.
  intros Hst. induction 1 as [|x e ln l (Ht & (p & Hp & Hs) & Hc) _ IH]; constructor.
  - split_and!; [done| |done]. exists p. split; [done|]. apply Hst; [|done].
    rewrite !fmap_cons, Hp. left.
  - apply IH. intros q y Hq. apply Hst. rewrite !fmap_cons. by right.
Qed.

Lemma entries_buffer (st : log_strings) ln l p :
  Forall2 (entry_ok st) ln l → p ∈ buffer <$> ln.*2 → ∃ q, p = Some q ∧ is_Some (st !! q).
Proof.
  induction 1 as [|x e ln l (Ht & (q & Hq & Hs) & Hc) _ IH]; [by intros ?%elem_of_nil|].
  rewrite !fmap_cons. intros [->|Hin]%elem_of_cons; [|by apply IH]. eauto.
Qed.

(** The insertion into the list. *)
Lemma insert_run s ln x :
  is_list (nodes s) (dbg_log s) ln → alloc (nodes s) = Some x →
  ∃ h head, dbg_list_insert uninit_entry (dbg_log s) (lst_ptr ln None) (nodes s) =
      Ret ((Some x, head), h) ∧
    is_list h head (ln ++ [(x, uninit_entry)]) ∧ ∀ k, k ∉ x :: ln.*1 → h !! k = nodes s !! k.
Proof.
  intros Hl Hx. rewrite (dbg_list_insert_eq _ _ _ x Hx).
  destruct (winx_list_append _ _ _ x uninit_entry sizeof_winx_dbg_log_entry Hl Hx)
    as (h & head & H); [by unfold sizeof_list_entry, sizeof_winx_dbg_log_entry|]. by exists h, head.
Qed.

Lemma collected_snoc s h st head n ln l x p msg :
  is_list h head (ln ++ [(x, LogEntry (stamp_at n) (Some p))]) →
  (∀ k, k ∉ x :: ln.*1 → h !! k = None) → Forall2 (entry_ok (strings s)) ln l →
  NoDup (buffer <$> ln.*2) → strings s !! p = None → chars msg →
  st = <[p := msg ++ [0]]> (strings s) →
  collected (with_log h st head (S n) s) (l ++ [(stamp_at n, msg)]).
Proof.
  intros Hl Hk He Hnd Hp Hc ->. eexists. split; [exact Hl|]. simpl. split_and!.
  - intros k. rewrite fmap_app. intros Hn. apply Hk. set_solver.
  - apply Forall2_app.
    + eapply entries_ext; [|exact He]. intros q y _ Hq. rewrite lookup_insert_ne; [done|congruence].
    + repeat constructor; [|done]. exists p. split; [done|]. by rewrite lookup_insert_eq.
  - rewrite !fmap_app. apply NoDup_app. split_and!; [done| |apply NoDup_singleton].
    intros q Hq ->%list_elem_of_singleton. simpl in Hq.
    destruct (entries_buffer _ _ _ _ He Hq) as (q & [= <-] & [y Hy]). congruence.
Qed.

Lemma append_entry_run s l msg :
  collected s l → chars msg →
  ∃ h st head,
    let s' := with_log h st head (ticks s + length (appended s msg)) s in
    append_log_entry uninit_entry query_system_time to_local_time to_fields msg s = Ret (tt, s') ∧
    collected s' (l ++ appended s msg).
Proof.
  intros (ln & Hl & Hk & He & Hnd) Hc. unfold append_log_entry, appended.
  erewrite st_bind_ret by reflexivity. step (on_nodes_run _ _ _ s (last_run _ _ _ Hl)).
  set (s1 := set_list (nodes s) (dbg_log s) s). change (dbg_log s) with (dbg_log s1) in Hl.
  destruct (alloc (nodes s)) as [x|] eqn:Hx; cbn iota.
  - destruct (insert_run s1 ln x Hl Hx) as (h1 & head & E1 & Hl1 & He1).
    pose proof (fresh_node _ _ _ _ Hl Hx) as Hxl.
    assert (Hk1 : ∀ k, k ∉ x :: ln.*1 → h1 !! k = None).
    { intros k Hkn. rewrite He1 by done. apply Hk. set_solver. }
    erewrite st_bind_ret by (apply on_list_run; exact E1). cbn iota.
    destruct (alloc (strings s)) as [p|] eqn:Hp; cbn iota.
    + destruct (fill_run (set_list h1 head s1) ln x uninit_entry msg p Hl1 Hp) as (h2 & E3 & Hl2 & He2).
      rewrite E3, Nat.add_1_r. eexists _, _, _. split; [reflexivity|].
      apply (collected_snoc _ _ _ _ _ ln _ x p); try done; [|by apply alloc_fresh].
      intros k Hkn. rewrite He2; [by apply Hk1|]. set_solver.
    + destruct (fill_no_memory (set_list h1 head s1) ln x uninit_entry msg Hl1 Hp) as (h2 & E3 & Hl2 & Hx2 & He2).
      rewrite E3, Nat.add_0_r. eexists _, _, _. split; [reflexivity|].
      rewrite app_nil_r. exists ln. split_and!; try done. simpl. intros k Hkn.
      destruct (decide (k = x)) as [->|]; [done|]. rewrite He2 by set_solver. apply Hk1. set_solver.
  - erewrite st_bind_ret; [|apply (on_list_run _ None (dbg_log s) (nodes s)); unfold dbg_list_insert, malloc_node;
      cbn; unfold mbind, st_bind; by rewrite Hx].
    rewrite Nat.add_0_r, app_nil_r. eexists _, _, _. split; [reflexivity|]. by exists ln.
Qed.

Lemma add_run s l msg :
  collected s l → hListSynchEvent s = Some true → logging_enabled s = true → chars msg →
  ∃ h st head,
    let s' := with_log h st head (ticks s + length (appended s msg)) s in
    add_dbg_log_entry uninit_entry query_system_time to_local_time to_fields msg s = Ret (tt, s') ∧
    collected s' (l ++ appended s msg).
Proof.
  intros Hl Hev Hon Hc. set (s1 := set_events (Some false) (hLogSynchEvent s) s).
  destruct (append_entry_run s1 l msg Hl Hc) as (h & st & head & E & Hl').
  exists h, st, head. split; [|exact Hl']. unfold add_dbg_log_entry, wait_list_event.
  destruct s. cbn in Hev, Hon. subst.
  erewrite st_bind_ret by reflexivity. cbn [negb]. erewrite st_bind_ret by reflexivity. cbn iota.
  step E. reflexivity.
Qed.

(** *** Writing the file *)
Context (tmalloc : Z → bool) (uninit : nat → list Z) (vsnprintf : str → list printf_arg → Z → Z * str).
Context (status_to_error : Z → Z) (error_message : Z → option (bool * str)).
Context (listens : list (list Z) → bool) (get_volume_information : Z → W → Z).
Context (render : str → list printf_arg → str).
Context (tmalloc_total : ∀ n, tmalloc n = true) (uninit_length : ∀ n, length (uninit n) = n).
Context (formatted : ∀ f a, formats (render f a) (vsnprintf f a)) (render_chars : ∀ f a, chars (render f a)).

(** What winx_vsprintf makes of a format. *)
Definition rendered (f : str) (a : list printf_arg) : option str :=
  if Z.of_nat (length (render f a)) <? 2 ^ 30 then Some (render f a) else None.

Lemma vsprintf_run f a s : vsprintf tmalloc vsnprintf f a s = Ret (rendered f a, s).
Proof.
  unfold vsprintf, winx_vsprintf, WINX_VSPRINTF_BUFFER_SIZE. change 128 with (2 ^ (30 - Z.of_nat 23)).
  rewrite (vsprintf_loop_spec tmalloc 1 _ (render f a) 23 25); [done|apply formatted|apply render_chars|done|lia|lia].
Qed.

(** The text of one message in the file. *)
Definition line (e : winx_time * str) : list Z :=
  match e.2 with
  | [] => []
  | _ => default [] (rendered stamp_format (stamp_args e.1)) ++ chomp e.2 ++ CRLF
  end.

Definition lines l : list Z := mjoin (line <$> l).

Lemma fwrite_run p c pos d n f s :
  holds p FILE_APPEND c pos f (world s) → 0 ≤ n ≤ Z.of_nat (length d) → pos + n < 2 ^ 63 →
  ∃ f' w', fwrite d n f s = Ret (f', set_world w' s) ∧
    holds p FILE_APPEND (c ++ take (Z.to_nat n) d) (pos + n) f' w'.
Proof.
  intros H Hn Hmax. unfold fwrite, on_files.
  destruct (winx_fwrite_ok p FILE_APPEND c pos d 1 n f (world s)) as (f' & w' & -> & H'); [done|lia..|].
  rewrite Z.mul_1_l in H'. by exists f', w'.
Qed.

(** Writing all of a text. *)
Lemma fwrite_all p c pos d f s :
  holds p FILE_APPEND c pos f (world s) → pos + Z.of_nat (length d) < 2 ^ 63 →
  ∃ f' w', fwrite d (Z.of_nat (length d)) f s = Ret (f', set_world w' s) ∧
    holds p FILE_APPEND (c ++ d) (pos + Z.of_nat (length d)) f' w'.
Proof.
  intros H Hmax. destruct (fwrite_run p c pos d (Z.of_nat (length d)) f s) as (f' & w' & E & H'); [done|lia..|].
  rewrite Nat2Z.id, firstn_all in H'. by exists f', w'.
Qed.

(** The new line character is cut off in the buffer. *)
Lemma chomp_run s (m : str) c p :
  chars (m ++ [c]) → strings s !! p = Some ((m ++ [c]) ++ [0]) →
  ∃ b, (if c =? LF then
          b ← st_lift (put ((m ++ [c]) ++ [0]) (Z.of_nat (length (m ++ [c])) - 1) 0);
          _ ← on_strings (modify (Some p) (fun _ => b));
          mret (Z.of_nat (length (m ++ [c])) - 1)
        else mret (Z.of_nat (length (m ++ [c])))) s =
       Ret (Z.of_nat (length (chomp (m ++ [c]))), set_strings (<[p := b]> (strings s)) s) ∧
    ∃ r, b = chomp (m ++ [c]) ++ r.
Proof.
  intros Hc Hp. unfold chomp. rewrite last_snoc. destruct (Z.eqb_spec c LF) as [->|Hn].
  - rewrite bool_decide_true, List.removelast_last by done.
    exists (m ++ [0; 0]). split; [|by eexists].
    assert (E : put ((m ++ [LF]) ++ [0]) (Z.of_nat (length (m ++ [LF])) - 1) 0 = Ret (m ++ [0; 0])).
    { rewrite length_app, <- app_assoc. replace (Z.of_nat _ - 1) with (Z.of_nat (length m)) by (simpl; lia).
      by apply put_middle. }
    rewrite E, st_lift_ret.
    erewrite st_bind_ret by (apply on_strings_run; by apply modify_ok with (1 := Hp)).
    unfold mret, st_ret. do 2 f_equal. rewrite length_app. simpl. lia.
  - rewrite bool_decide_false by congruence. exists ((m ++ [c]) ++ [0]). split; [|by eexists].
    rewrite insert_id by done. by destruct s.
Qed.

(** The stamp, or nothing when there is no memory for it. *)
Lemma stamp_run path c pos f s stamp :
  holds path FILE_APPEND c pos f (world s) → pos + Z.of_nat (length (default [] stamp)) < 2 ^ 63 →
  ∃ f' w', match stamp with
           | Some stamp => fwrite stamp (Z.of_nat (length stamp)) f
           | None => mret f
           end s = Ret (f', set_world w' s) ∧
    holds path FILE_APPEND (c ++ default [] stamp) (pos + Z.of_nat (length (default [] stamp))) f' w'.
Proof.
  intros H Hmax. destruct stamp as [stamp|]; [by apply fwrite_all|].
  exists f, (world s). rewrite app_nil_r, Z.add_0_r. split; [by destruct s|done].
Qed.

Lemma write_line_run path c pos f s e p t r :
  let stamp := default [] (rendered stamp_format (stamp_args (time_stamp e))) in
  holds path FILE_APPEND c pos f (world s) →
  pos + Z.of_nat (length (stamp ++ t ++ CRLF)) < 2 ^ 63 →
  buffer e = Some p → strings s !! p = Some (t ++ r) →
  ∃ f' w', write_line tmalloc vsnprintf e (Z.of_nat (length t)) f s = Ret (f', set_world w' s) ∧
    holds path FILE_APPEND (c ++ stamp ++ t ++ CRLF) (pos + Z.of_nat (length (stamp ++ t ++ CRLF))) f' w'.
Proof.
  intros stamp H Hmax Hb Hp. unfold write_line. rewrite !length_app in *. rewrite Hb.
  step (vsprintf_run stamp_format (stamp_args (time_stamp e)) s).
  destruct (stamp_run path c pos f s (rendered stamp_format (stamp_args (time_stamp e))) H)
    as (f3 & w3 & E3 & H3); [fold stamp; lia|]. step E3. fold stamp in H3. set (s3 := set_world w3 s).
  erewrite st_bind_ret by (apply on_strings_run; by apply (load_ok _ (t ++ r))).
  change (set_strings (strings s3) s3) with s3. change w3 with (world s3) in H3.
  destruct (fwrite_run path _ _ (t ++ r) (Z.of_nat (length t)) f3 s3 H3) as (f4 & w4 & E4 & H4);
    [rewrite length_app; lia|lia|]. step E4. rewrite Nat2Z.id, take_app_length in H4.
  destruct (fwrite_all path _ _ CRLF f4 (set_world w4 s3) H4) as (f5 & w5 & E5 & H5); [lia|].
  exists f5, w5. split; [exact E5|]. rewrite <- !app_assoc in H5.
  replace (pos + _) with (pos + Z.of_nat (length stamp) + Z.of_nat (length t) + Z.of_nat (length CRLF)) by lia.
  exact H5.
Qed.

Lemma save_message_run path c pos f s e t m p :
  holds path FILE_APPEND c pos f (world s) →
  pos + Z.of_nat (length (line (t, m))) < 2 ^ 63 →
  time_stamp e = t → buffer e = Some p → strings s !! p = Some (m ++ [0]) → chars m →
  ∃ b f' w', save_message tmalloc vsnprintf e f s =
      Ret (f', set_world w' (set_strings (<[p := b]> (strings s)) s)) ∧
    holds path FILE_APPEND (c ++ line (t, m)) (pos + Z.of_nat (length (line (t, m)))) f' w'.
Proof.
  intros H Hmax <- Hb Hp Hc. unfold save_message. rewrite Hb.
  erewrite st_bind_ret by (apply on_strings_run; by apply load_ok).
  replace (set_strings (strings s) s) with s by by destruct s. rewrite cstr_chars by done.
  destruct m as [|c0 m0 _] using rev_ind.
  { exists [0], f, (world s). simpl in *. rewrite app_nil_r, Z.add_0_r. split; [|done].
    rewrite insert_id by done. by destruct s. }
  assert (El : line (time_stamp e, m0 ++ [c0]) =
               default [] (rendered stamp_format (stamp_args (time_stamp e))) ++ chomp (m0 ++ [c0]) ++ CRLF)
    by (unfold line; by destruct m0).
  rewrite El in *. rewrite (proj2 (Z.eqb_neq _ _)) by (rewrite length_app; simpl; lia).
  rewrite rd8_snoc, st_lift_ret. destruct (chomp_run s m0 c0 p Hc Hp) as (b & E1 & r & Eb). step E1.
  destruct (write_line_run path c pos f (set_strings (<[p := b]> (strings s)) s) e p (chomp (m0 ++ [c0])) r)
    as (f' & w' & E & H'); [done|done|done|simpl; by rewrite lookup_insert_eq, Eb|].
  by exists b, f', w'.
Qed.

Lemma entry_step (st : log_strings) q e ln e0 l p b :
  Forall2 (entry_ok st) ((q, e) :: ln) (e0 :: l) → NoDup (buffer <$> ((q, e) :: ln).*2) → buffer e = Some p →
  Forall2 (entry_ok (<[p := b]> st)) ln l.
Proof.
  intros [_ He]%Forall2_cons_1 Hnd Hb. rewrite !fmap_cons in Hnd. apply NoDup_cons in Hnd as [Hn _].
  eapply entries_ext; [|exact He]. intros p' x Hp' Hx. rewrite lookup_insert_ne; [done|].
  intros ->. apply Hn. simpl. by rewrite Hb.
Qed.

(** The loop writes the messages from its position to the end of the list and
    leaves the strings allocated. *)
Lemma save_loop_from fuel path s head (la : list (loc * winx_dbg_log_entry)) q e ln e0 l c pos f :
  is_list (nodes s) head (la ++ (q, e) :: ln) → Forall2 (entry_ok (strings s)) ((q, e) :: ln) (e0 :: l) →
  NoDup (buffer <$> ((q, e) :: ln).*2) → (length ln < fuel)%nat →
  holds path FILE_APPEND c pos f (world s) → pos + Z.of_nat (length (lines (e0 :: l))) < 2 ^ 63 →
  ∃ st f' w', save_loop tmalloc vsnprintf fuel head (Some q) f s = Ret (f', set_world w' (set_strings st s)) ∧
    dom st = dom (strings s) ∧
    holds path FILE_APPEND (c ++ lines (e0 :: l)) (pos + Z.of_nat (length (lines (e0 :: l)))) f' w'.
Proof.
  revert s la q e ln e0 l c pos f. induction fuel as [|fuel IH]; intros s la q e ln e0 l c pos f Hl He Hnd Hf H Hmax; [lia|].
  pose proof (next_is_head _ _ _ _ _ _ Hl) as Hnext. cbn [save_loop].
  erewrite st_bind_ret by (apply on_nodes_run; apply load_ok; by apply (is_list_lookup _ _ _ _ _ _ Hl)).
  replace (set_list (nodes s) (dbg_log s) s) with s by by destruct s. cbn [data next].
  pose proof He as [(Ht & (p & Hb & Hp) & Hc) _]%Forall2_cons_1. simpl in Ht, Hb.
  assert (El : lines (e0 :: l) = line (time_stamp e, e0.2) ++ lines l) by (rewrite Ht; by destruct e0).
  rewrite El, length_app in *. rewrite Hb.
  destruct (save_message_run path c pos f s e (time_stamp e) (e0.2) p H ltac:(lia) eq_refl Hb Hp Hc) as (b & f1 & w1 & E1 & H1).
  step E1. set (s1 := set_world w1 (set_strings (<[p := b]> (strings s)) s)). destruct ln as [|[q' e'] ln].
  - rewrite decide_True by by apply Hnext. apply Forall2_cons_1 in He as [_ ->%Forall2_nil_inv_l].
    exists (<[p := b]> (strings s)), f1, w1. split; [done|]. split; [|simpl; by rewrite app_nil_r, Nat.add_0_r].
    apply dom_insert_lookup_L. by eexists.
  - rewrite decide_False by (rewrite Hnext; done). cbn [fst_ptr].
    pose proof (entry_step _ _ _ _ _ _ p b He Hnd Hb) as He'. destruct l as [|e1 l]; [by apply Forall2_nil_inv_r in He'|].
    rewrite cons_middle, app_assoc in Hl. simpl in Hf.
    destruct (IH s1 (la ++ [(q, e)]) q' e' ln e1 l (c ++ line (time_stamp e, e0.2))
      (pos + Z.of_nat (length (line (time_stamp e, e0.2)))) f1 Hl He') as (st & f2 & w2 & E2 & Hd & H2); [|lia|exact H1|lia|].
    { rewrite !fmap_cons in *. by apply NoDup_cons in Hnd as [_ Hnd]. }
    exists st, f2, w2. split; [exact E2|]. split.
    + rewrite Hd. simpl. apply dom_insert_lookup_L. by eexists.
    + by rewrite <- app_assoc, <- Z.add_assoc, <- Nat2Z.inj_add in H2.
Qed.

(** *** Flushing *)

(** What a flush adds to the file. *)
Definition flushed (flags : Z) l : list Z :=
  match l with
  | [] => []
  | _ => lines l ++ (if has_flag flags FLUSH_IN_OUT_OF_MEMORY then out_of_memory else [])
  end.

Lemma open_log_run path s :
  ∃ f w, open_log tmalloc uninit path s = Ret (Some f, set_world w s) ∧
    holds path FILE_APPEND (default [] (file_at (world s) path)) 0 f w.
Proof.
  destruct (winx_fbopen_append tmalloc uninit tmalloc_total uninit_length path DBG_BUFFER_SIZE (world s))
    as (f & w & E & H); [by unfold DBG_BUFFER_SIZE|].
  exists f, w. split; [|done]. unfold open_log. rewrite (st_bind_ret _ _ _ (Some f) (set_world w s)); [done|].
  unfold on_files. by rewrite E.
Qed.

Lemma mark_run path c pos f flags s :
  holds path FILE_APPEND c pos f (world s) →
  pos + Z.of_nat (length (if has_flag flags FLUSH_IN_OUT_OF_MEMORY then out_of_memory else [])) < 2 ^ 63 →
  ∃ f' w', (if has_flag flags FLUSH_IN_OUT_OF_MEMORY
            then fwrite out_of_memory (Z.of_nat (length out_of_memory)) f else mret f) s = Ret (f', set_world w' s) ∧
    holds path FILE_APPEND (c ++ (if has_flag flags FLUSH_IN_OUT_OF_MEMORY then out_of_memory else []))
      (pos + Z.of_nat (length (if has_flag flags FLUSH_IN_OUT_OF_MEMORY then out_of_memory else []))) f' w'.
Proof.
  destruct (has_flag _ _); intros H Hmax; [by apply fwrite_all|].
  exists f, (world s). rewrite app_nil_r, Z.add_0_r. split; [by destruct s|done].
Qed.

Lemma save_log_run fuel path s head ln l flags :
  is_list (nodes s) head ln → (∀ k, k ∉ ln.*1 → nodes s !! k = None) → Forall2 (entry_ok (strings s)) ln l →
  NoDup (buffer <$> ln.*2) → (length ln ≤ fuel)%nat → l ≠ [] →
  Z.of_nat (length (flushed flags l)) < 2 ^ 63 →
  ∃ st w, save_log tmalloc uninit vsnprintf fuel flags head path s =
      Ret (tt, set_world w (set_list ∅ (dbg_log s) (set_strings st s))) ∧
    dom st = dom (strings s) ∧
    file_at w path = Some (default [] (file_at (world s) path) ++ flushed flags l).
Proof.
  intros Hl Hk He Hnd Hf Hne Hmax. unfold save_log.
  destruct (open_log_run path s) as (f & w & E & H). step E. destruct l as [|e0 l]; [done|].
  destruct ln as [|[q e] ln]; [by inversion He|]. unfold flushed in Hmax |- *. rewrite length_app in Hmax.
  pose proof Hl as [Hh _]. simpl in Hh.
  destruct (save_loop_from fuel path (set_world w s) head [] q e ln e0 l (default [] (file_at (world s) path)) 0 f Hl He Hnd) as (st & f1 & w1 & E1 & Hd & H1);
    [simpl in Hf; lia|exact H|lia|]. rewrite <- Hh in E1. step E1.
  match goal with |- context [(_ ≫= _) ?s] => set (s1 := s) end. change w1 with (world s1) in H1.
  match type of H1 with holds _ _ ?c ?pos _ _ =>
    destruct (mark_run path c pos f1 flags s1 H1 ltac:(lia)) as (f2 & w2 & E2 & H2) end. step E2.
  destruct (winx_fclose_ok _ _ _ _ _ _ H2) as (w3 & E3 & Hw3); [lia|].
  erewrite (st_bind_ret _ _ _ tt (set_world w3 s1)) by (unfold on_files; cbn [world set_world]; by rewrite E3).
  destruct (winx_list_destroy_spec fuel (nodes s) head _ Hl Hf) as (h & E4 & Hin & Hout).
  assert (h = ∅) as ->.
  { apply map_empty. intros k. destruct (decide (k ∈ ((q, e) :: ln).*1)); [by apply Hin|].
    rewrite Hout by done. by apply Hk. }
  erewrite st_bind_ret by (apply on_nodes_run; exact E4).
  exists st, w3. split; [done|]. split; [done|]. by rewrite Hw3, <- app_assoc.
Qed.

Lemma flush_log_start fuel flags s :
  hListSynchEvent s = Some true →
  flush_log tmalloc uninit vsnprintf fuel flags s =
  match dbg_log s, log_path s with
  | Some _, Some path =>
      if bool_decide (path = []) then mret tt else save_log tmalloc uninit vsnprintf fuel flags (dbg_log s) path
  | _, _ => mret tt
  end (set_reserved false (set_list (nodes s) None s)).
Proof. destruct s. intros Hev. cbn in Hev. subst. reflexivity. Qed.

Lemma flush_log_run fuel path s l flags :
  collected s l → hListSynchEvent s = Some true → log_path s = Some path → path ≠ [] →
  (length l ≤ fuel)%nat → Z.of_nat (length (flushed flags l)) < 2 ^ 63 →
  ∃ st w, flush_log tmalloc uninit vsnprintf fuel flags s =
      Ret (tt, set_reserved false (set_world w (with_log ∅ st None (ticks s) s))) ∧
    dom st = dom (strings s) ∧
    default [] (file_at w path) = default [] (file_at (world s) path) ++ flushed flags l.
Proof.
  intros (ln & Hl & Hk & He & Hnd) Hev Hp Hne Hf Hmax. rewrite flush_log_start, Hp by done.
  pose proof (Forall2_length _ _ _ He) as Hlen. set (s1 := set_reserved false (set_list (nodes s) None s)).
  destruct l as [|e0 l].
  - destruct ln as [|? ln]; [|done]. apply is_list_nil in Hl as ->.
    assert (En : nodes s = ∅) by (apply map_empty; intros k; by apply Hk, not_elem_of_nil).
    exists (strings s), (world s). split_and!; [unfold s1; by rewrite En|done|symmetry; apply app_nil_r].
  - assert (is_Some (dbg_log s)) as [hd Ehd].
    { destruct ln as [|[q e] ln]; [done|]. destruct Hl as [-> _]. by eexists. }
    rewrite Ehd in *. rewrite bool_decide_false by done.
    destruct (save_log_run fuel path s1 (Some hd) ln (e0 :: l) flags Hl Hk He Hnd) as (st & w & E & Hd & Hw);
      [lia|done|done|].
    exists st, w. split; [exact E|]. split; [exact Hd|]. by rewrite Hw.
Qed.

Lemma flush_run fuel path s l flags :
  collected s l → hListSynchEvent s = Some true →
  has_flag flags FLUSH_ALREADY_SYNCHRONIZED = true ∨ hLogSynchEvent s = Some true →
  log_path s = Some path → path ≠ [] →
  (length l ≤ fuel)%nat → Z.of_nat (length (flushed flags l)) < 2 ^ 63 →
  ∃ st w, let s' := set_reserved true (set_world w (with_log ∅ st None (ticks s) s)) in
    winx_flush_dbg_log tmalloc uninit vsnprintf fuel flags s = Ret (tt, s') ∧ collected s' [] ∧
    dom st = dom (strings s) ∧
    default [] (file_at w path) = default [] (file_at (world s) path) ++ flushed flags l.
Proof.
  intros Hc Hev Hlog Hp Hne Hf Hmax. unfold winx_flush_dbg_log, wait_log_event.
  set (s0 := if has_flag flags FLUSH_ALREADY_SYNCHRONIZED then s else set_events (hListSynchEvent s) (Some false) s).
  assert (Hs0 : collected s0 l ∧ hListSynchEvent s0 = Some true ∧ log_path s0 = Some path ∧ world s0 = world s ∧
                strings s0 = strings s)
    by (unfold s0; by destruct (has_flag flags FLUSH_ALREADY_SYNCHRONIZED)).
  destruct Hs0 as (Hc0 & Hev0 & Hp0 & Hw0 & Hst0).
  destruct (flush_log_run fuel path s0 l flags Hc0 Hev0 Hp0 Hne Hf Hmax) as (st & w & E & Hd & Hw).
  rewrite Hw0, Hst0 in *. exists st, w. simpl. split_and!; [| |done|done].
  - unfold s0 in E. destruct (has_flag flags FLUSH_ALREADY_SYNCHRONIZED); [|destruct Hlog as [?|Hlog]; [done|]].
    + erewrite st_bind_ret by reflexivity. cbn [negb]. step E. by rewrite tmalloc_total.
    + destruct s. cbn in Hlog. subst. erewrite (st_bind_ret _ _ _ true) by reflexivity. cbn [negb]. step E.
      rewrite tmalloc_total. reflexivity.
  - exists []. simpl. split_and!; [by apply is_list_nil|done|constructor|constructor].
Qed.

(** *** Printing *)

Definition with_debugger (d : list (list Z)) s : log_state W :=
  LogState (nodes s) (strings s) (dbg_log s) (logging_enabled s) (log_path s) (hListSynchEvent s)
    (hLogSynchEvent s) (reserved_memory s) (LastStatusValue s) (LastErrorValue s) (ticks s) d (world s).

Lemma deliver_run msg s :
  chars msg → ∃ d, deliver_message listens msg s = Ret (tt, with_debugger d s).
Proof.
  intros Hc. unfold deliver_message. erewrite st_bind_ret by reflexivity.
  destruct (listens (debugger s)); [|by exists (debugger s); destruct s]. cbn [negb].
  destruct (debugger_message_ok msg Hc) as (m & E & _). rewrite E, st_lift_ret. by exists (debugger s ++ [m]).
Qed.

Lemma chomp_chars (t : str) : chars t → chars (chomp t).
Proof.
  intros Hs. unfold chomp. case_bool_decide as Hl; [|done].
  destruct t as [|c t _] using rev_ind; [done|]. rewrite List.removelast_last. by apply Forall_app in Hs as [Hs _].
Qed.

(** What an attempt to print appends to the log. *)
Definition printed s (m : option str) : list (winx_time * str) :=
  match m with Some m => appended s (chomp m) | None => [] end.

Lemma print_run s l f a :
  collected s l → hListSynchEvent s = Some true → logging_enabled s = true →
  ∃ h st head d,
    let s' := with_debugger d (with_log h st head (ticks s + length (printed s (rendered f a))) s) in
    winx_dbg_print tmalloc uninit uninit_entry vsnprintf query_system_time to_local_time to_fields
      status_to_error error_message listens 0 (Some f) a s = Ret (tt, s') ∧
    collected s' (l ++ printed s (rendered f a)).
Proof.
  intros Hl Hev Hon. unfold winx_dbg_print. do 2 erewrite st_bind_ret by reflexivity.
  step (vsprintf_run f a s). unfold rendered. destruct (_ <? _); cbn [printed].
  - set (m := chomp (render f a)). assert (Hm : chars m) by (by apply chomp_chars, render_chars).
    change (has_flag 0 NT_STATUS_FLAG) with false. change (has_flag 0 LAST_ERROR_FLAG) with false.
    destruct (add_run s l m Hl Hev Hon Hm) as (h & st & head & E & Hl'). unfold log_and_deliver.
    cbn [orb default]. step E.
    destruct (deliver_run m (with_log h st head (ticks s + length (appended s m)) s) Hm) as (d & E2).
    exists h, st, head, d. split; [exact E2|exact Hl'].
  - exists (nodes s), (strings s), (dbg_log s), (debugger s). rewrite Nat.add_0_r, app_nil_r.
    split; [by destruct s|exact Hl].
Qed.

(** *** Headers *)
Context (render_s : ∀ t, chars t → render (text "%s") [Str t] = t).
Context (render_ss : ∀ t u, chars t → chars u → render (text "%s%s") [Str t; Str u] = t ++ u).

(** The text a header is printed as. *)
Definition header_message (ch width : Z) (string : str) : str :=
  let '(prefix, body) := split_prefix string in
  let n := Z.of_nat (length body) in
  if width - 4 <? n then string else
  let left := Z.to_nat ((width - n - 2) / 2) in
  prefix ++ replicate left ch ++ [0x20] ++ body ++ [0x20] ++
  replicate (Z.to_nat (width - n - 2) - left) ch.

Lemma uninit_split n : ∃ u x, uninit (S n) = u ++ [x] ∧ length u = n.
Proof.
  pose proof (uninit_length (S n)) as Hl. destruct (uninit (S n)) as [|x u _] using rev_ind; [done|].
  exists u, x. rewrite length_app in Hl. simpl in Hl. split; [done|lia].
Qed.

(** The header is composed inside its buffer. *)
Lemma header_buffer_run width ch (body : str) :
  0 < width → Z.of_nat (length body) ≤ width - 4 →
  let n := Z.of_nat (length body) in
  let left := Z.quot (width - n - 2) 2 in
  ∃ b, (buffer ← blit (uninit (Z.to_nat (width + 1))) 0 (replicate (Z.to_nat width) ch);
        buffer ← put buffer width 0;
        buffer ← put buffer left 0x20;
        buffer ← blit buffer (left + 1) body;
        put buffer (left + 1 + n) 0x20) = Ret b ∧
    b = (replicate (Z.to_nat left) ch ++ [0x20] ++ body ++ [0x20] ++
         replicate (Z.to_nat (width - n - 2) - Z.to_nat left) ch) ++ [0].
Proof.
  intros Hw Hb n left. assert (Hl : 0 < left ∧ 2 * left ≤ width - n - 2 < 2 * left + 2).
  { unfold left. rewrite Z.quot_div_nonneg by lia. pose proof (Z.div_mod (width - n - 2) 2). 
    pose proof (Z.mod_pos_bound (width - n - 2) 2). lia. }
  clearbody left.
  set (a := Z.to_nat left). set (r := (Z.to_nat (width - n - 2) - a)%nat).
  assert (Er : Z.to_nat width = (a + (1 + (length body + (1 + r))))%nat) by lia.
  eexists. split; [|reflexivity].
  destruct (uninit_split (Z.to_nat width)) as (u & x & Eu & Hu). replace (Z.to_nat (width + 1)) with (S (Z.to_nat width)) by lia.
  rewrite Eu, (blit_middle [] u [x]) by (simpl; rewrite ?length_replicate; done). rewrite outcome_bind_ret.
  cbn [app]. rewrite (put_middle _ x) by (rewrite length_replicate; lia). rewrite outcome_bind_ret.
  rewrite Er, !replicate_add, <- !app_assoc. cbn [replicate app].
  rewrite put_middle by (rewrite length_replicate; lia). rewrite outcome_bind_ret.
  rewrite cons_middle, (app_assoc _ [32]).
  rewrite blit_middle by (rewrite ?length_app, ?length_replicate; simpl; lia). rewrite outcome_bind_ret.
  rewrite (app_assoc _ body). rewrite put_middle by (rewrite !length_app, length_replicate; simpl; lia).
  by rewrite <- !app_assoc.
Qed.

Lemma split_prefix_app (string : str) : let '(prefix, body) := split_prefix string in string = prefix ++ body.
Proof.
  unfold split_prefix.
  assert (Hp : ∀ p : str, p `prefix_of` string → string = p ++ drop (length p) string).
  { intros p [k ->]. by rewrite drop_app_length. }
  repeat case_bool_decide; (by apply Hp) || done.
Qed.

Abbreviation print := (winx_dbg_print tmalloc uninit uninit_entry vsnprintf query_system_time to_local_time
  to_fields status_to_error error_message listens 0).

Abbreviation print_header := (winx_dbg_print_header tmalloc uninit uninit_entry vsnprintf query_system_time
  to_local_time to_fields status_to_error error_message listens).

(** The defaults of a header. *)
Definition header_char (ch : Z) : Z := if ch =? 0 then DEFAULT_DBG_PRINT_DECORATION_CHAR else ch.

Definition header_width (width : Z) : Z := if width <=? 0 then DEFAULT_DBG_PRINT_HEADER_WIDTH else width.

Lemma header_run ch width f a s m :
  rendered f a = Some m →
  ∃ f' a', print_header ch width (Some f) a s = print (Some f') a' s ∧
    render f' a' = header_message (header_char ch) (header_width width) m.
Proof.
  intros Hm. unfold winx_dbg_print_header. step (vsprintf_run f a s). rewrite Hm.
  fold (header_char ch) (header_width width).
  assert (Hch : header_char ch ≠ 0).
  { unfold header_char, DEFAULT_DBG_PRINT_DECORATION_CHAR. destruct (Z.eqb_spec ch 0); lia. }
  assert (Hw : 0 < header_width width).
  { unfold header_width, DEFAULT_DBG_PRINT_HEADER_WIDTH. destruct (Z.leb_spec width 0); lia. }
  generalize dependent (header_char ch). generalize dependent (header_width width). clear ch width.
  intros width Hw ch Hch. pose proof (split_prefix_app m) as Esp. unfold header_message.
  destruct (split_prefix m) as [prefix body]. rewrite tmalloc_total, orb_false_r.
  assert (Hm' : chars m).
  { unfold rendered in Hm. destruct (_ <? _); [|done]. injection Hm as <-. apply render_chars. }
  destruct (Z.ltb_spec (width - 4) (Z.of_nat (length body))) as [Hl|Hl].
  { exists (text "%s"), [Str m]. split; [done|by apply render_s]. }
  rewrite Esp in Hm'. apply Forall_app in Hm' as [Hpr Hb].
  destruct (header_buffer_run width ch body Hw Hl) as (b & E & Eb).
  set (t := replicate _ _ ++ _) in Eb. assert (Ht : chars t).
  { unfold t, chars. rewrite !Forall_app. by repeat split; try apply Forall_replicate; try repeat constructor. }
  exists (text "%s%s"), [Str prefix; Str t]. split.
  - rewrite <- (cstr_chars t Ht), <- Eb. clear Eb.
    repeat match type of E with (?m ≫= _) = Ret _ =>
      apply outcome_bind_inv in E as (? & E0 & E); rewrite E0, st_lift_ret; clear E0 end.
    by rewrite E, st_lift_ret.
  - rewrite render_ss by done. unfold t. rewrite Z.quot_div_nonneg by lia. done.
Qed.

(** *** The log as a sequence of messages *)

(** The contents of the log file, the messages that are not in it yet, and the
    number of clock readings. *)
Record log_spec : Type := LogSpec { on_disk : list Z; pending : list (winx_time * str); clock : nat }.

Inductive log_op : Type :=
| Print (format : str) (args : list printf_arg)
| PrintHeader (ch width : Z) (format : str) (args : list printf_arg)
| Flush (flags : Z).

Definition spec_print (m : option str) (a : log_spec) : log_spec :=
  match m with
  | Some m => LogSpec (on_disk a) (pending a ++ [(stamp_at (clock a), chomp m)]) (S (clock a))
  | None => a
  end.

(** A text that is printed again is lost when it is too long for a string. *)
Definition fitting (m : str) : option str := if Z.of_nat (length m) <? 2 ^ 30 then Some m else None.

Definition spec_op (a : log_spec) (op : log_op) : log_spec :=
  match op with
  | Print f args => spec_print (rendered f args) a
  | PrintHeader ch width f args =>
      spec_print (m ← rendered f args; fitting (header_message (header_char ch) (header_width width) m)) a
  | Flush flags => LogSpec (on_disk a ++ flushed flags (pending a)) [] (clock a)
  end.

Definition run_op (fuel : nat) (op : log_op) : ST (log_state W) unit :=
  match op with
  | Print f args => print (Some f) args
  | PrintHeader ch width f args => print_header ch width (Some f) args
  | Flush flags => winx_flush_dbg_log tmalloc uninit vsnprintf fuel flags
  end.

Fixpoint run_ops (fuel : nat) (ops : list log_op) : ST (log_state W) unit :=
  match ops with
  | [] => mret tt
  | op :: ops => _ ← run_op fuel op; run_ops fuel ops
  end.

(** A state of the program with its log enabled. *)
Record log_rel (path : str) s (a : log_spec) : Prop := {
  rel_pending : collected s (pending a);
  rel_disk : default [] (file_at (world s) path) = on_disk a;
  rel_clock : ticks s = clock a;
  rel_enabled : logging_enabled s = true;
  rel_path : log_path s = Some path;
  rel_list_event : hListSynchEvent s = Some true;
  rel_log_event : hLogSynchEvent s = Some true;
}.

(** What a flush writes is below the size of a file. *)
Definition op_fits (fuel : nat) (a : log_spec) (op : log_op) : Prop :=
  match op with
  | Flush flags => (length (pending a) ≤ fuel)%nat ∧ Z.of_nat (length (flushed flags (pending a))) < 2 ^ 63
  | _ => True
  end.

Fixpoint ops_fit (fuel : nat) (a : log_spec) (ops : list log_op) : Prop :=
  match ops with
  | [] => True
  | op :: ops => op_fits fuel a op ∧ ops_fit fuel (spec_op a op) ops
  end.

Lemma ops_fit_app fuel a ops ops' :
  ops_fit fuel a (ops ++ ops') ↔ ops_fit fuel a ops ∧ ops_fit fuel (foldl spec_op a ops) ops'.
Proof. revert a. induction ops as [|op ops IH]; intros a; simpl; [tauto|]. rewrite IH. tauto. Qed.

Context (node_total : ∀ h : log_nodes, is_Some (alloc h)) (string_total : ∀ h : log_strings, is_Some (alloc h)).

Lemma appended_total s msg : appended s msg = [(stamp_at (ticks s), msg)].
Proof.
  unfold appended. destruct (node_total (nodes s)) as [? ->], (string_total (strings s)) as [? ->]. done.
Qed.

Lemma print_refines path s a f args :
  log_rel path s a →
  ∃ s', print (Some f) args s = Ret (tt, s') ∧ log_rel path s' (spec_print (rendered f args) a).
Proof.
  intros [Hp Hd Hc He Hpa Hl Hg].
  destruct (print_run s (pending a) f args Hp Hl He) as (h & st & head & d & E & Hp'). eexists. split; [exact E|].
  unfold spec_print. destruct (rendered f args) as [m|]; cbn [printed] in *.
  - rewrite appended_total, Hc in *. split; simpl; try done. lia.
  - rewrite app_nil_r in Hp'. split; simpl; try done. rewrite Hc. lia.
Qed.

Lemma run_op_refines path fuel s a op :
  path ≠ [] → log_rel path s a → op_fits fuel a op →
  ∃ s', run_op fuel op s = Ret (tt, s') ∧ log_rel path s' (spec_op a op).
Proof.
  intros Hne Ha Hf. destruct op as [f args|ch width f args|flags]; cbn [run_op spec_op].
  - by apply print_refines.
  - destruct (rendered f args) as [m|] eqn:Em.
    + destruct (header_run ch width f args s m Em) as (f' & a' & -> & Er). simpl. rewrite <- Er.
      by apply print_refines.
    + exists s. split; [|done]. unfold winx_dbg_print_header. step (vsprintf_run f args s). by rewrite Em.
  - destruct Ha as [Hp Hd Hc He Hpa Hl Hg], Hf as [Hfu Hlen].
    destruct (flush_run fuel path s (pending a) flags Hp Hl (or_intror Hg) Hpa Hne Hfu Hlen)
      as (st & w & E & Hp' & _ & Hw). eexists. split; [exact E|]. split; try done. simpl. by rewrite Hw, Hd.
Qed.

Lemma run_ops_refines path fuel ops s a :
  path ≠ [] → log_rel path s a → ops_fit fuel a ops →
  ∃ s', run_ops fuel ops s = Ret (tt, s') ∧ log_rel path s' (foldl spec_op a ops).
Proof.
  intros Hne. revert s a. induction ops as [|op ops IH]; intros s a Ha Hf; [by exists s|].
  destruct Hf as [Hf1 Hf]. destruct (run_op_refines path fuel s a op Hne Ha Hf1) as (s1 & E1 & H1).
  destruct (IH s1 _ H1 Hf) as (s' & E & H). exists s'. split; [|exact H]. cbn [run_ops]. by step E1.
Qed.

(** *** Changing the log file *)
Abbreviation set_dbg_log := (winx_set_dbg_log tmalloc uninit uninit_entry vsnprintf query_system_time to_local_time
  to_fields status_to_error error_message listens get_volume_information).

(** What winx_set_dbg_log says about itself. *)
Definition path_message (p : str) : option str :=
  rendered (INFO ++ text "%s: " ++ text "log_path = %ws") [Str (text "winx_set_dbg_log"); WStr p].

Lemma create_log_path_run dir name s w r :
  wstr (dir ++ BACKSLASH :: name) → BACKSLASH ∉ name →
  winx_create_path get_volume_information (Some dir) (world s) = Ret (r, w) → 0 ≤ r →
  create_log_path tmalloc uninit uninit_entry vsnprintf query_system_time to_local_time to_fields
    status_to_error error_message listens get_volume_information (dir ++ BACKSLASH :: name) s =
  Ret (tt, set_world w s).
Proof.
  intros Hw Hn E Hr. unfold create_log_path, wcsrchr.
  rewrite (wcslen_ok (dir ++ BACKSLASH :: name)) by (done || by eexists).
  rewrite outcome_bind_ret, <- app_assoc. cbn [app]. rewrite last_index by done. rewrite st_lift_ret.
  cbn iota. rewrite take_app_length. rewrite (st_bind_ret _ _ _ r (set_world w s)).
  - by rewrite (proj2 (Z.ltb_ge _ _)).
  - unfold on_files. by rewrite E.
Qed.

(** The part of winx_set_dbg_log after the old log was flushed. *)
Lemma set_path_run s p l :
  collected s l → hListSynchEvent s = Some true → logging_enabled s = true → log_path s = None →
  ∃ s', (_ ← itrace tmalloc uninit uninit_entry vsnprintf query_system_time to_local_time to_fields
                status_to_error error_message listens (text "log_path = %ws") [WStr p];
         let copy := winx_wcsdup tmalloc (Some p) in
         _ ← upds (set_logging true copy);
         match copy with
         | None => etrace tmalloc uninit uninit_entry vsnprintf query_system_time to_local_time to_fields
                     status_to_error error_message listens (text "not enough memory") []
         | Some _ => mret tt
         end) s = Ret (tt, s') ∧
    collected s' (l ++ printed s (path_message p)) ∧ world s' = world s ∧
    log_path s' = Some p ∧ logging_enabled s' = true ∧ hListSynchEvent s' = Some true ∧
    hLogSynchEvent s' = hLogSynchEvent s ∧ ticks s' = (ticks s + length (printed s (path_message p)))%nat.
Proof.
  intros Hc Hev Hon Hp. unfold itrace.
  destruct (print_run s l (INFO ++ text "%s: " ++ text "log_path = %ws") [Str (text "winx_set_dbg_log"); WStr p] Hc Hev Hon)
    as (h & st & head & d & E & Hc'). step E. cbn [winx_wcsdup mbind option_bind]. rewrite tmalloc_total.
  eexists. split; [reflexivity|]. by repeat split.
Qed.

Lemma set_dbg_log_run path dir name fuel s a w1 r :
  let p := dir ++ BACKSLASH :: name in
  log_rel path s a → path ≠ [] → p ≠ path → wstr p → BACKSLASH ∉ name →
  winx_create_path get_volume_information (Some dir) (world s) = Ret (r, w1) → 0 ≤ r →
  (∀ q, file_at w1 q = file_at (world s) q) → op_fits fuel a (Flush 0) →
  ∃ s', set_dbg_log fuel (Some p) s = Ret (tt, s') ∧
    default [] (file_at (world s') path) = on_disk a ++ flushed 0 (pending a) ∧
    log_rel p s' (spec_print (path_message p) (LogSpec (default [] (file_at (world s') p)) [] (clock a))).
Proof.
  intros p Ha Hne Hpp Hw Hn Ecreate Hr Hsame [Hfu Hlen]. destruct Ha as [Hp Hd Hc He Hpa Hl Hg].
  unfold winx_set_dbg_log. erewrite st_bind_ret by reflexivity. rewrite Hpa.
  assert (Hpn : match p with [] => false | _ :: _ => true end = true) by (unfold p; by destruct dir).
  rewrite Hpn. erewrite st_bind_ret by reflexivity. cbn iota.
  set (s1 := set_logging true (Some path) s).
  step (create_log_path_run dir name s1 w1 r Hw Hn Ecreate Hr).
  set (s2 := set_events (Some true) (Some false) (set_world w1 s1)).
  assert (Ew : wait_log_event (set_world w1 s1) = Ret (true, s2))
    by (unfold wait_log_event, s2, s1; destruct s; cbn in Hg, Hl; by subst).
  step Ew. cbn [negb]. rewrite bool_decide_false by done.
  destruct (flush_run fuel path s2 (pending a) FLUSH_ALREADY_SYNCHRONIZED Hp eq_refl (or_introl eq_refl) eq_refl Hne Hfu)
    as (st & w & E & Hp' & _ & Hwf); [exact Hlen|]. step E.
  erewrite st_bind_ret by reflexivity.
  match goal with |- context [(_ ≫= _) ?s] =>
    destruct (set_path_run s p [] Hp' eq_refl eq_refl eq_refl)
      as (s3 & E3 & Hc3 & Hw3 & Hpa3 & He3 & Hl3 & Hg3 & Ht3) end. step E3.
  eexists. split; [reflexivity|]. cbn in Hw3, Ht3. simpl world. rewrite Hw3. split.
  { rewrite Hwf. cbn. by rewrite Hsame, Hd. }
  unfold spec_print. destruct (path_message p) as [m|]; cbn [printed] in *.
  - rewrite appended_total in *. rewrite <- Hc. cbn in Hc3, Ht3. rewrite Nat.add_1_r in Ht3.
    split; simpl; rewrite ?Hw3, ?Hg3, ?Hl3; done.
  - simpl in Ht3. rewrite Nat.add_0_r in Ht3. split; simpl; rewrite ?Hw3, ?Hg3, ?Hl3; try done. by rewrite Ht3.
Qed.

(** The first path: there is no log to flush. *)
Lemma first_dbg_log_run dir name fuel s w1 r :
  let p := dir ++ BACKSLASH :: name in
  collected s [] → log_path s = None → hListSynchEvent s = Some true → hLogSynchEvent s = Some true →
  wstr p → BACKSLASH ∉ name →
  winx_create_path get_volume_information (Some dir) (world s) = Ret (r, w1) → 0 ≤ r →
  (∀ q, file_at w1 q = file_at (world s) q) →
  ∃ s', set_dbg_log fuel (Some p) s = Ret (tt, s') ∧
    log_rel p s' (spec_print (path_message p) (LogSpec (default [] (file_at (world s) p)) [] (ticks s))).
Proof.
  intros p Hc Hpa Hl Hg Hw Hn Ecreate Hr Hsame.
  unfold winx_set_dbg_log. erewrite st_bind_ret by reflexivity. rewrite Hpa.
  assert (Hpn : match p with [] => false | _ :: _ => true end = true) by (unfold p; by destruct dir).
  rewrite Hpn. erewrite st_bind_ret by reflexivity. cbn iota.
  set (s1 := set_logging true None s).
  step (create_log_path_run dir name s1 w1 r Hw Hn Ecreate Hr).
  set (s2 := set_events (Some true) (Some false) (set_world w1 s1)).
  assert (Ew : wait_log_event (set_world w1 s1) = Ret (true, s2))
    by (unfold wait_log_event, s2, s1; destruct s; cbn in Hg, Hl; by subst).
  step Ew. cbn [negb].
  assert (Ed : dbg_log s = None).
  { destruct Hc as ([|] & Hls & _ & He & _); [by apply is_list_nil in Hls|]. inversion He. }
  set (s3 := set_reserved true (set_list (nodes s) None s2)).
  assert (E : winx_flush_dbg_log tmalloc uninit vsnprintf fuel FLUSH_ALREADY_SYNCHRONIZED s2 = Ret (tt, s3)).
  { unfold winx_flush_dbg_log. erewrite st_bind_ret by reflexivity. cbn [negb].
    erewrite st_bind_ret; [|rewrite flush_log_start by done; cbn [dbg_log s2 s1 set_events set_world set_logging];
      by rewrite Ed]. by rewrite tmalloc_total. }
  step E. erewrite st_bind_ret by reflexivity.
  assert (Hc3 : collected (set_logging true None s3) []).
  { destruct Hc as (ln & Hls & H). exists ln. split; [|exact H]. unfold s3. cbn. by rewrite <- Ed. }
  destruct (set_path_run (set_logging true None s3) p [] Hc3 eq_refl eq_refl eq_refl)
    as (s4 & E4 & Hc4 & Hw4 & Hpa4 & He4 & Hl4 & Hg4 & Ht4). step E4.
  eexists. split; [reflexivity|]. cbn in Hw4, Ht4.
  unfold spec_print. destruct (path_message p) as [m|]; cbn [printed] in *.
  - rewrite appended_total in *. cbn in Hc4. rewrite Nat.add_1_r in Ht4.
    split; simpl; rewrite ?Hw4, ?Hg4, ?Hl4, ?Hsame; done.
  - simpl in Ht4. rewrite Nat.add_0_r in Ht4. split; simpl; rewrite ?Hw4, ?Hg4, ?Hl4, ?Hsame; done.
Qed.

(** *** The end *)
Lemma dbg_close_run path fuel s a :
  log_rel path s a → path ≠ [] → op_fits fuel a (Flush 0) →
  ∃ s', winx_dbg_close tmalloc uninit vsnprintf fuel s = Ret (tt, s') ∧
    default [] (file_at (world s') path) = on_disk a ++ flushed 0 (pending a) ∧
    collected s' [] ∧ log_path s' = None ∧ hListSynchEvent s' = None ∧ hLogSynchEvent s' = None.
Proof.
  intros [Hp Hd Hc He Hpa Hl Hg] Hne [Hfu Hlen].
  destruct (flush_run fuel path s (pending a) 0 Hp Hl (or_intror Hg) Hpa Hne Hfu Hlen)
    as (st & w & E & Hp' & _ & Hw). unfold winx_dbg_close. step E.
  eexists. split; [reflexivity|]. split; [|by repeat split]. cbn. by rewrite Hw, Hd.
Qed.

(** Disabling the log. *)
Lemma unset_dbg_log_run path fuel s a :
  log_rel path s a → path ≠ [] → op_fits fuel a (Flush 0) →
  ∃ s', set_dbg_log fuel None s = Ret (tt, s') ∧
    default [] (file_at (world s') path) = on_disk a ++ flushed 0 (pending a) ∧
    collected s' [] ∧ logging_enabled s' = false ∧ log_path s' = None ∧
    hListSynchEvent s' = Some true ∧ hLogSynchEvent s' = Some true.
Proof.
  intros Ha Hne [Hfu Hlen]. destruct Ha as [Hp Hd Hc He Hpa Hl Hg].
  unfold winx_set_dbg_log. erewrite st_bind_ret by reflexivity. rewrite Hpa.
  erewrite st_bind_ret by reflexivity. erewrite (st_bind_ret _ _ _ tt) by reflexivity.
  set (s1 := set_logging false (Some path) s). set (s2 := set_events (Some true) (Some false) s1).
  assert (Ew : wait_log_event s1 = Ret (true, s2))
    by (unfold wait_log_event, s2, s1; destruct s; cbn in Hg, Hl; by subst).
  step Ew. cbn [negb].
  destruct (flush_run fuel path s2 (pending a) FLUSH_ALREADY_SYNCHRONIZED Hp eq_refl (or_introl eq_refl) eq_refl Hne Hfu)
    as (st & w & E & Hp' & _ & Hwf); [exact Hlen|]. step E.
  eexists. split; [reflexivity|]. split; [|by repeat split].
  cbn. rewrite Hwf. cbn. by rewrite Hd.
Qed.

(** ** Theorems *)

(** While there is memory for it, the debugging log is a sequence of
    messages: whatever is printed, with or without decoration, and flushed, in
    any order, the calls return, the file has grown by the lines of the flushed
    messages in the order in which they were printed, each with the time of its
    printing, the others are still collected, no list item is left over and the
    locks are free. *)
Theorem winx_dbg_log_refines path fuel ops s a :
  path ≠ [] → log_rel path s a → ops_fit fuel a ops →
  ∃ s', run_ops fuel ops s = Ret (tt, s') ∧ log_rel path s' (foldl spec_op a ops).
Proof. apply run_ops_refines. Qed.

(** Changing the path of the log writes what was collected to the old
    file, and the log goes on with the new file, where its first line tells
    the path; no message is lost and none is written twice. *)
Theorem winx_set_dbg_log_switches path dir name fuel s a w1 r :
  let p := dir ++ BACKSLASH :: name in
  log_rel path s a → path ≠ [] → p ≠ path → wstr p → BACKSLASH ∉ name →
  winx_create_path get_volume_information (Some dir) (world s) = Ret (r, w1) → 0 ≤ r →
  (∀ q, file_at w1 q = file_at (world s) q) → op_fits fuel a (Flush 0) →
  ∃ s', set_dbg_log fuel (Some p) s = Ret (tt, s') ∧
    default [] (file_at (world s') path) = on_disk a ++ lines (pending a) ∧
    log_rel p s' (spec_print (path_message p) (LogSpec (default [] (file_at (world s') p)) [] (clock a))).
Proof.
  intros p Ha Hne Hpp Hw Hn Ec Hr Hsame Hf.
  destruct (set_dbg_log_run path dir name fuel s a w1 r Ha Hne Hpp Hw Hn Ec Hr Hsame Hf) as (s' & E & Hd & H).
  exists s'. split; [done|]. split; [|done]. rewrite Hd. unfold flushed. destruct (pending a); [done|].
  by rewrite app_nil_r.
Qed.

(** Disabling the log writes what was collected and stops collecting. *)
Theorem winx_set_dbg_log_disables path fuel s a :
  log_rel path s a → path ≠ [] → op_fits fuel a (Flush 0) →
  ∃ s', set_dbg_log fuel None s = Ret (tt, s') ∧
    default [] (file_at (world s') path) = on_disk a ++ flushed 0 (pending a) ∧
    collected s' [] ∧ logging_enabled s' = false ∧ log_path s' = None ∧
    hListSynchEvent s' = Some true ∧ hLogSynchEvent s' = Some true.
Proof. apply unset_dbg_log_run. Qed.
End theory.

(** Appending a message keeps the list intact whether or not there is memory
    for the item and for the text; without it the message is dropped and
    nothing is left behind. *)
Theorem add_dbg_log_entry_correct {W} `{!Allocator (node winx_dbg_log_entry)} `{!Allocator (list Z)}
    uninit_entry query_system_time to_local_time to_fields (s : log_state W) l msg :
  collected s l → hListSynchEvent s = Some true → logging_enabled s = true → chars msg →
  ∃ s', add_dbg_log_entry uninit_entry query_system_time to_local_time to_fields msg s = Ret (tt, s') ∧
    collected s' (l ++ match alloc (nodes s), alloc (strings s) with
                       | Some _, Some _ => [(stamp_at query_system_time to_local_time to_fields (ticks s), msg)]
                       | _, _ => []
                       end) ∧
    hListSynchEvent s' = Some true.
Proof.
  intros Hl Hev Hon Hc.
  destruct (add_run uninit_entry query_system_time to_local_time to_fields s l msg Hl Hev Hon Hc)
    as (h & st & head & E & Hl'). by eexists.
Qed.

(** *** A concrete log *)

(** printf with %s, %ws, %d, %u and %x, without padding. *)
Definition arg_text (a : printf_arg) : str :=
  match a with Str s | WStr s => s | Num z => decimal z end.

Fixpoint demo_printf (conversion : bool) (f : str) (a : list printf_arg) : str :=
  match f with
  | [] => []
  | c :: f =>
      if conversion then
        if bool_decide (c ∈ text "sdux")
        then match a with x :: a => arg_text x ++ demo_printf false f a | [] => demo_printf false f [] end
        else demo_printf true f a
      else if c =? 0x25 then demo_printf true f a else c :: demo_printf false f a
  end.

Definition demo_render (f : str) (a : list printf_arg) : str := base.filter (fun c => c ≠ 0) (demo_printf false f a).

Definition demo_vsnprintf (f : str) (a : list printf_arg) (size : Z) : Z * str :=
  let t := demo_render f a in
  let n := Z.of_nat (length t) in
  if n <? size then (n, t ++ replicate (Z.to_nat (size - n)) 0)
  else if n =? size then (size, t) else (-1, take (Z.to_nat size) t).

Lemma demo_formatted f a : formats (demo_render f a) (demo_vsnprintf f a).
Proof.
  intros size Hs n. unfold demo_vsnprintf. fold n. repeat split; intros H.
  - by rewrite (proj2 (Z.ltb_lt _ _)).
  - by rewrite (proj2 (Z.ltb_ge _ _)), (proj2 (Z.eqb_eq _ _)) by lia.
  - by rewrite (proj2 (Z.ltb_ge _ _)), (proj2 (Z.eqb_neq _ _)) by lia.
Qed.

Lemma demo_chars f a : chars (demo_render f a).
Proof. apply Forall_forall. by intros c [? _]%list_elem_of_filter. Qed.

Lemma filter_chars (t : str) : chars t → base.filter (fun c => c ≠ 0) t = t.
Proof. induction 1 as [|c t Hc _ IH]; [done|]. by rewrite filter_cons_True, IH. Qed.

Lemma demo_s t : chars t → demo_render (text "%s") [Str t] = t.
Proof. intros Ht. unfold demo_render. simpl. rewrite app_nil_r. by apply filter_chars. Qed.

Lemma demo_ss t u : chars t → chars u → demo_render (text "%s%s") [Str t; Str u] = t ++ u.
Proof. intros Ht Hu. unfold demo_render. simpl. rewrite app_nil_r, filter_app. by rewrite !filter_chars. Qed.

#[local] Instance demo_nodes : Allocator (node winx_dbg_log_entry) := bump_allocator _.
#[local] Instance demo_strings : Allocator (list Z) := bump_allocator _.

Lemma demo_nodes_total (h : log_nodes) : is_Some (alloc h).
Proof. by eexists. Qed.

Lemma demo_strings_total (h : log_strings) : is_Some (alloc h).
Proof. by eexists. Qed.

Definition demo_entry : winx_dbg_log_entry := LogEntry zero_time None.

Definition demo_time (n : nat) : Z * Z := (STATUS_SUCCESS, Z.of_nat n).

Definition demo_fields (z : Z) : winx_time := WinxTime 2018 1 2 3 4 z 0 0.

Definition demo_path : str := text "\??\C:\logs\a.log".

(** A running log with one message, and a file that already has a line. *)
Definition demo_log : log_state memory :=
  LogState {[ 1%positive := Node (Some 1%positive) (Some 1%positive) (LogEntry (demo_fields 0) (Some 1%positive)) ]}
    {[ 1%positive := text "started" ++ [0] ]} (Some 1%positive) true (Some demo_path) (Some true) (Some true)
    true 0 0 1 [] (Memory {[ demo_path := text "old" ++ CRLF ]} ∅ 0).

Definition demo_spec : log_spec := LogSpec (text "old" ++ CRLF) [(demo_fields 0, text "started")] 1.

Lemma demo_log_rel : log_rel demo_path demo_log demo_spec.
Proof.
  split; try done. exists [(1%positive, LogEntry (demo_fields 0) (Some 1%positive))]. split_and!.
  - split; [done|]. split; [apply NoDup_singleton|]. done.
  - intros k Hk. simpl. apply lookup_singleton_ne. set_solver.
  - repeat constructor; [|done..]. by exists 1%positive.
  - apply NoDup_singleton.
Qed.

Definition demo_ops : list log_op :=
  [ Print (text "%s: %u files") [Str (text "found"); Num 12];
    PrintHeader 0 20 (text "INFO:  %s") [Str (text "pass")];
    Flush 0;
    Print (text "done") [] ].

Lemma winx_dbg_log_refines_witness :
  ∃ s', run_ops demo_entry demo_time (fun z => (STATUS_SUCCESS, z)) demo_fields (fun _ => true)
          (fun n => replicate n 1) demo_vsnprintf (fun z => z) (fun _ => None) (fun _ => true) 3 demo_ops demo_log =
        Ret (tt, s') ∧
    log_rel demo_path s'
      (LogSpec (text "old" ++ CRLF ++ text "2018-1-2 3:4:0.0 started" ++ CRLF ++
                text "2018-1-2 3:4:1.0 found: 12 files" ++ CRLF ++
                text "2018-1-2 3:4:2.0 INFO:  ------- pass -------" ++ CRLF)
         [(demo_fields 3, text "done")] 4).
Proof.
  destruct (winx_dbg_log_refines demo_entry demo_time (fun z => (STATUS_SUCCESS, z)) demo_fields (fun _ => true)
              (fun n => replicate n 1) demo_vsnprintf (fun z => z) (fun _ => None) (fun _ => true) demo_render
              (fun _ => eq_refl) (fun n => length_replicate n 1) demo_formatted demo_chars demo_s demo_ss
              demo_nodes_total demo_strings_total demo_path 3 demo_ops demo_log demo_spec) as (s' & E & H).
  - done.
  - apply demo_log_rel.
  - split; [done|]. split; [done|]. split; [|done]. split; apply (bool_decide_unpack _); vm_compute; exact I.
  - exists s'. split; [exact E|].
    replace (LogSpec _ _ _) with
      (foldl (spec_op demo_time (fun z => (STATUS_SUCCESS, z)) demo_fields demo_render) demo_spec demo_ops)
      by (vm_compute; reflexivity).
    exact H.
Defined.

Lemma winx_set_dbg_log_switches_witness :
  ∃ s', winx_set_dbg_log (fun _ => true) (fun n => replicate n 1) demo_entry demo_vsnprintf demo_time
          (fun z => (STATUS_SUCCESS, z)) demo_fields (fun z => z) (fun _ => None) (fun _ => true) (fun _ _ => 0)
          3 (Some (text "\??\C:" ++ BACKSLASH :: text "b.log")) demo_log = Ret (tt, s') ∧
    default [] (file_at (world s') demo_path) = text "old" ++ CRLF ++ text "2018-1-2 3:4:0.0 started" ++ CRLF ∧
    log_rel (text "\??\C:\b.log") s'
      (LogSpec (default [] (file_at (world s') (text "\??\C:\b.log")))
         [(demo_fields 1, text "INFO:  winx_set_dbg_log: log_path = \??\C:\b.log")] 2).
Proof.
  destruct (winx_set_dbg_log_switches demo_entry demo_time (fun z => (STATUS_SUCCESS, z)) demo_fields (fun _ => true)
              (fun n => replicate n 1) demo_vsnprintf (fun z => z) (fun _ => None) (fun _ => true) (fun _ _ => 0)
              demo_render (fun _ => eq_refl) (fun n => length_replicate n 1) demo_formatted demo_chars
              demo_nodes_total demo_strings_total demo_path (text "\??\C:") (text "b.log") 3 demo_log demo_spec
              (world demo_log) 0) as (s' & E & Hd & H).
  - apply demo_log_rel.
  - done.
  - done.
  - apply (bool_decide_unpack _). vm_compute. exact I.
  - apply (bool_decide_unpack _). vm_compute. exact I.
  - reflexivity.
  - lia.
  - done.
  - split; apply (bool_decide_unpack _); vm_compute; exact I.
  - exists s'. split; [exact E|]. split; [exact Hd|]. exact H.
Defined.

Lemma winx_set_dbg_log_disables_witness :
  ∃ s', winx_set_dbg_log (fun _ => true) (fun n => replicate n 1) demo_entry demo_vsnprintf demo_time
          (fun z => (STATUS_SUCCESS, z)) demo_fields (fun z => z) (fun _ => None) (fun _ => true) (fun _ _ => 0)
          1 None demo_log = Ret (tt, s') ∧
    default [] (file_at (world s') demo_path) = text "old" ++ CRLF ++ text "2018-1-2 3:4:0.0 started" ++ CRLF ∧
    collected s' [] ∧ logging_enabled s' = false ∧ log_path s' = None ∧
    hListSynchEvent s' = Some true ∧ hLogSynchEvent s' = Some true.
Proof.
  apply (winx_set_dbg_log_disables demo_entry demo_time (fun z => (STATUS_SUCCESS, z)) demo_fields (fun _ => true)
           (fun n => replicate n 1) demo_vsnprintf (fun z => z) (fun _ => None) (fun _ => true) (fun _ _ => 0)
           demo_render (fun _ => eq_refl) (fun n => length_replicate n 1) demo_formatted demo_chars demo_path
           1 demo_log demo_spec).
  - apply demo_log_rel.
  - done.
  - split; apply (bool_decide_unpack _); vm_compute; exact I.
Defined.

Lemma add_dbg_log_entry_correct_witness :
  ∃ s', add_dbg_log_entry (Allocator1 := null_allocator _) demo_entry demo_time (fun z => (STATUS_SUCCESS, z))
          demo_fields (text "hello") demo_log = Ret (tt, s') ∧
    collected s' [(demo_fields 0, text "started")] ∧ hListSynchEvent s' = Some true.
Proof.
  destruct (add_dbg_log_entry_correct (Allocator1 := null_allocator _) demo_entry demo_time
           (fun z => (STATUS_SUCCESS, z)) demo_fields demo_log (pending demo_spec) (text "hello")) as (s' & E & Hc & Hv).
  - apply demo_log_rel.
  - done.
  - done.
  - apply (bool_decide_unpack _). vm_compute. exact I.
  - exists s'. split; [exact E|]. split; [exact Hc|exact Hv].
Defined.

(** ** What is lost and what leaks *)

(** A flush frees the items of the log but not their texts. *)
Example flush_keeps_texts :
  match winx_flush_dbg_log (fun _ => true) (fun n => replicate n 1) demo_vsnprintf 1 0 demo_log with
  | Ret (_, s') => nodes s' = ∅ ∧ strings s' !! 1%positive = Some (text "started" ++ [0])
  | _ => False
  end.
Proof. vm_compute. split; reflexivity. Qed.

(** When the log file cannot be opened, the messages are dropped and their
    items stay allocated. *)
Example flush_drops_unopened :
  match winx_flush_dbg_log (fun _ => false) (fun n => replicate n 1) demo_vsnprintf 1 0 demo_log with
  | Ret (_, s') => dbg_log s' = None ∧ nodes s' = nodes demo_log ∧
                   file_at (world s') demo_path = Some (text "old" ++ CRLF)
  | _ => False
  end.
Proof. vm_compute. repeat split; reflexivity. Qed.

(** Before the first winx_set_dbg_log. *)
Definition demo_start : log_state memory :=
  LogState ∅ ∅ None false None (Some true) (Some true) true 0 0 0 [] (Memory ∅ ∅ 0).

(** The message that says that the directory of the log could not be created
    is dropped: it is flushed before the path is known.  Its item leaks; the
    log starts with the second message. *)
Example set_dbg_log_drops_error :
  match winx_set_dbg_log (fun _ => true) (fun n => replicate n 1) demo_entry demo_vsnprintf demo_time
          (fun z => (STATUS_SUCCESS, z)) demo_fields (fun z => z) (fun _ => None) (fun _ => true) (fun _ _ => 0)
          1 (Some (text "logs\b.log")) demo_start with
  | Ret (_, s') =>
      dbg_log s' = Some 2%positive ∧
      (buffer ∘ data) <$> (nodes s' !! 2%positive) = Some (Some 2%positive) ∧
      strings s' !! 2%positive = Some (text "INFO:  winx_set_dbg_log: log_path = logs\b.log" ++ [0]) ∧
      size (nodes s') = 2%nat ∧
      strings s' !! 1%positive =
        Some (text "ERROR: winx_set_dbg_log: cannot create directory tree for log path" ++ [0])
  | _ => False
  end.
Proof. vm_compute. repeat split; reflexivity. Qed.
