(* ===== verification/Library.v ===== *)
(** * zenwinx.c, thread.c, ldr.c, privilege.c: a process that uses the library

    Start-up and shutdown compose the case tables ([CString]), the log ([Dbg]),
    the keyboards ([Keyboard]) and the flag of a successful boot ([System]); the
    other routines wrap one system call each.  The display receives the strings
    that winx_print and winx_putch (stdio.c) send to it. *)
From S2P Require Import Prelude DList Bitmap CaseTables CString FileInfo FileIO Path Time Sync System Keyboard Stdio Dbg DbgLog.
From stdpp Require Import prelude gmap strings.
Open Scope Z_scope.

(** ** The display (stdio.c)

    Characters are bytes; [ch] is their value as a signed [char]. *)
Definition signed_char (c : Z) : Z := if c <? 128 then c else c - 256.

Class NtDisplay (W : Type) : Type := {
  NtDisplayString : str → W → W;
  (** RtlAnsiStringToUnicodeString, unless it fails. *)
  ansi_to_unicode : list Z → W → option str;
}.

Section display.
Context {W : Type} `{!NtDisplay W}.
Implicit Types (w : W).

Definition winx_putch (ch : Z) w : Z * W :=
  if ch =? 9 then (ch, NtDisplayString (replicate DEFAULT_TAB_WIDTH 0x20) w)
  else (ch, NtDisplayString (cstr [u16 ch; 0]) w).

(** [for(i = 0; string[i]; i++) winx_putch(string[i]);] *)
Definition putch_loop (string : list Z) w : W :=
  foldl (fun w c => (winx_putch (signed_char c) w).2) w string.

Definition winx_print (string : option (list Z)) w : W :=
  match string with
  | None => w
  | Some string =>
      if bool_decide (9 ∈ string) then putch_loop string w else
      match ansi_to_unicode string w with
      | Some us => NtDisplayString us w
      | None => putch_loop string w
      end
  end.

Context (tmalloc : Z → bool) (vsnprintf : str → list printf_arg → Z → Z * str).

Definition winx_printf (format : option str) (args : list printf_arg) w : outcome (Z * W) :=
  match format with
  | None => Ret (0, w)
  | Some _ =>
      string ← winx_vsprintf tmalloc (fun f => vsnprintf f args) format;
      match string with
      | None => Ret (0, w)
      | Some string => Ret (s32 (Z.of_nat (length string)), winx_print (Some string) w)
      end
  end.

Definition winx_puts (string : option str) w : outcome (Z * W) :=
  match string with
  | None => Ret (-1, w)
  | Some string =>
      '(n, w) ← winx_printf (Some (text "%s" ++ [10])) [Str string] w;
      Ret (if negb (n =? 0) then 0 else -1, w)
  end.
(** Reading with [Keyboard]: what arrives, the synchronisation, the clock, and
    the number of keyboards. *)
Context (arrivals : nat → list KEYBOARD_INPUT_DATA) (synch : nat → bool) (xtime : nat → Z).
Context (number_of_keyboards : Z).

Definition winx_getch (fuel : nat) (s : kb_state) (control : Z) : outcome (Z * kb_state * Z) :=
  winx_kbhit arrivals synch xtime number_of_keyboards fuel INFINITE s control.

Definition winx_getche (fuel : nat) (s : kb_state) (control : Z) w : outcome (Z * kb_state * Z * W) :=
  '(ch, s, control) ← winx_getch fuel s control;
  Ret (ch, s, control,
       if negb (ch =? -1) && negb (ch =? 0) && negb (ch =? 0x08) (* skip backspace *) then (winx_putch ch w).2 else w).
End display.

(** Text on the screen, one string after the other. *)
Class NtDisplayLaws (W : Type) `{!NtDisplay W} : Type := {
  on_screen : W → str;
  display_appends s w : on_screen (NtDisplayString s w) = on_screen w ++ s;
  ansi_ascii s w us : Forall (fun c => 0 < c < 128) s → ansi_to_unicode s w = Some us → us = s;
}.

Definition expand_tabs (s : str) : str := s ≫= fun c => if c =? 9 then replicate DEFAULT_TAB_WIDTH 0x20 else [c].

(** ** Threads, privileges, exported functions *)
Definition SE_SHUTDOWN_PRIVILEGE : Z := 0x13.
Definition MESSAGE_RESOURCE_UNICODE : Z := 1.
Definition ShutdownReboot : Z := 1.
Definition ShutdownPowerOff : Z := 2.

Class NtProcess (W : Type) : Type := {
  (** The status and the handle of the thread. *)
  RtlCreateUserThread : Z → Z → W → Z * Z * W;
  ZwTerminateThread : Z → W → Z * W;
  RtlAdjustPrivilege : Z → W → Z * W;
  (** The status and the address. *)
  LdrGetDllHandle : str → W → Z * Z;
  LdrGetProcedureAddress : Z → str → W → Z * Z;
  (** A message of the neutral language: the status, its flags and its text. *)
  RtlFindMessage : Z → Z → W → Z * Z * str;
  (** The exit code; only a failure returns to the process. *)
  NtTerminateProcess : Z → W → Z * W;
  NtShutdownSystem : Z → W → Z * W;
}.

(** The global variables of the library: the case tables, the log, the
    keyboards. *)
Record library (W : Type) : Type := Library {
  tables : gmap Z Z * gmap Z Z;
  log : log_state W;
  keyboards : list KEYBOARD * Z;
}.
Arguments Library {W}.
Arguments tables {W}.
Arguments log {W}.
Arguments keyboards {W}.

Definition set_last_status {W} (status : Z) (s : log_state W) : log_state W :=
  LogState (nodes s) (strings s) (dbg_log s) (logging_enabled s) (log_path s) (hListSynchEvent s)
    (hLogSynchEvent s) (reserved_memory s) status (LastErrorValue s) (ticks s) (debugger s) (world s).

Section library.
Context {W : Type} `{!NtApi W, !NtEnvironment W, !NtSystem W, !NtDisplay W, !NtProcess W}.
Context `{!Allocator (node winx_dbg_log_entry)} `{!Allocator (list Z)}.
Context (tmalloc : Z → bool) (uninit : nat → list Z) (uninit_entry : winx_dbg_log_entry).
Context (vsnprintf : str → list printf_arg → Z → Z * str) (vsnwprintf : str → str → Z → Z * str).
Context (query_system_time : nat → Z * Z) (to_local_time : Z → Z * Z) (to_fields : Z → winx_time).
Context (status_to_error : Z → Z) (listens : list (list Z) → bool) (create_event : nat → bool).

Abbreviation L := (ST (log_state W)).
Abbreviation P := (ST (library W)).

(** The text that kernel32.dll has for an error (dbg.c), and whether it is in
    UTF-16. *)
Definition winx_get_error_description (error : Z) (w : W) : option (bool * str) :=
  let '(Status, base_addr) := LdrGetDllHandle (text "kernel32.dll") w in
  if negb (NT_SUCCESS Status) then None else (* this case is usual for boot time executables *)
  let '(Status, Flags, Text) := RtlFindMessage base_addr error w in
  if negb (NT_SUCCESS Status) then None else (* no appropriate message found *)
  Some (has_flag Flags MESSAGE_RESOURCE_UNICODE, Text).

(** A macro of zenwinx.h, in the function [name]. *)
Definition trace_in (name : str) (flags : Z) (format : str) (args : list printf_arg) : L unit := fun s =>
  winx_dbg_print tmalloc uninit uninit_entry vsnprintf query_system_time to_local_time to_fields
    status_to_error (fun error => winx_get_error_description error (world s)) listens flags
    (Some (ERROR ++ text "%s: " ++ format)) (Str name :: args) s.

Definition strace (name : str) (status : Z) (format : str) (args : list printf_arg) : L unit :=
  _ ← upds (set_last_status status);
  trace_in name NT_STATUS_FLAG format args.

(** A system call. *)
Definition call {A} (f : W → A * W) : L A := fun s => let '(a, w) := f (world s) in Ret (a, set_world w s).

Definition winx_create_thread (start_addr : option Z) (parameter : Z) : L Z :=
  match start_addr with
  | None =>
      _ ← trace_in (text "winx_create_thread") 0 (text "the first parameter is incorrect") []; mret (-1)
  | Some start_addr =>
      '(status, hThread) ← call (RtlCreateUserThread start_addr parameter);
      if negb (NT_SUCCESS status) then
        _ ← strace (text "winx_create_thread") status (text "cannot create thread") []; mret (-1)
      else _ ← call (fun w => (tt, NtClose hThread w)); mret 0
  end.

Definition winx_exit_thread (status : Z) : L unit :=
  s ← call (ZwTerminateThread status);
  if negb (NT_SUCCESS s) then strace (text "winx_exit_thread") s (text "cannot terminate thread") []
  else mret tt.

Definition winx_enable_privilege (luid : Z) : L Z :=
  status ← call (RtlAdjustPrivilege luid);
  if negb (NT_SUCCESS status) then
    _ ← strace (text "winx_enable_privilege") status (text "cannot enable privilege %x") [Num luid]; mret (-1)
  else mret 0.

Definition winx_get_proc_address (libname funcname : option str) : L (option Z) :=
  let etrace := trace_in (text "winx_get_proc_address") 0 in
  match libname, funcname with
  | None, _ => _ ← etrace (text "the first parameter is incorrect") []; mret None
  | _, None => _ ← etrace (text "the second parameter is incorrect") []; mret None
  | Some libname, Some funcname =>
      '(status, base_addr) ← asks (fun s => LdrGetDllHandle libname (world s));
      if negb (NT_SUCCESS status) then
        _ ← etrace (text "cannot get %ls handle: %x") [WStr libname; Num status];
        mret None
      else
        '(status, proc_addr) ← asks (fun s => LdrGetProcedureAddress base_addr funcname (world s));
        if negb (NT_SUCCESS status) then
          _ ← etrace (text "cannot get address of %s: %x") [Str funcname; Num status];
          mret None
        else mret (Some proc_addr)
  end.

(** ** Start-up and shutdown (zenwinx.c, mem.c) *)

Definition on_log {A} (m : L A) : P A := fun s =>
  '(a, l) ← m (log s); Ret (a, Library (tables s) l (keyboards s)).

Definition upd_library (f : library W → library W) : P unit := fun s => Ret (tt, f s).

(** Without USE_HEAP there is nothing to create or to destroy. *)
Definition winx_create_global_heap : P Z := mret 0.

Definition winx_destroy_global_heap : P unit := mret tt.

Definition winx_init_library (pid : Z) : P Z :=
  _ ← upd_library (fun s => Library (winx_init_case_tables (tables s).1 (tables s).2) (log s) (keyboards s));
  r ← winx_create_global_heap;
  if r <? 0 then mret (-1) else
  r ← on_log (winx_dbg_init tmalloc vsnprintf create_event pid);
  if r <? 0 then mret (-1) else mret 0.

Definition winx_unload_library (fuel : nat) : P unit :=
  _ ← on_log (winx_dbg_close tmalloc uninit vsnprintf fuel);
  winx_destroy_global_heap.

(** [print_post_scriptum]: the text is cut to the buffer. *)
Definition print_post_scriptum (msg : str) (Status : Z) : L unit :=
  let '(_, stored) := vsnprintf ([10] ++ text "%s: %x: %s" ++ [10; 10])
                        [Str msg; Num Status; Str (winx_get_status_description Status)] 256 in
  buffer ← st_lift (blit (uninit 256) 0 stored);
  buffer ← st_lift (put buffer 255 0);
  call (fun w => (tt, winx_print (Some (cstr buffer)) w)).

Definition close_keyboards_first : P unit :=
  upd_library (fun s => Library (tables s) (log s) (kb_close (keyboards s))).

Definition winx_exit (fuel : nat) (exit_code : Z) : P unit :=
  _ ← close_keyboards_first;
  _ ← on_log (winx_flush_dbg_log tmalloc uninit vsnprintf fuel 0);
  Status ← on_log (call (NtTerminateProcess exit_code));
  if negb (NT_SUCCESS Status)
  then on_log (print_post_scriptum (text "winx_exit: cannot terminate process") Status) else mret tt.

(** What winx_reboot and winx_shutdown have in common. *)
Definition end_session (fuel : nat) (action : Z) (msg : str) : P unit :=
  _ ← close_keyboards_first;
  _ ← on_log (on_files (fun w => w ← MarkWindowsBootAsSuccessful tmalloc uninit vsnwprintf w; Ret (tt, w)));
  _ ← on_log (winx_enable_privilege SE_SHUTDOWN_PRIVILEGE);
  _ ← on_log (winx_flush_dbg_log tmalloc uninit vsnprintf fuel 0);
  Status ← on_log (call (NtShutdownSystem action));
  if negb (NT_SUCCESS Status) then on_log (print_post_scriptum msg Status) else mret tt.

Definition winx_reboot (fuel : nat) : P unit :=
  end_session fuel ShutdownReboot (text "winx_reboot: cannot reboot the computer").

Definition winx_shutdown (fuel : nat) : P unit :=
  end_session fuel ShutdownPowerOff (text "winx_shutdown: cannot shut down the computer").
End library.

(** ** Theory *)

(** *** Printing *)
Section print.
Context {W : Type} `{!NtDisplay W, !NtDisplayLaws W}.
Implicit Types (w : W) (s : str).

Definition ascii s : Prop := Forall (fun c => 0 < c < 128) s.

Lemma expand_tabs_cons c s :
  expand_tabs (c :: s) = (if c =? 9 then replicate DEFAULT_TAB_WIDTH 0x20 else [c]) ++ expand_tabs s.
Proof. reflexivity. Qed.

Lemma putch_ascii c w :
  0 < c < 128 →
  on_screen (winx_putch (signed_char c) w).2 =
  on_screen w ++ (if c =? 9 then replicate DEFAULT_TAB_WIDTH 0x20 else [c]).
Proof.
  intros Hc. unfold winx_putch, signed_char. rewrite (proj2 (Z.ltb_lt c 128)) by lia.
  destruct (c =? 9) eqn:E; cbn [snd]; rewrite display_appends; [done|].
  cbn [cstr]. unfold u16. rewrite Z.mod_small by lia. by rewrite (proj2 (Z.eqb_neq c 0)) by lia.
Qed.

Lemma putch_loop_ascii s w : ascii s → on_screen (putch_loop s w) = on_screen w ++ expand_tabs s.
Proof.
  intros Hs. revert w. induction Hs as [|c s Hc _ IH]; intros w; [by rewrite app_nil_r|].
  unfold putch_loop in *. cbn [foldl]. by rewrite IH, putch_ascii, expand_tabs_cons, app_assoc by done.
Qed.

Lemma expand_no_tabs s : 9 ∉ s → expand_tabs s = s.
Proof.
  intros Hs. induction s as [|c s IH]; [done|]. apply not_elem_of_cons in Hs as [Hc Hs].
  rewrite expand_tabs_cons, (proj2 (Z.eqb_neq c 9)) by done. cbn. by rewrite IH.
Qed.

(** Whichever of its two algorithms it uses, winx_print shows an ASCII string
    with its tabs expanded. *)
Theorem winx_print_correct s w :
  ascii s → on_screen (winx_print (Some s) w) = on_screen w ++ expand_tabs s.
Proof.
  intros Hs. unfold winx_print. case_bool_decide as Ht; [by apply putch_loop_ascii|].
  destruct (ansi_to_unicode s w) as [us|] eqn:E; [|by apply putch_loop_ascii].
  rewrite display_appends, expand_no_tabs by done. by rewrite (ansi_ascii s w us).
Qed.
End print.

(** *** Start-up *)

(** The loop of winx_vswprintf ends whatever printf answers. *)
Lemma vsprintf_loop_returns tmalloc width vsnprintf k fuel :
  (k < 31)%nat → (k < fuel)%nat →
  ∃ o, vsprintf_loop tmalloc width vsnprintf fuel (2 ^ (30 - Z.of_nat k)) = Ret o.
Proof.
  revert fuel. induction k as [|k IH]; intros [|fuel] Hk Hf; try lia; cbn [vsprintf_loop];
    (destruct (negb (tmalloc _)); [by eexists|]);
    destruct (vsnprintf _) as [r stored]; (destruct (_ && _); [by eexists|]).
  - by eexists.
  - assert (0 < 2 ^ (30 - Z.of_nat k) < 2 ^ 31) as Hp.
    { split; [apply Z.pow_pos_nonneg; lia|]. apply Z.pow_lt_mono_r; lia. }
    assert (u32 (2 ^ (30 - Z.of_nat (S k)) * 2) = 2 ^ (30 - Z.of_nat k)) as ->.
    { unfold u32. replace (30 - Z.of_nat k) with (Z.succ (30 - Z.of_nat (S k))) in * by lia.
      rewrite Z.pow_succ_r in * by lia. rewrite Z.mod_small; lia. }
    cbv zeta. rewrite (proj2 (Z.ltb_lt _ (2 ^ 31))), (proj2 (Z.ltb_lt 0 _)) by lia. apply IH; lia.
Qed.

Lemma lock_name_returns tmalloc vsnprintf format pid : ∃ o, lock_name tmalloc vsnprintf format pid = Ret o.
Proof. exact (vsprintf_loop_returns tmalloc 2 _ 23 25 ltac:(lia) ltac:(lia)). Qed.

(** The state of the log before the library is initialised. *)
Record unused {W} (s : log_state W) : Prop := {
  unused_list : collected s [];
  unused_path : log_path s = None;
  unused_list_event : hListSynchEvent s = None;
  unused_log_event : hLogSynchEvent s = None;
}.

Definition list_lock : str := text "\winx_dbg_list_lock_%u".
Definition log_lock : str := text "\winx_dbg_log_lock_%u".

(** The names of the locks and the locks themselves can be made. *)
Definition locks_available (tmalloc : Z → bool) vsnprintf (create_event : nat → bool) (pid : Z) : Prop :=
  (∀ format, format ∈ [list_lock; log_lock] → lock_name tmalloc vsnprintf format pid ≠ Ret None) ∧
  create_event 0%nat = true ∧ create_event 1%nat = true.

(** Start-up succeeds with both locks of the log, which are free, or fails and
    leaves none behind; the case tables are there in both cases. *)
Theorem winx_init_library_correct {W} tmalloc vsnprintf create_event pid (s : library W) :
  hListSynchEvent (log s) = None → hLogSynchEvent (log s) = None →
  ∃ r l, winx_init_library tmalloc vsnprintf create_event pid s =
      Ret (r, Library (winx_init_case_tables (tables s).1 (tables s).2) l (keyboards s)) ∧
    (r = 0 ∧ l = set_events (Some true) (Some true) (log s) ∨
     r = -1 ∧ l = log s ∧ ¬ locks_available tmalloc vsnprintf create_event pid).
Proof.
  intros Hl Hg. destruct s as [tb l kb]. destruct l. cbn in Hl, Hg. subst.
  unfold winx_init_library. erewrite st_bind_ret by reflexivity. cbn [tables log keyboards].
  generalize (winx_init_case_tables tb.1 tb.2). intros tb'.
  erewrite (st_bind_ret _ _ _ 0) by reflexivity. change (0 <? 0) with false. cbn iota.
  unfold on_log, winx_dbg_init. cbn [log].
  destruct (lock_name_returns tmalloc vsnprintf list_lock pid) as [o1 E1].
  destruct (lock_name_returns tmalloc vsnprintf log_lock pid) as [o2 E2].
  assert (Hno : ∀ P Q : Prop, (locks_available tmalloc vsnprintf create_event pid → False) → Q →
    P ∨ -1 = -1 ∧ Q ∧ ¬ locks_available tmalloc vsnprintf create_event pid) by (intros; by right).
  assert (N1 : o1 = None → locks_available tmalloc vsnprintf create_event pid → False)
    by (intros -> [H _]; apply H in E1; [done|apply list_elem_of_In; simpl; auto]).
  assert (N2 : o2 = None → locks_available tmalloc vsnprintf create_event pid → False)
    by (intros -> [H _]; apply H in E2; [done|apply list_elem_of_In; simpl; auto]).
  assert (N3 : create_event 0%nat = false → locks_available tmalloc vsnprintf create_event pid → False)
    by (intros H0 (_ & H & _); congruence).
  assert (N4 : create_event 1%nat = false → locks_available tmalloc vsnprintf create_event pid → False)
    by (intros H0 (_ & _ & H); congruence).
  revert E1 E2. change (text "\winx_dbg_list_lock_%u") with list_lock. change (text "\winx_dbg_log_lock_%u") with log_lock.
  generalize (lock_name tmalloc vsnprintf list_lock pid).
  generalize (lock_name tmalloc vsnprintf log_lock pid). intros n2 n1 -> ->.
  unfold asks, upds, st_lift, mbind, st_bind. cbn.
  destruct o1; cbn; [|by eexists _, _; split; [|apply Hno; auto]].
  destruct (create_event 0%nat); cbn; [|by eexists _, _; split; [|apply Hno; auto]].
  destruct o2; cbn; [|by eexists _, _; split; [|apply Hno; auto]].
  destruct (create_event 1%nat); cbn; [|by eexists _, _; split; [|apply Hno; auto]].
  eexists _, _. split; [reflexivity|]. by left.
Qed.

Lemma on_log_run {W A} (m : ST (log_state W) A) a l (s : library W) :
  m (log s) = Ret (a, l) → on_log m s = Ret (a, Library (tables s) l (keyboards s)).
Proof. intros E. unfold on_log. by rewrite E. Qed.

(** *** A session *)
Section session.
Context {W : Type} `{!NtApi W, !NtFileLaws W}.
Context `{!Allocator (node winx_dbg_log_entry)} `{!Allocator (list Z)}.
Context (tmalloc : Z → bool) (uninit : nat → list Z) (uninit_entry : winx_dbg_log_entry).
Context (vsnprintf : str → list printf_arg → Z → Z * str).
Context (query_system_time : nat → Z * Z) (to_local_time : Z → Z * Z) (to_fields : Z → winx_time).
Context (status_to_error : Z → Z) (error_message : Z → option (bool * str)) (listens : list (list Z) → bool).
Context (get_volume_information : Z → W → Z) (create_event : nat → bool).
Context (render : str → list printf_arg → str).
Context (tmalloc_total : ∀ n, tmalloc n = true) (uninit_length : ∀ n, length (uninit n) = n).
Context (formatted : ∀ f a, formats (render f a) (vsnprintf f a)) (render_chars : ∀ f a, chars (render f a)).
Context (render_s : ∀ t, chars t → render (text "%s") [Str t] = t).
Context (render_ss : ∀ t u, chars t → chars u → render (text "%s%s") [Str t; Str u] = t ++ u).
Context (node_total : ∀ h : log_nodes, is_Some (alloc h)) (string_total : ∀ h : log_strings, is_Some (alloc h)).
Implicit Types (s : library W).

(** A program that logs to the file [path]. *)
Definition session (fuel : nat) (pid : Z) (path : str) (ops : list log_op) : ST (library W) Z :=
  r ← winx_init_library tmalloc vsnprintf create_event pid;
  if r <? 0 then mret r else
  _ ← on_log (winx_set_dbg_log tmalloc uninit uninit_entry vsnprintf query_system_time to_local_time
                to_fields status_to_error error_message listens get_volume_information fuel (Some path));
  _ ← on_log (run_ops uninit_entry query_system_time to_local_time to_fields tmalloc uninit vsnprintf
                status_to_error error_message listens fuel ops);
  _ ← winx_unload_library tmalloc uninit vsnprintf fuel;
  mret r.

Abbreviation spec := (spec_op query_system_time to_local_time to_fields render).
Abbreviation fits := (ops_fit query_system_time to_local_time to_fields render).

(** What the log holds once its path is set. *)
Definition opened (path : str) s : log_spec :=
  spec_print query_system_time to_local_time to_fields (path_message render path)
    (LogSpec (default [] (file_at (world (log s)) path)) [] (ticks (log s))).

(** C31: from start-up to the end, with memory to allocate, a directory for the
    log that can be created and flushes of less than 2^63 bytes: a program that
    sets the path of its log, prints and flushes as it likes and unloads the
    library finds every message in its file, behind what the file held, in the
    order of printing.  The list items of the log, its path and its locks are
    gone; the texts of the messages that were written are not freed
    ([flush_keeps_texts]). *)
Theorem library_session_correct fuel pid dir name ops s w1 r :
  let path := dir ++ BACKSLASH :: name in
  unused (log s) → locks_available tmalloc vsnprintf create_event pid →
  wstr path → BACKSLASH ∉ name →
  winx_create_path get_volume_information (Some dir) (world (log s)) = Ret (r, w1) → 0 ≤ r →
  (∀ q, file_at w1 q = file_at (world (log s)) q) →
  fits fuel (opened path s) (ops ++ [Flush 0]) →
  ∃ s', session fuel pid path ops s = Ret (0, s') ∧ unused (log s') ∧
    default [] (file_at (world (log s')) path) = on_disk (foldl spec (opened path s) (ops ++ [Flush 0])).
Proof.
  intros path [Hc Hp Hl Hg] Hlocks Hw Hn Hcreate Hr Hsame Hfit.
  apply ops_fit_app in Hfit as [Hfit [Hlast _]].
  assert (Hne : path ≠ []) by (unfold path; by destruct dir).
  destruct (winx_init_library_correct tmalloc vsnprintf create_event pid s Hl Hg) as (r0 & l & E0 & Hinit).
  destruct Hinit as [[-> ->]|(_ & _ & [])]; [|done].
  unfold session. step E0. change (0 <? 0) with false. cbn iota. clear E0.
  destruct (first_dbg_log_run uninit_entry query_system_time to_local_time to_fields tmalloc uninit vsnprintf
    status_to_error error_message listens get_volume_information render tmalloc_total formatted render_chars
    node_total string_total dir name fuel (set_events (Some true) (Some true) (log s)) w1 r
    Hc Hp eq_refl eq_refl Hw Hn Hcreate Hr Hsame) as (l2 & E2 & R2).
  step (on_log_run _ _ _ (Library _ _ _) E2).
  destruct (run_ops_refines uninit_entry query_system_time to_local_time to_fields tmalloc uninit vsnprintf
    status_to_error error_message listens render tmalloc_total uninit_length formatted render_chars render_s render_ss
    node_total string_total path fuel ops l2 _ Hne R2 Hfit) as (l3 & E3 & R3).
  step (on_log_run _ _ _ (Library _ l2 _) E3).
  destruct (dbg_close_run tmalloc uninit vsnprintf render
    tmalloc_total uninit_length formatted render_chars path fuel l3 _ R3 Hne Hlast) as (l4 & E4 & Hd & Hc4 & Hp4 & Hl4 & Hg4).
  erewrite (st_bind_ret (winx_unload_library tmalloc uninit vsnprintf fuel));
    [|unfold winx_unload_library; by step (on_log_run _ _ _ (Library _ l3 _) E4)].
  eexists. split; [reflexivity|]. split; [by split|]. rewrite foldl_snoc. exact Hd.
Qed.

(** Before the process is ended the keyboards are closed and the messages
    written. *)
Theorem winx_exit_flushes `{!NtDisplay W, !NtProcess W} path fuel exit_code s a :
  log_rel path (log s) a → path ≠ [] → op_fits render fuel a (Flush 0) →
  table_ok (keyboards s) → (∀ w, NT_SUCCESS (NtTerminateProcess exit_code w).1 = true) →
  ∃ w s', winx_exit tmalloc uninit vsnprintf fuel exit_code s = Ret (tt, s') ∧
    world (log s') = (NtTerminateProcess exit_code w).2 ∧
    default [] (file_at w path) = on_disk a ++ flushed render 0 (pending a) ∧
    Forall (fun k => hKbDevice k = 0) (keyboards s').1.
Proof.
  intros [Hp Hd Hc He Hpa Hl Hg] Hne [Hfu Hlen] Hkb Hend.
  destruct (flush_run tmalloc uninit vsnprintf render tmalloc_total uninit_length formatted render_chars
    fuel path (log s) (pending a) 0 Hp Hl (or_intror Hg) Hpa Hne Hfu Hlen) as (st & w & E & _ & _ & Hw).
  unfold winx_exit, close_keyboards_first. erewrite st_bind_ret by reflexivity.
  step (on_log_run _ _ _ (Library (tables s) (log s) (kb_close (keyboards s))) E).
  exists w. specialize (Hend w).
  destruct (NtTerminateProcess exit_code w) as [status w'] eqn:Ew. cbn [fst snd] in *.
  erewrite st_bind_ret; [|apply on_log_run; unfold call; cbn [log world set_reserved set_world]; by rewrite Ew].
  rewrite Hend. cbn [negb]. eexists. split; [reflexivity|]. split; [done|]. split; [by rewrite Hw, Hd|].
  by apply kb_close_ok.
Qed.
End session.

(** ** Concrete runs *)

(** A screen, with a code page that extends ASCII by Latin-1. *)
#[local] Instance demo_display : NtDisplay str := {|
  NtDisplayString := fun s w => w ++ s;
  ansi_to_unicode := fun s _ => Some s;
|}.

#[local] Instance demo_display_laws : NtDisplayLaws str.
Proof. refine {| on_screen := fun w => w |}; [done|]. intros s w us _ E. by injection E. Defined.

Example print_tabs : winx_print (Some (text "a" ++ [9] ++ text "b")) [] = text "a  b".
Proof. reflexivity. Qed.

(** A character behind ASCII is shown as another one when the string has a
    tab: winx_putch gets its negative value. *)
Example print_tab_non_ascii :
  winx_print (Some [0xE4]) [] = [0xE4] ∧ winx_print (Some [0xE4; 9]) [] = [0xFFE4; 0x20; 0x20].
Proof. split; reflexivity. Qed.

Example puts_line : winx_puts (fun _ => true) demo_vsnprintf (Some (text "done")) [] = Ret (0, text "done" ++ [10]).
Proof. reflexivity. Qed.

#[local] Instance session_nodes : Allocator (node winx_dbg_log_entry) := bump_allocator _.
#[local] Instance session_strings : Allocator (list Z) := bump_allocator _.

Definition demo_process : library memory :=
  Library (∅, ∅) (LogState ∅ ∅ None false None None None false 0 0 0 [] (Memory ∅ ∅ 0)) ([], 0).

Lemma demo_unused : unused (log demo_process).
Proof. split; try done. exists []. split; [by apply is_list_nil|]. split; [done|]. split; constructor. Qed.

Lemma demo_locks : locks_available (fun _ => true) demo_vsnprintf (fun _ => true) 8.
Proof.
  split; [|done]. intros format Hf. 
  replace (lock_name (fun _ => true) demo_vsnprintf format 8) with (Ret (Some (demo_render format [Num 8])));
    [done|].
  apply list_elem_of_In in Hf as [<-|[<-|[]]]; vm_compute; reflexivity.
Qed.

Definition session_path : str := text "\??\C:\a.log".

Definition session_ops : list log_op := [Print (text "%s %d") [Str (text "found"); Num 7]; Flush 0; Print (text "done") []].

Lemma library_session_correct_witness :
  ∃ s', session (fun _ => true) (fun n => replicate n 1) demo_entry demo_vsnprintf demo_time
          (fun z => (STATUS_SUCCESS, z)) demo_fields (fun z => z) (fun _ => None) (fun _ => true) (fun _ _ => 0)
          (fun _ => true) 3 8 session_path session_ops demo_process = Ret (0, s') ∧
    unused (log s') ∧
    default [] (file_at (world (log s')) session_path) =
      text "2018-1-2 3:4:0.0 INFO:  winx_set_dbg_log: log_path = \??\C:\a.log" ++ CRLF ++
      text "2018-1-2 3:4:1.0 found 7" ++ CRLF ++ text "2018-1-2 3:4:2.0 done" ++ CRLF.
Proof.
  destruct (library_session_correct (fun _ => true) (fun n => replicate n 1) demo_entry demo_vsnprintf demo_time
              (fun z => (STATUS_SUCCESS, z)) demo_fields (fun z => z) (fun _ => None) (fun _ => true) (fun _ _ => 0)
              (fun _ => true) demo_render (fun _ => eq_refl) (fun n => length_replicate n 1) demo_formatted demo_chars
              demo_s demo_ss demo_nodes_total demo_strings_total 3 8 (text "\??\C:") (text "a.log") session_ops
              demo_process (world (log demo_process)) 0) as (s' & E & Hu & Hd).
  - exact demo_unused.
  - exact demo_locks.
  - apply (bool_decide_unpack _). vm_compute. exact I.
  - apply (bool_decide_unpack _). vm_compute. exact I.
  - reflexivity.
  - lia.
  - done.
  - split; [done|]. split; [split; apply (bool_decide_unpack _); vm_compute; exact I|]. split; [done|].
    split; [|done]. split; apply (bool_decide_unpack _); vm_compute; exact I.
  - exists s'. split; [exact E|]. split; [exact Hu|]. exact Hd.
Defined.

(** The process ends with its messages in the file; NtTerminateProcess does
    not change the files. *)
Definition demo_end : NtProcess memory := {|
  RtlCreateUserThread := fun _ _ w => (STATUS_SUCCESS, 9, w);
  ZwTerminateThread := fun _ w => (STATUS_SUCCESS, w);
  RtlAdjustPrivilege := fun _ w => (STATUS_SUCCESS, w);
  LdrGetDllHandle := fun _ _ => (STATUS_SUCCESS, 1);
  LdrGetProcedureAddress := fun _ _ _ => (STATUS_SUCCESS, 2);
  RtlFindMessage := fun _ error _ => (STATUS_SUCCESS, 0, if error =? 1314 then text "no privilege" else []);
  NtTerminateProcess := fun _ w => (STATUS_SUCCESS, w);
  NtShutdownSystem := fun _ w => (STATUS_SUCCESS, w);
|}.

Definition silent : NtDisplay memory := {| NtDisplayString := fun _ w => w; ansi_to_unicode := fun _ _ => None |}.

Lemma winx_exit_flushes_witness :
  ∃ w s', winx_exit (NtDisplay0 := silent) (NtProcess0 := demo_end) (fun _ => true) (fun n => replicate n 1)
            demo_vsnprintf 1 0 (Library (∅, ∅) demo_log ([Keyboard 0 5 6; no_keyboard], 1)) = Ret (tt, s') ∧
    world (log s') = w ∧
    default [] (file_at w demo_path) = text "old" ++ CRLF ++ text "2018-1-2 3:4:0.0 started" ++ CRLF ∧
    Forall (fun k => hKbDevice k = 0) (keyboards s').1.
Proof.
  apply (winx_exit_flushes (fun _ => true) (fun n => replicate n 1)
           demo_vsnprintf demo_render (fun _ => eq_refl) (fun n => length_replicate n 1) demo_formatted demo_chars
           (NtDisplay0 := silent) (NtProcess0 := demo_end) demo_path 1 0
           (Library (∅, ∅) demo_log ([Keyboard 0 5 6; no_keyboard], 1)) demo_spec).
  - apply demo_log_rel.
  - done.
  - split; apply (bool_decide_unpack _); vm_compute; exact I.
  - exists [Keyboard 0 5 6], [no_keyboard]. split; [done|]. split; [by repeat constructor|]. by split; [repeat constructor|].
  - done.
Defined.

(** A system that refuses the privilege. *)
Definition refusing : NtProcess memory := {|
  RtlCreateUserThread := fun _ _ w => (STATUS_SUCCESS, 9, w);
  ZwTerminateThread := fun _ w => (STATUS_SUCCESS, w);
  RtlAdjustPrivilege := fun _ w => (0xC0000061, w);
  LdrGetDllHandle := fun _ _ => (STATUS_SUCCESS, 1);
  LdrGetProcedureAddress := fun _ _ _ => (STATUS_SUCCESS, 2);
  RtlFindMessage := fun _ error _ => (STATUS_SUCCESS, 0, if error =? 1314 then text "no privilege" else []);
  NtTerminateProcess := fun _ w => (STATUS_SUCCESS, w);
  NtShutdownSystem := fun _ w => (STATUS_SUCCESS, w);
|}.

(** The refusal is logged with the text of its error. *)
Example privilege_refused :
  match winx_enable_privilege (NtProcess0 := refusing) (fun _ => true) (fun n => replicate n 1) demo_entry
          demo_vsnprintf demo_time (fun z => (STATUS_SUCCESS, z)) demo_fields
          (fun status => if status =? 0xC0000061 then 1314 else 0) (fun _ => true) SE_SHUTDOWN_PRIVILEGE demo_log with
  | Ret (r, s) =>
      r = -1 ∧ LastStatusValue s = 0xC0000061 ∧
      strings s !! 2%positive =
        Some (text "ERROR: winx_enable_privilege: cannot enable privilege 19: 0x3221225569 status: no privilege" ++ [0])
  | _ => False
  end.
Proof. vm_compute. repeat split; reflexivity. Qed.
