(* ===== verification/StdMap.v ===== *)
(** * The ordered containers of the C++ standard library used by zen.cpp

    [std::map] and [std::multimap] with integer keys, as the sequence of their
    entries in the order of iteration.  Both are kept sorted by their keys; a
    multimap keeps entries with equal keys in the order of their insertion. *)
From S2P Require Import Prelude.
From stdpp Require Import prelude sorting.
Open Scope Z_scope.

Section ops.
Context {V : Type}.
Implicit Types (m : list (Z * V)) (k : Z) (v : V).

(** [map::find] *)
Fixpoint std_find k m : option V :=
  match m with
  | [] => None
  | (k', v) :: m => if k' =? k then Some v else std_find k m
  end.

(** [map::insert]: an entry that is already there is kept. *)
Fixpoint std_insert k v m : list (Z * V) :=
  match m with
  | [] => [(k, v)]
  | (k', v') :: m' =>
      if k <? k' then (k, v) :: m
      else if k =? k' then m else (k', v') :: std_insert k v m'
  end.

(** [map::erase] of the entry with a key. *)
Definition std_erase k m : list (Z * V) := filter (fun e => e.1 ≠ k) m.

(** [std::prev(lower_bound(k))]; [None] when [lower_bound(k)] is [begin()]. *)
Definition before_lower_bound k m : option (Z * V) := last (filter (fun e => e.1 < k) m).

(** [multimap::insert]: behind the entries with equal keys. *)
Fixpoint multimap_insert k v m : list (Z * V) :=
  match m with
  | [] => [(k, v)]
  | (k', v') :: m' => if k <? k' then (k, v) :: m else (k', v') :: multimap_insert k v m'
  end.

(** [multimap::equal_range] *)
Definition equal_range k m : list (Z * V) := filter (fun e => e.1 = k) m.

(** The entries from [multimap::upper_bound] on. *)
Definition from_upper_bound k m : list (Z * V) := filter (fun e => k < e.1) m.

(** The loop over [equal_range] that erases the entry with a given value. *)
Fixpoint erase_value `{EqDecision V} k v m : list (Z * V) :=
  match m with
  | [] => []
  | e :: m' => if decide (e = (k, v)) then m' else e :: erase_value k v m'
  end.
End ops.

(** Sorted by keys: strictly in a map, weakly in a multimap. *)
Abbreviation map_sorted := (StronglySorted (fun e1 e2 : Z * _ => e1.1 < e2.1)).

Abbreviation multimap_sorted := (StronglySorted (fun e1 e2 : Z * _ => e1.1 ≤ e2.1)).

Section theory.
Context {V : Type} `{EqDecision V}.
Implicit Types (m : list (Z * V)) (k : Z) (v : V).

Lemma std_find_app k v m1 m2 :
  Forall (fun e => e.1 < k) m1 → std_find k (m1 ++ (k, v) :: m2) = Some v.
Proof.
  induction 1 as [|[k' v'] m1 Hk _ IH]; simpl in *; [by rewrite Z.eqb_refl|].
  by rewrite (proj2 (Z.eqb_neq _ _)) by lia.
Qed.

Lemma std_find_none k m : Forall (fun e => e.1 ≠ k) m → std_find k m = None.
Proof.
  induction 1 as [|[k' v'] m Hk _ IH]; simpl in *; [done|].
  by rewrite (proj2 (Z.eqb_neq _ _)).
Qed.

Lemma std_insert_app k v m1 m2 :
  Forall (fun e => e.1 < k) m1 → Forall (fun e => k < e.1) m2 →
  std_insert k v (m1 ++ m2) = m1 ++ (k, v) :: m2.
Proof.
  intros H1 H2. induction H1 as [|[k' v'] m1 Hk _ IH]; simpl in *.
  - destruct H2 as [|[k' v'] m2 Hk _]; simpl in *; [done|].
    by rewrite (proj2 (Z.ltb_lt _ _)).
  - rewrite (proj2 (Z.ltb_ge _ _)), (proj2 (Z.eqb_neq _ _)) by lia. by rewrite IH.
Qed.

Lemma filter_keeps {A} (P : A → Prop) `{∀ x, Decision (P x)} (l : list A) :
  Forall P l → filter P l = l.
Proof. induction 1; [done|]. by rewrite filter_cons_True by done; f_equal. Qed.

Lemma filter_drops {A} (P : A → Prop) `{∀ x, Decision (P x)} (l : list A) :
  Forall (fun x => ¬ P x) l → filter P l = [].
Proof. induction 1; [done|]. by rewrite filter_cons_False. Qed.

Lemma std_erase_app k v m1 m2 :
  Forall (fun e => e.1 < k) m1 → Forall (fun e => k < e.1) m2 →
  std_erase k (m1 ++ (k, v) :: m2) = m1 ++ m2.
Proof.
  intros H1 H2. unfold std_erase. rewrite filter_app, filter_cons_False by (simpl; lia).
  rewrite !filter_keeps; [done | |]; (eapply Forall_impl; [done|]; simpl; lia).
Qed.

Lemma before_lower_bound_app k m1 m2 :
  Forall (fun e => e.1 < k) m1 → Forall (fun e => k ≤ e.1) m2 →
  before_lower_bound k (m1 ++ m2) = last m1.
Proof.
  intros H1 H2. unfold before_lower_bound.
  rewrite filter_app, filter_keeps, filter_drops, app_nil_r; [done | | done].
  eapply Forall_impl; [done|]. simpl. lia.
Qed.

Lemma multimap_insert_Permutation k v m : multimap_insert k v m ≡ₚ (k, v) :: m.
Proof.
  induction m as [|[k' v'] m IH]; simpl; [done|].
  destruct (k <? k'); [done|]. rewrite IH. apply Permutation_swap.
Qed.

Lemma multimap_insert_sorted k v m : multimap_sorted m → multimap_sorted (multimap_insert k v m).
Proof.
  induction 1 as [|[k' v'] m Hs IH Hf]; simpl; [by repeat constructor|].
  destruct (Z.ltb_spec k k').
  - repeat constructor; simpl; [done | done | lia |].
    eapply Forall_impl; [exact Hf|]. simpl. lia.
  - constructor; [done|]. rewrite multimap_insert_Permutation. constructor; [simpl; lia | done].
Qed.

Lemma erase_value_Permutation k v m : (k, v) ∈ m → (k, v) :: erase_value k v m ≡ₚ m.
Proof.
  induction m as [|e m IH]; simpl; [by intros ?%elem_of_nil|].
  intros Hin. case_decide; subst; [done|].
  apply elem_of_cons in Hin as [<-|Hin]; [done|].
  rewrite Permutation_swap. by rewrite IH.
Qed.

Lemma erase_value_elem k v m e : e ∈ erase_value k v m → e ∈ m.
Proof.
  induction m as [|e' m IH]; simpl; [done|]. case_decide; [by right|].
  intros [->|?]%elem_of_cons; [by left | right; auto].
Qed.

Lemma erase_value_sorted k v m : multimap_sorted m → multimap_sorted (erase_value k v m).
Proof.
  induction 1 as [|e m Hs IH Hf]; simpl; [constructor|]. case_decide; [done|].
  constructor; [done|]. rewrite Forall_forall in *. intros x Hx%erase_value_elem. by apply Hf.
Qed.

(** Replacing one entry of a multimap that holds a collection of entries. *)
Lemma erase_value_cons k v m l : m ≡ₚ (k, v) :: l → erase_value k v m ≡ₚ l.
Proof.
  intros Hp. apply (Permutation_cons_inv (a := (k, v))). rewrite <- Hp.
  apply erase_value_Permutation. rewrite Hp. by left.
Qed.

(** Looking up and changing sorted maps. *)
Lemma std_insert_elem k v m x :
  map_sorted m → x ∈ std_insert k v m ↔ x ∈ m ∨ (k ∉ m.*1 ∧ x = (k, v)).
Proof.
  induction 1 as [|[k' v'] m Hs IH Hf]; simpl.
  { rewrite list_elem_of_singleton. set_solver. }
  rewrite Forall_forall in Hf. destruct (Z.ltb_spec k k'); [|destruct (Z.eqb_spec k k') as [->|Hne]].
  - rewrite elem_of_cons. split; [|naive_solver]. intros [->|?]; [right | by left]. split; [|done].
    intros [->|([k2 v2] & -> & Hin)%list_elem_of_fmap]%elem_of_cons; [lia|].
    specialize (Hf _ Hin). simpl in *. lia.
  - split; [by left|]. intros [?|[Hn _]]; [done|]. destruct Hn. by left.
  - rewrite !elem_of_cons, IH. naive_solver.
Qed.

Lemma std_insert_sorted k v m : map_sorted m → map_sorted (std_insert k v m).
Proof.
  induction 1 as [|[k' v'] m Hs IH Hf]; simpl; [by repeat constructor|].
  destruct (Z.ltb_spec k k'); [|destruct (Z.eqb_spec k k') as [->|Hne]].
  - repeat constructor; [done | done | done |]. eapply Forall_impl; [exact Hf|]. simpl. lia.
  - by constructor.
  - constructor; [done|]. apply Forall_forall. intros x [Hx|[_ ->]]%std_insert_elem; [|simpl; lia|done].
    rewrite Forall_forall in Hf. by apply Hf.
Qed.

Lemma std_find_elem k v m : map_sorted m → std_find k m = Some v ↔ (k, v) ∈ m.
Proof.
  induction 1 as [|[k' v'] m Hs IH Hf]; simpl; [by split; [|intros ?%elem_of_nil]|].
  rewrite elem_of_cons. destruct (Z.eqb_spec k' k) as [->|Hne].
  - split; [intros [= ->]; by left|]. intros [[= ->]|Hin]; [done|]. exfalso.
    rewrite Forall_forall in Hf. specialize (Hf _ Hin). simpl in Hf. lia.
  - rewrite IH. naive_solver.
Qed.

Lemma std_erase_elem k m x : x ∈ std_erase k m ↔ x ∈ m ∧ x.1 ≠ k.
Proof. unfold std_erase. rewrite list_elem_of_filter. tauto. Qed.

Lemma std_erase_sorted k m : map_sorted m → map_sorted (std_erase k m).
Proof.
  unfold std_erase. induction 1 as [|e m Hs IH Hf]; [constructor|]. rewrite filter_cons.
  case_decide; [|done]. constructor; [done|]. rewrite Forall_forall in *.
  intros x [_ Hx]%list_elem_of_filter. by apply Hf.
Qed.
End theory.
