(* ===== verification/Gaps.v ===== *)
(** * zen.cpp: the enumeration of the gaps of a volume

    The class [GapEnumeration]: the list of free regions read from the bitmap,
    a map from cluster numbers to regions and a multimap from lengths to
    regions.  Its operations keep the two maps and the nodes of the list in
    step; [gaps_ok] is that invariant, and the theorems at the end relate the
    operations to the clusters the gaps cover. *)
From S2P Require Import Prelude DList Regions Bitmap FileInfo StdMap.
From stdpp Require Import prelude gmap sorting.
Open Scope Z_scope.

(** The members [info_], [regions_] and [sizes_]. *)
Record GapEnumeration : Type := Gaps {
  info_ : ptr;
  regions_ : list (Z * loc);
  sizes_ : list (Z * loc);
}.

Section ops.
Context `{!Allocator (node winx_volume_region)}.
(** The bitmap of the volume, and whether it can be opened. *)
Context (get_volume_bitmap : Z → Z * BITMAP_DESCRIPTOR) (opened : bool).
(** The bound of the loop that reads the bitmap.  The walks over the list are
    bounded by the number of objects in the store. *)
Context (fuel : nat).
(** [DebugBreak]: [Ret tt] when a debugger resumes the program, [Fault] when
    the breakpoint ends it. *)
Context (DebugBreak : outcome unit).
(** [std::prev(begin())] is undefined; the library the program is built with
    gives [end()]. *)
Context (prev_begin : outcome unit).
Abbreviation rheap := (gmap loc (node winx_volume_region)).
Implicit Types (g : GapEnumeration) (f : winx_file_info).

(** The loop of [filter] over [List<winx_volume_region>(info_)]. *)
Fixpoint filter_regions (n : nat) (head i : ptr) g : ST rheap GapEnumeration :=
  match i with
  | None => mret g
  | Some l =>
      match n with
      | O => st_nofuel
      | S n =>
          nd ← load i;
          let r := data nd in
          let g' := Gaps (info_ g) (std_insert (rlcn r) l (regions_ g))
                         (multimap_insert (rlength r) l (sizes_ g)) in
          filter_regions n head (if decide (next nd = head) then None else next nd) g'
      end
  end.

Definition filter g : ST rheap GapEnumeration := fun h =>
  filter_regions (size h) (info_ g) (info_ g) (Gaps (info_ g) [] []) h.

Definition free g : ST rheap GapEnumeration := fun h =>
  match info_ g with
  | None => Ret (Gaps None [] [], h)
  | Some _ =>
      '(_, h') ← winx_release_free_volume_regions (size h) (info_ g) h;
      Ret (Gaps None [] [], h')
  end.

Definition scan g : ST rheap GapEnumeration :=
  g1 ← free g;
  '(rlist, _) ← winx_get_free_volume_regions get_volume_bitmap None fuel fuel opened 0 tt;
  filter (Gaps rlist (regions_ g1) (sizes_ g1)).

(** [next]: the first gap of the volume. *)
Definition next_gap g : ptr :=
  match regions_ g with
  | [] => None
  | (_, r) :: _ => Some r
  end.

(** The conditions under which the loops of [best] pass over a region; [not]
    is the node the argument of that name points to ([None] for an object that
    is no node) and the region it holds. *)
Definition passed_over (not : option (ptr * winx_volume_region)) (behindOnly : bool)
    (p : loc) (r : winx_volume_region) : bool :=
  match not with
  | None => false
  | Some (q, nr) => (behindOnly && (rlcn r <=? rlcn nr)) || bool_decide (Some p = q)
  end.

(** A loop over entries of [sizes_]: the first region that is not passed over.
    The entries below [minimum] end the loop. *)
Fixpoint first_region (not : option (ptr * winx_volume_region)) (behindOnly : bool)
    (minimum : Z) (m : list (Z * loc)) : ST rheap ptr :=
  match m with
  | [] => mret None
  | (size, p) :: m =>
      if size <? minimum then mret None else
      nd ← load (Some p);
      if passed_over not behindOnly p (data nd) then first_region not behindOnly minimum m
      else mret (Some p)
  end.

(** [max(clusters * 3 / 2, clusters + 512)] *)
Definition comfortable (clusters : Z) : Z :=
  Z.max (u64 (clusters * 3) / 2) (u64 (clusters + 512)).

Definition best g (clusters : Z) (not : option (ptr * winx_volume_region)) (behindOnly : bool)
  : ST rheap ptr :=
  match sizes_ g with
  | [] => mret None
  | _ =>
      exact ← first_region not behindOnly 0 (equal_range clusters (sizes_ g));
      match exact with
      | Some _ => mret exact
      | None =>
          greater ← first_region not behindOnly 0
                      (from_upper_bound (comfortable clusters) (sizes_ g));
          match greater with
          | Some _ => mret greater
          | None => first_region not behindOnly clusters (reverse (sizes_ g))
          end
      end
  end.

(** The release build: [DebugBreak] precedes [scan] in a debug build only. *)
Definition pop g (lcn length : Z) : ST rheap GapEnumeration :=
  match std_find lcn (regions_ g) with
  | None => scan g
  | Some n =>
      nd ← load (Some n);
      let sizes := erase_value (rlength (data nd)) n (sizes_ g) in
      let regions := std_erase lcn (regions_ g) in
      if length <? rlength (data nd) then
        _ ← modify (Some n) (set_data (fun r => set_rlcn (u64 (rlcn r + length)) r));
        _ ← modify (Some n) (set_data (fun r => set_rlength (u64 (rlength r - length)) r));
        nd ← load (Some n);
        mret (Gaps (info_ g) (std_insert (rlcn (data nd)) n regions)
                   (multimap_insert (rlength (data nd)) n sizes))
      else if rlength (data nd) <? length then
        _ ← st_lift DebugBreak;
        mret (Gaps (info_ g) (regions_ g) sizes)
      else mret (Gaps (info_ g) regions sizes)
  end.

Definition pop_region g (r : ptr) : ST rheap GapEnumeration :=
  nd ← load r; pop g (rlcn (data nd)) (rlength (data nd)).

Fixpoint pop_blocks g (bm : list winx_blockmap) : ST rheap GapEnumeration :=
  match bm with
  | [] => mret g
  | b :: bm => g' ← pop g (bk_lcn b) (bk_length b); pop_blocks g' bm
  end.

Definition pop_file g f : ST rheap GapEnumeration := pop_blocks g (blockmap (disp f)).

(** Erasing a region from [sizes_] by its current length. *)
Definition erase_size (p : loc) g : ST rheap GapEnumeration :=
  nd ← load (Some p);
  mret (Gaps (info_ g) (regions_ g) (erase_value (rlength (data nd)) p (sizes_ g))).

(** Inserting a region into [sizes_] with its current length. *)
Definition insert_size (p : loc) g : ST rheap GapEnumeration :=
  nd ← load (Some p);
  mret (Gaps (info_ g) (regions_ g) (multimap_insert (rlength (data nd)) p (sizes_ g))).

Definition merge_both g (prev nxt : loc) (next_lcn length : Z) : ST rheap GapEnumeration :=
  g1 ← erase_size prev g;
  g2 ← erase_size nxt g1;
  nn ← load (Some nxt);
  _ ← modify (Some prev)
        (set_data (fun r => set_rlength (u64 (rlength r + u64 (length + rlength (data nn)))) r));
  insert_size prev (Gaps (info_ g2) (std_erase next_lcn (regions_ g2)) (sizes_ g2)).

Definition merge_prev g (prev : loc) (length : Z) : ST rheap GapEnumeration :=
  g1 ← erase_size prev g;
  _ ← modify (Some prev) (set_data (fun r => set_rlength (u64 (rlength r + length)) r));
  insert_size prev g1.

Definition merge_next g (nxt : loc) (lcn next_lcn length : Z) : ST rheap GapEnumeration :=
  g1 ← erase_size nxt g;
  _ ← modify (Some nxt) (set_data (set_rlcn lcn));
  _ ← modify (Some nxt) (set_data (fun r => set_rlength (u64 (rlength r + length)) r));
  nd ← load (Some nxt);
  insert_size nxt (Gaps (info_ g1)
    (std_insert (rlcn (data nd)) nxt (std_erase next_lcn (regions_ g1))) (sizes_ g1)).

(** "Insert a new region": behind [prev] or else behind the last region, which
    does not exist in an empty map. *)
Definition insert_region g (prev : option (Z * loc)) (lcn length : Z) : ST rheap GapEnumeration :=
  match (match prev with Some e => Some e | None => last (regions_ g) end) with
  | None => st_fault
  | Some (_, item) =>
      '(nr, info) ← winx_list_insert (info_ g) (Some item) sizeof_region (Region 0 0);
      _ ← modify nr (set_data (set_rlcn lcn));
      _ ← modify nr (set_data (set_rlength length));
      match nr with
      | None => st_fault
      | Some p => mret (Gaps info (std_insert lcn p (regions_ g))
                             (multimap_insert length p (sizes_ g)))
      end
  end.

(** [std::prev(regions_.lower_bound(lcn))]; for an empty map both are
    [end()]. *)
Definition prev_region g (lcn : Z) : outcome (option (Z * loc)) :=
  match before_lower_bound lcn (regions_ g) with
  | Some e => Ret (Some e)
  | None => _ ← prev_begin; Ret None
  end.

(** The region that ends where the block starts. *)
Definition merges_prev (prev : option (Z * loc)) (lcn : Z) : ST rheap bool :=
  match prev with
  | None => mret false
  | Some (_, p) =>
      nd ← load (Some p); mret (u64 (rlcn (data nd) + rlength (data nd)) =? lcn)
  end.

(** One iteration of [push] for a block that is not empty; [false] stands for
    its early return. *)
Definition push_block g (lcn length : Z) : ST rheap (bool * GapEnumeration) :=
  prev ← st_lift (prev_region g lcn);
  let nxt := std_find (u64 (lcn + length)) (regions_ g) in
  mergePrev ← merges_prev prev lcn;
  match prev, nxt with
  | Some (_, p), Some n =>
      if (mergePrev : bool)
      then g' ← merge_both g p n (u64 (lcn + length)) length; mret (true, g')
      else g' ← merge_next g n lcn (u64 (lcn + length)) length; mret (true, g')
  | None, Some n => g' ← merge_next g n lcn (u64 (lcn + length)) length; mret (true, g')
  | _, None =>
      match prev, (mergePrev : bool) with
      | Some (_, p), true => g' ← merge_prev g p length; mret (true, g')
      | _, _ =>
          match info_ g with
          | None => _ ← st_lift DebugBreak; g' ← scan g; mret (false, g')
          | Some _ => g' ← insert_region g prev lcn length; mret (true, g')
          end
      end
  end.

Fixpoint push_blocks g (bm : list winx_blockmap) : ST rheap GapEnumeration :=
  match bm with
  | [] => mret g
  | b :: bm =>
      if bk_length b =? 0 then push_blocks g bm else
      '(go, g') ← push_block g (bk_lcn b) (bk_length b);
      if (go : bool) then push_blocks g' bm else mret g'
  end.

Definition push g f : ST rheap GapEnumeration := push_blocks g (blockmap (disp f)).
End ops.

(** ** The invariant *)
Abbreviation gnodes := (list (loc * winx_volume_region)).

Definition by_lcn (gs : gnodes) : list (Z * loc) := (fun x => (rlcn x.2, x.1)) <$> gs.

Definition by_length (gs : gnodes) : list (Z * loc) := (fun x => (rlength x.2, x.1)) <$> gs.

(** The gaps [gs], in the order of their clusters, are nodes of the list, the
    map has them by cluster number and the multimap by length. *)
Definition gaps_ok (N : Z) (h : gmap loc (node winx_volume_region)) (g : GapEnumeration)
    (gs : gnodes) : Prop :=
  (∃ nodes, is_list h (info_ g) nodes ∧ gs ⊆ nodes) ∧ NoDup gs.*1 ∧
  regions_ g = by_lcn gs ∧ sizes_ g ≡ₚ by_length gs ∧ multimap_sorted (sizes_ g) ∧
  regions_wf N gs.*2.

Section theory.
Abbreviation rheap := (gmap loc (node winx_volume_region)).
Implicit Types (h : rheap) (g : GapEnumeration) (gs nodes : gnodes).

Lemma node_load h head nodes p r :
  is_list h head nodes → (p, r) ∈ nodes → ∃ nd, load (Some p) h = Ret (nd, h) ∧ data nd = r.
Proof.
  intros Hl (l1 & l2 & ->)%list_elem_of_split. eexists. split.
  - apply load_ok. by eapply is_list_lookup.
  - done.
Qed.

Lemma node_unique h head nodes p r r' :
  is_list h head nodes → (p, r) ∈ nodes → (p, r') ∈ nodes → r = r'.
Proof.
  intros Hl (nd & E & <-)%(node_load h head nodes) (nd' & E' & <-)%(node_load h head nodes);
    [|done..]. by rewrite E in E'; simplify_eq.
Qed.

Lemma node_update h head nodes p r fn :
  is_list h head nodes → (p, r) ∈ nodes →
  ∃ h' nodes', modify (Some p) (set_data fn) h = Ret (tt, h') ∧ is_list h' head nodes' ∧
    (p, fn r) ∈ nodes' ∧ (∀ q d, q ≠ p → (q, d) ∈ nodes → (q, d) ∈ nodes') ∧
    nodes'.*1 = nodes.*1.
Proof.
  intros Hl (l1 & l2 & ->)%list_elem_of_split.
  destruct (is_list_update _ _ _ _ _ _ fn Hl) as (h' & Hm & Hl' & _).
  exists h', (l1 ++ (p, fn r) :: l2). split_and!; [done | done | set_solver | |].
  - intros q d Hq. rewrite !elem_of_app, !elem_of_cons. naive_solver.
  - by rewrite !fmap_app.
Qed.

Lemma is_list_size h head nodes : is_list h head nodes → (length nodes ≤ size h)%nat.
Proof.
  intros Hl. pose proof (is_list_NoDup _ _ _ Hl) as Hnd.
  rewrite <- (length_fmap fst), <- (size_list_to_set (C := gset loc)), <- size_dom by done.
  apply subseteq_size. intros p. rewrite elem_of_list_to_set, elem_of_dom.
  destruct Hl as [_ Hr]. by apply ring_lookup.
Qed.

(** *** [best] *)
Definition sized nodes (m : list (Z * loc)) : Prop :=
  Forall (fun e => ∃ r, (e.2, r) ∈ nodes ∧ rlength r = e.1) m.

Lemma first_region_run h head nodes not behindOnly minimum m :
  is_list h head nodes → sized nodes m →
  ∃ m1 m2, m = m1 ++ m2 ∧
    Forall (fun e => ∀ r, (e.2, r) ∈ nodes → passed_over not behindOnly e.2 r = true) m1 ∧
    (first_region not behindOnly minimum m h = Ret (None, h) ∧
       match m2 with [] => True | e :: _ => e.1 < minimum end ∨
     ∃ p r m3, first_region not behindOnly minimum m h = Ret (Some p, h) ∧
       m2 = (rlength r, p) :: m3 ∧ (p, r) ∈ nodes ∧ minimum ≤ rlength r ∧
       passed_over not behindOnly p r = false).
Proof.
  intros Hl. induction 1 as [|[size p] m (r & Hr & Hlen) Hm IH]; cbn [fst snd] in *.
  { exists [], []. split_and!; [done | done | by left]. }
  cbn [first_region]. destruct (Z.ltb_spec size minimum) as [Hlt|Hge].
  { exists [], ((size, p) :: m). split_and!; [done | done | by left]. }
  destruct (node_load _ _ _ _ _ Hl Hr) as (nd & E & Hd).
  rewrite (st_bind_ret _ _ _ _ _ E), Hd.
  destruct (passed_over not behindOnly p r) eqn:Ep.
  - destruct IH as (m1 & m2 & -> & Hf & Hres). exists ((size, p) :: m1), m2.
    split_and!; [done | | done]. constructor; [|done]. intros r' Hr'. cbn [snd] in *.
    by rewrite (node_unique _ _ _ _ _ _ Hl Hr' Hr).
  - exists [], ((size, p) :: m). split_and!; [done | done |]. right.
    exists p, r, m. subst size. done.
Qed.

(** What a search over some entries of [sizes_] finds. *)
Lemma first_region_all h head nodes not behindOnly m :
  is_list h head nodes → sized nodes m → Forall (fun e => 0 ≤ e.1) m →
  ∃ res, first_region not behindOnly 0 m h = Ret (res, h) ∧
    match res with
    | None => ∀ p r, (rlength r, p) ∈ m → (p, r) ∈ nodes → passed_over not behindOnly p r = true
    | Some p => ∃ r m1 m2, m = m1 ++ (rlength r, p) :: m2 ∧ (p, r) ∈ nodes ∧
        passed_over not behindOnly p r = false ∧
        ∀ q d, (rlength d, q) ∈ m1 → (q, d) ∈ nodes → passed_over not behindOnly q d = true
    end.
Proof.
  intros Hl Hs H0.
  destruct (first_region_run h head nodes not behindOnly 0 m Hl Hs)
    as (m1 & m2 & -> & Hf & [[E Hm2]|(p & r & m3 & E & -> & Hr & _ & Hp)]).
  all: rewrite Forall_forall in Hf; eexists; (split; [exact E|]).
  - intros p r Hin Hr. apply (Hf (rlength r, p)); [|done].
    destruct m2 as [|e m2]; [by rewrite app_nil_r in Hin|]. exfalso.
    apply Forall_app in H0 as [_ [? _]%Forall_cons]. lia.
  - exists r, m1, m3. split_and!; [done..|]. intros q d Hin. by apply (Hf (rlength d, q)).
Qed.

(** A gap the search may choose. *)
Definition usable gs (not : option (ptr * winx_volume_region)) (behindOnly : bool)
    (p : loc) (r : winx_volume_region) : Prop :=
  (p, r) ∈ gs ∧ passed_over not behindOnly p r = false.

Lemma sizes_sized N h g gs nodes :
  gaps_ok N h g gs → gs ⊆ nodes → sized nodes (sizes_ g).
Proof.
  intros (_ & _ & _ & Hp & _) Hsub. unfold sized. rewrite Hp. apply Forall_fmap, Forall_forall.
  intros [p r] Hin. exists r. split; [by apply Hsub | done].
Qed.

Lemma sizes_elem N h g gs p r : gaps_ok N h g gs → (p, r) ∈ gs → (rlength r, p) ∈ sizes_ g.
Proof.
  intros (_ & _ & _ & Hp & _) Hin. rewrite Hp. apply list_elem_of_fmap. by exists (p, r).
Qed.

Lemma sizes_elem_inv N h g gs nodes p r :
  gaps_ok N h g gs → is_list h (info_ g) nodes → gs ⊆ nodes → (p, r) ∈ nodes →
  (rlength r, p) ∈ sizes_ g → (p, r) ∈ gs.
Proof.
  intros (_ & _ & _ & Hp & _) Hl Hsub Hr. rewrite Hp.
  intros ([q d] & [= Hd <-] & Hin)%list_elem_of_fmap.
  by rewrite (node_unique _ _ _ _ _ _ Hl Hr (Hsub _ Hin)).
Qed.

Lemma sorted_before (m1 m2 : list (Z * loc)) e e' :
  multimap_sorted (m1 ++ e :: m2) → e' ∈ m1 ++ e :: m2 → e' ∈ m1 ∨ e.1 ≤ e'.1.
Proof.
  intros Hs. rewrite elem_of_app, elem_of_cons. intros [?|[->|Hin]]; [by left | by right|].
  right. induction m1 as [|x m1 IH]; simpl in *; apply StronglySorted_inv in Hs as [Hs Hf].
  - rewrite Forall_forall in Hf. by apply Hf.
  - by apply IH.
Qed.

Lemma sorted_after (m1 m2 : list (Z * loc)) e e' :
  multimap_sorted (m2 ++ e :: m1) → e' ∈ m2 ++ e :: m1 → e' ∈ m1 ∨ e'.1 ≤ e.1.
Proof.
  intros Hs. rewrite elem_of_app, elem_of_cons. intros [Hin|[->|?]]; [|by right|by left].
  right. induction m2 as [|x m2 IH]; simpl in *; [by apply elem_of_nil in Hin|].
  apply StronglySorted_inv in Hs as [Hs Hf].
  apply elem_of_cons in Hin as [->|Hin]; [|by apply IH].
  rewrite Forall_forall in Hf. apply Hf. set_solver.
Qed.

Lemma sized_filter (P : Z * loc → Prop) `{∀ x, Decision (P x)} nodes m :
  sized nodes m → sized nodes (base.filter P m).
Proof.
  unfold sized. rewrite !Forall_forall. intros Hs e [_ He]%list_elem_of_filter. by apply Hs.
Qed.

Lemma filter_sorted (P : Z * loc → Prop) `{∀ x, Decision (P x)} m :
  multimap_sorted m → multimap_sorted (base.filter P m).
Proof.
  induction 1 as [|e m Hs IH Hf]; [constructor|]. rewrite filter_cons. case_decide; [|done].
  constructor; [done|]. rewrite Forall_forall in *. intros x [_ Hx]%list_elem_of_filter. by apply Hf.
Qed.
Section search.
Context (N : Z) (h : rheap) (g : GapEnumeration) (gs nodes : gnodes).
Context (Hok : gaps_ok N h g gs) (Hl : is_list h (info_ g) nodes) (Hsub : gs ⊆ nodes).
Context (not : option (ptr * winx_volume_region)) (behindOnly : bool).

Lemma usable_elem p r : usable gs not behindOnly p r →
  (rlength r, p) ∈ sizes_ g ∧ (p, r) ∈ nodes ∧ passed_over not behindOnly p r = false.
Proof. intros [Hin ?]. split_and!; [by eapply sizes_elem | by apply Hsub | done]. Qed.

Lemma elem_usable p r : (p, r) ∈ nodes → (rlength r, p) ∈ sizes_ g →
  passed_over not behindOnly p r = false → usable gs not behindOnly p r.
Proof. intros Hn Hs Hp. split; [by eapply sizes_elem_inv | done]. Qed.

Lemma exact_search clusters : 0 ≤ clusters →
  ∃ res, first_region not behindOnly 0 (equal_range clusters (sizes_ g)) h = Ret (res, h) ∧
    match res with
    | None => ∀ q d, usable gs not behindOnly q d → rlength d ≠ clusters
    | Some p => ∃ r, usable gs not behindOnly p r ∧ rlength r = clusters
    end.
Proof.
  intros Hc. destruct (first_region_all h _ nodes not behindOnly
    (equal_range clusters (sizes_ g)) Hl) as (res & E & Hres).
  { apply sized_filter. by eapply sizes_sized. }
  { apply Forall_forall. intros e [<- _]%list_elem_of_filter. done. }
  exists res. split; [done|]. destruct res as [p|].
  - destruct Hres as (r & m1 & m2 & Em & Hn & Hp & _).
    assert (Hr : (rlength r, p) ∈ equal_range clusters (sizes_ g)) by (rewrite Em; set_solver).
    apply list_elem_of_filter in Hr as [Hr Hs]. exists r. split; [by apply elem_usable | done].
  - intros q d (Hs & Hn & Hu)%usable_elem E'. rewrite Hres in Hu; [done | | done].
    by apply list_elem_of_filter.
Qed.

Lemma greater_search size : 0 ≤ size →
  ∃ res, first_region not behindOnly 0 (from_upper_bound size (sizes_ g)) h = Ret (res, h) ∧
    match res with
    | None => ∀ q d, usable gs not behindOnly q d → rlength d ≤ size
    | Some p => ∃ r, usable gs not behindOnly p r ∧ size < rlength r ∧
        ∀ q d, usable gs not behindOnly q d → size < rlength d → rlength r ≤ rlength d
    end.
Proof.
  intros Hc. destruct (first_region_all h _ nodes not behindOnly
    (from_upper_bound size (sizes_ g)) Hl) as (res & E & Hres).
  { apply sized_filter. by eapply sizes_sized. }
  { apply Forall_forall. intros e [? _]%list_elem_of_filter. lia. }
  exists res. split; [done|]. destruct res as [p|].
  - destruct Hres as (r & m1 & m2 & Em & Hn & Hp & Hm1).
    assert (Hr : (rlength r, p) ∈ from_upper_bound size (sizes_ g)) by (rewrite Em; set_solver).
    apply list_elem_of_filter in Hr as [Hr Hs]. exists r.
    split_and!; [by apply elem_usable | done |]. intros q d (Hsd & Hnd & Hu)%usable_elem Hd.
    destruct (sorted_before m1 m2 (rlength r, p) (rlength d, q)) as [Hm|Hm].
    + rewrite <- Em. apply filter_sorted. apply Hok.
    + rewrite <- Em. by apply list_elem_of_filter.
    + by rewrite Hm1 in Hu.
    + done.
  - intros q d (Hs & Hn & Hu)%usable_elem. apply Z.nlt_ge. intros E'.
    rewrite Hres in Hu; [done | | done]. by apply list_elem_of_filter.
Qed.

Lemma largest_search clusters :
  ∃ res, first_region not behindOnly clusters (reverse (sizes_ g)) h = Ret (res, h) ∧
    match res with
    | None => ∀ q d, usable gs not behindOnly q d → rlength d < clusters
    | Some p => ∃ r, usable gs not behindOnly p r ∧ clusters ≤ rlength r ∧
        ∀ q d, usable gs not behindOnly q d → rlength d ≤ rlength r
    end.
Proof.
  pose proof Hok as (_ & _ & _ & _ & Hsort & _).
  destruct (first_region_run h _ nodes not behindOnly clusters (reverse (sizes_ g)) Hl)
    as (m1 & m2 & Em & Hm1 & Hres).
  { apply Forall_reverse. by eapply sizes_sized. }
  apply (f_equal reverse) in Em. rewrite reverse_involutive, reverse_app in Em.
  rewrite Forall_forall in Hm1.
  destruct Hres as [[E Hm2]|(p & r & m3 & E & -> & Hn & Hmin & Hp)];
    rewrite E; eexists; (split; [reflexivity|]).
  - intros q d (Hs & Hnd & Hu)%usable_elem. destruct m2 as [|e m2].
    + rewrite reverse_nil, app_nil_l in Em. rewrite Em, elem_of_reverse in Hs.
      by rewrite (Hm1 _ Hs) in Hu.
    + rewrite reverse_cons, <- app_assoc in Em. simpl in Em. rewrite Em in Hs, Hsort.
      destruct (sorted_after _ _ _ _ Hsort Hs) as [Hs'|Hs']; [|simpl in *; lia].
      rewrite elem_of_reverse in Hs'. by rewrite (Hm1 _ Hs') in Hu.
  - rewrite reverse_cons, <- app_assoc in Em. simpl in Em.
    assert (Hsp : (rlength r, p) ∈ sizes_ g) by (rewrite Em; set_solver).
    exists r. split_and!; [by apply elem_usable | done |].
    intros q d (Hs & Hnd & Hu)%usable_elem.
    rewrite Em in Hs, Hsort. destruct (sorted_after _ _ _ _ Hsort Hs) as [Hs'|Hs']; [|done].
    rewrite elem_of_reverse in Hs'. specialize (Hm1 _ Hs' d Hnd). simpl in Hm1. congruence.
Qed.
End search.
End theory.

(** The choice of [best]. *)
Lemma best_run N h g gs clusters not behindOnly :
  gaps_ok N h g gs → 0 ≤ clusters ≤ N → N < 2 ^ 62 →
  let usable := usable gs not behindOnly in
  ∃ res, best g clusters not behindOnly h = Ret (res, h) ∧
    match res with
    | None => ∀ p r, usable p r → rlength r < clusters
    | Some p => ∃ r, usable p r ∧ clusters ≤ rlength r ∧
        (rlength r = clusters ∨
         (∀ q d, usable q d → rlength d ≠ clusters) ∧
         (comfortable clusters < rlength r ∧
            (∀ q d, usable q d → comfortable clusters < rlength d → rlength r ≤ rlength d) ∨
          (∀ q d, usable q d → rlength d ≤ comfortable clusters ∧ rlength d ≤ rlength r)))
    end.
Proof.
  intros Hok Hc HN. pose proof Hok as ((nodes & Hl & Hsub) & _).
  assert (Hcomf : clusters < comfortable clusters).
  { unfold comfortable. rewrite (u64_small (clusters + 512)) by lia. lia. }
  destruct (exact_search N h g gs nodes Hok Hl Hsub not behindOnly clusters) as (exact & Ee & He); [lia|].
  destruct (greater_search N h g gs nodes Hok Hl Hsub not behindOnly (comfortable clusters))
    as (greater & Eg & Hg); [lia|].
  destruct (largest_search N h g gs nodes Hok Hl Hsub not behindOnly clusters) as (res & Er & Hr).
  unfold best. destruct (sizes_ g) as [|s0 sizes] eqn:Esz.
  { exists None. split; [done|]. intros p r [Hin _].
    apply (sizes_elem _ _ _ _ _ _ Hok) in Hin. rewrite Esz in Hin. by apply elem_of_nil in Hin. }
  rewrite <- Esz in *. clear Esz s0 sizes.
  step Ee. destruct exact as [p|].
  { exists (Some p). split; [done|]. destruct He as (r & ? & ?). exists r. split_and!; [done | lia | by left]. }
  step Eg. destruct greater as [p|].
  { exists (Some p). split; [done|]. destruct Hg as (r & ? & ? & ?). exists r.
    split_and!; [done | lia |]. right. split; [done|]. by left. }
  rewrite Er. exists res. split; [done|]. destruct res as [p|]; [|done].
  destruct Hr as (r & ? & ? & ?). exists r. split_and!; [done | lia |]. right. split; [done|].
  right. intros q d Hu. split; [by eapply Hg | eauto].
Qed.

(** C8: the region [best] chooses is a gap that is not passed over and that
    holds the clusters asked for; it is one of exactly the size when there is
    such a gap, otherwise the smallest gap of comfortable size, and otherwise
    the largest one; NULL is returned only when no gap will do. *)
Theorem best_correct N h g gs clusters not behindOnly :
  gaps_ok N h g gs → 0 ≤ clusters ≤ N → N < 2 ^ 62 →
  let usable := usable gs not behindOnly in
  ∃ res, best g clusters not behindOnly h = Ret (res, h) ∧
    match res with
    | None => ∀ p r, usable p r → rlength r < clusters
    | Some p => ∃ r, usable p r ∧ clusters ≤ rlength r ∧
        (rlength r = clusters ∨
         (∀ q d, usable q d → rlength d ≠ clusters) ∧
         (comfortable clusters < rlength r ∧
            (∀ q d, usable q d → comfortable clusters < rlength d → rlength r ≤ rlength d) ∨
          (∀ q d, usable q d → rlength d ≤ comfortable clusters ∧ rlength d ≤ rlength r)))
    end.
Proof. apply best_run. Qed.

(** ** The operations keep the invariant *)
Section operations.
Context `{!Allocator (node winx_volume_region)}.
Context (alloc_total : ∀ h : gmap loc (node winx_volume_region), is_Some (alloc h)).
Context (get_volume_bitmap : Z → Z * BITMAP_DESCRIPTOR).
Context (fuel : nat) (DebugBreak prev_begin : outcome unit).
Context (N : Z) (HN : 0 < N < LLINVALID).
Abbreviation rheap := (gmap loc (node winx_volume_region)).
Implicit Types (h : rheap) (g : GapEnumeration) (gs nodes : gnodes).

Lemma by_lcn_app gs1 gs2 : by_lcn (gs1 ++ gs2) = by_lcn gs1 ++ by_lcn gs2.
Proof. apply fmap_app. Qed.

Lemma by_lcn_Forall (P : Z → Prop) gs :
  Forall (fun r => P (rlcn r)) gs.*2 → Forall (fun e => P e.1) (by_lcn gs).
Proof. intros H. unfold by_lcn. rewrite Forall_fmap. rewrite Forall_fmap in H. exact H. Qed.

(** The gaps before and behind a gap. *)
Lemma wf_around gs1 p r gs2 :
  regions_wf N (gs1 ++ (p, r) :: gs2).*2 →
  region_ok N r ∧
  Forall (fun d => region_ok N d ∧ rend d < rlcn r) gs1.*2 ∧
  Forall (fun d => region_ok N d ∧ rend r < rlcn d) gs2.*2 ∧
  regions_wf N (gs1.*2 ++ gs2.*2).
Proof.
  rewrite fmap_app. simpl. intros Hwf. pose proof Hwf as (Hr & H12 & H2 & H1)%regions_wf_head.
  split_and!; [done | done | | done].
  apply regions_wf_app in H12 as (_ & [Hok _] & _).
  rewrite Forall_forall in *. auto.
Qed.

Lemma by_lcn_around gs1 p r gs2 :
  regions_wf N (gs1 ++ (p, r) :: gs2).*2 →
  Forall (fun e => e.1 < rlcn r) (by_lcn gs1) ∧ Forall (fun e => rlcn r < e.1) (by_lcn gs2).
Proof.
  intros (Hr & H1 & H2 & _)%wf_around.
  split; [apply (by_lcn_Forall (fun z => z < rlcn r)) | apply (by_lcn_Forall (fun z => rlcn r < z))];
    (eapply Forall_impl; [eassumption|]); unfold region_ok, rend in *; simpl; lia.
Qed.

Lemma regions_wf_app_l gs1 gs2 : regions_wf N (gs1 ++ gs2).*2 → regions_wf N gs1.*2.
Proof. rewrite fmap_app. by intros (? & _)%regions_wf_app. Qed.

Lemma filter_regions_run n h head l1 l2 g :
  is_list h head (l1 ++ l2) → regions_wf N (l1 ++ l2).*2 → (length l2 ≤ n)%nat →
  info_ g = head → regions_ g = by_lcn l1 → sizes_ g ≡ₚ by_length l1 →
  multimap_sorted (sizes_ g) →
  ∃ g', filter_regions n head (fst_ptr l2 None) g h = Ret (g', h) ∧ gaps_ok N h g' (l1 ++ l2).
Proof.
  revert n l1 g. induction l2 as [|[p r] l2 IH]; intros n l1 g Hl Hwf Hn Hi Hr Hs Hso.
  - exists g. rewrite app_nil_r in *. split; [by destruct n|].
    split_and!; [exists l1; by subst | by eapply is_list_NoDup | done..].
  - destruct n as [|n]; [simpl in Hn; lia|].
    pose proof (is_list_lookup _ _ _ _ _ _ Hl) as Ep. simpl.
    erewrite st_bind_ret by (apply load_ok; exact Ep). cbn [data next].
    destruct (by_lcn_around _ _ _ _ Hwf) as [H1 _].
    set (g1 := Gaps _ _ _).
    assert (Hnext : (if decide (fst_ptr l2 head = head) then None else fst_ptr l2 head)
                    = fst_ptr l2 None).
    { pose proof (next_is_head _ _ _ _ _ _ Hl) as Hnh. case_decide as Hd.
      - by apply Hnh in Hd as ->.
      - destruct l2 as [|[]]; [by destruct Hd | done]. }
    rewrite Hnext. rewrite (cons_middle _ l1 l2), app_assoc in Hl, Hwf |- *.
    apply IH; [done | done | simpl in Hn; lia | done | | |].
    + unfold g1. simpl. rewrite Hr, by_lcn_app. rewrite <- (app_nil_r (by_lcn l1)) at 1.
      by apply std_insert_app.
    + unfold g1. simpl. rewrite multimap_insert_Permutation, Hs.
      unfold by_length. rewrite fmap_app. by rewrite Permutation_app_comm.
    + unfold g1. by apply multimap_insert_sorted.
Qed.

Lemma gap_filter_run h head l r s :
  is_list h head l → regions_wf N l.*2 →
  ∃ g, filter (Gaps head r s) h = Ret (g, h) ∧ gaps_ok N h g l.
Proof.
  intros Hl Hwf. pose proof Hl as [Hh _].
  destruct (filter_regions_run (size h) h head [] l (Gaps head [] [])) as (g & E & Hok);
    [done | done | by eapply is_list_size | done | done | done | constructor |].
  rewrite <- Hh in E. by exists g.
Qed.

Lemma by_length_middle gs1 p r gs2 :
  by_length (gs1 ++ (p, r) :: gs2) ≡ₚ (rlength r, p) :: by_length (gs1 ++ gs2).
Proof. unfold by_length. rewrite !fmap_app. simpl. by rewrite Permutation_middle. Qed.

Lemma nodes_replace nodes nodes' gs1 p r gs2 r' :
  gs1 ++ (p, r) :: gs2 ⊆ nodes → NoDup (gs1 ++ (p, r) :: gs2).*1 → (p, r') ∈ nodes' →
  (∀ q d, q ≠ p → (q, d) ∈ nodes → (q, d) ∈ nodes') → gs1 ++ (p, r') :: gs2 ⊆ nodes'.
Proof.
  rewrite fmap_app. simpl. intros Hsub Hnd Hp Hq [q d] Hin.
  apply NoDup_app in Hnd as (_ & H1 & [H2 _]%NoDup_cons).
  apply elem_of_app in Hin as [Hin|[Hin|Hin]%elem_of_cons]; [|by simplify_eq|].
  - apply Hq; [|apply Hsub; set_solver]. intros ->. apply (H1 p); [|set_solver].
    apply list_elem_of_fmap. by exists (p, d).
  - apply Hq; [|apply Hsub; set_solver]. intros ->. apply H2, list_elem_of_fmap. by exists (p, d).
Qed.

Lemma NoDup_replace gs1 p (r r' : winx_volume_region) gs2 :
  NoDup (gs1 ++ (p, r) :: gs2).*1 → NoDup (gs1 ++ (p, r') :: gs2).*1.
Proof. by rewrite !fmap_app. Qed.

Lemma NoDup_drop gs1 p (r : winx_volume_region) gs2 :
  NoDup (gs1 ++ (p, r) :: gs2).*1 → NoDup (gs1 ++ gs2).*1.
Proof.
  rewrite !fmap_app. simpl. rewrite !NoDup_app, NoDup_cons. intros (? & H & ? & ?).
  split_and!; [done | | done]. intros x Hx Hx2. apply (H x Hx). by right.
Qed.

(** The clusters of a block map. *)
Definition block_has (c : Z) (b : winx_blockmap) : Prop := bk_lcn b ≤ c < bk_lcn b + bk_length b.

Definition blocks_have (bm : list winx_blockmap) (c : Z) : Prop := Exists (block_has c) bm.

Definition disjoint_blocks (bm : list winx_blockmap) : Prop :=
  ∀ i j b b' c, i ≠ j → bm !! i = Some b → bm !! j = Some b' → block_has c b → ¬ block_has c b'.

Lemma disjoint_blocks_cons b bm :
  disjoint_blocks (b :: bm) → disjoint_blocks bm ∧ ∀ c, block_has c b → ¬ blocks_have bm c.
Proof.
  intros Hd. split.
  - intros i j b1 b2 c Hij H1 H2. apply (Hd (S i) (S j)); [lia | done | done].
  - intros c Hb (b' & (j & Hj)%list_elem_of_lookup & Hb')%Exists_exists.
    by apply (Hd 0%nat (S j) b b' c).
Qed.

Lemma disjoint_blocks_iff b bm :
  disjoint_blocks (b :: bm) ↔ disjoint_blocks bm ∧ ∀ c, block_has c b → ¬ blocks_have bm c.
Proof.
  split; [apply disjoint_blocks_cons|]. intros [Hd Hb] [|i] [|j] b1 b2 c Hij E1 E2 Hc Hc';
    simplify_eq/=; try lia.
  - apply (Hb c Hc), Exists_exists. exists b2. split; [by eapply list_elem_of_lookup_2 | done].
  - apply (Hb c Hc'), Exists_exists. exists b1. split; [by eapply list_elem_of_lookup_2 | done].
  - apply (Hd i j b1 b2 c); [lia | done..].
Qed.

Lemma blocks_have_Permutation bm bm' c : bm ≡ₚ bm' → blocks_have bm c ↔ blocks_have bm' c.
Proof. intros Hp. unfold blocks_have. by rewrite Hp. Qed.

Lemma disjoint_blocks_Permutation bm bm' : bm ≡ₚ bm' → disjoint_blocks bm → disjoint_blocks bm'.
Proof.
  induction 1 as [|b bm bm' Hp IH|b b' bm|bm bm' bm'' _ IH1 _ IH2]; [done | | | auto].
  - rewrite !disjoint_blocks_iff. intros [Hd Hb]. split; [auto|]. intros c Hc.
    rewrite <- (blocks_have_Permutation _ _ _ Hp). auto.
  - rewrite !disjoint_blocks_iff. unfold blocks_have. intros [[Hd H1] H2]. split_and!; [done | |].
    + intros c Hc Hbm. apply (H2 c Hc). by right.
    + intros c Hc [Hc'|Hbm]%Exists_cons; [|by apply (H1 c)]. apply (H2 c Hc'). by left.
Qed.


Section bitmap.
(** The bitmap with its set of free clusters. *)
Context (F : Z → bool) (Hget : bitmap_service N F get_volume_bitmap).
Context (Hfuel : N < 8 * BITMAPBYTES * Z.of_nat fuel).

(** [scan] reads the gaps from the bitmap, whatever they were before. *)
Lemma scan_run h g nodes :
  is_list h (info_ g) nodes →
  ∃ h' g' gs, scan get_volume_bitmap true fuel g h = Ret (g', h') ∧ gaps_ok N h' g' gs ∧
    (∀ c, covers gs.*2 c ↔ 0 ≤ c < N ∧ F c = true).
Proof.
  intros Hl. assert (∃ h1, free g h = Ret (Gaps None [] [], h1)) as (h1 & E1).
  { unfold free. destruct (info_ g) as [p|] eqn:Ei; [|by eexists].
    unfold winx_release_free_volume_regions.
    destruct (winx_list_destroy_spec (size h) _ _ _ Hl) as (h1 & E & _);
      [by eapply is_list_size|].
    step E. by eexists. }
  unfold scan. step E1.
  destruct (free_regions_run alloc_total None ltac:(done) N F HN get_volume_bitmap Hget
    fuel fuel 0 tt h1 Hfuel) as (h2 & head & d & l & E2 & Hl2 & Hwf & Hc).
  step E2. cbn beta iota.
  destruct (gap_filter_run h2 head l [] [] Hl2 Hwf) as (g' & E3 & Hok).
  exists h2, g', l. done.
Qed.
(** *** [pop] *)
(** Taking clusters off the front of a gap. *)
Definition front_cut (p : loc) (r : winx_volume_region) (len : Z) : gnodes :=
  if len <? rlength r then [(p, Region (rlcn r + len) (rlength r - len))] else [].

Lemma front_cut_region p r len :
  0 < len → 0 < rlength r → len ≤ rlength r →
  (front_cut p r len).*2 = cut_region (rlcn r) len r.
Proof.
  intros. unfold front_cut, cut_region, rend. rewrite (proj2 (Z.ltb_ge (rlcn r) _)) by lia.
  destruct (Z.ltb_spec len (rlength r)).
  - rewrite (proj2 (Z.ltb_lt (rlcn r + len) _)), Z.max_r by lia. simpl. do 2 f_equal. lia.
  - by rewrite (proj2 (Z.ltb_ge (rlcn r + len) _)) by lia.
Qed.

Abbreviation pop_here := (pop get_volume_bitmap true fuel DebugBreak).

Lemma pop_gap h g gs1 p r gs2 len :
  gaps_ok N h g (gs1 ++ (p, r) :: gs2) → 0 < len ≤ rlength r →
  ∃ h' g', pop_here g (rlcn r) len h = Ret (g', h') ∧
    gaps_ok N h' g' (gs1 ++ front_cut p r len ++ gs2).
Proof.
  intros ((nodes & Hl & Hsub) & Hnd & Hreg & Hsiz & Hsort & Hwf) Hlen.
  pose proof (by_lcn_around _ _ _ _ Hwf) as [H1 H2].
  pose proof (wf_around _ _ _ _ Hwf) as ((Hr0 & Hr1 & Hr2) & _).
  assert (Hwf' : regions_wf N (gs1 ++ front_cut p r len ++ gs2).*2).
  { rewrite !fmap_app, front_cut_region by lia. apply regions_wf_cut; [lia|].
    by rewrite fmap_app in Hwf. }
  assert (Hp : (p, r) ∈ nodes) by (apply Hsub; set_solver).
  unfold pop, LLINVALID, rend in *. rewrite Hreg, by_lcn_app in *. cbn [by_lcn fmap list_fmap] in *.
  cbn [fst snd] in *. rewrite std_find_app, std_erase_app by done.
  destruct (node_load _ _ _ _ _ Hl Hp) as (nd & Eld & Hd).
  rewrite (st_bind_ret _ _ _ _ _ Eld), Hd.
  rewrite by_length_middle in Hsiz.
  pose proof (erase_value_cons _ _ _ _ Hsiz) as Hers.
  pose proof (erase_value_sorted (rlength r) p _ Hsort) as Hsrt.
  unfold front_cut in *. destruct (Z.ltb_spec len (rlength r)) as [Hlt|Hge].
  - destruct (node_update _ _ _ _ _ (fun r => set_rlcn (u64 (rlcn r + len)) r) Hl Hp)
      as (h1 & nodes1 & E1 & Hl1 & Hp1 & Hq1 & _).
    step E1.
    destruct (node_update _ _ _ _ _ (fun r => set_rlength (u64 (rlength r - len)) r) Hl1 Hp1)
      as (h2 & nodes2 & E2 & Hl2 & Hp2 & Hq2 & _).
    step E2.
    destruct (node_load _ _ _ _ _ Hl2 Hp2) as (nd2 & Eld2 & Hd2).
    rewrite (st_bind_ret _ _ _ _ _ Eld2), Hd2.
    unfold set_rlength, set_rlcn in *. simpl in *. rewrite !u64_small in * by lia.
    do 2 eexists. split; [reflexivity|]. split_and!; cbn [info_ regions_ sizes_].
    + exists nodes2. split; [done|]. eapply nodes_replace; eauto.
    + by eapply NoDup_replace.
    + rewrite by_lcn_app. simpl. apply std_insert_app.
      * eapply Forall_impl; [exact H1|]. simpl. lia.
      * pose proof (by_lcn_around _ _ _ _ Hwf') as [_ ?]. done.
    + by rewrite multimap_insert_Permutation, Hers, by_length_middle.
    + by apply multimap_insert_sorted.
    + done.
  - rewrite (proj2 (Z.ltb_ge (rlength r) _)) by lia.
    do 2 eexists. split; [reflexivity|]. simpl in *. split_and!; cbn [info_ regions_ sizes_]; try done.
    + exists nodes. split; [done|]. intros x Hx. apply Hsub. set_solver.
    + by eapply NoDup_drop.
    + by rewrite by_lcn_app.
Qed.
(** The cluster behind a gap is in use. *)
Lemma wf_rend_free gs1 p r gs2 :
  regions_wf N (gs1 ++ (p, r) :: gs2).*2 → ¬ covers (gs1 ++ (p, r) :: gs2).*2 (rend r).
Proof.
  intros ((? & ? & ?) & Hg1 & Hg2 & _)%wf_around. rewrite fmap_app. simpl.
  rewrite covers_app, covers_cons. unfold rend in *. rewrite Forall_forall in Hg1, Hg2.
  intros [(d & Hd & ?)|[?|(d & Hd & ?)]]; [specialize (Hg1 _ Hd) | lia | specialize (Hg2 _ Hd)];
    unfold rend in *; lia.
Qed.

Lemma covers_cut gs1 p r gs2 len c :
  regions_wf N (gs1 ++ (p, r) :: gs2).*2 → 0 < len ≤ rlength r →
  covers (gs1 ++ front_cut p r len ++ gs2).*2 c ↔
  covers (gs1 ++ (p, r) :: gs2).*2 c ∧ ¬ rlcn r ≤ c < rlcn r + len.
Proof.
  intros ((? & ? & ?) & Hg1 & Hg2 & _)%wf_around Hlen. rewrite !fmap_app, front_cut_region by lia.
  simpl. rewrite !covers_app, covers_cons, cut_region_covers by lia.
  assert (Hc1 : ∀ c, covers gs1.*2 c → c < rlcn r).
  { intros c' (d & Hd & ?). rewrite Forall_forall in Hg1. specialize (Hg1 _ Hd). lia. }
  assert (Hc2 : ∀ c, covers gs2.*2 c → rend r < c).
  { intros c' (d & Hd & ?). rewrite Forall_forall in Hg2. specialize (Hg2 _ Hd). lia. }
  split; [|naive_solver]. intros [Hc|[Hc|Hc]]; [|tauto|].
  - specialize (Hc1 c Hc). split; [by left | lia].
  - specialize (Hc2 c Hc). unfold rend in *. split; [by do 2 right | lia].
Qed.

(** No gap starts at the cluster: the gaps are read again. *)
Lemma pop_no_gap h g gs lcn len :
  gaps_ok N h g gs → lcn ∉ (rlcn ∘ snd) <$> gs →
  ∃ h' g' gs', pop_here g lcn len h = Ret (g', h') ∧ gaps_ok N h' g' gs' ∧
    (∀ c, covers gs'.*2 c ↔ 0 ≤ c < N ∧ F c = true).
Proof.
  intros ((nodes & Hl & _) & _ & Hreg & _) Hin.
  destruct (scan_run h g nodes Hl) as (h' & g' & gs' & E & Hok' & Hcov).
  exists h', g', gs'. split_and!; [|done..].
  unfold pop. rewrite std_find_none; [done|]. rewrite Hreg. apply Forall_fmap, Forall_forall.
  intros [p r] Hpr. simpl. intros <-. apply Hin, list_elem_of_fmap. by exists (p, r).
Qed.

(** Taking out a range of free clusters: it leaves the gaps, or they are read
    again from the bitmap. *)
Lemma pop_covers h g gs lcn len :
  gaps_ok N h g gs → 0 < len → (∀ c, lcn ≤ c < lcn + len → covers gs.*2 c) →
  ∃ h' g' gs', pop_here g lcn len h = Ret (g', h') ∧ gaps_ok N h' g' gs' ∧
    ((∀ c, covers gs'.*2 c ↔ covers gs.*2 c ∧ ¬ lcn ≤ c < lcn + len) ∨
     (∀ c, covers gs'.*2 c ↔ 0 ≤ c < N ∧ F c = true)).
Proof.
  intros Hok Hlen Hc. pose proof Hok as ((nodes & Hl & _) & _ & Hreg & _ & _ & Hwf).
  destruct (decide (lcn ∈ (rlcn ∘ snd) <$> gs)) as [Hin|Hin].
  - apply list_elem_of_fmap in Hin as ([p r] & -> & (gs1 & gs2 & ->)%list_elem_of_split).
    cbn [compose snd] in *.
    assert (len ≤ rlength r).
    { destruct (decide (len ≤ rlength r)); [done|]. exfalso. eapply wf_rend_free; [exact Hwf|].
      apply Hc. pose proof (wf_around _ _ _ _ Hwf) as ((? & ? & ?) & _). unfold rend. lia. }
    destruct (pop_gap h g gs1 p r gs2 len Hok) as (h' & g' & E & Hok'); [done|].
    eexists _, _, _. split_and!; [exact E | exact Hok' |]. left. intros c. by apply covers_cut.
  - destruct (pop_no_gap h g gs lcn len Hok Hin) as (h' & g' & gs' & ? & ? & ?).
    exists h', g', gs'. auto.
Qed.

(** Once the gaps have been read again, no gap starts where a block does. *)
Lemma pop_blocks_again bm h g gs :
  gaps_ok N h g gs → (∀ c, covers gs.*2 c ↔ 0 ≤ c < N ∧ F c = true) →
  Forall (fun b => 0 < bk_length b) bm → (∀ c, blocks_have bm c → ¬ covers gs.*2 c) →
  ∃ h' g' gs', pop_blocks get_volume_bitmap true fuel DebugBreak g bm h = Ret (g', h') ∧
    gaps_ok N h' g' gs' ∧ (∀ c, covers gs'.*2 c ↔ 0 ≤ c < N ∧ F c = true).
Proof.
  intros Hok HF Hlen. revert h g gs Hok HF.
  induction Hlen as [|b bm Hb Hlen IH]; intros h g gs Hok HF Hc; [by exists h, g, gs|].
  destruct (pop_no_gap h g gs (bk_lcn b) (bk_length b) Hok) as (h1 & g1 & gs1 & E1 & Hok1 & Hcov).
  { intros ([p r] & E & Hin)%list_elem_of_fmap. simpl in E. apply (Hc (bk_lcn b)).
    - left. unfold block_has. lia.
    - exists r. split; [apply list_elem_of_fmap; by exists (p, r)|].
      destruct Hok as (_ & _ & _ & _ & _ & [Hwf _]). rewrite Forall_forall in Hwf.
      destruct (Hwf r) as (? & ? & ?); [apply list_elem_of_fmap; by exists (p, r)|].
      unfold rend. lia. }
  simpl. step E1. apply (IH h1 g1 gs1 Hok1 Hcov).
  intros c Hbm. rewrite Hcov, <- HF. apply Hc. by right.
Qed.

(** Taking the blocks of a map that lie in the gaps and are in use now out of
    them. *)
Lemma pop_blocks_run bm h g gs :
  gaps_ok N h g gs → Forall (fun b => 0 < bk_length b) bm → disjoint_blocks bm →
  (∀ c, blocks_have bm c → covers gs.*2 c) →
  (∀ c, blocks_have bm c → F c = false) →
  ∃ h' g' gs', pop_blocks get_volume_bitmap true fuel DebugBreak g bm h = Ret (g', h') ∧
    gaps_ok N h' g' gs' ∧
    ((∀ c, covers gs'.*2 c ↔ covers gs.*2 c ∧ ¬ blocks_have bm c) ∨
     (∀ c, covers gs'.*2 c ↔ 0 ≤ c < N ∧ F c = true)).
Proof.
  revert h g gs. unfold blocks_have.
  induction bm as [|b bm IH]; intros h g gs Hok Hlen Hdis Hc HF.
  { exists h, g, gs. split_and!; [done | done |]. left. intros c. rewrite Exists_nil. tauto. }
  apply Forall_cons in Hlen as [Hb Hlen]. apply disjoint_blocks_cons in Hdis as [Hdis Hdb].
  assert (Hcb : ∀ c, block_has c b → covers gs.*2 c) by (intros c ?; apply Hc; by left).
  destruct (pop_covers h g gs (bk_lcn b) (bk_length b) Hok Hb Hcb)
    as (h1 & g1 & gs1 & E1 & Hok1 & Hcov).
  simpl. step E1. destruct Hcov as [Hcov|Hcov].
  - destruct (IH h1 g1 gs1 Hok1 Hlen Hdis) as (h' & g' & gs' & E' & Hok' & Hcov').
    + intros c Hbm. apply Hcov. split; [apply Hc; by right|]. intros Hb'. by apply (Hdb c).
    + intros c Hbm. apply HF. by right.
    + exists h', g', gs'. split_and!; [done | done |]. destruct Hcov' as [Hcov'|?]; [left | by right].
      intros c. rewrite Hcov', Hcov, Exists_cons. unfold block_has at 2. tauto.
  - (* the gaps were read again *)
    destruct (pop_blocks_again bm h1 g1 gs1 Hok1 Hcov Hlen) as (h' & g' & gs' & ? & ? & ?).
    { intros c Hbm [_ Ht]%Hcov. rewrite HF in Ht; [done | by right]. }
    exists h', g', gs'. auto.
Qed.
End bitmap.

(** *** [push] *)

(** Erasing the length of a gap and inserting the length of a node. *)
Lemma erase_size_run h g nodes p r :
  is_list h (info_ g) nodes → (p, r) ∈ nodes →
  erase_size p g h = Ret (Gaps (info_ g) (regions_ g) (erase_value (rlength r) p (sizes_ g)), h).
Proof.
  intros Hl Hp. destruct (node_load _ _ _ _ _ Hl Hp) as (nd & E & Hd).
  unfold erase_size. by rewrite (st_bind_ret _ _ _ _ _ E), Hd.
Qed.

Lemma insert_size_run h g nodes p r :
  is_list h (info_ g) nodes → (p, r) ∈ nodes →
  insert_size p g h = Ret (Gaps (info_ g) (regions_ g) (multimap_insert (rlength r) p (sizes_ g)), h).
Proof.
  intros Hl Hp. destruct (node_load _ _ _ _ _ Hl Hp) as (nd & E & Hd).
  unfold insert_size. by rewrite (st_bind_ret _ _ _ _ _ E), Hd.
Qed.

Lemma gap_bounds h g gs1 p r gs2 :
  gaps_ok N h g (gs1 ++ (p, r) :: gs2) → 0 ≤ rlcn r ∧ 0 < rlength r ∧ rlcn r + rlength r ≤ N.
Proof. intros (_ & _ & _ & _ & _ & ((? & ? & ?) & _)%wf_around). by unfold rend in *. Qed.

(** The previous gap grows. *)
Lemma merge_prev_run h g gs1 p r gs2 len :
  gaps_ok N h g (gs1 ++ (p, r) :: gs2) → 0 < len → rlcn r + rlength r + len ≤ N →
  regions_wf N (gs1 ++ (p, Region (rlcn r) (rlength r + len)) :: gs2).*2 →
  ∃ h' g', merge_prev g p len h = Ret (g', h') ∧
    gaps_ok N h' g' (gs1 ++ (p, Region (rlcn r) (rlength r + len)) :: gs2).
Proof.
  intros Hok Hlen Hle Hwf'. pose proof (gap_bounds _ _ _ _ _ _ Hok) as (? & ? & ?).
  destruct Hok as ((nodes & Hl & Hsub) & Hnd & Hreg & Hsiz & Hsort & Hwf).
  assert (Hp : (p, r) ∈ nodes) by (apply Hsub; set_solver).
  unfold merge_prev. step (erase_size_run _ _ _ _ _ Hl Hp).
  destruct (node_update _ _ _ _ _ (fun r => set_rlength (u64 (rlength r + len)) r) Hl Hp)
    as (h1 & nodes1 & E1 & Hl1 & Hp1 & Hq1 & _).
  step E1. unfold set_rlength, LLINVALID in *. cbn beta in *.
  rewrite u64_small in Hp1 by lia.
  do 2 eexists. split; [eapply (insert_size_run _ (Gaps _ _ _)); eassumption|].
  rewrite by_length_middle in Hsiz. split_and!; cbn [info_ regions_ sizes_ rlength]; try done.
  - exists nodes1. split; [done|]. eapply nodes_replace; eauto.
  - by eapply NoDup_replace.
  - by rewrite Hreg, !by_lcn_app.
  - by rewrite multimap_insert_Permutation, (erase_value_cons _ _ _ _ Hsiz), by_length_middle.
  - by apply multimap_insert_sorted, erase_value_sorted.
Qed.

(** The next gap grows to the front. *)
Lemma merge_next_run h g gs1 p r gs2 lcn len :
  gaps_ok N h g (gs1 ++ (p, r) :: gs2) → 0 ≤ lcn → 0 < len → lcn + len = rlcn r →
  regions_wf N (gs1 ++ (p, Region lcn (rlength r + len)) :: gs2).*2 →
  ∃ h' g', merge_next g p lcn (rlcn r) len h = Ret (g', h') ∧
    gaps_ok N h' g' (gs1 ++ (p, Region lcn (rlength r + len)) :: gs2).
Proof.
  intros Hok Hlcn Hlen Hle Hwf'. pose proof (gap_bounds _ _ _ _ _ _ Hok) as (? & ? & ?).
  destruct Hok as ((nodes & Hl & Hsub) & Hnd & Hreg & Hsiz & Hsort & Hwf).
  assert (Hp : (p, r) ∈ nodes) by (apply Hsub; set_solver).
  pose proof (by_lcn_around _ _ _ _ Hwf) as [Hb1 Hb2].
  pose proof (by_lcn_around _ _ _ _ Hwf') as [Hb1' Hb2'].
  unfold merge_next. step (erase_size_run _ _ _ _ _ Hl Hp).
  destruct (node_update _ _ _ _ _ (set_rlcn lcn) Hl Hp) as (h1 & nodes1 & E1 & Hl1 & Hp1 & Hq1 & _).
  step E1.
  destruct (node_update _ _ _ _ _ (fun r => set_rlength (u64 (rlength r + len)) r) Hl1 Hp1)
    as (h2 & nodes2 & E2 & Hl2 & Hp2 & Hq2 & _).
  step E2. unfold set_rlength, set_rlcn, LLINVALID in *.
  cbn [rlength rlcn] in *. rewrite u64_small in Hp2 by lia.
  destruct (node_load _ _ _ _ _ Hl2 Hp2) as (nd2 & Eld2 & Hd2).
  rewrite (st_bind_ret _ _ _ _ _ Eld2), Hd2.
  do 2 eexists. split; [eapply (insert_size_run _ (Gaps _ _ _)); eassumption|].
  rewrite by_length_middle in Hsiz. split_and!; cbn [info_ regions_ sizes_ rlength rlcn]; try done.
  - exists nodes2. split; [done|]. eapply nodes_replace; eauto.
  - by eapply NoDup_replace.
  - rewrite Hreg, !by_lcn_app. cbn [by_lcn fmap list_fmap fst snd rlcn].
    by rewrite std_erase_app, std_insert_app.
  - by rewrite multimap_insert_Permutation, (erase_value_cons _ _ _ _ Hsiz), by_length_middle.
  - by apply multimap_insert_sorted, erase_value_sorted.
Qed.

(** The block closes the space between two gaps. *)
Lemma merge_both_run h g gs1 p r q d gs2 len :
  gaps_ok N h g (gs1 ++ (p, r) :: (q, d) :: gs2) → 0 < len →
  rlcn r + rlength r + len = rlcn d →
  regions_wf N (gs1 ++ (p, Region (rlcn r) (rlength r + (len + rlength d))) :: gs2).*2 →
  ∃ h' g', merge_both g p q (rlcn d) len h = Ret (g', h') ∧
    gaps_ok N h' g' (gs1 ++ (p, Region (rlcn r) (rlength r + (len + rlength d))) :: gs2).
Proof.
  intros Hok Hlen Hle Hwf'. pose proof (gap_bounds _ _ _ _ _ _ Hok) as (? & ? & ?).
  pose proof Hok as Hok'. rewrite cons_middle, app_assoc in Hok'.
  pose proof (gap_bounds _ _ _ _ _ _ Hok') as (? & ? & ?).
  destruct Hok' as (_ & Hnd & _ & Hsz & _ & Hwfd). rewrite by_length_middle, <- app_assoc in Hsz.
  pose proof (by_lcn_around _ _ _ _ Hwfd) as [Hb1 Hb2]. apply NoDup_drop in Hnd.
  rewrite <- app_assoc in Hnd. cbn [app] in Hsz, Hnd. rewrite by_length_middle in Hsz.
  destruct Hok as ((nodes & Hl & Hsub) & Hndq & Hreg & _ & Hsort & Hwf).
  assert (Hp : (p, r) ∈ nodes) by (apply Hsub; set_solver).
  assert (Hq : (q, d) ∈ nodes) by (apply Hsub; set_solver).
  unfold merge_both. step (erase_size_run _ _ _ _ _ Hl Hp).
  step (erase_size_run _ (Gaps _ _ _) _ _ _ Hl Hq). cbn [info_ regions_ sizes_].
  destruct (node_load _ _ _ _ _ Hl Hq) as (nd & Eld & Hd). rewrite (st_bind_ret _ _ _ _ _ Eld), Hd.
  destruct (node_update _ _ _ _ _
    (fun r => set_rlength (u64 (rlength r + u64 (len + rlength d))) r) Hl Hp)
    as (h1 & nodes1 & E1 & Hl1 & Hp1 & Hq1 & _).
  step E1. unfold set_rlength, LLINVALID in *. cbn beta in *.
  rewrite !u64_small in Hp1 by (rewrite ?u64_small; lia).
  do 2 eexists. split; [eapply (insert_size_run _ (Gaps _ _ _)); eassumption|].
  split_and!; cbn [info_ regions_ sizes_ rlength rlcn]; try done.
  - exists nodes1. split; [done|]. eapply nodes_replace; [| done | done | done].
    intros x Hx. apply Hsub. set_solver.
  - by eapply NoDup_replace.
  - rewrite Hreg. rewrite cons_middle, (app_assoc gs1), by_lcn_app. cbn [by_lcn fmap list_fmap fst snd].
    rewrite std_erase_app by done. by rewrite !by_lcn_app, <- app_assoc.
  - rewrite multimap_insert_Permutation, by_length_middle. constructor.
    apply erase_value_cons. apply erase_value_cons. by rewrite Hsz, Permutation_swap.
  - by apply multimap_insert_sorted, erase_value_sorted, erase_value_sorted.
Qed.
(** A new gap is linked behind some node of the list. *)
Lemma insert_region_run h g gs1 gs2 prev lcn len :
  gaps_ok N h g (gs1 ++ gs2) → gs1 ++ gs2 ≠ [] →
  prev = last (by_lcn gs1) →
  regions_wf N (gs1.*2 ++ Region lcn len :: gs2.*2) →
  ∃ x h' g', insert_region g prev lcn len h = Ret (g', h') ∧
    gaps_ok N h' g' (gs1 ++ (x, Region lcn len) :: gs2).
Proof.
  intros ((nodes & Hl & Hsub) & Hnd & Hreg & Hsiz & Hsort & Hwf) Hne -> Hwf'.
  destruct (alloc_total h) as [x Hx]. pose proof (alloc_fresh _ _ Hx) as Hfr.
  assert (Hitem : ∃ k item a, (match last (by_lcn gs1) with Some e => Some e
                               | None => last (regions_ g) end) = Some (k, item) ∧ (item, a) ∈ nodes).
  { assert (∀ gs, gs ⊆ nodes → gs ≠ [] →
      ∃ k item a, last (by_lcn gs) = Some (k, item) ∧ (item, a) ∈ nodes) as Hlast.
    { intros gs Hg Hn. destruct gs as [|[p a] gs _] using rev_ind; [done|].
      exists (rlcn a), p, a. rewrite by_lcn_app. unfold by_lcn at 2. simpl. rewrite last_snoc.
      split; [done | apply Hg; set_solver]. }
    destruct (decide (gs1 = [])) as [->|Hn1].
    - simpl. rewrite Hreg. by apply Hlast.
    - destruct (Hlast gs1) as (k & p & a & -> & ?); [set_solver | done |]. by exists k, p, a. }
  destruct Hitem as (k & item & a & Hitem & (l1 & l2 & ->)%list_elem_of_split).
  unfold insert_region. rewrite Hitem.
  destruct (winx_list_insert_after h (info_ g) l1 l2 item a x (Region 0 0) sizeof_region Hl Hx)
    as (h1 & E1 & Hl1 & _); [unfold sizeof_region, sizeof_list_entry; lia|].
  step E1. cbn beta iota.
  rewrite cons_middle, app_assoc in Hl1.
  destruct (is_list_update _ _ _ _ _ _ (set_rlcn lcn) Hl1) as (h2 & E2 & Hl2 & _).
  step E2.
  destruct (is_list_update _ _ _ _ _ _ (set_rlength len) Hl2) as (h3 & E3 & Hl3 & _).
  step E3. unfold set_rlcn, set_rlength in Hl3. cbn [rlcn rlength] in Hl3.
  assert (Hxg : x ∉ (gs1 ++ gs2).*1).
  { intros ([p d] & -> & Hin%Hsub)%list_elem_of_fmap.
    destruct (node_load _ _ _ _ _ Hl Hin) as (nd & E & _). simpl in E, Hfr. by rewrite Hfr in E. }
  exists x. do 2 eexists. split; [reflexivity|].
  assert (Hwfx : regions_wf N (gs1 ++ (x, Region lcn len) :: gs2).*2) by by rewrite fmap_app.
  pose proof (by_lcn_around _ _ _ _ Hwfx) as [Hb1 Hb2].
  split_and!; cbn [info_ regions_ sizes_]; try done.
  - eexists. split; [exact Hl3|]. intros y Hy. specialize (Hsub y).
    rewrite !elem_of_app, !elem_of_cons in *. set_solver.
  - rewrite fmap_app in Hxg, Hnd |- *. simpl. rewrite <- Permutation_middle. by apply NoDup_cons.
  - rewrite Hreg, !by_lcn_app. by apply std_insert_app.
  - by rewrite multimap_insert_Permutation, by_length_middle, Hsiz.
  - by apply multimap_insert_sorted.
Qed.

(** A range in use splits the gaps into those before and those behind it. *)
Lemma gap_split gs lcn len :
  regions_wf N gs.*2 → 0 < len → (∀ c, lcn ≤ c < lcn + len → ¬ covers gs.*2 c) →
  ∃ gs1 gs2, gs = gs1 ++ gs2 ∧ Forall (fun r => rend r ≤ lcn) gs1.*2 ∧
    Forall (fun r => lcn + len ≤ rlcn r) gs2.*2.
Proof.
  intros Hwf Hlen. induction gs as [|[p r] gs IH]; intros Hc.
  { exists [], []. split_and!; constructor. }
  cbn [fmap list_fmap snd] in *. apply regions_wf_cons in Hwf as ((? & ? & ?) & Hf & Hwf).
  destruct (decide (rlcn r ≤ lcn)) as [Hle|Hgt].
  - destruct (IH Hwf) as (gs1 & gs2 & -> & Hg1 & Hg2).
    { intros c Hr Hcv. apply (Hc c Hr). apply covers_cons. by right. }
    exists ((p, r) :: gs1), gs2. split_and!; [done | | done]. constructor; [|done]. simpl.
    destruct (decide (rend r ≤ lcn)); [done|]. exfalso. apply (Hc lcn); [lia|].
    apply covers_cons. left. lia.
  - exists [], ((p, r) :: gs). split_and!; [done | constructor |].
    assert (lcn + len ≤ rlcn r).
    { destruct (decide (lcn + len ≤ rlcn r)); [done|]. exfalso. apply (Hc (rlcn r)); [lia|].
      apply covers_cons. left. unfold rend in *. lia. }
    constructor; [done|]. eapply Forall_impl; [exact Hf|]. simpl. unfold rend in *. lia.
Qed.

Lemma next_region_found gs1 gs2 k :
  Forall (fun r => rlcn r < k) gs1.*2 → regions_wf N gs2.*2 →
  Forall (fun r => k ≤ rlcn r) gs2.*2 →
  std_find k (by_lcn (gs1 ++ gs2)) =
  match gs2 with (q, d) :: _ => if rlcn d =? k then Some q else None | [] => None end.
Proof.
  intros Hg1 Hwf Hg2. rewrite by_lcn_app. apply (by_lcn_Forall (fun z => z < k)) in Hg1.
  destruct gs2 as [|[q d] gs2]; cbn [fmap list_fmap snd by_lcn fst] in *.
  { rewrite app_nil_r. apply std_find_none. eapply Forall_impl; [exact Hg1|]. simpl. lia. }
  destruct (Z.eqb_spec (rlcn d) k) as [<-|Hne]; [by apply std_find_app|].
  apply std_find_none, Forall_app. split; [eapply Forall_impl; [exact Hg1|]; simpl; lia|].
  apply (by_lcn_around [] q d gs2) in Hwf as [_ Hb]. apply Forall_cons in Hg2 as [? _].
  constructor; [done|]. eapply Forall_impl; [exact Hb|]. simpl. lia.
Qed.

(** The state [push_block] finds: the gap before the block, whether it ends
    where the block starts, and the gap that starts where the block ends. *)
Lemma merges_prev_run h g gs1 p r gs2 lcn :
  gaps_ok N h g (gs1 ++ (p, r) :: gs2) →
  merges_prev (Some (rlcn r, p)) lcn h = Ret (rend r =? lcn, h).
Proof.
  intros Hok. pose proof (gap_bounds _ _ _ _ _ _ Hok) as (? & ? & ?).
  destruct Hok as ((nodes & Hl & Hsub) & _). assert (Hp : (p, r) ∈ nodes) by (apply Hsub; set_solver).
  destruct (node_load _ _ _ _ _ Hl Hp) as (nd & E & Hd). unfold merges_prev.
  rewrite (st_bind_ret _ _ _ _ _ E), Hd. unfold LLINVALID in *. by rewrite u64_small by lia.
Qed.

(** The gap a block is merged with on either side, if there is one. *)
Definition prev_hit gs1 (lcn : Z) : option loc :=
  match last gs1 with
  | Some (p, a) => if rend a =? lcn then Some p else None
  | None => None
  end.

Definition next_hit gs2 (k : Z) : option loc :=
  match gs2 with
  | (q, d) :: _ => if rlcn d =? k then Some q else None
  | [] => None
  end.

Abbreviation push_here := (push_block get_volume_bitmap true fuel DebugBreak prev_begin).

(** [push_block] takes one of four ways. *)
Lemma push_block_run h g gs1 gs2 lcn len :
  gaps_ok N h g (gs1 ++ gs2) → gs1 ++ gs2 ≠ [] → 0 ≤ lcn → 0 < len → lcn + len ≤ N →
  Forall (fun r => rend r ≤ lcn) gs1.*2 → Forall (fun r => lcn + len ≤ rlcn r) gs2.*2 →
  prev_begin = Ret tt ∨ gs1 ≠ [] →
  push_here g lcn len h =
  (g' ← match prev_hit gs1 lcn, next_hit gs2 (lcn + len) with
        | Some p, Some n => merge_both g p n (lcn + len) len
        | Some p, None => merge_prev g p len
        | None, Some n => merge_next g n lcn (lcn + len) len
        | None, None => insert_region g (last (by_lcn gs1)) lcn len
        end;
   mret (true, g')) h.
Proof.
  intros Hok Hne Hlcn Hlen HlN Hg1 Hg2 Hpb.
  pose proof Hok as ((nodes & Hl & Hsub) & _ & Hreg & _ & _ & Hwf).
  assert (Hinfo : ∃ i, info_ g = Some i).
  { destruct (info_ g) as [i|] eqn:Ei; [by exists i|]. destruct Hl as [Hn _].
    destruct nodes as [|[]]; [|done]. destruct (gs1 ++ gs2) as [|x l]; [done|].
    specialize (Hsub x). set_solver. }
  destruct Hinfo as [i Hi]. rewrite fmap_app in Hwf.
  pose proof Hwf as ([Hok1 _] & Hwf2 & _)%regions_wf_app. unfold LLINVALID in *.
  assert (Hlt : Forall (fun r => rlcn r < lcn) gs1.*2).
  { rewrite Forall_forall in *. intros r Hr. specialize (Hok1 _ Hr) as (? & ? & ?).
    specialize (Hg1 _ Hr). unfold rend in *. lia. }
  assert (Hpr : prev_region prev_begin g lcn = Ret (last (by_lcn gs1))).
  { unfold prev_region. rewrite Hreg, by_lcn_app, before_lower_bound_app.
    - destruct (last (by_lcn gs1)) eqn:El; [done|]. apply last_None in El.
      destruct Hpb as [->|Hn]; [done|]. by destruct gs1.
    - by apply (by_lcn_Forall (fun z => z < lcn)).
    - apply (by_lcn_Forall (fun z => lcn ≤ z)). eapply Forall_impl; [exact Hg2|]. simpl. lia. }
  assert (Hnx : std_find (lcn + len) (regions_ g) = next_hit gs2 (lcn + len)).
  { rewrite Hreg. apply next_region_found; [|done..].
    eapply Forall_impl; [exact Hlt|]. simpl. lia. }
  unfold push_block. erewrite st_bind_ret by (unfold st_lift; rewrite Hpr; reflexivity).
  words. rewrite Hnx. unfold prev_hit.
  destruct gs1 as [|[p a] gs1 _] using rev_ind.
  - step (eq_refl : merges_prev None lcn h = Ret (false, h)).
    simpl. rewrite Hi. by destruct (next_hit gs2 _).
  - rewrite by_lcn_app. change (by_lcn [(p, a)]) with [(rlcn a, p)]. rewrite !last_snoc.
    rewrite <- app_assoc in Hok. step (merges_prev_run _ _ _ _ _ _ lcn Hok).
    rewrite Hi. by destruct (next_hit gs2 _), (rend a =? lcn).
Qed.

(** What [add_region] does on a list split at the range. *)
Lemma add_region_none (k1 k2 : list winx_volume_region) lcn len :
  Forall (fun r => rlcn r ≤ lcn ∧ rend r ≠ lcn) k1 → 0 < len →
  match k2 with [] => True | d :: _ => lcn + len < rlcn d end →
  add_region (k1 ++ k2) lcn len = k1 ++ Region lcn len :: k2.
Proof.
  intros H1 Hlen H2. rewrite add_region_app by done. destruct k2 as [|d k2]; simpl; [done|].
  by rewrite (proj2 (Z.ltb_lt _ _)), (proj2 (Z.eqb_neq _ _)) by lia.
Qed.

Lemma add_region_next (k1 k2 : list winx_volume_region) d lcn len :
  Forall (fun r => rlcn r ≤ lcn ∧ rend r ≠ lcn) k1 → 0 < len → lcn + len = rlcn d →
  add_region (k1 ++ d :: k2) lcn len = k1 ++ Region lcn (rlength d + len) :: k2.
Proof.
  intros H1 Hlen H2. rewrite add_region_app by done. simpl.
  by rewrite (proj2 (Z.ltb_lt _ _)), (proj2 (Z.eqb_eq _ _)) by lia.
Qed.

Lemma add_region_prev (k1 k2 : list winx_volume_region) a lcn len :
  Forall (fun r => rlcn r ≤ lcn ∧ rend r ≠ lcn) k1 → 0 < len → 0 < rlength a → rend a = lcn →
  match k2 with [] => True | d :: _ => lcn + len < rlcn d end →
  add_region (k1 ++ a :: k2) lcn len = k1 ++ Region (rlcn a) (rlength a + len) :: k2.
Proof.
  intros H1 Hlen Hra Ha H2. rewrite add_region_app by done. simpl. unfold rend in *.
  rewrite (proj2 (Z.ltb_ge _ _)), (proj2 (Z.eqb_eq _ _)) by lia.
  destruct k2 as [|d k2]; [done|]. by rewrite (proj2 (Z.eqb_neq _ _)) by lia.
Qed.

Lemma add_region_both (k1 k2 : list winx_volume_region) a d lcn len :
  Forall (fun r => rlcn r ≤ lcn ∧ rend r ≠ lcn) k1 → 0 < len → 0 < rlength a → rend a = lcn →
  lcn + len = rlcn d →
  add_region (k1 ++ a :: d :: k2) lcn len =
  k1 ++ Region (rlcn a) (rlength a + (len + rlength d)) :: k2.
Proof.
  intros H1 Hlen Hra Ha H2. rewrite add_region_app by done. simpl. unfold rend in *.
  rewrite (proj2 (Z.ltb_ge _ _)), (proj2 (Z.eqb_eq _ lcn)), (proj2 (Z.eqb_eq _ (rlcn d))) by lia.
  by rewrite Z.add_assoc.
Qed.

Lemma prev_hit_cases gs1 lcn :
  regions_wf N gs1.*2 → Forall (fun r => rend r ≤ lcn) gs1.*2 →
  prev_hit gs1 lcn = None ∧ Forall (fun r => rlcn r ≤ lcn ∧ rend r ≠ lcn) gs1.*2 ∨
  ∃ gs p a, gs1 = gs ++ [(p, a)] ∧ rend a = lcn ∧ prev_hit gs1 lcn = Some p ∧ 0 < rlength a ∧
    Forall (fun r => rlcn r ≤ lcn ∧ rend r ≠ lcn) gs.*2.
Proof.
  intros Hwf Hle. destruct gs1 as [|[p a] gs _] using rev_ind; [left; by split|].
  pose proof (wf_around _ _ _ _ Hwf) as ((? & ? & ?) & Hg & _). rewrite fmap_app in Hle.
  apply Forall_app in Hle as [Hle [Ha _]%Forall_cons]. cbn [snd] in Ha.
  unfold prev_hit. rewrite last_snoc.
  assert (Hgs : Forall (fun r => rlcn r ≤ lcn ∧ rend r ≠ lcn) gs.*2).
  { eapply Forall_impl; [exact Hg|]. unfold region_ok, rend in *. simpl. lia. }
  destruct (Z.eqb_spec (rend a) lcn) as [He|He].
  - right. by exists gs, p, a.
  - left. split; [done|]. rewrite fmap_app. apply Forall_app. split; [done|].
    apply Forall_cons. split; [unfold rend in *; simpl; lia | constructor].
Qed.

Lemma next_hit_cases gs2 k :
  Forall (fun r => k ≤ rlcn r) gs2.*2 →
  next_hit gs2 k = None ∧ match gs2.*2 with [] => True | d :: _ => k < rlcn d end ∨
  ∃ q d gs, gs2 = (q, d) :: gs ∧ rlcn d = k ∧ next_hit gs2 k = Some q.
Proof.
  destruct gs2 as [|[q d] gs]; [by left|]. intros [Hd _]%Forall_cons. simpl in *.
  destruct (Z.eqb_spec (rlcn d) k); [right; by exists q, d, gs | left; split; [done | lia]].
Qed.

(** [push_block] computes [add_region]. *)
Lemma push_block_ok h g gs lcn len :
  gaps_ok N h g gs → gs ≠ [] → 0 ≤ lcn → 0 < len → lcn + len ≤ N →
  (∀ c, lcn ≤ c < lcn + len → ¬ covers gs.*2 c) →
  prev_begin = Ret tt ∨ Exists (fun r => rlcn r < lcn) gs.*2 →
  ∃ h' g' gs', push_here g lcn len h = Ret (true, g', h') ∧ gaps_ok N h' g' gs' ∧
    gs'.*2 = add_region gs.*2 lcn len.
Proof.
  intros Hok Hne Hlcn Hlen HlN Hdis Hpb. pose proof Hok as (_ & _ & _ & _ & _ & Hwf).
  pose proof (add_region_wf N _ lcn len Hwf Hlcn Hlen HlN Hdis) as Hwf'.
  destruct (gap_split gs lcn len Hwf Hlen Hdis) as (gs1 & gs2 & -> & Hg1 & Hg2).
  rewrite (push_block_run h g gs1 gs2 lcn len); try done.
  2: { destruct Hpb as [?|Hex]; [by left|]. right. intros ->. apply Exists_exists in Hex as (r & Hr & ?).
       rewrite Forall_forall in Hg2. specialize (Hg2 _ Hr). lia. }
  assert (Hgo : ∀ (m : ST rheap GapEnumeration) gs', (∃ h' g', m h = Ret (g', h') ∧ gaps_ok N h' g' gs') →
    gs'.*2 = add_region (gs1 ++ gs2).*2 lcn len →
    ∃ h' g' gs', (g' ← m; mret (true, g')) h = Ret (true, g', h') ∧ gaps_ok N h' g' gs' ∧
      gs'.*2 = add_region (gs1 ++ gs2).*2 lcn len).
  { intros m gs' (h' & g' & E & Hok') E'. exists h', g', gs'. by rewrite (st_bind_ret _ _ _ _ _ E). }
  rewrite fmap_app in Hwf, Hwf', Hgo |- *. pose proof Hwf as (Hwf1 & _)%regions_wf_app.
  destruct (prev_hit_cases gs1 lcn Hwf1 Hg1) as [[-> Hb]|(gs1' & p & a & -> & Ha & -> & Hla & Hb)],
    (next_hit_cases gs2 (lcn + len) Hg2) as [[-> Hn]|(q & d & gs2' & -> & Hd & ->)].
  - rewrite add_region_none in * by done.
    destruct (insert_region_run h g gs1 gs2 _ lcn len Hok Hne eq_refl Hwf') as (x & h' & g' & E & Hok').
    eapply Hgo; [eauto | by rewrite fmap_app].
  - cbn [fmap list_fmap snd] in *. rewrite add_region_next in * by done. rewrite <- Hd.
    destruct (merge_next_run h g gs1 q d gs2' lcn len Hok) as (h' & g' & E & Hok'); try done.
    { by rewrite fmap_app. }
    eapply Hgo; [eauto | by rewrite fmap_app].
  - rewrite fmap_app, <- app_assoc in *. cbn [fmap list_fmap snd app] in *.
    rewrite add_region_prev in * by done.
    destruct (merge_prev_run h g gs1' p a gs2 len Hok) as (h' & g' & E & Hok'); try done.
    { unfold rend in Ha. lia. }
    { by rewrite fmap_app. }
    eapply Hgo; [eauto | by rewrite fmap_app].
  - rewrite fmap_app, <- app_assoc in *. cbn [fmap list_fmap snd app] in *.
    rewrite add_region_both in * by done. rewrite <- Hd.
    destruct (merge_both_run h g gs1' p a q d gs2' len Hok) as (h' & g' & E & Hok'); try done.
    { unfold rend in Ha. lia. }
    { by rewrite fmap_app. }
    eapply Hgo; [eauto | by rewrite fmap_app].
Qed.
Lemma add_region_nonempty l lcn len : add_region l lcn len ≠ [].
Proof. destruct l as [|r l]; simpl; repeat case_match; done. Qed.

Definition block_ok (b : winx_blockmap) : Prop :=
  0 ≤ bk_lcn b ∧ 0 ≤ bk_length b ∧ bk_lcn b + bk_length b ≤ N.

(** Each block has a gap in front of it, so that the search for the gap before
    it does not leave the map. *)
Definition gap_in_front (l : list winx_volume_region) (bm : list winx_blockmap) : Prop :=
  Forall (fun b => Exists (fun r => rlcn r < bk_lcn b) l) bm.

Lemma gap_in_front_grows l l' bm :
  Forall (fun r => 0 < rlength r) l → (∀ c, covers l c → covers l' c) →
  gap_in_front l bm → gap_in_front l' bm.
Proof.
  intros Hl Hc Hf. eapply Forall_impl; [exact Hf|]. intros b (r & Hr & Hlt)%Exists_exists.
  rewrite Forall_forall in Hl. specialize (Hl r Hr).
  destruct (Hc (rlcn r)) as (r' & Hr' & ?); [exists r; unfold rend; split; [done | lia]|].
  apply Exists_exists. exists r'. split; [done | lia].
Qed.

Lemma push_blocks_run bm h g gs :
  gaps_ok N h g gs → gs ≠ [] → prev_begin = Ret tt ∨ gap_in_front gs.*2 bm →
  Forall block_ok bm → disjoint_blocks bm → (∀ c, blocks_have bm c → ¬ covers gs.*2 c) →
  ∃ h' g' gs',
    push_blocks get_volume_bitmap true fuel DebugBreak prev_begin g bm h = Ret (g', h') ∧
    gaps_ok N h' g' gs' ∧ gs' ≠ [] ∧
    (∀ c, covers gs'.*2 c ↔ covers gs.*2 c ∨ blocks_have bm c).
Proof.
  revert h g gs. induction bm as [|b bm IH]; intros h g gs Hok Hne Hpb Hbm Hdis Hc.
  { exists h, g, gs. split_and!; [done | done | done |]. intros c. unfold blocks_have.
    rewrite Exists_nil. tauto. }
  assert (Hb0 : prev_begin = Ret tt ∨ Exists (fun r => rlcn r < bk_lcn b) gs.*2).
  { destruct Hpb as [?|[? _]%Forall_cons]; auto. }
  assert (Hpb' : prev_begin = Ret tt ∨ gap_in_front gs.*2 bm).
  { destruct Hpb as [?|[_ ?]%Forall_cons]; auto. }
  apply Forall_cons in Hbm as [(Hb1 & Hb2 & Hb3) Hbm].
  apply disjoint_blocks_cons in Hdis as [Hdis Hdb]. cbn [push_blocks].
  unfold blocks_have in *. setoid_rewrite Exists_cons. setoid_rewrite Exists_cons in Hc.
  destruct (Z.eqb_spec (bk_length b) 0) as [Hz|Hz].
  - destruct (IH h g gs Hok Hne Hpb' Hbm Hdis) as (h' & g' & gs' & E & ? & ? & Hcov); [naive_solver|].
    exists h', g', gs'. split_and!; [done..|]. intros c. rewrite Hcov. unfold block_has. 
    split; [tauto|]. intros [?|[?|?]]; [tauto | lia | tauto].
  - destruct (push_block_ok h g gs (bk_lcn b) (bk_length b) Hok Hne)
      as (h1 & g1 & gs1 & E1 & Hok1 & Hgs1); [done | lia | done | | exact Hb0 |].
    { intros c Hbc Hcv. apply (Hc c); [by left | done]. }
    step E1. cbn beta iota.
    assert (Hcov1 : ∀ c, covers gs1.*2 c ↔ covers gs.*2 c ∨ block_has c b).
    { intros c. rewrite Hgs1. apply (add_region_covers N); [apply Hok | lia]. }
    destruct (IH h1 g1 gs1 Hok1) as (h' & g' & gs' & E & ? & ? & Hcov); [| | done | done | |].
    { intros ->. symmetry in Hgs1. by apply add_region_nonempty in Hgs1. }
    { destruct Hpb' as [?|Hfr]; [by left|]. right. eapply gap_in_front_grows; [| |exact Hfr].
      - pose proof Hok as (_ & _ & _ & _ & _ & [Hwf _]).
        eapply Forall_impl; [exact Hwf|]. by intros r (? & ? & ?).
      - intros c. rewrite Hcov1. tauto. }
    { intros c Hbc. rewrite Hcov1. intros [?|?]; [by apply (Hc c); [right|] | by apply (Hdb c)]. }
    exists h', g', gs'. split_and!; [done..|]. intros c. rewrite Hcov, Hcov1. tauto.
Qed.
End operations.

(** C7: whatever the enumeration held, [scan] makes it hold exactly the maximal
    runs of free clusters of the volume, in order, in both maps; [next] is then
    the gap with the lowest clusters. *)
Theorem scan_exact `{!Allocator (node winx_volume_region)} N free get_volume_bitmap fuel h g nodes :
  (∀ h : gmap loc (node winx_volume_region), is_Some (alloc h)) →
  0 < N < LLINVALID → bitmap_service N free get_volume_bitmap →
  N < 8 * BITMAPBYTES * Z.of_nat fuel → is_list h (info_ g) nodes →
  ∃ h' g' gs, scan get_volume_bitmap true fuel g h = Ret (g', h') ∧ gaps_ok N h' g' gs ∧
    (∀ c, covers gs.*2 c ↔ 0 ≤ c < N ∧ free c = true) ∧
    match next_gap g' with
    | None => ∀ c, 0 ≤ c < N → free c = false
    | Some p => ∃ r, (p, r) ∈ gs ∧ ∀ c, 0 ≤ c < N → free c = true → rlcn r ≤ c
    end.
Proof.
  intros Ha HN Hget Hfuel Hl.
  destruct (scan_run Ha get_volume_bitmap fuel N HN free Hget Hfuel h g nodes Hl)
    as (h' & g' & gs & E & Hok & Hcov).
  exists h', g', gs. split_and!; [done..|]. pose proof Hok as (_ & _ & Hreg & _ & _ & Hwf).
  unfold next_gap. rewrite Hreg. destruct gs as [|[p r] gs]; simpl in *.
  - intros c Hc. apply not_true_is_false. intros Hf. apply (covers_nil c). by apply Hcov.
  - exists r. split; [by left|]. intros c Hc Hf. apply (covers_min N r gs.*2); [done|]. by apply Hcov.
Qed.

(** C9: giving the clusters of a file back to the gaps: as long as there is a
    gap, [push] with blocks that lie outside the gaps and do not overlap adds
    exactly their clusters, merged with the gaps on either side, and keeps the
    list and the two maps in step.  [std::prev] of the first gap must not be
    undefined: either each block has a gap in front of it, or [prev_begin], what
    the library makes of it, is to stay at the end. *)
Theorem push_correct `{!Allocator (node winx_volume_region)} N get_volume_bitmap fuel
    DebugBreak prev_begin h g gs f :
  (∀ h : gmap loc (node winx_volume_region), is_Some (alloc h)) →
  0 < N < LLINVALID → gaps_ok N h g gs → gs ≠ [] →
  let bm := blockmap (disp f) in
  prev_begin = Ret tt ∨ gap_in_front gs.*2 bm →
  Forall (block_ok N) bm → disjoint_blocks bm → (∀ c, blocks_have bm c → ¬ covers gs.*2 c) →
  ∃ h' g' gs',
    push get_volume_bitmap true fuel DebugBreak prev_begin g f h = Ret (g', h') ∧
    gaps_ok N h' g' gs' ∧ (∀ c, covers gs'.*2 c ↔ covers gs.*2 c ∨ blocks_have bm c).
Proof.
  intros Ha HN Hok Hne bm Hpb Hb Hd Hc.
  destruct (push_blocks_run Ha get_volume_bitmap fuel DebugBreak prev_begin N HN bm h g gs)
    as (h' & g' & gs' & ? & ? & _ & ?); try done.
  by exists h', g', gs'.
Qed.

(** C10: taking the new clusters of a moved file out of the gaps: when the file
    lies in gaps and the bitmap has the clusters of the gaps that it left, [pop]
    makes the enumeration agree with the bitmap, whether each block starts a gap
    or the gaps have to be read again. *)
Theorem pop_file_correct `{!Allocator (node winx_volume_region)} N free get_volume_bitmap fuel
    DebugBreak h g gs f :
  (∀ h : gmap loc (node winx_volume_region), is_Some (alloc h)) →
  0 < N < LLINVALID → bitmap_service N free get_volume_bitmap →
  N < 8 * BITMAPBYTES * Z.of_nat fuel → gaps_ok N h g gs →
  let bm := blockmap (disp f) in
  Forall (fun b => 0 < bk_length b) bm → disjoint_blocks bm →
  (∀ c, blocks_have bm c → covers gs.*2 c) →
  (∀ c, (0 ≤ c < N ∧ free c = true) ↔ covers gs.*2 c ∧ ¬ blocks_have bm c) →
  ∃ h' g' gs', pop_file get_volume_bitmap true fuel DebugBreak g f h = Ret (g', h') ∧
    gaps_ok N h' g' gs' ∧ (∀ c, covers gs'.*2 c ↔ 0 ≤ c < N ∧ free c = true).
Proof.
  intros Ha HN Hget Hfuel Hok bm Hlen Hdis Hc HF.
  destruct (pop_blocks_run Ha get_volume_bitmap fuel DebugBreak N HN free Hget Hfuel bm h g gs)
    as (h' & g' & gs' & E & Hok' & Hcov); try done.
  { intros c Hbm. apply not_true_is_false. intros Hf. destruct (HF c) as [HF' _].
    destruct HF' as [_ Hn]; [|done]. split; [|done].
    destruct (Hc c Hbm) as (r & Hr & Hrc). destruct Hok as (_ & _ & _ & _ & _ & [Hwf _]).
    rewrite Forall_forall in Hwf. destruct (Hwf _ Hr) as (? & ? & ?). lia. }
  exists h', g', gs'. split_and!; [done | done |]. intros c. destruct Hcov as [Hcov|Hcov]; [|done].
  by rewrite Hcov, HF.
Qed.

(** The way [push] looks for the region in front of a block is undefined
    when the block lies before all gaps (unless the library defines the
    predecessor of [begin()]), and when all gaps have been popped the search
    for a neighbour reads the last region of an empty map. *)
Theorem push_undefined `{!Allocator (node winx_volume_region)} get_volume_bitmap opened fuel
    DebugBreak h g lcn len :
  Forall (fun e => lcn ≤ e.1) (regions_ g) →
  push_block get_volume_bitmap opened fuel DebugBreak Fault g lcn len h = Fault ∧
  (regions_ g = [] → info_ g ≠ None →
   push_block get_volume_bitmap opened fuel DebugBreak (Ret tt) g lcn len h = Fault).
Proof.
  intros Hall.
  assert (Hb : before_lower_bound lcn (regions_ g) = None).
  { change (regions_ g) with ([] ++ regions_ g). by rewrite before_lower_bound_app. }
  split.
  - unfold push_block, st_lift, prev_region, mbind at 1, st_bind at 1. by rewrite Hb.
  - intros Hr Hi. unfold push_block, st_lift, prev_region, mbind at 1, st_bind at 1. rewrite Hb, Hr.
    simpl. unfold mbind at 1, st_bind at 1. simpl. destruct (info_ g) as [i|]; [|done].
    unfold mbind, st_bind, insert_region. by rewrite Hr.
Qed.

(** The volume of 20 clusters of [demo_free], before the clusters 12 to 15 were
    given to a file. *)
Definition demo_gaps : gnodes :=
  [(1%positive, Region 0 3); (2%positive, Region 5 5); (3%positive, Region 12 8)].

Definition demo_gap_heap : gmap loc (node winx_volume_region) :=
  <[1%positive := Node (Some 2%positive) (Some 3%positive) (Region 0 3)]>
  (<[2%positive := Node (Some 3%positive) (Some 1%positive) (Region 5 5)]>
  (<[3%positive := Node (Some 1%positive) (Some 2%positive) (Region 12 8)]> ∅)).

Definition demo_enumeration : GapEnumeration :=
  Gaps (Some 1%positive) (by_lcn demo_gaps) (by_length demo_gaps).

Definition demo_file (bm : list winx_blockmap) : winx_file_info :=
  FileInfo [] None 0 (Disp 0 0 bm) 0 0 0 0 0 0.

Lemma demo_gaps_list : is_list demo_gap_heap (Some 1%positive) demo_gaps.
Proof.
  split; [done|]. split; [|by repeat split]. apply (bool_decide_unpack _). by vm_compute.
Qed.

Lemma demo_gaps_ok : gaps_ok 20 demo_gap_heap demo_enumeration demo_gaps.
Proof.
  split_and!; [exists demo_gaps; split; [apply demo_gaps_list | done] | | done | done | |].
  - apply (bool_decide_unpack _). by vm_compute.
  - repeat constructor; simpl; lia.
  - split; repeat constructor; unfold rend; simpl; lia.
Qed.

Lemma demo_gaps_covers c : covers demo_gaps.*2 c ↔ 0 ≤ c < 3 ∨ 5 ≤ c < 10 ∨ 12 ≤ c < 20.
Proof.
  change (demo_gaps.*2) with [Region 0 3; Region 5 5; Region 12 8].
  rewrite !covers_cons, covers_nil. unfold rend. simpl. lia.
Qed.

Lemma best_correct_witness :
  ∃ res, best demo_enumeration 4 (Some (Some 2%positive, Region 5 5)) true demo_gap_heap
         = Ret (res, demo_gap_heap) ∧
    match res with
    | None => ∀ p r, usable demo_gaps (Some (Some 2%positive, Region 5 5)) true p r → rlength r < 4
    | Some p => ∃ r, usable demo_gaps (Some (Some 2%positive, Region 5 5)) true p r ∧
        4 ≤ rlength r ∧
        (rlength r = 4 ∨
         (∀ q d, usable demo_gaps (Some (Some 2%positive, Region 5 5)) true q d → rlength d ≠ 4) ∧
         (comfortable 4 < rlength r ∧
            (∀ q d, usable demo_gaps (Some (Some 2%positive, Region 5 5)) true q d →
               comfortable 4 < rlength d → rlength r ≤ rlength d) ∨
          (∀ q d, usable demo_gaps (Some (Some 2%positive, Region 5 5)) true q d →
             rlength d ≤ comfortable 4 ∧ rlength d ≤ rlength r)))
    end.
Proof. apply (best_correct 20); [apply demo_gaps_ok | lia | lia]. Defined.

Lemma scan_exact_witness :
  let A := bump_allocator (node winx_volume_region) in
  ∃ h' g' gs, scan demo_bitmap true 1 demo_enumeration demo_gap_heap = Ret (g', h') ∧
    gaps_ok 20 h' g' gs ∧ (∀ c, covers gs.*2 c ↔ 0 ≤ c < 20 ∧ demo_free c = true) ∧
    match next_gap g' with
    | None => ∀ c, 0 ≤ c < 20 → demo_free c = false
    | Some p => ∃ r, (p, r) ∈ gs ∧ ∀ c, 0 ≤ c < 20 → demo_free c = true → rlcn r ≤ c
    end.
Proof.
  apply (scan_exact (Allocator0 := bump_allocator _) 20 _ _ _ _ _ demo_gaps);
    [by eexists | unfold LLINVALID; lia | apply demo_bitmap_service | vm_compute; done
    | apply demo_gaps_list].
Defined.

Lemma push_correct_witness :
  let A := bump_allocator (node winx_volume_region) in
  ∃ h' g' gs',
    push demo_bitmap true 1 Fault Fault demo_enumeration
      (demo_file [Block 0 10 2; Block 2 3 1]) demo_gap_heap = Ret (g', h') ∧
    gaps_ok 20 h' g' gs' ∧
    (∀ c, covers gs'.*2 c ↔
       covers demo_gaps.*2 c ∨ blocks_have [Block 0 10 2; Block 2 3 1] c).
Proof.
  apply (push_correct (Allocator0 := bump_allocator _) 20 demo_bitmap 1 Fault Fault demo_gap_heap
    demo_enumeration demo_gaps (demo_file [Block 0 10 2; Block 2 3 1]));
    [by eexists | unfold LLINVALID; lia | apply demo_gaps_ok | done | | | |].
  - right. apply (bool_decide_unpack _). vm_compute. exact I.
  - repeat constructor; simpl; lia.
  - intros i j b b' c Hij Hi Hj. unfold block_has.
    destruct i as [|[|i]], j as [|[|j]]; simplify_eq/=; lia.
  - intros c. rewrite demo_gaps_covers. unfold blocks_have, block_has.
    cbn [disp blockmap demo_file]. rewrite !Exists_cons, Exists_nil. simpl. lia.
Defined.

Lemma pop_file_correct_witness :
  let A := bump_allocator (node winx_volume_region) in
  ∃ h' g' gs',
    pop_file demo_bitmap true 1 Fault demo_enumeration (demo_file [Block 0 14 2; Block 2 12 2])
      demo_gap_heap = Ret (g', h') ∧
    gaps_ok 20 h' g' gs' ∧ (∀ c, covers gs'.*2 c ↔ 0 ≤ c < 20 ∧ demo_free c = true).
Proof.
  apply (pop_file_correct (Allocator0 := bump_allocator _) 20 demo_free demo_bitmap 1 Fault
    demo_gap_heap demo_enumeration demo_gaps (demo_file [Block 0 14 2; Block 2 12 2]));
    [by eexists | unfold LLINVALID; lia | apply demo_bitmap_service | vm_compute; done
    | apply demo_gaps_ok | | | |].
  - repeat constructor.
  - intros i j b b' c Hij Hi Hj. unfold block_has.
    destruct i as [|[|i]], j as [|[|j]]; simplify_eq/=; lia.
  - intros c. rewrite demo_gaps_covers. unfold blocks_have, block_has.
    cbn [disp blockmap demo_file]. rewrite !Exists_cons, Exists_nil. simpl. lia.
  - intros c. rewrite demo_gaps_covers. unfold blocks_have, block_has, demo_free.
    cbn [disp blockmap demo_file]. rewrite !Exists_cons, Exists_nil. simpl.
    destruct (Z.leb_spec 3 c), (Z.leb_spec c 4), (Z.leb_spec 10 c), (Z.leb_spec c 15); simpl; 
      split; intros; (split; [|try done]) || idtac; try lia.
Defined.

Lemma push_undefined_witness :
  let A := bump_allocator (node winx_volume_region) in
  push_block demo_bitmap true 1 (Ret tt) Fault (Gaps (Some 1%positive) [] []) 3 1 demo_gap_heap
    = Fault ∧
  (([] : list (Z * loc)) = [] → Some 1%positive ≠ None →
   push_block demo_bitmap true 1 (Ret tt) (Ret tt) (Gaps (Some 1%positive) [] []) 3 1 demo_gap_heap
     = Fault).
Proof.
  apply (push_undefined (Allocator0 := bump_allocator _) demo_bitmap true 1 (Ret tt) demo_gap_heap
    (Gaps (Some 1%positive) [] [])). constructor.
Defined.
