(* ===== verification/Files.v ===== *)
(** * zen.cpp: the enumeration of the files of a volume

    The class [FileEnumeration]: the movable files in buckets by their number of
    clusters, a map from the first clusters of their blocks to the files, and
    [findBest], which chooses the files that fill a gap (a subset-sum problem
    solved by dynamic programming).  Files are objects of a store; [buckets_ok]
    and [lcns_ok] are the invariants. *)
From S2P Require Import Prelude CString FileInfo StdMap.
From stdpp Require Import prelude gmap sorting strings.
Open Scope Z_scope.

(** ** The excluded files

    The alternatives of the regular expression [excluded]: characters, [.] and
    [$]. *)
Inductive atom : Type :=
| Chr (c : Z)
| Any
| End.

Definition chars (s : string) : list atom := Chr <$> text s.

Definition excluded : list (list atom) :=
  [ chars ":$";
    chars ":\$";
    chars "\safeboot.fs" ++ [End];
    chars "\Gobackio.bin" ++ [End];
    chars "\PGPWDE";
    chars "\bootwiz";
    chars "\BootAuth" ++ [Any] ++ chars ".sys";
    chars "\$dcsys$";
    chars "\bootstat.dat";
    chars "\bootsqm.dat";
    chars ":\io.sys";
    chars ":\msdos.sys";
    chars ":\ibmbio.com";
    chars ":\ibmdos.com";
    chars ":\drbios.sys";
    chars ":\System Volume Information" ].

Section regex.
(** The folding of case of the library (the flag [icase]). *)
Context (fold : Z → Z).

(** Does an alternative match at the start of the text? *)
Fixpoint matches (p : list atom) (s : str) : bool :=
  match p, s with
  | [], _ => true
  | End :: p, [] => matches p []
  | End :: _, _ :: _ => false
  | Any :: p, _ :: s => matches p s
  | Chr c :: p, d :: s => (fold c =? fold d) && matches p s
  | _ :: _, [] => false
  end.

(** [boost::regex_search] *)
Fixpoint regex_search (s : str) (re : list (list atom)) : bool :=
  existsb (fun p => matches p s) re ||
  match s with [] => false | _ :: s => regex_search s re end.
End regex.

(** ** The class *)
Record FileEnumeration : Type := Files {
  buckets_ : list (Z * loc);
  lcns_ : list (Z * loc);
  unmovable_ : list loc;
  finfo_ : list loc;
  fragmented_ : Z;
  unprocessable_ : Z;
}.

Abbreviation fheap := (gmap loc winx_file_info).

(** The first smallest element of a list that starts with [b]. *)
Fixpoint min_index (i best : nat) (m : Z) (bm : list winx_blockmap) : nat :=
  match bm with
  | [] => best
  | b :: bm => if bk_lcn b <? m then min_index (S i) i (bk_lcn b) bm
               else min_index (S i) best m bm
  end.

(** [order]: the block map of the file starts with the block that lies first on
    the volume.  The blocks form a ring, so the others follow. *)
Definition order_map (bm : list winx_blockmap) : list winx_blockmap :=
  match bm with
  | [] | [_] => bm
  | b :: bm' => let i := min_index 1 0 (bk_lcn b) bm' in drop i bm ++ take i bm
  end.

Definition set_map (bm : list winx_blockmap) (f : winx_file_info) : winx_file_info :=
  set_disp (Disp (clusters (disp f)) (fragments (disp f)) bm) f.

Definition order (p : loc) : ST fheap unit :=
  modify (Some p) (fun f => set_map (order_map (blockmap (disp f))) f).

(** [winx_freep(&f.name)]: the name is released and becomes NULL, written as
    the empty name here; the program does not read it again. *)
Definition freep_name (f : winx_file_info) : winx_file_info :=
  FileInfo [] (fi_path f) (fi_flags f) (disp f) (user_defined_flags f) (BaseMftId f)
    (ParentDirectoryMftId f) (creation_time f) (last_modification_time f) (last_access_time f).

Section enumeration.
Context (fold : Z → Z).
Implicit Types (e : FileEnumeration).

(** The body of the loop of [scan]. *)
Definition scan_file (p : loc) e : ST fheap FileEnumeration :=
  _ ← modify (Some p) freep_name;
  f ← load (Some p);
  let e1 := if 1 <? fragments (disp f)
            then Files (buckets_ e) (lcns_ e) (unmovable_ e) (finfo_ e)
                       (u64 (fragmented_ e + 1)) (unprocessable_ e)
            else e in
  let reject := Files (buckets_ e1) (lcns_ e1) (unmovable_ e1 ++ [p]) (finfo_ e1)
                      (fragmented_ e1) (u64 (unprocessable_ e1 + 1)) in
  match blockmap (disp f) with
  | [] => mret reject
  | _ =>
      match fi_path f with
      | None => st_fault
      | Some path =>
          if regex_search fold path excluded then mret reject else
          _ ← order p;
          f ← load (Some p);
          mret (Files (multimap_insert (clusters (disp f)) p (buckets_ e1)) (lcns_ e1)
                      (unmovable_ e1) (finfo_ e1) (fragmented_ e1) (unprocessable_ e1))
      end
  end.

Fixpoint scan_files (ps : list loc) e : ST fheap FileEnumeration :=
  match ps with
  | [] => mret e
  | p :: ps => e' ← scan_file p e; scan_files ps e'
  end.

(** [scan]; [infos] is what [winx_scan_disk] returns ([[]] for NULL), [None] the
    exception thrown when it returns nothing although the user did not stop
    it. *)
Definition scan (terminated : bool) (infos : list loc) e : ST fheap (option FileEnumeration) :=
  let e0 := Files [] [] [] infos (fragmented_ e) (unprocessable_ e) in
  match infos with
  | [] => mret (if terminated then Some e0 else None)
  | _ => e' ← scan_files infos e0; mret (Some e')
  end.

(** Inserting the blocks of a file into [lcns_]. *)
Fixpoint insert_lcns (bm : list winx_blockmap) (p : loc) (lcns : list (Z * loc)) : list (Z * loc) :=
  match bm with
  | [] => lcns
  | b :: bm => insert_lcns bm p (std_insert (bk_lcn b) p lcns)
  end.

Fixpoint build_lcns (buckets lcns : list (Z * loc)) : ST fheap (list (Z * loc)) :=
  match buckets with
  | [] => mret lcns
  | (_, p) :: buckets =>
      f ← load (Some p);
      build_lcns buckets (insert_lcns (blockmap (disp f)) p lcns)
  end.

Definition set_lcns (lcns : list (Z * loc)) e : FileEnumeration :=
  Files (buckets_ e) lcns (unmovable_ e) (finfo_ e) (fragmented_ e) (unprocessable_ e).

Definition set_buckets (buckets : list (Z * loc)) e : FileEnumeration :=
  Files buckets (lcns_ e) (unmovable_ e) (finfo_ e) (fragmented_ e) (unprocessable_ e).

Definition findAt e (lcn : Z) : ST fheap (ptr * FileEnumeration) :=
  lcns ← (match lcns_ e with [] => build_lcns (buckets_ e) [] | _ => mret (lcns_ e) end);
  mret (std_find lcn lcns, set_lcns lcns e).

Fixpoint erase_lcns (bm : list winx_blockmap) (lcns : list (Z * loc)) : list (Z * loc) :=
  match bm with
  | [] => lcns
  | b :: bm => erase_lcns bm (std_erase (bk_lcn b) lcns)
  end.

(** [pop]; the [assert] at its end is compiled in a debug build only. *)
Definition pop e (p : loc) : ST fheap FileEnumeration :=
  f ← load (Some p);
  let lcns := match lcns_ e with [] => [] | _ => erase_lcns (blockmap (disp f)) (lcns_ e) end in
  mret (set_buckets (erase_value (clusters (disp f)) p (buckets_ e)) (set_lcns lcns e)).

Definition push e (p : loc) : ST fheap FileEnumeration :=
  f ← load (Some p);
  let lcns := match lcns_ e with [] => [] | _ => insert_lcns (blockmap (disp f)) p (lcns_ e) end in
  _ ← order p;
  f ← load (Some p);
  mret (set_buckets (multimap_insert (clusters (disp f)) p (buckets_ e)) (set_lcns lcns e)).
End enumeration.

(** ** [findBest] *)
Definition maxlen : Z := 256.

(** The first cluster of a file on the volume: [f->disp.blockmap->lcn]. *)
Definition head_lcn (p : loc) : ST fheap Z :=
  f ← load (Some p);
  match blockmap (disp f) with
  | [] => st_fault
  | b :: _ => mret (bk_lcn b)
  end.

Definition file_clusters (p : loc) : ST fheap Z := f ← load (Some p); mret (clusters (disp f)).

(** The lambda [filter]. *)
Definition filter (lcn : Z) (p : loc) : ST fheap bool := l ← head_lcn p; mret (l <=? lcn).

(** "Find perfect item" *)
Fixpoint find_perfect (lcn : Z) (range : list (Z * loc)) (perfect : ptr) : ST fheap ptr :=
  match range with
  | [] => mret perfect
  | (_, p) :: range =>
      skip ← filter lcn p;
      if (skip : bool) then find_perfect lcn range perfect else
      better ← (match perfect with
                | None => mret true
                | Some q => l ← head_lcn q; l' ← head_lcn p; mret (l <? l')
                end);
      find_perfect lcn range (if (better : bool) then Some p else perfect)
  end.

(** [known_] is a multimap with descending keys. *)
Fixpoint known_insert (k : Z) (v : loc) (m : list (Z * loc)) : list (Z * loc) :=
  match m with
  | [] => [(k, v)]
  | (k', v') :: m' => if k' <? k then (k, v) :: m else (k', v') :: known_insert k v m'
  end.

(** The loop over the files of the size of [p] that are known: the first one
    that lies in front of [p] makes room for it. *)
Fixpoint replace_known (k : Z) (p : loc) (range known : list (Z * loc)) : ST fheap (list (Z * loc)) :=
  match range with
  | [] => mret known
  | (_, q) :: range =>
      l ← head_lcn q;
      l' ← head_lcn p;
      if l' <=? l then replace_known k p range known
      else mret (known_insert k p (erase_value k q known))
  end.

(** What the loop over the buckets changes. *)
Record cand_state : Type := Cands {
  c_rvs : list loc;
  c_length : Z;
  c_known : list (Z * loc);
}.

(** "Build candidate list": [true] stands for "Already fulfilled". *)
Fixpoint cands_loop (lcn : Z) (entries : list (Z * loc)) (s : cand_state)
  : ST fheap (bool * cand_state) :=
  match entries with
  | [] => mret (c_length s =? 0, s)
  | (k, p) :: entries =>
      if c_length s =? 0 then mret (true, s) else
      if c_length s <? k then cands_loop lcn entries s else
      skip ← filter lcn p;
      if (skip : bool) then cands_loop lcn entries s else
      if maxlen <? c_length s then
        c ← file_clusters p;
        if c <=? c_length s
        then cands_loop lcn entries (Cands (c_rvs s ++ [p]) (u64 (c_length s - c)) (c_known s))
        else cands_loop lcn entries s
      else
        let n := Z.of_nat (length (equal_range k (c_known s))) in
        let known := if ((k <? 4) && (n <? 1)) || (n <? 4)
                     then known_insert k p (c_known s) else c_known s in
        known ← replace_known k p (equal_range k known) known;
        cands_loop lcn entries (Cands (c_rvs s) (c_length s) known)
  end.

(** *** The dynamic program *)

(** [boost::dynamic_bitset]: the bits from index 0 on. *)
Abbreviation bitset := (list bool).

Definition count (b : bitset) : nat := length (base.filter (fun x => x = true) b).

Record sol_t : Type := Sol {
  value : Z;
  items : bitset;
}.

(** [operator<] *)
Definition sol_lt (a b : sol_t) : bool :=
  if value a =? value b then Nat.ltb (count (items b)) (count (items a)) else value a <? value b.

(** [add] *)
Definition add_item (index : nat) (s : sol_t) : sol_t :=
  let bits := if Nat.leb (length (items s)) index
              then items s ++ replicate (index + 1 - length (items s)) false else items s in
  Sol (value s) (<[index := true]> bits).

Definition sol_zero : sol_t := Sol 0 [].

(** An element of a row of [solutions]. *)
Definition at_weight (row : list sol_t) (w : Z) : outcome sol_t :=
  match row !! Z.to_nat w with
  | Some s => if w <? 0 then Fault else Ret s
  | None => Fault
  end.

(** [solutions[i][w]] from the row before it; [index] is [i - 1]. *)
Definition cell (index : nat) (candw : Z) (prev : list sol_t) (w : Z) : outcome sol_t :=
  old ← at_weight prev w;
  if candw <=? w then
    s ← at_weight prev (w - candw);
    let candsol := add_item index (Sol (u64 (value s + candw)) (items s)) in
    Ret (if sol_lt old candsol then candsol else old)
  else Ret old.

(** The loop over [w] from 1 to [nlength]; column 0 keeps its initial value. *)
Fixpoint row_loop (index : nat) (candw : Z) (prev : list sol_t) (ws : list Z) : outcome (list sol_t) :=
  match ws with
  | [] => Ret []
  | w :: ws =>
      s ← cell index candw prev w;
      row ← row_loop index candw prev ws;
      Ret (s :: row)
  end.

Definition next_row (nlength : Z) (index : nat) (candw : Z) (prev : list sol_t)
  : outcome (list sol_t) :=
  row ← row_loop index candw prev (seqZ 1 nlength);
  Ret (sol_zero :: row).

Fixpoint rows (nlength : Z) (index : nat) (weights : list Z) (row : list sol_t)
  : outcome (list sol_t) :=
  match weights with
  | [] => Ret row
  | candw :: weights =>
      row' ← next_row nlength index candw row;
      rows nlength (S index) weights row'
  end.

(** [solutions[ncands][nlength]] *)
Definition best_solution (nlength : Z) (weights : list Z) : outcome sol_t :=
  row ← rows nlength 0 weights (replicate (Z.to_nat (nlength + 1)) sol_zero);
  at_weight row nlength.

(** [find_first] and [find_next]: the candidates whose bits are set. *)
Fixpoint selected {A} (b : bitset) (cands : list A) : outcome (list A) :=
  match b, cands with
  | [], _ => Ret []
  | true :: b, c :: cands => l ← selected b cands; Ret (c :: l)
  | false :: b, _ :: cands => selected b cands
  | true :: _, [] => Fault
  | false :: b, [] => selected b []
  end.

Fixpoint all_clusters (ps : list loc) : ST fheap (list Z) :=
  match ps with
  | [] => mret []
  | p :: ps => c ← file_clusters p; cs ← all_clusters ps; mret (c :: cs)
  end.

(** [findBest] from "const size_t ncands" on. *)
Definition choose (rvs : list loc) (length : Z) (cands : list loc) (partialOK : bool)
  : ST fheap (list loc) :=
  match cands with
  | [] => mret (if partialOK then rvs else [])
  | [p] =>
      c ← file_clusters p;
      mret (if c =? length then rvs ++ [p]
            else if partialOK then (if c <=? length then rvs ++ [p] else rvs)
            else [])
  | _ =>
      weights ← all_clusters cands;
      solution ← st_lift (best_solution length weights);
      if negb partialOK && negb (value solution =? length) then mret [] else
      files ← st_lift (selected (items solution) cands);
      mret (rvs ++ files)
  end.

(** [findBest]; also the new contents of the static [known_]. *)
Definition findBest (e : FileEnumeration) (known : list (Z * loc)) (lcn length : Z)
    (partialOK : bool) : ST fheap (list loc * list (Z * loc)) :=
  perfect ← find_perfect lcn (equal_range length (buckets_ e)) None;
  match perfect with
  | Some p => mret ([p], known)
  | None =>
      let entries := reverse (base.filter (fun x => x.1 ≤ length) (buckets_ e)) in
      '(fulfilled, s) ← cands_loop lcn entries (Cands [] length []);
      if (fulfilled : bool) then mret (c_rvs s, c_known s) else
      rvs ← choose (c_rvs s) (c_length s) (c_known s).*2 partialOK;
      mret (rvs, c_known s)
  end.

(** ** The dynamic program is optimal *)

(** The clusters of the candidates a bit set chooses. *)
Fixpoint weight_of (b : bitset) (ws : list Z) : Z :=
  match b, ws with
  | x :: b, w :: ws => (if (x : bool) then w else 0) + weight_of b ws
  | _, _ => 0
  end.

(** A solution for the candidates [ws] and a gap of [w] clusters: no other
    choice fills more of the gap, or as much of it with fewer files. *)
Definition optimal (ws : list Z) (w : Z) (s : sol_t) : Prop :=
  (length (items s) ≤ length ws)%nat ∧ value s = weight_of (items s) ws ∧ 0 ≤ value s ≤ w ∧
  ∀ b, length b = length ws → weight_of b ws ≤ w →
    weight_of b ws < value s ∨ weight_of b ws = value s ∧ (count (items s) ≤ count b)%nat.

Section knapsack.
Implicit Types (b : bitset) (ws : list Z) (s : sol_t) (row : list sol_t).

Lemma weight_of_nonneg b ws : Forall (Z.le 0) ws → 0 ≤ weight_of b ws.
Proof.
  intros Hws. revert b. induction Hws as [|w ws Hw _ IH]; intros [|x b]; simpl; try lia.
  specialize (IH b). destruct x; lia.
Qed.

Lemma weight_of_app b1 b2 ws1 ws2 :
  length b1 = length ws1 → weight_of (b1 ++ b2) (ws1 ++ ws2) = weight_of b1 ws1 + weight_of b2 ws2.
Proof.
  revert ws1. induction b1 as [|x b1 IH]; intros [|w ws1] Hlen; simplify_eq/=; [done|].
  rewrite IH by done. lia.
Qed.

Lemma weight_of_pad b n ws :
  weight_of (b ++ replicate n false) ws = weight_of b ws.
Proof.
  revert ws. induction b as [|x b IH]; intros ws; simpl.
  - revert ws. induction n as [|n IH]; intros [|w ws]; simpl; try done.
    by rewrite IH.
  - destruct ws; [done|]. by rewrite IH.
Qed.

(** A shorter bit set leaves the candidates behind it out. *)
Lemma weight_of_prefix b ws ws' :
  (length b ≤ length ws)%nat → weight_of b (ws ++ ws') = weight_of b ws.
Proof.
  revert ws. induction b as [|x b IH]; intros [|w ws] Hlen; simpl in *; try lia.
  by rewrite IH by lia.
Qed.

Lemma count_app b1 b2 : count (b1 ++ b2) = (count b1 + count b2)%nat.
Proof. unfold count. by rewrite filter_app, length_app. Qed.

Lemma count_false n : count (replicate n false) = 0%nat.
Proof. unfold count. induction n as [|n IH]; simpl; [done|]. by rewrite filter_cons_False. Qed.

Lemma add_item_items index s :
  (length (items s) ≤ index)%nat →
  items (add_item index s) = (items s ++ replicate (index - length (items s)) false) ++ [true].
Proof.
  intros Hlen. unfold add_item. cbn [items]. rewrite (proj2 (Nat.leb_le _ _)) by done.
  replace (index + 1 - length (items s))%nat with (S (index - length (items s))) by lia.
  rewrite replicate_S_end, app_assoc.
  rewrite insert_app_r_alt by (rewrite length_app, length_replicate; lia).
  rewrite length_app, length_replicate.
  by replace (index - (length (items s) + (index - length (items s))))%nat with 0%nat by lia.
Qed.

Lemma add_item_optimal ws c w s :
  optimal ws (w - c) s → 0 ≤ c → w < 2 ^ 64 →
  let s' := add_item (length ws) (Sol (u64 (value s + c)) (items s)) in
  (length (items s') ≤ length (ws ++ [c]))%nat ∧ value s' = value s + c ∧
  value s' = weight_of (items s') (ws ++ [c]) ∧ 0 ≤ value s' ≤ w ∧
  count (items s') = S (count (items s)).
Proof.
  intros (Hlen & Hval & Hb & _) Hc Hw s'. assert (Hv : value s' = value s + c).
  { unfold s', add_item. cbn [value]. rewrite u64_small; lia. }
  unfold s' in *. rewrite Hv, add_item_items by done. cbn [items].
  split_and!; [| done | | lia | lia |].
  - rewrite !length_app, length_replicate. simpl. lia.
  - rewrite weight_of_app by (rewrite length_app, length_replicate; lia).
    rewrite weight_of_pad. simpl. lia.
  - rewrite !count_app, count_false. unfold count at 2. simpl. lia.
Qed.

(** One more candidate: keep the solution or take the candidate. *)
Lemma cell_optimal ws c w prev old :
  Forall (Z.le 0) ws → 0 ≤ c → 0 ≤ w < 2 ^ 64 → prev !! Z.to_nat w = Some old → optimal ws w old →
  (c ≤ w → ∃ s, prev !! Z.to_nat (w - c) = Some s ∧ optimal ws (w - c) s) →
  ∃ s, cell (length ws) c prev w = Ret s ∧ optimal (ws ++ [c]) w s.
Proof.
  intros Hws Hc Hw Eold Hold Hs. unfold cell, at_weight.
  rewrite Eold, (proj2 (Z.ltb_ge w 0)), outcome_bind_ret by lia.
  pose proof Hold as (Hlen & Hval & Hb & Hopt).
  assert (Hsplit : ∀ b, length b = length (ws ++ [c]) →
    ∃ b' x, b = b' ++ [x] ∧ length b' = length ws ∧
      weight_of b (ws ++ [c]) = weight_of b' ws + (if (x : bool) then c else 0) ∧
      count b = (count b' + if (x : bool) then 1 else 0)%nat).
  { intros b Hbl. rewrite length_app in Hbl. simpl in Hbl.
    destruct b as [|x b' _] using rev_ind; [simpl in Hbl; lia|].
    rewrite length_app in Hbl. simpl in Hbl. exists b', x.
    rewrite weight_of_app, count_app by lia. simpl. split_and!; [done | lia | lia |].
    by destruct x. }
  assert (Hkeep : (∀ b, length b = length ws → weight_of b ws + c ≤ w →
      weight_of b ws + c < value old ∨
      weight_of b ws + c = value old ∧ (count (items old) ≤ count b + 1)%nat) →
    optimal (ws ++ [c]) w old).
  { intros Htake. split_and!; [rewrite length_app; lia | by rewrite weight_of_prefix | lia | lia |].
    intros b (b' & x & -> & Hbl & -> & ->)%Hsplit Hle. destruct x.
    - by apply Htake.
    - rewrite Z.add_0_r, Nat.add_0_r in *. by apply Hopt. }
  destruct (Z.leb_spec c w) as [Hcw|Hcw].
  2: { exists old. split; [done|]. apply Hkeep. intros b Hbl Hle. exfalso.
       pose proof (weight_of_nonneg b ws Hws). lia. }
  destruct (Hs Hcw) as (s & Es & Hsopt). rewrite Es, (proj2 (Z.ltb_ge (w - c) 0)), outcome_bind_ret by lia.
  pose proof (add_item_optimal ws c w s Hsopt Hc ltac:(lia)) as Hadd. cbv zeta in Hadd.
  set (s' := add_item _ _) in *. destruct Hadd as (Hlen' & Hv & Hval' & Hb' & Hcnt).
  destruct Hsopt as (_ & _ & _ & Hsopt).
  assert (Htake : ∀ b, length b = length ws → weight_of b ws + c ≤ w →
    weight_of b ws + c < value s' ∨
    weight_of b ws + c = value s' ∧ (count (items s') ≤ count b + 1)%nat).
  { intros b Hbl Hle. destruct (Hsopt b Hbl) as [?|[? ?]]; lia. }
  assert (Hnew : value old < value s' ∨
      value old = value s' ∧ (count (items s') < count (items old))%nat → optimal (ws ++ [c]) w s').
  { intros Hlt. split_and!; [done | done | lia | lia |].
    intros b (b' & x & -> & Hbl & -> & ->)%Hsplit Hle. destruct x; [by apply Htake|].
    rewrite Z.add_0_r, Nat.add_0_r in *. destruct (Hopt b' Hbl) as [?|[? ?]]; lia. }
  assert (Hold' : value s' < value old ∨
      value old = value s' ∧ (count (items old) ≤ count (items s'))%nat → optimal (ws ++ [c]) w old).
  { intros Hge. apply Hkeep. intros b Hbl Hle. destruct (Htake b Hbl Hle); lia. }
  unfold sol_lt. destruct (Z.eqb_spec (value old) (value s')) as [He|He];
    [destruct (Nat.ltb_spec (count (items s')) (count (items old)))
    |destruct (Z.ltb_spec (value old) (value s'))].
  - exists s'. auto.
  - exists old. auto.
  - exists s'. auto.
  - exists old. split; [done|]. apply Hold'. lia.
Qed.

Definition row_ok (nlength : Z) ws row : Prop :=
  length row = Z.to_nat (nlength + 1) ∧
  ∀ w, 0 ≤ w ≤ nlength → ∃ s, row !! Z.to_nat w = Some s ∧ optimal ws w s.

Lemma zero_optimal ws : Forall (Z.le 0) ws → optimal ws 0 sol_zero.
Proof.
  intros Hws. split_and!; simpl; [lia | done | done | done |]. intros b _ Hle.
  pose proof (weight_of_nonneg b ws Hws). right. split; [lia|]. unfold count. simpl. lia.
Qed.

Lemma first_row_ok nlength : 0 ≤ nlength → row_ok nlength [] (replicate (Z.to_nat (nlength + 1)) sol_zero).
Proof.
  intros Hn. split; [by rewrite length_replicate|]. intros w Hw. exists sol_zero. split.
  - apply lookup_replicate. split; [done | lia].
  - split_and!; simpl; [lia | done | done | lia |]. intros [|] Hb; [|done]. right. split; [done|].
    unfold count. simpl. lia.
Qed.

Lemma row_loop_ok nlength ws c prev l :
  Forall (Z.le 0) ws → 0 ≤ c → nlength < 2 ^ 64 → row_ok nlength ws prev →
  Forall (fun w => 0 ≤ w ≤ nlength) l →
  ∃ row, row_loop (length ws) c prev l = Ret row ∧ Forall2 (optimal (ws ++ [c])) l row.
Proof.
  intros Hws Hc Hn [_ Hrow] Hl. induction Hl as [|w l Hw _ (row & Er & Hr)]; [by exists []|].
  destruct (Hrow w Hw) as (old & Eold & Hold).
  destruct (cell_optimal ws c w prev old Hws Hc) as (s & Es & Hs); [lia | done | done | |].
  { intros Hcw. apply Hrow. lia. }
  exists (s :: row). simpl. rewrite Es, outcome_bind_ret, Er. split; [done | by constructor].
Qed.

Lemma next_row_ok nlength ws c prev :
  Forall (Z.le 0) ws → 0 ≤ c → 0 ≤ nlength < 2 ^ 64 → row_ok nlength ws prev →
  ∃ row, next_row nlength (length ws) c prev = Ret row ∧ row_ok nlength (ws ++ [c]) row.
Proof.
  intros Hws Hc Hn Hprev.
  destruct (row_loop_ok nlength ws c prev (seqZ 1 nlength) Hws Hc) as (row & Er & Hr); [lia | done | |].
  { apply Forall_forall. intros w ?%elem_of_seqZ. lia. }
  unfold next_row. rewrite Er, outcome_bind_ret. eexists. split; [done|].
  pose proof (Forall2_length _ _ _ Hr) as Hlen. rewrite length_seqZ in Hlen. split.
  { simpl. lia. }
  intros w Hw. destruct (decide (w = 0)) as [->|Hw0].
  - exists sol_zero. split; [done|]. apply zero_optimal, Forall_app. split; [done|]. by constructor.
  - replace (Z.to_nat w) with (S (Z.to_nat (w - 1))) by lia. simpl.
    destruct (Forall2_lookup_l _ _ _ (Z.to_nat (w - 1)) w Hr) as (s & ? & ?); [|by exists s].
    apply lookup_seqZ. lia.
Qed.

Lemma rows_ok nlength ws ws' row :
  Forall (Z.le 0) (ws ++ ws') → 0 ≤ nlength < 2 ^ 64 → row_ok nlength ws row →
  ∃ row', rows nlength (length ws) ws' row = Ret row' ∧ row_ok nlength (ws ++ ws') row'.
Proof.
  revert ws row. induction ws' as [|c ws' IH]; intros ws row Hws Hn Hrow.
  { exists row. by rewrite app_nil_r. }
  pose proof Hws as [Hws1 [Hc _]%Forall_cons]%Forall_app.
  destruct (next_row_ok nlength ws c row Hws1 Hc Hn Hrow) as (row1 & E1 & Hrow1).
  destruct (IH (ws ++ [c]) row1) as (row' & E' & Hrow'); [by rewrite <- app_assoc | done | done |].
  exists row'. rewrite <- app_assoc in Hrow'. split; [|done]. simpl. rewrite E1, outcome_bind_ret.
  rewrite length_app in E'. simpl in E'. by rewrite Nat.add_1_r in E'.
Qed.

Lemma best_solution_ok nlength ws :
  Forall (Z.le 0) ws → 0 ≤ nlength < 2 ^ 64 →
  ∃ s, best_solution nlength ws = Ret s ∧ optimal ws nlength s.
Proof.
  intros Hws Hn. destruct (rows_ok nlength [] ws (replicate (Z.to_nat (nlength + 1)) sol_zero))
    as (row & Er & [_ Hrow]); [done | done | apply first_row_ok; lia|].
  destruct (Hrow nlength) as (s & Es & Hs); [lia|]. exists s. split; [|done].
  unfold best_solution. simpl in Er. rewrite Er, outcome_bind_ret. unfold at_weight.
  by rewrite Es, (proj2 (Z.ltb_ge _ _)) by lia.
Qed.
End knapsack.

(** C11: the dynamic program of [findBest] solves the knapsack problem: for the
    clusters of any candidates and any gap it returns a choice of candidates
    that fits into the gap, counts its clusters, and no other choice fills more
    of the gap, or as much of it with fewer files. *)
Theorem best_solution_optimal nlength weights :
  Forall (Z.le 0) weights → 0 ≤ nlength < 2 ^ 64 →
  ∃ s, best_solution nlength weights = Ret s ∧ (length (items s) ≤ length weights)%nat ∧
    value s = weight_of (items s) weights ∧ value s ≤ nlength ∧
    ∀ b, length b = length weights → weight_of b weights ≤ nlength →
      weight_of b weights < value s ∨
      weight_of b weights = value s ∧ (count (items s) ≤ count b)%nat.
Proof.
  intros Hws Hn. destruct (best_solution_ok nlength weights Hws Hn) as (s & E & ? & ? & [_ ?] & ?).
  by exists s.
Qed.

Lemma best_solution_optimal_witness :
  ∃ s, best_solution 10 [7; 3; 3; 4; 5] = Ret s ∧ (length (items s) ≤ 5)%nat ∧
    value s = weight_of (items s) [7; 3; 3; 4; 5] ∧ value s ≤ 10 ∧
    ∀ b, length b = 5%nat → weight_of b [7; 3; 3; 4; 5] ≤ 10 →
      weight_of b [7; 3; 3; 4; 5] < value s ∨
      weight_of b [7; 3; 3; 4; 5] = value s ∧ (count (items s) ≤ count b)%nat.
Proof. apply best_solution_optimal; [repeat (constructor; [lia|]); constructor | lia]. Defined.

(** ** What [findBest] returns *)
Definition file_lcn (h : fheap) (p : loc) : Z :=
  match h !! p with
  | Some f => match blockmap (disp f) with b :: _ => bk_lcn b | [] => 0 end
  | None => 0
  end.

(** The entries of [buckets_] are files with a block map, under their number of
    clusters. *)
Definition bucket_ok (h : fheap) (x : Z * loc) : Prop :=
  ∃ f, h !! x.2 = Some f ∧ clusters (disp f) = x.1 ∧ blockmap (disp f) ≠ [] ∧ 0 ≤ x.1 < 2 ^ 64.

Definition buckets_ok (h : fheap) (m : list (Z * loc)) : Prop :=
  multimap_sorted m ∧ Forall (bucket_ok h) m.

(** The clusters of a list of files. *)
Fixpoint total (m : list (Z * loc)) : Z :=
  match m with
  | [] => 0
  | (k, _) :: m => k + total m
  end.

Lemma total_app m1 m2 : total (m1 ++ m2) = total m1 + total m2.
Proof. induction m1 as [|[k p] m1 IH]; simpl; [done|]. lia. Qed.

Section search.
Context (h : fheap) (m : list (Z * loc)) (Hm : Forall (bucket_ok h) m) (lcn : Z).
Implicit Types (p q : loc) (k : Z).

(** A file of the buckets that lies behind the gap. *)
Definition behind (x : Z * loc) : Prop := x ∈ m ∧ lcn < file_lcn h x.2.

Lemma bucket_inv k p : (k, p) ∈ m → bucket_ok h (k, p).
Proof. intros Hp. rewrite Forall_forall in Hm. by apply (Hm (k, p)). Qed.

Lemma head_lcn_run k p : (k, p) ∈ m → head_lcn p h = Ret (file_lcn h p, h).
Proof.
  intros (f & E & _ & Hb & _)%bucket_inv. simpl in E. unfold head_lcn, file_lcn.
  rewrite (st_bind_ret _ _ _ _ _ (load_ok _ _ _ E)), E. by destruct (blockmap (disp f)).
Qed.

Lemma file_clusters_run k p : (k, p) ∈ m → file_clusters p h = Ret (k, h).
Proof.
  intros (f & E & Hk & _)%bucket_inv. simpl in *. unfold file_clusters.
  step (load_ok _ _ _ E). by rewrite Hk.
Qed.

Lemma filter_run k p : (k, p) ∈ m → filter lcn p h = Ret (file_lcn h p <=? lcn, h).
Proof. intros Hp. unfold filter. by rewrite (st_bind_ret _ _ _ _ _ (head_lcn_run _ _ Hp)). Qed.

Lemma find_perfect_run k range perfect :
  Forall (fun x => x ∈ m ∧ x.1 = k) range →
  match perfect with None => True | Some q => behind (k, q) end →
  ∃ res, find_perfect lcn range perfect h = Ret (res, h) ∧
    (∀ p, (k, p) ∈ range ∨ perfect = Some p → lcn < file_lcn h p →
       ∃ q, res = Some q ∧ file_lcn h p ≤ file_lcn h q) ∧
    match res with None => True | Some q => behind (k, q) end.
Proof.
  revert perfect. induction range as [|[k' p] range IH]; intros perfect Hr Hp.
  { exists perfect. split_and!; [done | | done]. intros p [Hn| ->]; [by apply elem_of_nil in Hn|].
    intros _. by exists p. }
  apply Forall_cons in Hr as [[Hin Hk] Hr]. simpl in Hk. subst k'. cbn [find_perfect].
  step (filter_run _ _ Hin).
  destruct (Z.leb_spec (file_lcn h p) lcn) as [Hle|Hgt].
  - destruct (IH perfect Hr Hp) as (res & E & H1 & H2). exists res. split_and!; [done | | done].
    intros p' [[Heq|Hp']%elem_of_cons|Hp'] Hlt; [simplify_eq; lia | |]; apply H1; auto.
  - assert (∃ better, (match perfect with
        | None => mret true
        | Some q => l ← head_lcn q; l' ← head_lcn p; mret (l <? l')
        end : ST fheap bool) h = Ret (better, h) ∧
        if better then match perfect with None => True | Some q => file_lcn h q < file_lcn h p end
        else ∃ q, perfect = Some q ∧ file_lcn h p ≤ file_lcn h q) as (better & E & Hbt).
    { destruct perfect as [q|]; [|by exists true]. destruct Hp as [Hq _].
      step (head_lcn_run _ _ Hq).
      step (head_lcn_run _ _ Hin). eexists. split; [done|].
      destruct (Z.ltb_spec (file_lcn h q) (file_lcn h p)); [done | by exists q]. }
    step E.
    destruct (IH (if better then Some p else perfect) Hr) as (res & E' & H1 & H2).
    { by destruct better. }
    exists res. split_and!; [done | | done]. intros p' Hp' Hlt.
    destruct Hp' as [[Heq|Hp']%elem_of_cons| ->]; simplify_eq.
    + destruct better; [by apply H1; auto|]. destruct Hbt as (q & -> & Hq).
      destruct (H1 q) as (q' & -> & ?); [by right | lia |]. exists q'. split; [done | lia].
    + apply H1; auto.
    + destruct better; [|by apply H1; auto].
      destruct (H1 p) as (q' & -> & ?); [by right | lia |]. exists q'. split; [done | lia].
Qed.

(** *** The candidates *)
Lemma known_insert_Permutation k p known : known_insert k p known ≡ₚ (k, p) :: known.
Proof.
  induction known as [|[k' q] known IH]; simpl; [done|].
  destruct (k' <? k); [done|]. rewrite IH. apply Permutation_swap.
Qed.

Definition key_count (k : Z) (known : list (Z * loc)) : nat := length (equal_range k known).

Lemma key_count_Permutation k known known' :
  known ≡ₚ known' → key_count k known = key_count k known'.
Proof. intros Hp. unfold key_count, equal_range. by rewrite Hp. Qed.

Lemma key_count_cons k k' p known :
  key_count k ((k', p) :: known) = ((if decide (k' = k) then 1 else 0) + key_count k known)%nat.
Proof. unfold key_count, equal_range. rewrite filter_cons. simpl. by case_decide. Qed.

(** What the loop keeps: the files taken and the length that is left add up to
    the gap, the files known lie behind the gap and fit, and there are at most
    four of a size. *)
Definition known_ok (length : Z) (known : list (Z * loc)) : Prop :=
  Forall (fun x => behind x ∧ x.1 ≤ length ≤ maxlen) known ∧ ∀ k, (key_count k known ≤ 4)%nat.

Definition cands_ok (length0 : Z) (s : cand_state) : Prop :=
  (∃ rs, c_rvs s = rs.*2 ∧ Forall behind rs ∧ total rs + c_length s = length0) ∧
  0 ≤ c_length s < 2 ^ 64 ∧ known_ok (c_length s) (c_known s).

Lemma behind_elem x : behind x → x ∈ m.
Proof. by intros [? _]. Qed.

Lemma replace_known_run k p range known len :
  known_ok len known → behind (k, p) → k ≤ len ≤ maxlen →
  Forall (fun x => x ∈ known ∧ x.1 = k) range →
  ∃ known', replace_known k p range known h = Ret (known', h) ∧ known_ok len known'.
Proof.
  intros Hk Hp Hlen. induction 1 as [|[k' q] range [Hq Hk'] _ IH]; [by exists known|].
  simpl in Hk'. subst k'. destruct Hk as [Hf Hc]. rewrite Forall_forall in Hf.
  destruct (Hf _ Hq) as [Hqb _]. simpl.
  step (head_lcn_run _ _ (behind_elem _ Hqb)).
  step (head_lcn_run _ _ (behind_elem _ Hp)).
  destruct (Z.leb_spec (file_lcn h p) (file_lcn h q)); [done|].
  eexists. split; [done|]. pose proof (erase_value_Permutation _ _ _ Hq) as Hers. split.
  - rewrite known_insert_Permutation. constructor; [done|]. apply Forall_forall.
    intros x Hx%erase_value_elem. by apply Hf.
  - intros j. specialize (Hc j). rewrite <- (key_count_Permutation _ _ _ Hers) in Hc.
    rewrite (key_count_Permutation _ _ _ (known_insert_Permutation _ _ _)).
    by rewrite key_count_cons in *.
Qed.

Lemma known_step k p s len0 :
  cands_ok len0 s → behind (k, p) → k ≤ c_length s ≤ maxlen →
  let n := Z.of_nat (key_count k (c_known s)) in
  let known := if ((k <? 4) && (n <? 1)) || (n <? 4)
               then known_insert k p (c_known s) else c_known s in
  ∃ known', replace_known k p (equal_range k known) known h = Ret (known', h) ∧
    cands_ok len0 (Cands (c_rvs s) (c_length s) known').
Proof.
  intros (Hrs & H0 & Hk) Hp Hlen n known.
  assert (Hok : known_ok (c_length s) known).
  { unfold known. destruct (_ || _) eqn:En; [|done].
    assert (n < 4). { apply orb_true_iff in En as [[_ ?%Z.ltb_lt]%andb_true_iff|?%Z.ltb_lt]; lia. }
    destruct Hk as [Hf Hc]. split.
    - rewrite known_insert_Permutation. by constructor.
    - intros j. rewrite (key_count_Permutation _ _ _ (known_insert_Permutation _ _ _)).
      rewrite key_count_cons. specialize (Hc j). case_decide; [subst j|]; lia. }
  destruct (replace_known_run k p (equal_range k known) known (c_length s)) as (known' & E & ?); try done.
  { apply Forall_forall. intros x [? ?]%list_elem_of_filter. done. }
  exists known'. by split.
Qed.

Lemma cands_loop_run entries s len0 :
  Forall (fun x => x ∈ m) entries → cands_ok len0 s →
  ∃ b s', cands_loop lcn entries s h = Ret (b, s', h) ∧ cands_ok len0 s' ∧
    b = (c_length s' =? 0).
Proof.
  intros He Hs. revert s Hs. induction He as [|[k p] entries Hin _ IH]; intros s Hs.
  { by exists (c_length s =? 0), s. }
  cbn [cands_loop]. destruct (Z.eqb_spec (c_length s) 0) as [Hz|Hz].
  { exists true, s. split_and!; [done | done |]. symmetry. by apply Z.eqb_eq. }
  destruct (Z.ltb_spec (c_length s) k) as [|Hkl]; [by apply IH|].
  step (filter_run _ _ Hin).
  destruct (Z.leb_spec (file_lcn h p) lcn) as [|Hgt]; [by apply IH|].
  assert (Hp : behind (k, p)) by done.
  pose proof Hs as ((rs & Ers & Hrs & Htot) & H0 & Hk).
  destruct (Z.ltb_spec maxlen (c_length s)) as [Hmax|Hmax].
  - step (file_clusters_run _ _ Hin).
    rewrite (proj2 (Z.leb_le _ _)) by done. apply IH.
    destruct (bucket_inv _ _ Hin) as (_ & _ & _ & _ & Hk0). simpl in Hk0.
    words.
    split_and!; cbn [c_rvs c_length c_known].
    + exists (rs ++ [(k, p)]). rewrite fmap_app, Ers, total_app. split_and!; [done | | simpl; lia].
      apply Forall_app. by split; [|constructor].
    + lia.
    + lia.
    + destruct Hk as [Hf Hc]. split; [|done]. destruct (c_known s) as [|x known]; [done|].
      apply Forall_cons in Hf as [[_ ?] _]. lia.
  - destruct (known_step k p s len0 Hs Hp) as (known' & E & Hs'); [done|].
    step E. by apply IH.
Qed.

(** *** The choice *)
Lemma all_clusters_run l : Forall (fun x => x ∈ m) l → all_clusters l.*2 h = Ret (l.*1, h).
Proof.
  induction 1 as [|[k p] l Hin _ IH]; [done|]. simpl.
  step (file_clusters_run _ _ Hin).
  by rewrite (st_bind_ret _ _ _ _ _ IH).
Qed.

Lemma selected_run (b : bitset) (l : list (Z * loc)) :
  (length b ≤ length l)%nat →
  ∃ l', selected b l.*2 = Ret l'.*2 ∧ l' `sublist_of` l ∧ total l' = weight_of b l.*1.
Proof.
  revert l. induction b as [|x b IH]; intros l Hlen.
  { exists []. destruct l; split_and!; try done; apply sublist_nil_l. }
  destruct l as [|[k p] l]; [simpl in Hlen; lia|].
  destruct (IH l) as (l' & E & Hs & Ht); [simpl in Hlen; lia|]. destruct x; cbn [selected fmap list_fmap].
  - exists ((k, p) :: l'). cbn [fst snd]. rewrite E, outcome_bind_ret. split_and!; [done | by constructor |].
    simpl. by rewrite Ht.
  - exists l'. split_and!; [done | by constructor | simpl; by rewrite Ht].
Qed.

Lemma known_weights len known : known_ok len known → Forall (Z.le 0) known.*1.
Proof.
  intros [Hf _]. apply Forall_fmap. eapply Forall_impl; [exact Hf|]. intros [k p] [[Hin _] _].
  by destruct (bucket_inv _ _ Hin) as (_ & _ & _ & _ & [? _]).
Qed.

(** [choose] completes the files taken from the known ones. *)
Lemma choose_run rs len known partialOK :
  known_ok len known → 0 ≤ len < 2 ^ 64 →
  ∃ res, choose rs.*2 len known.*2 partialOK h = Ret (res.*2, h) ∧
    (res = [] ∧ partialOK = false ∨
     ∃ l, res = rs ++ l ∧ l `sublist_of` known ∧ total l ≤ len ∧
          (partialOK = false → total l = len)) ∧
    (∀ b, length b = length known → weight_of b known.*1 = len → 0 < len →
       ∃ l, res = rs ++ l ∧ total l = len).
Proof.
  intros Hk Hlen. pose proof (known_weights _ _ Hk) as Hw.
  assert (Hin : Forall (fun x => x ∈ m) known).
  { destruct Hk as [Hf _]. eapply Forall_impl; [exact Hf|]. by intros x [[? _] _]. }
  destruct known as [|[k p] [|x known']] eqn:Ekn.
  - exists (if partialOK then rs else []). split_and!; [by destruct partialOK | |].
    + destruct partialOK; [right | by left]. exists []. rewrite app_nil_r.
      split_and!; [done | done | simpl; lia | done].
    + intros [|] Hb Hwb; simpl in *; lia.
  - unfold choose. cbn [fmap list_fmap snd]. apply Forall_cons in Hin as [Hp _].
    step (file_clusters_run _ _ Hp).
    exists (if k =? len then rs ++ [(k, p)]
            else if partialOK then (if k <=? len then rs ++ [(k, p)] else rs) else []).
    destruct (Z.eqb_spec k len) as [->|Hne]; [|destruct partialOK; [destruct (Z.leb_spec k len)|]].
    all: split_and!; [by rewrite ?fmap_app | | intros [|y [|]] Hb Hwb Hl; simplify_eq/=; try lia].
    + right. exists [(len, p)]. simpl. split_and!; [done | done | lia | lia].
    + exists [(len, p)]. split; [done | simpl; lia].
    + right. exists [(k, p)]. simpl. split_and!; [done | done | lia | done].
    + destruct y; lia.
    + right. exists []. rewrite app_nil_r. simpl. split_and!; [done | apply sublist_nil_l | lia | done].
    + destruct y; lia.
    + by left.
    + destruct y; lia.
  - rewrite <- Ekn in *. assert (Hch : choose rs.*2 len known.*2 partialOK h = (
      weights ← all_clusters known.*2;
      solution ← st_lift (best_solution len weights);
      if negb partialOK && negb (value solution =? len) then mret [] else
      files ← st_lift (selected (items solution) known.*2);
      mret (rs.*2 ++ files)) h) by (by subst).
    rewrite Hch, (st_bind_ret _ _ _ _ _ (all_clusters_run _ Hin)).
    destruct (best_solution_ok len known.*1 Hw Hlen) as (s & -> & Hsl & Hv & Hb & Hopt).
    rewrite st_lift_ret. rewrite length_fmap in Hsl.
    destruct (selected_run (items s) known Hsl) as (l & El & Hsub & Htot).
    destruct (negb partialOK && negb (value s =? len)) eqn:Eneg.
    + exists []. split_and!; [done | |].
      * left. split; [done|]. by destruct partialOK.
      * intros b Hbl Hwb Hpos. apply andb_true_iff in Eneg as [_ ?%negb_true_iff%Z.eqb_neq].
        destruct (Hopt b) as [?|[? _]]; [by rewrite length_fmap | lia | lia | lia].
    + exists (rs ++ l). rewrite El, st_lift_ret, fmap_app. split_and!; [done | |].
      * right. exists l. split_and!; [done | done | lia |]. intros ->. simpl in Eneg.
        apply negb_false_iff, Z.eqb_eq in Eneg. lia.
      * intros b Hbl Hwb Hpos. exists l. split; [done|].
        destruct (Hopt b) as [?|[? _]]; [by rewrite length_fmap | lia | lia | lia].
Qed.

(** *** The whole search *)
Lemma entries_elem len x :
  x ∈ reverse (base.filter (fun y => y.1 ≤ len) m) ↔ x ∈ m ∧ x.1 ≤ len.
Proof. rewrite elem_of_reverse, list_elem_of_filter. tauto. Qed.

Lemma perfect_run len :
  ∃ res, find_perfect lcn (equal_range len m) None h = Ret (res, h) ∧
    (∀ p, (len, p) ∈ m → lcn < file_lcn h p → ∃ q, res = Some q ∧ file_lcn h p ≤ file_lcn h q) ∧
    match res with None => True | Some q => behind (len, q) end.
Proof.
  destruct (find_perfect_run len (equal_range len m) None) as (res & E & H1 & H2); [|done|].
  { apply Forall_forall. intros x [? ?]%list_elem_of_filter. done. }
  exists res. split_and!; [done | | done]. intros p Hp Hlt. apply H1; [|done]. left.
  by apply list_elem_of_filter.
Qed.

(** The files [findBest] returns: they lie behind the gap and fit into it,
    exactly when a partial answer is not wanted. *)
Lemma findBest_run e known len partialOK :
  buckets_ e = m → 0 ≤ len < 2 ^ 64 →
  ∃ res known', findBest e known lcn len partialOK h = Ret (res.*2, known', h) ∧
    Forall behind res ∧ total res ≤ len ∧
    (partialOK = false → res ≠ [] → total res = len) ∧
    (∀ p, behind (len, p) → ∃ q, res = [(len, q)] ∧ file_lcn h p ≤ file_lcn h q).
Proof.
  intros He Hlen. unfold findBest. rewrite He.
  destruct (perfect_run len) as (perfect & E & H1 & H2). step E.
  destruct perfect as [q|].
  { exists [(len, q)], known. split_and!; [done | by constructor | simpl; lia | intros _ _; simpl; lia |].
    intros p [Hp Hlt]. destruct (H1 p Hp Hlt) as (q' & [= <-] & ?). by exists q. }
  assert (Hno : ∀ p, ¬ behind (len, p)) by (intros p [Hp Hlt]; by destruct (H1 p Hp Hlt) as (? & ? & _)).
  destruct (cands_loop_run (reverse (base.filter (fun y => y.1 ≤ len) m)) (Cands [] len []) len)
    as (b & s & Ec & ((rs & Ers & Hrs & Htot) & Hl0 & Hk) & ->).
  { apply Forall_forall. by intros x [? _]%entries_elem. }
  { split_and!; cbn [c_rvs c_length c_known]; [by exists [] | lia | lia |]. split; [constructor|].
    intros k. unfold key_count. simpl. lia. }
  step Ec. cbn beta iota.
  destruct (Z.eqb_spec (c_length s) 0) as [Hz|Hz].
  { exists rs, (c_known s). rewrite Ers. split_and!; [done | done | lia | lia |].
    intros p Hp. by apply Hno in Hp. }
  rewrite Ers. destruct (choose_run rs (c_length s) (c_known s) partialOK Hk Hl0)
    as (res & Er & Hres & _).
  step Er. exists res, (c_known s). split; [done|].
  destruct Hres as [[-> ->]|(l & -> & Hsub & Htl & Hex)].
  - split_and!; [constructor | simpl; lia | done |]. intros p Hp. by apply Hno in Hp.
  - split_and!.
    + apply Forall_app. split; [done|]. destruct Hk as [Hf _]. rewrite Forall_forall in *.
      intros x Hx. by apply Hf, (sublist_subseteq l).
    + rewrite total_app. lia.
    + intros Hp _. rewrite total_app, (Hex Hp). lia.
    + intros p Hp. by apply Hno in Hp.
Qed.
End search.

(** C12: [findBest] reads no bad pointer and returns files of the buckets that
    lie behind the gap and together are not larger than it; unless a partial
    answer is allowed they fill the gap exactly, and when a single file behind
    the gap has its size, the last such file on the volume is the answer.  The
    sum is taken over the list: a file that is found for two files of the same
    size is listed, and counted, twice ([findBest_twice]). *)
Theorem findBest_correct h e known lcn length partialOK :
  buckets_ok h (buckets_ e) → 0 ≤ length < 2 ^ 64 →
  ∃ res known', findBest e known lcn length partialOK h = Ret (res.*2, known', h) ∧
    (∀ k p, (k, p) ∈ res → (k, p) ∈ buckets_ e ∧ lcn < file_lcn h p) ∧ total res ≤ length ∧
    (partialOK = false → res ≠ [] → total res = length) ∧
    (∀ p, (length, p) ∈ buckets_ e → lcn < file_lcn h p →
       ∃ q, res = [(length, q)] ∧ file_lcn h p ≤ file_lcn h q).
Proof.
  intros [_ Hm] Hlen.
  destruct (findBest_run h (buckets_ e) Hm lcn e known length partialOK eq_refl Hlen)
    as (res & known' & E & Hb & Ht & Hex & Hperf).
  exists res, known'. split_and!; [done | | done | done |].
  - intros k p Hp. rewrite Forall_forall in Hb. exact (Hb _ Hp).
  - intros p Hp Hlt. by apply Hperf.
Qed.

(** ** When no two files have the same size *)
Section distinct.
Context (h : fheap) (m : list (Z * loc)) (Hm : Forall (bucket_ok h) m) (lcn : Z).
Implicit Types (p q : loc) (k : Z).

Lemma key_count_none k (known : list (Z * loc)) : k ∉ known.*1 → equal_range k known = [].
Proof.
  intros Hk. unfold equal_range. apply filter_drops, Forall_forall. intros x Hx Hxk. apply Hk.
  apply list_elem_of_fmap. by exists x.
Qed.

(** All files behind the gap become known. *)
Lemma cands_loop_distinct entries known len :
  Forall (fun x => x ∈ m ∧ x.1 ≤ len) entries → NoDup (entries.*1 ++ known.*1) →
  0 < len ≤ maxlen →
  ∃ known', cands_loop lcn entries (Cands [] len known) h = Ret (false, Cands [] len known', h) ∧
    NoDup known' ∧ ∀ x, x ∈ known' ↔ x ∈ known ∨ (x ∈ entries ∧ lcn < file_lcn h x.2).
Proof.
  intros He. revert known. induction He as [|[k p] entries [Hin Hk] _ IH]; intros known Hnd Hlen.
  { exists known. simpl. rewrite (proj2 (Z.eqb_neq len 0)) by lia.
    split_and!; [done | exact (NoDup_fmap_1 _ _ Hnd) | set_solver]. }
  simpl in Hnd. apply NoDup_cons in Hnd as [Hk' Hnd]. cbn [cands_loop c_length c_rvs c_known]. simpl in Hk.
  rewrite (proj2 (Z.eqb_neq len 0)), (proj2 (Z.ltb_ge len k)) by lia.
  step (filter_run h m Hm lcn k p Hin).
  destruct (Z.leb_spec (file_lcn h p) lcn) as [Hle|Hgt].
  { destruct (IH known Hnd Hlen) as (known' & E & ? & Hel). exists known'. split_and!; [done | done |].
    intros x. rewrite Hel, elem_of_cons. split; [tauto|]. intros [?|[[-> |?] ?]]; [tauto | simpl in *; lia | tauto]. }
  rewrite (proj2 (Z.ltb_ge maxlen len)) by lia.
  rewrite (key_count_none k known) by set_solver. cbn [length]. rewrite andb_true_r, orb_true_r.
  assert (Heq : equal_range k (known_insert k p known) = [(k, p)]).
  { apply Permutation_singleton_r. unfold equal_range. rewrite known_insert_Permutation.
    rewrite filter_cons_True by done. fold (equal_range k known). by rewrite key_count_none by set_solver. }
  assert (Hrep : replace_known k p [(k, p)] (known_insert k p known) h
                 = Ret (known_insert k p known, h)).
  { cbn [replace_known]. step (head_lcn_run h m Hm k p Hin).
    step (head_lcn_run h m Hm k p Hin). by rewrite Z.leb_refl. }
  cbv zeta. cbn [c_rvs c_length c_known]. rewrite Heq, (st_bind_ret _ _ _ _ _ Hrep).
  destruct (IH (known_insert k p known)) as (known' & E & Hnd' & Hel); [| done |].
  { rewrite known_insert_Permutation. simpl. rewrite <- Permutation_middle. by constructor. }
  exists known'. split_and!; [done | done |]. intros x. rewrite Hel, known_insert_Permutation.
  rewrite !elem_of_cons. split; [|naive_solver]. intros [[-> |?]|?]; [by right; split; [left|] | tauto | tauto].
Qed.

Lemma total_Permutation (m1 m2 : list (Z * loc)) : m1 ≡ₚ m2 → total m1 = total m2.
Proof. induction 1 as [|[k p] m1 m2 _ IH|[k p] [k' p'] m1|]; simpl; lia. Qed.

Lemma weight_of_filter (P : Z * loc → Prop) (H : ∀ x, Decision (P x)) (l : list (Z * loc)) :
  weight_of ((fun x => bool_decide (P x)) <$> l) l.*1 = total (base.filter P l).
Proof.
  induction l as [|[k p] l IH]; [done|]. rewrite filter_cons. cbn [fmap list_fmap weight_of fst].
  rewrite IH. unfold bool_decide, decide. destruct (H (k, p)); simpl; lia.
Qed.

Lemma total_elem (l : list (Z * loc)) x :
  Forall (fun y => 0 ≤ y.1) l → x ∈ l → 0 ≤ total l ∧ x.1 ≤ total l.
Proof.
  intros Hl. assert (Hpos : 0 ≤ total l).
  { induction Hl as [|[k p] l Hk _ IH]; simpl in *; lia. }
  intros Hx. split; [done|]. clear Hpos. induction Hl as [|[k p] l Hk Hl IH]; [by apply elem_of_nil in Hx|].
  assert (0 ≤ total l) by (clear -Hl; induction Hl as [|[]]; simpl in *; lia).
  simpl in *. apply elem_of_cons in Hx as [->|Hx]; simpl; [lia|]. apply IH in Hx. lia.
Qed.

(** A set of known files is one of the choices of the dynamic program. *)
Lemma choice_of_set (l known : list (Z * loc)) :
  NoDup l → NoDup known → (∀ x, x ∈ l → x ∈ known) →
  ∃ b, length b = length known ∧ weight_of b known.*1 = total l.
Proof.
  intros Hl Hk Hsub. exists ((fun x => bool_decide (x ∈ l)) <$> known).
  rewrite length_fmap, weight_of_filter. split; [done|]. apply total_Permutation.
  apply NoDup_Permutation; [by apply NoDup_filter | done |].
  intros x. rewrite list_elem_of_filter. naive_solver.
Qed.
End distinct.

(** C13: when no two files have the same size and the gap is small enough for
    the dynamic program, [findBest] is complete: if some files behind the gap
    fill it exactly, it returns such files, each of them once. *)
Theorem findBest_complete h e known lcn length l :
  buckets_ok h (buckets_ e) → NoDup (buckets_ e).*1 → 0 < length ≤ maxlen →
  NoDup l → (∀ k p, (k, p) ∈ l → (k, p) ∈ buckets_ e ∧ lcn < file_lcn h p) → total l = length →
  ∃ res known', findBest e known lcn length false h = Ret (res.*2, known', h) ∧ NoDup res ∧
    (∀ k p, (k, p) ∈ res → (k, p) ∈ buckets_ e ∧ lcn < file_lcn h p) ∧ total res = length.
Proof.
  intros [_ Hm] Hnd Hlen Hl Hlb Htot. set (m := buckets_ e) in *. unfold findBest. fold m.
  destruct (perfect_run h m Hm lcn length) as (perfect & E & _ & H2). step E.
  destruct perfect as [q|].
  { exists [(length, q)], known. split_and!; [done | apply NoDup_singleton | | simpl; lia].
    intros k p Hp%list_elem_of_singleton. by simplify_eq. }
  assert (Hent : NoDup (reverse (base.filter (fun y => y.1 ≤ length) m)).*1).
  { rewrite fmap_reverse, reverse_Permutation. clear -Hnd. revert Hnd.
    induction m as [|[k p] m' IH]; [done|]. simpl. intros [Hk Hnd]%NoDup_cons.
    rewrite filter_cons. case_decide; [|by apply IH]. simpl. apply NoDup_cons. split; [|by apply IH].
    intros (x & -> & [_ Hx]%list_elem_of_filter)%list_elem_of_fmap. apply Hk, list_elem_of_fmap. by exists x. }
  destruct (cands_loop_distinct h m Hm lcn (reverse (base.filter (fun y => y.1 ≤ length) m)) [] length)
    as (known' & Ec & Hndk & Hel); [| by rewrite app_nil_r | done |].
  { apply Forall_forall. by intros x ?%entries_elem. }
  step Ec. cbn beta iota. cbn [c_rvs c_length c_known].
  assert (Hlk : ∀ x, x ∈ l → x ∈ known').
  { intros [k p] Hx. apply Hel. right. destruct (Hlb _ _ Hx) as [Hin Hlt]. split; [|done].
    apply entries_elem. split; [done|]. rewrite <- Htot. apply total_elem; [|done].
    apply Forall_forall. intros [k' p'] Hx'. destruct (Hlb _ _ Hx') as [Hin' _].
    by destruct (bucket_inv h m Hm _ _ Hin') as (_ & _ & _ & _ & [? _]). }
  destruct (choice_of_set l known' Hl Hndk Hlk) as (b & Hb & Hw). rewrite Htot in Hw.
  assert (Hkn : known_ok h m lcn length known').
  { destruct (cands_loop_run h m Hm lcn (reverse (base.filter (fun y => y.1 ≤ length) m))
      (Cands [] length []) length) as (b' & s' & E' & (_ & _ & Hk) & _).
    - apply Forall_forall. by intros x [? _]%entries_elem.
    - unfold maxlen in *. split_and!; cbn [c_rvs c_length c_known]; [by exists [] | lia | lia |].
      split; [constructor|]. intros k. unfold key_count. simpl. lia.
    - rewrite Ec in E'. by simplify_eq. }
  destruct (choose_run h m Hm lcn [] length known' false Hkn) as (res & Er & Hres & Hch);
    [unfold maxlen in *; lia|].
  step Er. exists res, known'. split; [done|].
  destruct (Hch b Hb Hw) as (l' & -> & Hl'); [lia|]. simpl in *.
  destruct Hres as [[-> _]|(l'' & <- & Hsub & _)]; [simpl in *; lia|].
  split_and!; [by eapply sublist_NoDup | | done].
  intros k p Hp. apply (sublist_subseteq _ _ Hsub), Hel in Hp as [Hp|[Hp Hlt]].
  - by apply elem_of_nil in Hp.
  - split; [by apply entries_elem in Hp as [? _] | done].
Qed.

(** ** The size of the table *)
Lemma length_by_keys n (l : list (Z * loc)) :
  Forall (fun x => 0 ≤ x.1 < Z.of_nat n) l → (∀ k, (key_count k l ≤ 4)%nat) → (length l ≤ 4 * n)%nat.
Proof.
  revert l. induction n as [|n IH]; intros l Hl Hc.
  { destruct Hl as [|x l ? _]; simpl in *; lia. }
  set (P := fun x : Z * loc => x.1 = Z.of_nat n).
  assert (Hp : l ≡ₚ base.filter P l ++ base.filter (fun x => ¬ P x) l).
  { clear. induction l as [|x l IH]; [done|]. rewrite !filter_cons.
    case_decide; case_decide; try done; [by rewrite IH at 1|].
    rewrite <- Permutation_middle. by rewrite IH at 1. }
  rewrite Hp, length_app. specialize (IH (base.filter (fun x => ¬ P x) l)).
  assert (length (base.filter P l) ≤ 4)%nat by apply (Hc (Z.of_nat n)).
  assert (length (base.filter (fun x => ¬ P x) l) ≤ 4 * n)%nat; [|lia]. apply IH.
  - rewrite Forall_forall in *. intros x [Hx Hin]%list_elem_of_filter. specialize (Hl _ Hin).
    unfold P in Hx. lia.
  - intros k. specialize (Hc k). rewrite (key_count_Permutation _ _ _ Hp) in Hc.
    unfold key_count, equal_range in *. rewrite filter_app, length_app in Hc. lia.
Qed.

(** The table of the dynamic program is small whatever the volume holds:
    when there are candidates the gap has at most 256 clusters left, each
    candidate fits into it, and there are at most four candidates of a size. *)
Theorem table_bounded h e lcn length :
  buckets_ok h (buckets_ e) → 0 ≤ length < 2 ^ 64 →
  ∃ b s, cands_loop lcn (reverse (base.filter (fun x => x.1 ≤ length) (buckets_ e)))
           (Cands [] length []) h = Ret (b, s, h) ∧
    Forall (fun x => 0 ≤ x.1 ≤ c_length s ≤ maxlen) (c_known s) ∧
    (∀ k, (key_count k (c_known s) ≤ 4)%nat) ∧ (List.length (c_known s) ≤ 4 * 257)%nat.
Proof.
  intros [_ Hm] Hlen.
  destruct (cands_loop_run h (buckets_ e) Hm lcn
    (reverse (base.filter (fun y => y.1 ≤ length) (buckets_ e))) (Cands [] length []) length)
    as (b & s & E & (_ & _ & [Hf Hc]) & _).
  { apply Forall_forall. by intros x [? _]%entries_elem. }
  { split_and!; cbn [c_rvs c_length c_known]; [by exists [] | lia | lia |]. split; [constructor|].
    intros k. unfold key_count. simpl. lia. }
  assert (Hb : Forall (fun x => 0 ≤ x.1 ≤ c_length s ≤ maxlen) (c_known s)).
  { rewrite Forall_forall in *. intros [k p] Hx. destruct (Hf _ Hx) as [[Hin _] ?].
    assert (Hin' := Hm _ Hin). destruct Hin' as (_ & _ & _ & _ & ?). simpl in *. lia. }
  exists b, s. split_and!; [done | done | done |]. apply length_by_keys; [|done].
  eapply Forall_impl; [exact Hb|]. unfold maxlen. simpl. lia.
Qed.

(** A volume with a gap of 6 clusters at cluster 10 and three files behind it. *)
Definition demo_files : fheap :=
  let file c l := FileInfo [] None 0 (Disp c 1 [Block 0 l c]) 0 0 0 0 0 0 in
  <[1%positive := file 3 50]> (<[2%positive := file 2 40]> (<[3%positive := file 4 60]> ∅)).

Definition demo_buckets : FileEnumeration :=
  Files [(2, 2%positive); (3, 1%positive); (4, 3%positive)] [] [] [] 0 0.

Lemma demo_buckets_ok : buckets_ok demo_files (buckets_ demo_buckets).
Proof.
  split; [by repeat constructor; simpl; lia|].
  repeat constructor; (eexists; split_and!; [vm_compute; reflexivity | done | done | simpl; lia | simpl; lia]).
Qed.

Lemma findBest_correct_witness :
  ∃ res known', findBest demo_buckets [] 10 6 true demo_files = Ret (res.*2, known', demo_files) ∧
    (∀ k p, (k, p) ∈ res → (k, p) ∈ buckets_ demo_buckets ∧ 10 < file_lcn demo_files p) ∧
    total res ≤ 6 ∧ (true = false → res ≠ [] → total res = 6) ∧
    (∀ p, (6, p) ∈ buckets_ demo_buckets → 10 < file_lcn demo_files p →
       ∃ q, res = [(6, q)] ∧ file_lcn demo_files p ≤ file_lcn demo_files q).
Proof. apply findBest_correct; [apply demo_buckets_ok | lia]. Defined.

Lemma findBest_complete_witness :
  ∃ res known', findBest demo_buckets [] 10 6 false demo_files = Ret (res.*2, known', demo_files) ∧
    NoDup res ∧
    (∀ k p, (k, p) ∈ res → (k, p) ∈ buckets_ demo_buckets ∧ 10 < file_lcn demo_files p) ∧
    total res = 6.
Proof.
  apply (findBest_complete _ _ _ _ _ [(2, 2%positive); (4, 3%positive)]).
  - apply demo_buckets_ok.
  - apply (bool_decide_unpack _). vm_compute. exact I.
  - unfold maxlen. lia.
  - apply (bool_decide_unpack _). vm_compute. exact I.
  - intros k p [Hp|[Hp|[]%elem_of_nil]%elem_of_cons]%elem_of_cons; simplify_eq;
      (split; [set_solver | vm_compute; done]).
  - done.
Defined.

Lemma table_bounded_witness :
  ∃ b s, cands_loop 10 (reverse (base.filter (fun x => x.1 ≤ 6) (buckets_ demo_buckets)))
           (Cands [] 6 []) demo_files = Ret (b, s, demo_files) ∧
    Forall (fun x => 0 ≤ x.1 ≤ c_length s ≤ maxlen) (c_known s) ∧
    (∀ k, (key_count k (c_known s) ≤ 4)%nat) ∧ (List.length (c_known s) ≤ 4 * 257)%nat.
Proof. apply table_bounded; [apply demo_buckets_ok | lia]. Defined.

Example findBest_fills :
  (fun r => r.1.1) <$> findBest demo_buckets [] 10 6 false demo_files = Ret [3; 2]%positive.
Proof. vm_compute. reflexivity. Qed.

(** Two files of 3 clusters: the one further behind is inserted into [known_]
    and, in place of the other, once more.  The answer moves it twice. *)
Definition twin_files : fheap :=
  let file l := FileInfo [] None 0 (Disp 3 1 [Block 0 l 3]) 0 0 0 0 0 0 in
  <[1%positive := file 50]> (<[2%positive := file 40]> ∅).

Example findBest_twice :
  (fun r => r.1.1) <$> findBest (Files [(3, 1%positive); (3, 2%positive)] [] [] [] 0 0) [] 10 6 false twin_files
    = Ret [1; 1]%positive.
Proof. vm_compute. reflexivity. Qed.

(** ** [order] *)
Lemma min_index_spec i best v (bm : list winx_blockmap) pre :
  length pre = i → (∃ b, pre !! best = Some b ∧ bk_lcn b = v) → Forall (fun b => v ≤ bk_lcn b) pre →
  ∃ b, (pre ++ bm) !! min_index i best v bm = Some b ∧ Forall (fun c => bk_lcn b ≤ bk_lcn c) (pre ++ bm).
Proof.
  revert i best v pre. induction bm as [|c bm IH]; intros i best v pre Hi (b & Eb & Hb) Hf; simpl.
  { exists b. rewrite app_nil_r. subst v. done. }
  rewrite cons_middle, app_assoc. destruct (Z.ltb_spec (bk_lcn c) v) as [Hlt|Hge].
  - apply IH.
    + rewrite length_app. simpl. lia.
    + exists c. split; [|done]. subst i. by apply list_lookup_middle.
    + apply Forall_app. split; [|by constructor; [lia|]].
      eapply Forall_impl; [exact Hf|]. simpl. lia.
  - apply IH.
    + rewrite length_app. simpl. lia.
    + exists b. split; [|done]. apply lookup_app_l_Some. done.
    + apply Forall_app. split; [done|]. by repeat constructor.
Qed.

(** The map is turned so that it starts with a first block on the volume. *)
Lemma order_map_spec bm :
  ∃ l1 l2, bm = l1 ++ l2 ∧ order_map bm = l2 ++ l1 ∧
    match order_map bm with [] => bm = [] | b :: _ => Forall (fun c => bk_lcn b ≤ bk_lcn c) bm end.
Proof.
  destruct bm as [|b [|c bm]].
  { by exists [], []. }
  { exists [], [b]. split_and!; [done | done |]. by repeat constructor. }
  cbn [order_map]. destruct (min_index_spec 1 0 (bk_lcn b) (c :: bm) [b]) as (d & Ed & Hd).
  - done.
  - by exists b.
  - by repeat constructor.
  - set (i := min_index 1 0 (bk_lcn b) (c :: bm)) in *. change ([b] ++ c :: bm) with (b :: c :: bm) in *.
    exists (take i (b :: c :: bm)), (drop i (b :: c :: bm)).
    split_and!; [by rewrite take_drop | done |].
    rewrite (drop_S _ d) by done. done.
Qed.

Lemma order_map_Permutation bm : order_map bm ≡ₚ bm.
Proof.
  destruct (order_map_spec bm) as (l1 & l2 & E1 & E2 & _). rewrite E2, E1 at 1.
  apply Permutation_app_comm.
Qed.

Lemma order_run (h : fheap) p f :
  h !! p = Some f → order p h = Ret (tt, <[p := set_map (order_map (blockmap (disp f))) f]> h).
Proof. intros E. unfold order. by rewrite (modify_ok _ _ _ _ E). Qed.

(** ** Files by cluster *)

(** A block of the file starts at the cluster. *)
Definition starts (h : fheap) (p : loc) (c : Z) : Prop :=
  ∃ f b, h !! p = Some f ∧ b ∈ blockmap (disp f) ∧ bk_lcn b = c.

(** No two files have blocks that start at the same cluster. *)
Definition apart (h : fheap) (m : list (Z * loc)) : Prop :=
  ∀ p q c, p ∈ m.*2 → q ∈ m.*2 → starts h p c → starts h q c → p = q.

(** [lcns_] is empty until it is needed; then it has the first cluster of every
    block of the files of the buckets. *)
Definition lcns_ok (h : fheap) (e : FileEnumeration) : Prop :=
  lcns_ e = [] ∨
  map_sorted (lcns_ e) ∧ ∀ c p, (c, p) ∈ lcns_ e ↔ p ∈ (buckets_ e).*2 ∧ starts h p c.

Definition files_ok (h : fheap) (e : FileEnumeration) : Prop :=
  buckets_ok h (buckets_ e) ∧ NoDup (buckets_ e).*2 ∧ apart h (buckets_ e) ∧ lcns_ok h e.

Section lcns.
Implicit Types (m : list (Z * loc)) (k c : Z) (p q : loc) (h : fheap) (e : FileEnumeration).

Lemma insert_lcns_spec bm p lcns :
  map_sorted lcns → (∀ c q, c ∈ bk_lcn <$> bm → (c, q) ∈ lcns → q = p) →
  map_sorted (insert_lcns bm p lcns) ∧
  ∀ c q, (c, q) ∈ insert_lcns bm p lcns ↔ (c, q) ∈ lcns ∨ (q = p ∧ c ∈ bk_lcn <$> bm).
Proof.
  revert lcns. induction bm as [|b bm IH]; intros lcns Hs Hc; simpl.
  { split; [done|]. set_solver. }
  destruct (IH (std_insert (bk_lcn b) p lcns)) as [Hs' Hel].
  - by apply std_insert_sorted.
  - intros c q Hcb [Hin|[_ [= _ ->]]]%std_insert_elem; [|done..]. eapply Hc; [by right | done].
  - split; [done|]. intros c q. rewrite Hel, std_insert_elem, elem_of_cons by done.
    destruct (decide (bk_lcn b ∈ lcns.*1)) as [Hk|Hk]; [|naive_solver].
    apply list_elem_of_fmap in Hk as ([c' q'] & Hc' & Hin). simpl in Hc'. subst c'.
    assert (q' = p) as -> by (eapply Hc; [by left | done]).
    split; [naive_solver|]. intros [?|[-> [->|?]]]; naive_solver.
Qed.

Lemma starts_elem h p f c : h !! p = Some f → starts h p c ↔ c ∈ bk_lcn <$> blockmap (disp f).
Proof.
  intros E. rewrite list_elem_of_fmap. unfold starts. split.
  - intros (f' & b & E' & ? & <-). rewrite E in E'. simplify_eq. by exists b.
  - intros (b & -> & ?). by exists f, b.
Qed.

Lemma build_lcns_spec h m l lcns :
  Forall (bucket_ok h) m → apart h m → Forall (fun x => x ∈ m) l →
  map_sorted lcns → (∀ c q, (c, q) ∈ lcns → q ∈ m.*2 ∧ starts h q c) →
  ∃ lcns', build_lcns l lcns h = Ret (lcns', h) ∧ map_sorted lcns' ∧
    ∀ c q, (c, q) ∈ lcns' ↔ (c, q) ∈ lcns ∨ (q ∈ l.*2 ∧ starts h q c).
Proof.
  intros Hm Hap Hl. revert lcns. induction Hl as [|[k p] l Hin _ IH]; intros lcns Hs Hc.
  { exists lcns. split_and!; [done | done |]. set_solver. }
  destruct (bucket_inv h m Hm _ _ Hin) as (f & Ef & _). simpl in Ef.
  assert (Hpm : p ∈ m.*2) by (apply list_elem_of_fmap; by exists (k, p)).
  destruct (insert_lcns_spec (blockmap (disp f)) p lcns Hs) as [Hs1 Hel1].
  { intros c q Hcb Hq. destruct (Hc _ _ Hq) as [Hqm Hqc].
    apply (Hap q p c); [done | done | done | by apply (starts_elem _ _ _ _ Ef)]. }
  destruct (IH _ Hs1) as (lcns' & E' & Hs' & Hel').
  { intros c q [?|[-> ?]]%Hel1; [by apply Hc|]. split; [done | by apply (starts_elem _ _ _ _ Ef)]. }
  exists lcns'. cbn [build_lcns]. step (load_ok _ _ _ Ef).
  split_and!; [done | done |]. intros c q. rewrite Hel', Hel1, fmap_cons, elem_of_cons. simpl.
  rewrite <- (starts_elem _ _ _ _ Ef). naive_solver.
Qed.

Lemma erase_lcns_spec bm lcns :
  map_sorted lcns →
  map_sorted (erase_lcns bm lcns) ∧
  ∀ x, x ∈ erase_lcns bm lcns ↔ x ∈ lcns ∧ x.1 ∉ bk_lcn <$> bm.
Proof.
  revert lcns. induction bm as [|b bm IH]; intros lcns Hs; simpl.
  { split; [done|]. set_solver. }
  destruct (IH (std_erase (bk_lcn b) lcns)) as [Hs' Hel]; [by apply std_erase_sorted|].
  split; [done|]. intros x. rewrite Hel, std_erase_elem, elem_of_cons. tauto.
Qed.

Lemma findAt_run h e lcn :
  files_ok h e →
  ∃ res e', findAt e lcn h = Ret (res, e', h) ∧ files_ok h e' ∧ buckets_ e' = buckets_ e ∧
    ∀ p, res = Some p ↔ p ∈ (buckets_ e).*2 ∧ starts h p lcn.
Proof.
  intros ([Hso Hm] & Hnd & Hap & Hl).
  assert (∃ lcns, (match lcns_ e with [] => build_lcns (buckets_ e) [] | _ => mret (lcns_ e) end
      : ST fheap _) h = Ret (lcns, h) ∧ map_sorted lcns ∧
      ∀ c p, (c, p) ∈ lcns ↔ p ∈ (buckets_ e).*2 ∧ starts h p c) as (lcns & E & Hs & Hel).
  { destruct (lcns_ e) as [|x l] eqn:El.
    - destruct (build_lcns_spec h (buckets_ e) (buckets_ e) [] Hm Hap) as (lcns & E & Hs & Hel).
      + by apply Forall_forall.
      + constructor.
      + by intros c q ?%elem_of_nil.
      + exists lcns. split_and!; [done | done |]. intros c p. rewrite Hel, elem_of_nil. tauto.
    - destruct Hl as [Hl|[Hs Hel]]; [by rewrite El in Hl|]. rewrite El in *. by exists (x :: l). }
  unfold findAt. step E. eexists _, _. split; [done|].
  split_and!; [split_and!; [done | done | done | right; by split] | done |].
  intros p. by rewrite std_find_elem, Hel.
Qed.

Lemma pop_run h e k p :
  files_ok h e → (k, p) ∈ buckets_ e →
  ∃ e', pop e p h = Ret (e', h) ∧ files_ok h e' ∧ (k, p) :: buckets_ e' ≡ₚ buckets_ e.
Proof.
  intros ([Hso Hm] & Hnd & Hap & Hl) Hin.
  destruct (bucket_inv h _ Hm _ _ Hin) as (f & Ef & Hk & _). simpl in *.
  unfold pop. rewrite (st_bind_ret _ _ _ _ _ (load_ok _ _ _ Ef)), Hk.
  pose proof (erase_value_Permutation _ _ _ Hin) as Hp.
  eexists. split; [done|]. split; [|done].
  assert (Hsub : ∀ x, x ∈ erase_value k p (buckets_ e) → x ∈ buckets_ e) by (intros x; apply erase_value_elem).
  assert (Hsub2 : ∀ q, q ∈ (erase_value k p (buckets_ e)).*2 → q ∈ (buckets_ e).*2).
  { intros q (x & -> & Hx)%list_elem_of_fmap. apply list_elem_of_fmap. exists x. auto. }
  assert (Hnd' : p ∉ (erase_value k p (buckets_ e)).*2 ∧ NoDup (erase_value k p (buckets_ e)).*2).
  { apply NoDup_cons. by rewrite <- Hp in Hnd. }
  destruct Hnd' as [Hpn Hnd']. split_and!; cbn [buckets_ set_buckets set_lcns]; [| done | |].
  - split; [by apply erase_value_sorted|]. rewrite Forall_forall in *. auto.
  - intros q q' c Hq Hq'. apply Hap; auto.
  - unfold lcns_ok. cbn [lcns_ buckets_ set_buckets set_lcns]. destruct (lcns_ e) as [|x l] eqn:El; [by left|].
    destruct Hl as [Hl|[Hs Hel]]; [by rewrite El in Hl|]. rewrite El in *. right.
    destruct (erase_lcns_spec (blockmap (disp f)) (x :: l) Hs) as [Hs' Hel']. split; [done|].
    intros c q. rewrite Hel', Hel. simpl. rewrite <- (starts_elem _ _ _ c Ef). split.
    + intros [[Hq Hc] Hn]. split; [|done]. rewrite <- Hp in Hq. apply elem_of_cons in Hq as [->|Hq]; done.
    + intros [Hq Hc]. split; [by split; [apply Hsub2|]|]. intros Hpc. apply Hpn.
      assert (q = p) as <-; [|done]. apply (Hap q p c); [by apply Hsub2 | | done | done].
      rewrite <- Hp. by left.
Qed.

(** The store after [order]. *)
Definition ordered (h : fheap) (p : loc) (f : winx_file_info) : fheap :=
  <[p := set_map (order_map (blockmap (disp f))) f]> h.

Lemma starts_ordered h p f q c : h !! p = Some f → starts (ordered h p f) q c ↔ starts h q c.
Proof.
  intros E. unfold ordered. destruct (decide (q = p)) as [->|Hne].
  - rewrite (starts_elem _ _ _ c E), (starts_elem _ _ (set_map (order_map (blockmap (disp f))) f))
      by apply lookup_insert_eq. simpl. by rewrite order_map_Permutation.
  - unfold starts. by rewrite lookup_insert_ne.
Qed.

Lemma order_map_nonempty bm : bm ≠ [] → order_map bm ≠ [].
Proof. intros Hne E. apply Hne, Permutation_nil_r. by rewrite <- E, order_map_Permutation. Qed.

Lemma bucket_ok_ordered h p f x : h !! p = Some f → bucket_ok h x → bucket_ok (ordered h p f) x.
Proof.
  intros E (f' & Ef & Hk & Hb & Hr). unfold bucket_ok, ordered.
  destruct (decide (x.2 = p)) as [Hx|Hne].
  - rewrite Hx in *. rewrite E in Ef. simplify_eq. rewrite lookup_insert_eq. eexists.
    split_and!; [done | done | by apply order_map_nonempty | apply Hr | apply Hr].
  - rewrite lookup_insert_ne by done. exists f'. naive_solver.
Qed.

Lemma push_run h e p f :
  files_ok h e → h !! p = Some f → blockmap (disp f) ≠ [] → 0 ≤ clusters (disp f) < 2 ^ 64 →
  p ∉ (buckets_ e).*2 → (∀ q c, q ∈ (buckets_ e).*2 → starts h q c → ¬ starts h p c) →
  ∃ e', push e p h = Ret (e', ordered h p f) ∧ files_ok (ordered h p f) e' ∧
    buckets_ e' ≡ₚ (clusters (disp f), p) :: buckets_ e.
Proof.
  intros ([Hso Hm] & Hnd & Hap & Hl) Ef Hbm Hcl Hpn Hsep.
  unfold push. step (load_ok _ _ _ Ef).
  step (order_run _ _ _ Ef). fold (ordered h p f).
  erewrite st_bind_ret by (apply load_ok; apply lookup_insert_eq). cbn [disp set_map set_disp clusters].
  eexists. split; [done|]. pose proof (multimap_insert_Permutation (clusters (disp f)) p (buckets_ e)) as Hp.
  split; [|done]. split_and!; cbn [buckets_ set_buckets set_lcns].
  - split; [by apply multimap_insert_sorted|]. rewrite Hp. constructor.
    + exists (set_map (order_map (blockmap (disp f))) f). unfold ordered. simpl. rewrite lookup_insert_eq.
      split_and!; [done | done | by apply order_map_nonempty | lia | lia].
    + eapply Forall_impl; [exact Hm|]. intros x. by apply bucket_ok_ordered.
  - rewrite Hp. simpl. by constructor.
  - intros q q' c. rewrite Hp. simpl. rewrite !elem_of_cons, !(starts_ordered _ _ _ _ _ Ef).
    intros [->|Hq] [->|Hq'] Hc Hc'; [done | | | by apply (Hap q q' c)].
    + by destruct (Hsep q' c Hq' Hc').
    + by destruct (Hsep q c Hq Hc).
  - unfold lcns_ok. cbn [lcns_ buckets_ set_buckets set_lcns]. destruct (lcns_ e) as [|x l] eqn:El; [by left|].
    destruct Hl as [Hl|[Hs Hel]]; [by rewrite El in Hl|]. rewrite El in *. right.
    destruct (insert_lcns_spec (blockmap (disp f)) p (x :: l) Hs) as [Hs' Hel'].
    { intros c q Hc [Hq Hqc]%Hel. destruct (Hsep q c Hq Hqc). by apply (starts_elem _ _ _ _ Ef). }
    split; [done|]. intros c q. rewrite Hel', Hel, Hp, (starts_ordered _ _ _ _ _ Ef). simpl.
    rewrite elem_of_cons, <- (starts_elem _ _ _ c Ef). naive_solver.
Qed.
(** A file that is not in the buckets may change. *)
Lemma files_ok_update h e p f :
  files_ok h e → p ∉ (buckets_ e).*2 → files_ok (<[p := f]> h) e.
Proof.
  intros ([Hso Hm] & Hnd & Hap & Hl) Hpn.
  assert (Hst : ∀ q c, q ∈ (buckets_ e).*2 → starts (<[p := f]> h) q c ↔ starts h q c).
  { intros q c Hq. unfold starts. rewrite lookup_insert_ne; [done|]. by intros ->. }
  split_and!; [split; [done|] | done | |].
  - rewrite Forall_forall in *. intros x Hx. destruct (Hm _ Hx) as (f' & Ef' & ?). exists f'.
    rewrite lookup_insert_ne; [done|]. intros ->. apply Hpn, list_elem_of_fmap. by exists x.
  - intros q q' c Hq Hq'. rewrite !Hst by done. by apply Hap.
  - destruct Hl as [Hl|[Hs Hel]]; [by left|]. right. split; [done|]. intros c q. rewrite Hel.
    split; intros [Hq ?]; (split; [done|]); by apply Hst.
Qed.

(** Taking out a file that is not in the buckets. *)
Lemma pop_absent_run h e p f :
  files_ok h e → h !! p = Some f → p ∉ (buckets_ e).*2 →
  (∀ q c, q ∈ (buckets_ e).*2 → starts h q c → ¬ starts h p c) →
  ∃ e', pop e p h = Ret (e', h) ∧ files_ok h e' ∧ buckets_ e' = buckets_ e.
Proof.
  intros (Hb & Hnd & Hap & Hl) Ef Hpn Hsep.
  unfold pop. step (load_ok _ _ _ Ef).
  assert (Hers : erase_value (clusters (disp f)) p (buckets_ e) = buckets_ e).
  { clear -Hpn. induction (buckets_ e) as [|[k q] m IH]; [done|]. simpl in *.
    rewrite decide_False, IH; [done | set_solver |]. intros [= -> ->]. apply Hpn. by left. }
  rewrite Hers. eexists. split; [done|]. split; [|done].
  split_and!; cbn [buckets_ set_buckets set_lcns]; [done..|].
  unfold lcns_ok. cbn [lcns_ buckets_ set_buckets set_lcns]. destruct (lcns_ e) as [|x l] eqn:El; [by left|].
  destruct Hl as [Hl|[Hs Hel]]; [by rewrite El in Hl|]. rewrite El in *. right.
  destruct (erase_lcns_spec (blockmap (disp f)) (x :: l) Hs) as [Hs' Hel']. split; [done|].
  intros c q. rewrite Hel', Hel. simpl. rewrite <- (starts_elem _ _ _ c Ef). naive_solver.
Qed.
End lcns.

(** [findAt] finds a file exactly when one of the files of the buckets has a
    block that starts at the cluster, whether the map of clusters has been built
    before or is built now. *)
Theorem findAt_correct h e lcn :
  files_ok h e →
  ∃ res e', findAt e lcn h = Ret (res, e', h) ∧ files_ok h e' ∧ buckets_ e' = buckets_ e ∧
    ∀ p, res = Some p ↔ p ∈ (buckets_ e).*2 ∧ starts h p lcn.
Proof. apply findAt_run. Qed.

(** C14: taking a file out and, after it was moved (its disposition is now [d]),
    putting it back keeps the buckets and the map of clusters consistent with
    the files, and turns the block map of the file so that it starts with the
    block that lies first on the volume; the other files stay as they are. *)
Theorem pop_push_correct h e k p f d :
  files_ok h e → (k, p) ∈ buckets_ e → h !! p = Some f →
  blockmap d ≠ [] → 0 ≤ clusters d < 2 ^ 64 →
  (∀ q c, q ∈ (buckets_ e).*2 → q ≠ p → starts h q c → c ∉ bk_lcn <$> blockmap d) →
  ∃ e' h' bm, (e1 ← pop e p; _ ← modify (Some p) (set_disp d); push e1 p) h = Ret (e', h') ∧
    files_ok h' e' ∧ (k, p) :: buckets_ e' ≡ₚ (clusters d, p) :: buckets_ e ∧
    h' = <[p := set_map bm (set_disp d f)]> h ∧ bm ≡ₚ blockmap d ∧
    ∃ b, head bm = Some b ∧ Forall (fun c => bk_lcn b ≤ bk_lcn c) (blockmap d).
Proof.
  intros Hok Hin Ef Hbm Hcl Hsep.
  destruct (pop_run h e k p Hok Hin) as (e1 & E1 & Hok1 & Hp1).
  assert (Hnd : p ∉ (buckets_ e1).*2).
  { destruct Hok as (_ & Hnd & _). rewrite <- Hp1 in Hnd. by apply NoDup_cons in Hnd as [? _]. }
  set (h1 := <[p := set_disp d f]> h).
  assert (Hother : ∀ q, q ∈ (buckets_ e1).*2 → q ≠ p ∧ q ∈ (buckets_ e).*2).
  { intros q Hq. split; [by intros -> | rewrite <- Hp1; by right]. }
  pose proof (files_ok_update h e1 p (set_disp d f) Hok1 Hnd) as Hok1'. fold h1 in Hok1'.
  destruct (push_run h1 e1 p (set_disp d f) Hok1') as (e' & E' & Hok' & Hp');
    [apply lookup_insert_eq | done | done | done | |].
  { intros q c Hq Hqc. destruct (Hother _ Hq) as [Hqp Hqe].
    assert (starts h q c) by (unfold starts, h1 in *; by rewrite lookup_insert_ne in Hqc).
    rewrite (starts_elem _ _ (set_disp d f)) by apply lookup_insert_eq. by apply (Hsep q). }
  exists e', (ordered h1 p (set_disp d f)), (order_map (blockmap d)). split_and!.
  - rewrite (st_bind_ret _ _ _ _ _ E1), (st_bind_ret _ _ _ _ _ (modify_ok _ _ _ _ Ef)). exact E'.
  - done.
  - rewrite Hp', <- Hp1. apply Permutation_swap.
  - unfold ordered, h1. by rewrite insert_insert_eq.
  - apply order_map_Permutation.
  - destruct (order_map_spec (blockmap d)) as (l1 & l2 & _ & _ & Hh).
    pose proof (order_map_nonempty _ Hbm). destruct (order_map (blockmap d)) as [|b bm]; [done|].
    by exists b.
Qed.

(** ** [scan] *)
Section scan.
Context (fold : Z → Z).
Implicit Types (h : fheap) (p : loc) (e : FileEnumeration).

(** A file that cannot be moved: it has no block map or its path is excluded. *)
Definition rejected h p : bool :=
  match h !! p with
  | Some f => match blockmap (disp f), fi_path f with
              | [], _ => true
              | _, Some path => regex_search fold path excluded
              | _, None => false
              end
  | None => false
  end.

Definition fragmented h p : bool :=
  match h !! p with Some f => 1 <? fragments (disp f) | None => false end.

(** What the scan of the disk returns: files with a path. *)
Definition scanned h p : Prop :=
  ∃ f, h !! p = Some f ∧ 0 ≤ clusters (disp f) < 2 ^ 64 ∧ is_Some (fi_path f).

(** The file as the buckets have it. *)
Definition prepared (f : winx_file_info) : winx_file_info :=
  set_map (order_map (blockmap (disp f))) (freep_name f).

Definition file_key h p : Z := match h !! p with Some f => clusters (disp f) | None => 0 end.

Lemma scan_file_run h p e :
  scanned h p →
  ∃ h', scan_file fold p e h =
    Ret (Files (if rejected h p then buckets_ e else multimap_insert (file_key h p) p (buckets_ e))
           (lcns_ e) (if rejected h p then unmovable_ e ++ [p] else unmovable_ e) (finfo_ e)
           (if fragmented h p then u64 (fragmented_ e + 1) else fragmented_ e)
           (if rejected h p then u64 (unprocessable_ e + 1) else unprocessable_ e), h') ∧
    (∀ q, q ≠ p → h' !! q = h !! q) ∧ (rejected h p = false → prepared <$> h !! p = h' !! p).
Proof.
  intros (f & E & Hc & path & Epath). unfold scan_file, rejected, fragmented, file_key.
  rewrite E. step (modify_ok _ _ _ _ E).
  set (h1 := <[p := freep_name f]> h).
  assert (E1 : h1 !! p = Some (freep_name f)) by apply lookup_insert_eq.
  step (load_ok _ _ _ E1). cbn [freep_name disp fi_path].
  assert (Hne : ∀ q, q ≠ p → h1 !! q = h !! q) by (intros; by apply lookup_insert_ne).
  destruct (1 <? fragments (disp f)), (blockmap (disp f)) as [|b bm] eqn:Eb;
    try (eexists; split_and!; [reflexivity | exact Hne | done]).
  all: rewrite Epath; destruct (regex_search fold path excluded);
    [by eexists|]; step (order_run _ _ _ E1).
  all: set (h2 := <[p := set_map _ (freep_name f)]> h1);
    assert (E2 : h2 !! p = Some (prepared f)) by (unfold h2; rewrite lookup_insert_eq; unfold prepared; by rewrite <- Eb || done).
  all: step (load_ok _ _ _ E2); eexists; split_and!; [reflexivity | | done].
  all: intros q Hq; unfold h2; by rewrite lookup_insert_ne, Hne.
Qed.
Definition movable h (ps : list loc) : list loc := base.filter (fun p => rejected h p = false) ps.

Definition keyed h (ps : list loc) : list (Z * loc) := (fun p => (file_key h p, p)) <$> ps.

Lemma rejected_ext h h' p : h !! p = h' !! p → rejected h p = rejected h' p ∧
  fragmented h p = fragmented h' p ∧ file_key h p = file_key h' p.
Proof. intros E. unfold rejected, fragmented, file_key. by rewrite E. Qed.

Lemma filters_ext h h' ps : (∀ p, p ∈ ps → h !! p = h' !! p) →
  base.filter (fun p => rejected h p = true) ps = base.filter (fun p => rejected h' p = true) ps ∧
  keyed h (movable h ps) = keyed h' (movable h' ps) ∧
  base.filter (fun p => fragmented h p = true) ps = base.filter (fun p => fragmented h' p = true) ps.
Proof.
  unfold movable. induction ps as [|p ps IH]; intros Hext; [done|].
  destruct IH as (I1 & I2 & I3); [intros q Hq; apply Hext; by right|].
  destruct (rejected_ext h h' p) as (E1 & E2 & E3); [apply Hext; by left|].
  rewrite !filter_cons, E1, E2, I1, I3. split_and!; [done | | done].
  case_decide; [|done]. unfold keyed in *. by rewrite !fmap_cons, E3, I2.
Qed.

Lemma scan_files_run h ps e :
  NoDup ps → Forall (scanned h) ps → multimap_sorted (buckets_ e) →
  0 ≤ fragmented_ e → fragmented_ e + Z.of_nat (length ps) < 2 ^ 64 →
  0 ≤ unprocessable_ e → unprocessable_ e + Z.of_nat (length ps) < 2 ^ 64 →
  ∃ h' e', scan_files fold ps e h = Ret (e', h') ∧ multimap_sorted (buckets_ e') ∧
    buckets_ e' ≡ₚ keyed h (movable h ps) ++ buckets_ e ∧
    unmovable_ e' = unmovable_ e ++ base.filter (fun p => rejected h p = true) ps ∧
    lcns_ e' = lcns_ e ∧ finfo_ e' = finfo_ e ∧
    fragmented_ e' = fragmented_ e +
      Z.of_nat (length (base.filter (fun p => fragmented h p = true) ps)) ∧
    unprocessable_ e' = unprocessable_ e +
      Z.of_nat (length (base.filter (fun p => rejected h p = true) ps)) ∧
    (∀ q, q ∉ ps → h' !! q = h !! q) ∧
    (∀ p, p ∈ ps → rejected h p = false → h' !! p = prepared <$> h !! p).
Proof.
  intros Hnd Hsc. revert h e Hsc. induction Hnd as [|p ps Hp Hnd IH]; intros h e Hsc Hso Hf1 Hf2 Hu1 Hu2.
  { exists h, e. simpl. rewrite app_nil_r. split_and!; try done; try lia. by intros p ?%elem_of_nil. }
  apply Forall_cons in Hsc as [Hscp Hsc]. cbn [length] in Hf2, Hu2.
  destruct (scan_file_run h p e Hscp) as (h1 & E1 & Hne & Hpr).
  set (e1 := Files _ _ _ _ _ _) in E1.
  assert (Hext : ∀ q, q ∈ ps → h !! q = h1 !! q) by (intros q Hq; rewrite Hne; [done | by intros ->]).
  destruct (IH h1 e1) as (h' & e' & E' & Hso' & Hb' & Hu' & Hl' & Hi' & Hf' & Hun' & Hout & Hin).
  - rewrite Forall_forall in *. intros q Hq. destruct (Hsc q Hq) as (f & Ef & ?). exists f.
    by rewrite <- Hext.
  - unfold e1. cbn [buckets_]. destruct (rejected h p); [done | by apply multimap_insert_sorted].
  - unfold e1. cbn [fragmented_]. destruct (fragmented h p); [rewrite u64_small|]; lia.
  - unfold e1. cbn [fragmented_]. destruct (fragmented h p); [rewrite u64_small|]; lia.
  - unfold e1. cbn [unprocessable_]. destruct (rejected h p); [rewrite u64_small|]; lia.
  - unfold e1. cbn [unprocessable_]. destruct (rejected h p); [rewrite u64_small|]; lia.
  - destruct (filters_ext h h1 ps Hext) as (X1 & X2 & X3).
    exists h', e'. unfold e1 in *. cbn [buckets_ lcns_ unmovable_ finfo_ fragmented_ unprocessable_] in *.
    split_and!; [| done | | | done | done | | | |].
    + cbn [scan_files]. by rewrite (st_bind_ret _ _ _ _ _ E1).
    + rewrite Hb', <- X2. unfold movable. rewrite filter_cons. destruct (rejected h p) eqn:Er; [done|].
      simpl. rewrite multimap_insert_Permutation. by rewrite <- Permutation_middle.
    + rewrite Hu', <- X1, filter_cons. destruct (rejected h p); [|done].
      rewrite decide_True by done. by rewrite <- app_assoc.
    + rewrite Hf', <- X3, filter_cons. destruct (fragmented h p); [rewrite decide_True by done | done].
      words. cbn [length]. lia.
    + rewrite Hun', <- X1, filter_cons. destruct (rejected h p); [rewrite decide_True by done | done].
      words. cbn [length]. lia.
    + intros q Hq. rewrite Hout, Hne; set_solver.
    + intros q [->|Hq]%elem_of_cons Hr; [rewrite Hout by done; by rewrite <- Hpr|].
      rewrite (Hext q Hq). apply Hin; [done|]. destruct (rejected_ext h h1 q (Hext q Hq)) as (<- & _). done.
Qed.

(** The scan as a whole. *)
Lemma disk_scan_run h infos e :
  NoDup infos → Forall (scanned h) infos → Z.of_nat (length infos) < 2 ^ 64 →
  fragmented_ e = 0 → unprocessable_ e = 0 → infos ≠ [] →
  ∃ h' e', scan fold false infos e h = Ret (Some e', h') ∧
    multimap_sorted (buckets_ e') ∧ NoDup (buckets_ e').*2 ∧
    (∀ k p, (k, p) ∈ buckets_ e' ↔ p ∈ infos ∧ rejected h p = false ∧ k = file_key h p) ∧
    lcns_ e' = [] ∧ unmovable_ e' = base.filter (fun p => rejected h p = true) infos ∧
    unprocessable_ e' = Z.of_nat (length (unmovable_ e')) ∧
    fragmented_ e' = Z.of_nat (length (base.filter (fun p => fragmented h p = true) infos)) ∧
    (∀ k p, (k, p) ∈ buckets_ e' → h' !! p = prepared <$> h !! p).
Proof.
  intros Hnd Hsc Hlen Hf Hu Hne.
  destruct (scan_files_run h infos (Files [] [] [] infos (fragmented_ e) (unprocessable_ e)))
    as (h' & e' & E & Hso & Hb & Hun & Hl & _ & Hfr & Hup & _ & Hpr); cbn [fragmented_ unprocessable_] in *;
    try done; try lia; [constructor|].
  rewrite app_nil_r in Hb.
  assert (Hel : ∀ k p, (k, p) ∈ buckets_ e' ↔ p ∈ infos ∧ rejected h p = false ∧ k = file_key h p).
  { intros k p. rewrite Hb. unfold keyed, movable. rewrite list_elem_of_fmap. split.
    - intros (q & [= -> ->] & [? ?]%list_elem_of_filter). done.
    - intros (? & ? & ->). exists p. split; [done|]. by apply list_elem_of_filter. }
  exists h', e'. split_and!; try done.
  - unfold scan. destruct infos; [done|]. by rewrite (st_bind_ret _ _ _ _ _ E).
  - rewrite Hb. unfold keyed. rewrite <- list_fmap_compose, list_fmap_id. by apply NoDup_filter.
  - rewrite Hup, Hun, Hu. simpl. lia.
  - rewrite Hfr, Hf. lia.
  - intros k p (? & ? & _)%Hel. by apply Hpr.
Qed.
End scan.

(** C15: [scan] sorts the files of the volume: those without a block map or with
    an excluded path are listed as unmovable, in order and counted, every other
    file is in the buckets under its number of clusters with its block map
    turned to its first block, and the files of more than one fragment are
    counted; an empty answer without a request to stop is an exception. *)
Theorem scan_correct fold h infos e :
  NoDup infos → Forall (scanned h) infos → Z.of_nat (length infos) < 2 ^ 64 →
  fragmented_ e = 0 → unprocessable_ e = 0 →
  (infos = [] → scan fold false infos e h = Ret (None, h)) ∧
  (infos ≠ [] → ∃ h' e', scan fold false infos e h = Ret (Some e', h') ∧
    multimap_sorted (buckets_ e') ∧
    (∀ k p, (k, p) ∈ buckets_ e' ↔
       p ∈ infos ∧ rejected fold h p = false ∧ k = file_key h p) ∧
    lcns_ e' = [] ∧ unmovable_ e' = base.filter (fun p => rejected fold h p = true) infos ∧
    unprocessable_ e' = Z.of_nat (length (unmovable_ e')) ∧
    fragmented_ e' = Z.of_nat (length (base.filter (fun p => fragmented h p = true) infos)) ∧
    (∀ k p, (k, p) ∈ buckets_ e' → h' !! p = prepared <$> h !! p)).
Proof.
  intros Hnd Hsc Hlen Hf Hu. split; [by intros ->|]. intros Hne.
  destruct (disk_scan_run fold h infos e Hnd Hsc Hlen Hf Hu Hne) as (h' & e' & E & Hso & _ & H).
  by exists h', e'.
Qed.

(** *** Runs *)
Lemma demo_starts p c : starts demo_files p c → (p, c) ∈ [(1%positive, 50); (2%positive, 40); (3%positive, 60)].
Proof.
  intros (f & b & E & Hb & <-). unfold demo_files in E.
  apply lookup_insert_Some in E as [[<- <-]|[? E]];
    [|apply lookup_insert_Some in E as [[<- <-]|[? E]];
      [|apply lookup_insert_Some in E as [[<- <-]|[? E]]; [|done]]].
  all: apply list_elem_of_singleton in Hb as ->; set_solver.
Qed.

Lemma demo_files_ok : files_ok demo_files demo_buckets.
Proof.
  split_and!; [apply demo_buckets_ok | | | by left].
  - apply (bool_decide_unpack _). vm_compute. exact I.
  - intros p q c _ _ Hp%demo_starts Hq%demo_starts. set_unfold. naive_solver lia.
Qed.

Lemma findAt_correct_witness :
  ∃ res e', findAt demo_buckets 40 demo_files = Ret (res, e', demo_files) ∧
    files_ok demo_files e' ∧ buckets_ e' = buckets_ demo_buckets ∧
    ∀ p, res = Some p ↔ p ∈ (buckets_ demo_buckets).*2 ∧ starts demo_files p 40.
Proof. apply findAt_correct, demo_files_ok. Defined.

Lemma pop_push_correct_witness :
  let d := Disp 3 2 [Block 0 12 1; Block 1 10 2] in
  let f := FileInfo [] None 0 (Disp 3 1 [Block 0 50 3]) 0 0 0 0 0 0 in
  ∃ e' h' bm,
    (e1 ← pop demo_buckets 1%positive; _ ← modify (Some 1%positive) (set_disp d);
     push e1 1%positive) demo_files = Ret (e', h') ∧
    files_ok h' e' ∧ (3, 1%positive) :: buckets_ e' ≡ₚ (3, 1%positive) :: buckets_ demo_buckets ∧
    h' = <[1%positive := set_map bm (set_disp d f)]> demo_files ∧ bm ≡ₚ blockmap d ∧
    ∃ b, head bm = Some b ∧ Forall (fun c => bk_lcn b ≤ bk_lcn c) (blockmap d).
Proof.
  apply (pop_push_correct demo_files demo_buckets 3 1%positive).
  - apply demo_files_ok.
  - set_solver.
  - vm_compute. reflexivity.
  - done.
  - simpl. lia.
  - intros q c _ Hq Hs%demo_starts Hc. simpl in Hc. set_unfold. naive_solver lia.
Defined.

(** A volume with a file to move, a system file and a file without clusters. *)
Definition scan_demo : fheap :=
  let file path c bm := FileInfo (text "x") (Some (text path)) 0 (Disp c 2 bm) 0 0 0 0 0 0 in
  <[1%positive := file "\??\C:\data\a.txt" 3 [Block 0 50 2; Block 2 20 1]]>
  (<[2%positive := file "\??\C:\System Volume Information\log" 2 [Block 0 40 2]]>
  (<[3%positive := file "\??\C:\data\empty" 0 []]> ∅)).

Lemma scan_correct_witness :
  let infos := [1; 2; 3]%positive in
  let e := Files [] [] [] [] 0 0 in
  (infos = [] → scan fast_towlower false infos e scan_demo = Ret (None, scan_demo)) ∧
  (infos ≠ [] → ∃ h' e', scan fast_towlower false infos e scan_demo = Ret (Some e', h') ∧
    multimap_sorted (buckets_ e') ∧
    (∀ k p, (k, p) ∈ buckets_ e' ↔
       p ∈ infos ∧ rejected fast_towlower scan_demo p = false ∧ k = file_key scan_demo p) ∧
    lcns_ e' = [] ∧
    unmovable_ e' = base.filter (fun p => rejected fast_towlower scan_demo p = true) infos ∧
    unprocessable_ e' = Z.of_nat (length (unmovable_ e')) ∧
    fragmented_ e' =
      Z.of_nat (length (base.filter (fun p => fragmented scan_demo p = true) infos)) ∧
    (∀ k p, (k, p) ∈ buckets_ e' → h' !! p = prepared <$> scan_demo !! p)).
Proof.
  apply (scan_correct fast_towlower scan_demo [1; 2; 3]%positive).
  - apply (bool_decide_unpack _). vm_compute. exact I.
  - apply Forall_forall. intros p [->|[->|[->|[]%elem_of_nil]%elem_of_cons]%elem_of_cons]%elem_of_cons;
      (eexists; split_and!; [vm_compute; reflexivity | simpl; lia | simpl; lia | by eexists]).
  - simpl. lia.
  - done.
  - done.
Defined.

(** The lower case of a letter is enough to run the regular expression. *)
Definition ascii_lower (c : Z) : Z := if (65 <=? c) && (c <=? 90) then c + 32 else c.

Example scan_demo_run :
  (fun r => match r.1 with Some e => (buckets_ e, unmovable_ e, fragmented_ e) | None => ([], [], 0) end)
    <$> scan ascii_lower false [1; 2; 3]%positive (Files [] [] [] [] 0 0) scan_demo
  = Ret ([(3, 1%positive)], [2; 3]%positive, 3).
Proof. vm_compute. reflexivity. Qed.
