(* ===== verification/Op.v ===== *)
(** * op.cpp: moving files into gaps

    [move_file], [move_set], [defrag], [widen_behind], [close_gaps] and
    [Operation::run] over the two enumerations.  The volume is a parameter (the
    class [Volume]): opening a file, the move and the retrieval pointers of the
    file system, the bitmap, and the flag that the console handler sets.  What
    the program prints is left out. *)
From S2P Require Import Prelude DList Regions Bitmap CString FileInfo Ftw FileIO StdMap Gaps Files.
From stdpp Require Import prelude gmap sorting.
Open Scope Z_scope.

Definition STATUS_ALREADY_COMMITTED : Z := 0xC0000021.

Definition MAXULONG32 : Z := 2 ^ 32 - 1.

(** ** The volume *)
Class Volume (W : Type) := {
  (** does [winx_defrag_fopen] open the file? *)
  v_opens : W → winx_file_info → bool;
  (** FSCTL_MOVE_FILE: StartVcn, NumVcns and TargetLcn to the final status *)
  v_move : W → winx_file_info → Z → Z → Z → Z * W;
  (** FSCTL_GET_RETRIEVAL_POINTERS; [None] when the file cannot be opened *)
  v_retrieve : W → winx_file_info → option (Z → Z * GET_RETRIEVAL_DESCRIPTOR);
  (** [winx_vopen], and FSCTL_GET_VOLUME_BITMAP *)
  v_vopen : W → bool;
  v_bitmap : W → Z → Z * BITMAP_DESCRIPTOR;
  (** reading [ConsoleHandler::gTerminated] *)
  v_terminated : W → bool * W;
}.

(** The options that steer the operation. *)
Record Options : Type := Opts {
  maxSize : Z;
  aggressive : bool;
  opt_gaps : bool;
  opt_defrag : bool;
  widen : bool;
}.

(** [Operation]: the enumerations with their stores, the counters and the
    volume. *)
Record Operation (W : Type) : Type := Op {
  gheap : gmap loc (node winx_volume_region);
  op_ge : GapEnumeration;
  files : fheap;
  op_fe : FileEnumeration;
  known_ : list (Z * loc);
  moved : Z;
  movedLen : Z;
  last_moved : ptr;
  replaced : bool;
  vol : W;
}.
Arguments Op {W}.
Arguments gheap {W}.
Arguments op_ge {W}.
Arguments files {W}.
Arguments op_fe {W}.
Arguments known_ {W}.
Arguments moved {W}.
Arguments movedLen {W}.
Arguments last_moved {W}.
Arguments replaced {W}.
Arguments vol {W}.

(** ** Programs that may throw

    [None] is a [std::exception] on its way. *)
Definition prog (W A : Type) : Type := Operation W → outcome (option A * Operation W).

#[export] Instance prog_ret W : MRet (prog W) := fun A a s => Ret (Some a, s).

#[export] Instance prog_bind W : MBind (prog W) := fun A B f m s =>
  match m s with
  | Ret (Some a, s') => f a s'
  | Ret (None, s') => Ret (None, s')
  | Fault => Fault
  | NoFuel => NoFuel
  end.

Section prog.
Context {W : Type}.

Definition throw {A} : prog W A := fun s => Ret (None, s).

Definition nofuel {A} : prog W A := fun _ => NoFuel.

(** [try] and [catch (const std::exception &)] *)
Definition catch {A} (m handler : prog W A) : prog W A := fun s =>
  match m s with
  | Ret (None, s') => handler s'
  | r => r
  end.

Definition get {A} (f : Operation W → A) : prog W A := fun s => Ret (Some (f s), s).

(** Running a program over one of the stores. *)
Definition on_gaps {A} (m : GapEnumeration → ST (gmap loc (node winx_volume_region)) A) : prog W A :=
  fun s =>
    match m (op_ge s) (gheap s) with
    | Ret (a, h) => Ret (Some a, Op h (op_ge s) (files s) (op_fe s) (known_ s) (moved s) (movedLen s)
                                    (last_moved s) (replaced s) (vol s))
    | Fault => Fault
    | NoFuel => NoFuel
    end.

Definition on_files {A} (m : FileEnumeration → ST fheap A) : prog W A :=
  fun s =>
    match m (op_fe s) (files s) with
    | Ret (a, h) => Ret (Some a, Op (gheap s) (op_ge s) h (op_fe s) (known_ s) (moved s) (movedLen s)
                                    (last_moved s) (replaced s) (vol s))
    | Fault => Fault
    | NoFuel => NoFuel
    end.

Definition set_ge (g : GapEnumeration) : prog W unit := fun s =>
  Ret (Some tt, Op (gheap s) g (files s) (op_fe s) (known_ s) (moved s) (movedLen s) (last_moved s)
                   (replaced s) (vol s)).

Definition set_fe (e : FileEnumeration) : prog W unit := fun s =>
  Ret (Some tt, Op (gheap s) (op_ge s) (files s) e (known_ s) (moved s) (movedLen s) (last_moved s)
                   (replaced s) (vol s)).

Definition set_known (k : list (Z * loc)) : prog W unit := fun s =>
  Ret (Some tt, Op (gheap s) (op_ge s) (files s) (op_fe s) k (moved s) (movedLen s) (last_moved s)
                   (replaced s) (vol s)).

Definition set_replaced (b : bool) : prog W unit := fun s =>
  Ret (Some tt, Op (gheap s) (op_ge s) (files s) (op_fe s) (known_ s) (moved s) (movedLen s) (last_moved s)
                   b (vol s)).

(** "Success" *)
Definition count_move (f : loc) (clusters : Z) : prog W unit := fun s =>
  Ret (Some tt, Op (gheap s) (op_ge s) (files s) (op_fe s) (known_ s) (u64 (moved s + 1))
                   (u64 (movedLen s + clusters)) (Some f) true (vol s)).

(** An operation of the volume. *)
Definition on_vol {A} (f : W → A * W) : prog W A := fun s =>
  let '(a, w) := f (vol s) in
  Ret (Some a, Op (gheap s) (op_ge s) (files s) (op_fe s) (known_ s) (moved s) (movedLen s) (last_moved s)
                  (replaced s) w).
End prog.

Section operations.
Context {W : Type} `{!Volume W} `{!Allocator (node winx_volume_region)}.
(** Bounds: the portions of the bitmap and of a block map, the parts a file is
    moved in, and the rounds of the loops over the gaps. *)
Context (bfuel dfuel mfuel : nat).
Context (DebugBreak prev_begin : outcome unit).
Abbreviation prog := (prog W).
Implicit Types (f : loc) (s : Operation W).

Definition ge_scan : prog unit :=
  w ← get vol;
  g ← on_gaps (Gaps.scan (v_bitmap w) (v_vopen w) bfuel);
  set_ge g.

Definition ge_push (fi : winx_file_info) : prog unit :=
  w ← get vol;
  g ← on_gaps (fun g => Gaps.push (v_bitmap w) (v_vopen w) bfuel DebugBreak prev_begin g fi);
  set_ge g.

Definition ge_pop_file (fi : winx_file_info) : prog unit :=
  w ← get vol;
  g ← on_gaps (fun g => Gaps.pop_file (v_bitmap w) (v_vopen w) bfuel DebugBreak g fi);
  set_ge g.

Definition ge_pop_region (r : ptr) : prog unit :=
  w ← get vol;
  g ← on_gaps (fun g => Gaps.pop_region (v_bitmap w) (v_vopen w) bfuel DebugBreak g r);
  set_ge g.

Definition ge_best (clusters : Z) (not : option (ptr * winx_volume_region)) (behindOnly : bool)
  : prog ptr := on_gaps (fun g => best g clusters not behindOnly).

(** Reading the region a gap pointer points to. *)
Definition region_at (r : ptr) : prog winx_volume_region :=
  nd ← on_gaps (fun _ => load r); mret (data nd).

Definition fe_pop (f : loc) : prog unit := e ← on_files (fun e => Files.pop e f); set_fe e.

Definition fe_push (f : loc) : prog unit := e ← on_files (fun e => Files.push e f); set_fe e.

Definition file_at (f : loc) : prog winx_file_info := on_files (fun _ => load (Some f)).

(** [winx_ftw_dump_file(f, nullptr, nullptr)]: its result is not looked at. *)
Definition dump_file (f : loc) : prog unit :=
  w ← get vol;
  fi ← file_at f;
  '(_, fi', _) ← on_files (fun _ => st_lift
    match v_retrieve w fi with
    | Some retrieve => winx_ftw_dump_file None retrieve dfuel true fi 0
    | None => winx_ftw_dump_file None (fun _ => (0, RetrievalDescriptor 0 0 [])) dfuel false fi 0
    end);
  on_files (fun _ => modify (Some f) (fun _ => fi')).

Definition gTerminated : prog bool := on_vol v_terminated.

(** The loop of [move_file]: [target_lcn] is [target.lcn].  [StartVcn] is zero
    in every round. *)
Fixpoint move_loop (n : nat) (f : loc) (target_lcn numlcns : Z) : prog unit :=
  let cur := u32 (Z.min numlcns (MAXULONG32 - 10)) in
  if cur =? 0 then mret tt else
  match n with
  | O => nofuel
  | S n =>
      fi ← file_at f;
      w ← get vol;
      if negb (v_opens w fi) then throw else
      status ← on_vol (fun w => v_move w fi 0 cur target_lcn);
      _ ← ge_push fi;
      _ ← dump_file f;
      if NT_SUCCESS status then
        fi ← file_at f;
        _ ← ge_pop_file fi;
        _ ← fe_push f;
        move_loop n f (u64 (target_lcn + cur)) (u64 (numlcns - cur))
      else if status =? STATUS_ALREADY_COMMITTED then
        (* Area vanished. File is still good. *)
        _ ← fe_push f; throw
      else throw
  end.

Definition move_file (f : loc) (target_lcn : Z) : prog unit :=
  _ ← fe_pop f;
  fi ← file_at f;
  _ ← move_loop mfuel f target_lcn (clusters (disp fi));
  fi ← file_at f;
  count_move f (clusters (disp fi)).

(** The loop of [move_set] over the files; [r] is the rest of the gap. *)
Fixpoint move_files (fs : list loc) (r : winx_volume_region) : prog unit :=
  match fs with
  | [] => mret tt
  | f :: fs =>
      stop ← gTerminated;
      if (stop : bool) then mret tt else
      _ ← move_file f (rlcn r);
      fi ← file_at f;
      let c := clusters (disp fi) in
      move_files fs (Region (u64 (rlcn r + c)) (u64 (rlength r - c)))
  end.

Definition move_set (fs : list loc) (r : winx_volume_region) : prog bool :=
  catch (_ ← move_files fs r; mret true) (mret false).

(** The first loop of [defrag]: the files of more than one fragment. *)
Fixpoint fragmented_files (entries : list (Z * loc)) : prog (list loc) :=
  match entries with
  | [] => mret []
  | (_, f) :: entries =>
      stop ← gTerminated;
      if (stop : bool) then mret [] else
      fi ← file_at f;
      rest ← fragmented_files entries;
      mret (if 1 <? fragments (disp fi) then f :: rest else rest)
  end.

(** The second loop.  The file moved last is popped and then moved like any
    other. *)
Fixpoint defrag_files (fs : list loc) : prog unit :=
  match fs with
  | [] => mret tt
  | f :: fs =>
      stop ← gTerminated;
      if (stop : bool) then mret tt else
      l ← get last_moved;
      _ ← (if decide (l = Some f) then fe_pop f else mret tt);
      fi ← file_at f;
      g ← ge_best (clusters (disp fi)) None false;
      match g with
      | None => defrag_files fs
      | Some _ =>
          r ← region_at g;
          _ ← catch (move_file f (rlcn r)) ge_scan;
          defrag_files fs
      end
  end.

Definition defrag : prog unit :=
  e ← get op_fe;
  fs ← fragmented_files (buckets_ e);
  defrag_files fs.

(** What the loop of [widen_behind] keeps. *)
Record widen_state : Type := Widen {
  w_r : winx_volume_region;
  w_moved : Z;
  w_movedlen : Z;
}.

(** The target of a file behind the gap: another gap further behind, or the gap
    itself ([inl tt] for [&r]). *)
Definition widen_target (o : Options) (c : Z) (r : winx_volume_region) : prog (option (unit + loc)) :=
  target ← ge_best c (Some (None, r)) true;
  mret match target with
       | Some p => Some (inr p)
       | None => if (maxSize o <=? c) && (c <=? rlength r) then Some (inl tt) else None
       end.

(** The body of the loop of [widen_behind] for the file [f] behind the gap:
    nothing when the loop is left. *)
Definition widen_round (o : Options) (st : widen_state) (f : loc) : prog (option widen_state) :=
  let r := w_r st in
  fi ← file_at f;
  target ← widen_target o (clusters (disp fi)) r;
  match target with
  | None => mret None
  | Some t =>
      t_lcn ← (match t with
               | inl _ => mret (rlcn r)
               | inr p => d ← region_at (Some p); mret (rlcn d)
               end);
      _ ← move_file f t_lcn;
      fi ← file_at f;
      let c := clusters (disp fi) in
      let lcn := match t with inl _ => u64 (rlcn r - c) | inr _ => rlcn r end in
      mret (Some (Widen (Region lcn (u64 (rlength r + c))) (u64 (w_moved st + 1)) (u64 (w_movedlen st + c))))
  end.

Fixpoint widen_loop (n : nat) (o : Options) (maxMoves : Z) (st : widen_state) : prog widen_state :=
  match n with
  | O => nofuel
  | S n =>
      if negb (widen o) then mret st else
      stop ← gTerminated;
      if (stop : bool) then mret st else
      if negb (w_movedlen st <? maxSize o / 2) || negb (w_moved st <? maxMoves) then mret st else
      let r := w_r st in
      '(f, e) ← on_files (fun e => findAt e (u64 (rlcn r + rlength r)));
      _ ← set_fe e;
      match f with
      | None => mret st
      | Some f =>
          next ← widen_round o st f;
          match next with
          | None => mret st
          | Some st => widen_loop n o maxMoves st
          end
      end
  end.

Definition widen_behind (o : Options) (g : ptr) (maxMoves : Z) : prog bool :=
  r ← region_at g;
  catch (st ← widen_loop (S (Z.to_nat maxMoves)) o maxMoves (Widen r 0 0);
         mret (0 <? w_moved st))
        (mret false).

Fixpoint close_loop (n : nat) (o : Options) (partialOK : bool) : prog unit :=
  e ← get op_ge;
  match next_gap e with
  | None => mret tt
  | Some g =>
      match n with
      | O => nofuel
      | S n =>
          stop ← gTerminated;
          if (stop : bool) then mret tt else
          d ← region_at (Some g);
          if negb (aggressive o) && (maxSize o <? rlength d) then
            _ ← ge_pop_region (Some g);
            close_loop n o partialOK
          else
            k ← get known_;
            '(fs, k) ← on_files (fun e => findBest e k (rlcn d) (rlength d) partialOK);
            _ ← set_known k;
            match fs with
            | _ :: _ =>
                ok ← move_set fs d;
                if (ok : bool) then close_loop n o false
                else _ ← ge_scan; close_loop n o partialOK
            | [] =>
                widened ← widen_behind o (Some g) (if partialOK then 100 else 3);
                if negb widened && partialOK
                then _ ← ge_pop_region (Some g); close_loop n o false
                else close_loop n o true
            end
      end
  end.

Definition close_gaps (n : nat) (o : Options) : prog unit := close_loop n o false.

(** The loop of [Operation::run]. *)
Fixpoint rounds (n k : nat) (o : Options) : prog unit :=
  match n with
  | O => nofuel
  | S n =>
      stop ← gTerminated;
      r ← get replaced;
      if (stop : bool) || negb r then mret tt else
      _ ← (if opt_defrag o then (_ ← defrag; ge_scan) else mret tt);
      _ ← set_replaced false;
      _ ← (if opt_gaps o then (_ ← close_gaps k o; ge_scan) else mret tt);
      rounds n k o
  end.

Definition run (n k : nat) (o : Options) : prog unit :=
  _ ← set_replaced true;
  _ ← rounds n k o;
  ge_scan.
End operations.
