(* ===== verification/OpSafe.v ===== *)
(** * op.cpp: the enumerations stay in step with the volume

    [VolumeLaws] says what the program relies on from the file system, [op_inv]
    relates the two enumerations to the volume, and the theorems show that the
    operations of [Op] neither fault nor lose the invariant, whether moves
    succeed or fail. *)
From S2P Require Import Prelude DList Regions Bitmap CString FileInfo Ftw FileIO StdMap Gaps Files Op.
From stdpp Require Import prelude gmap sorting strings.
Open Scope Z_scope.

(** What the retrieval pointers of a file stand for. *)
Definition runs_disp (runs : list (Z * Z)) : winx_file_disposition := map_disp 0 runs empty_disp.

Definition runs_blocks (runs : list (Z * Z)) : list winx_blockmap := blockmap (runs_disp runs).

(** The volume has [N] clusters; a cluster is free or belongs to at most one
    file.  Moving a part of a file changes the clusters of that file only: they
    come from its old clusters and the free ones, and, when the move succeeds,
    from its old clusters and the target.  Nobody else writes to the volume. *)
Class VolumeLaws (W : Type) `{!Volume W} (N : Z) (bfuel dfuel : nat) := {
  free : W → Z → bool;
  layout : W → option str → list (Z * Z);
  vl_size : 0 < N < 2 ^ 62 ∧ N < 8 * BITMAPBYTES * Z.of_nat bfuel;
  vl_vopen w : v_vopen w = true;
  vl_bitmap w : bitmap_service N (free w) (v_bitmap w);
  vl_retrieve w f : ∃ retrieve n, v_retrieve w f = Some retrieve ∧ (1 ≤ n ≤ 512)%nat ∧
    retrieves n (layout w (fi_path f)) retrieve ∧ map_ok 0 (layout w (fi_path f)) ∧
    (length (layout w (fi_path f)) < dfuel)%nat;
  vl_blocks w p : Forall (fun b => block_ok N b ∧ 0 < bk_length b) (runs_blocks (layout w p));
  vl_disjoint w p : disjoint_blocks (runs_blocks (layout w p));
  vl_used w p c : blocks_have (runs_blocks (layout w p)) c → free w c = false;
  vl_apart w p q c : p ≠ q → blocks_have (runs_blocks (layout w p)) c →
    ¬ blocks_have (runs_blocks (layout w q)) c;
  vl_clusters w p : runs_blocks (layout w p) ≠ [] →
    0 < clusters (runs_disp (layout w p)) < MAXULONG32 - 10 ∧ clusters (runs_disp (layout w p)) ≤ N;
  vl_move w f vcn num lcn status w' : v_move w f vcn num lcn = (status, w') →
    (∀ q, q ≠ fi_path f → layout w' q = layout w q) ∧
    clusters (runs_disp (layout w' (fi_path f))) = clusters (runs_disp (layout w (fi_path f))) ∧
    (runs_blocks (layout w (fi_path f)) ≠ [] → runs_blocks (layout w' (fi_path f)) ≠ []) ∧
    (∀ c, free w' c = true ↔
       (free w c = true ∨ blocks_have (runs_blocks (layout w (fi_path f))) c) ∧
       ¬ blocks_have (runs_blocks (layout w' (fi_path f))) c) ∧
    (NT_SUCCESS status = true → ∀ c, blocks_have (runs_blocks (layout w' (fi_path f))) c →
       blocks_have (runs_blocks (layout w (fi_path f))) c ∨ lcn ≤ c < lcn + num);
  vl_terminated w : layout (v_terminated w).2 = layout w ∧ free (v_terminated w).2 = free w;
}.

Lemma prog_bind_some {W A B} (m : prog W A) (k : A → prog W B) s a s' :
  m s = Ret (Some a, s') → (m ≫= k) s = k a s'.
Proof. intros E. unfold mbind, prog_bind. by rewrite E. Qed.

Lemma prog_bind_none {W A B} (m : prog W A) (k : A → prog W B) s s' :
  m s = Ret (None, s') → (m ≫= k) s = Ret (None, s').
Proof. intros E. unfold mbind, prog_bind. by rewrite E. Qed.

(** Running the first command of a program by an equation for it: [pstep] when it
    returns, [pfail] when it throws; [pget] for a command that computes. *)
Tactic Notation "pstep" uconstr(E) := rewrite (prog_bind_some _ _ _ _ _ E).

Tactic Notation "pfail" uconstr(E) := rewrite (prog_bind_none _ _ _ _ E).

Ltac pget := erewrite prog_bind_some by reflexivity; cbn beta.

Section safety.
Context {W : Type} `{!Volume W} `{!Allocator (node winx_volume_region)}.
Context (N : Z) (bfuel dfuel mfuel : nat) (DebugBreak : outcome unit).
Context `{!VolumeLaws W N bfuel dfuel}.
Context (alloc_total : ∀ h : gmap loc (node winx_volume_region), is_Some (alloc h)).
(** The files of the volume and their paths. *)
Context (all : list loc) (path : loc → option str).
Context (path_inj : ∀ p q, p ∈ all → q ∈ all → path p = path q → p = q).
Implicit Types (s : Operation W) (p q : loc) (gs : gnodes).

Definition disp_of (w : W) p : winx_file_disposition := runs_disp (layout w (path p)).

Definition blocks_of (w : W) p : list winx_blockmap := runs_blocks (layout w (path p)).

(** The file in the store is the file on the volume. *)
Definition tracked (w : W) (h : fheap) p : Prop :=
  p ∈ all ∧ ∃ f, h !! p = Some f ∧ fi_path f = path p ∧ blockmap (disp f) ≡ₚ blocks_of w p ∧
    clusters (disp f) = clusters (disp_of w p) ∧ blocks_of w p ≠ [].

Definition files_inv (w : W) (h : fheap) (e : FileEnumeration) : Prop :=
  files_ok h e ∧ ∀ p, p ∈ (buckets_ e).*2 → tracked w h p.

(** The gaps are free clusters. *)
Definition gaps_inv (w : W) (h : gmap loc (node winx_volume_region)) (g : GapEnumeration) gs : Prop :=
  gaps_ok N h g gs ∧ ∀ c, covers gs.*2 c → free w c = true.

Definition op_inv s gs : Prop :=
  gaps_inv (vol s) (gheap s) (op_ge s) gs ∧ files_inv (vol s) (files s) (op_fe s).

(** After a failed move the gaps have to be read again. *)
Definition stale_inv s : Prop :=
  (∃ gs, gaps_ok N (gheap s) (op_ge s) gs) ∧ files_inv (vol s) (files s) (op_fe s).

(** Changing one part of the state. *)
Definition with_gaps h g s : Operation W :=
  Op h g (files s) (op_fe s) (known_ s) (moved s) (movedLen s) (last_moved s) (replaced s) (vol s).

Definition with_files h e s : Operation W :=
  Op (gheap s) (op_ge s) h e (known_ s) (moved s) (movedLen s) (last_moved s) (replaced s) (vol s).

Definition with_vol w s : Operation W :=
  Op (gheap s) (op_ge s) (files s) (op_fe s) (known_ s) (moved s) (movedLen s) (last_moved s) (replaced s) w.

(** *** The gap enumeration *)
Lemma HNsmall : 0 < N < LLINVALID.
Proof. pose proof vl_size. unfold LLINVALID. lia. Qed.

Lemma ge_scan_run s :
  (∃ gs, gaps_ok N (gheap s) (op_ge s) gs) →
  ∃ h g gs, ge_scan bfuel s = Ret (Some tt, with_gaps h g s) ∧ gaps_ok N h g gs ∧
    ∀ c, covers gs.*2 c ↔ 0 ≤ c < N ∧ free (vol s) c = true.
Proof.
  intros (gs0 & (nodes & Hl & _) & _).
  destruct (scan_run alloc_total (v_bitmap (vol s)) bfuel N HNsmall (free (vol s)) (vl_bitmap _)
    (proj2 vl_size) (gheap s) (op_ge s) nodes Hl) as (h & g & gs & E & Hok & Hc).
  exists h, g, gs. split_and!; [|done..].
  unfold ge_scan. pget.
  rewrite vl_vopen. erewrite prog_bind_some.
  2: { unfold on_gaps. rewrite E. reflexivity. }
  reflexivity.
Qed.

(** The blocks of a file in the store, in any order. *)
Lemma map_facts w p bm :
  bm ≡ₚ blocks_of w p →
  Forall (block_ok N) bm ∧ Forall (fun b => 0 < bk_length b) bm ∧ disjoint_blocks bm ∧
  ∀ c, blocks_have bm c ↔ blocks_have (blocks_of w p) c.
Proof.
  intros Hp. pose proof (vl_blocks w (path p)) as Hb. fold (blocks_of w p) in Hb. rewrite <- Hp in Hb.
  split_and!.
  - eapply Forall_impl; [exact Hb|]. by intros b [? _].
  - eapply Forall_impl; [exact Hb|]. by intros b [_ ?].
  - eapply disjoint_blocks_Permutation; [by symmetry|]. apply vl_disjoint.
  - intros c. by apply blocks_have_Permutation.
Qed.

(** What a push relies on: the library keeps [std::prev] of the first gap at the
    end, or each block has a gap in front of it. *)
Definition prev_safe (prev_begin : outcome unit) gs (bm : list winx_blockmap) : Prop :=
  prev_begin = Ret tt ∨ gap_in_front gs.*2 bm.

Lemma ge_push_run prev_begin s gs fi :
  gaps_ok N (gheap s) (op_ge s) gs → gs ≠ [] → prev_safe prev_begin gs (blockmap (disp fi)) →
  Forall (block_ok N) (blockmap (disp fi)) → disjoint_blocks (blockmap (disp fi)) →
  (∀ c, blocks_have (blockmap (disp fi)) c → ¬ covers gs.*2 c) →
  ∃ h g gs', ge_push bfuel DebugBreak prev_begin fi s = Ret (Some tt, with_gaps h g s) ∧
    gaps_ok N h g gs' ∧ gs' ≠ [] ∧
    ∀ c, covers gs'.*2 c ↔ covers gs.*2 c ∨ blocks_have (blockmap (disp fi)) c.
Proof.
  intros Hok Hne Hpb Hb Hd Hc.
  destruct (push_blocks_run alloc_total (v_bitmap (vol s)) bfuel DebugBreak prev_begin N HNsmall
    (blockmap (disp fi)) (gheap s) (op_ge s) gs Hok Hne Hpb Hb Hd Hc)
    as (h & g & gs' & E & Hok' & Hne' & Hcov).
  exists h, g, gs'. split_and!; [|done..]. unfold ge_push. pget. rewrite vl_vopen. erewrite prog_bind_some.
  2: { unfold on_gaps, Gaps.push. rewrite E. reflexivity. }
  reflexivity.
Qed.

Lemma ge_pop_file_run s gs fi :
  gaps_ok N (gheap s) (op_ge s) gs →
  Forall (fun b => 0 < bk_length b) (blockmap (disp fi)) → disjoint_blocks (blockmap (disp fi)) →
  (∀ c, blocks_have (blockmap (disp fi)) c → covers gs.*2 c) →
  (∀ c, blocks_have (blockmap (disp fi)) c → free (vol s) c = false) →
  ∃ h g gs', ge_pop_file bfuel DebugBreak fi s = Ret (Some tt, with_gaps h g s) ∧
    gaps_ok N h g gs' ∧
    ((∀ c, covers gs'.*2 c ↔ covers gs.*2 c ∧ ¬ blocks_have (blockmap (disp fi)) c) ∨
     (∀ c, covers gs'.*2 c ↔ 0 ≤ c < N ∧ free (vol s) c = true)).
Proof.
  intros Hok Hb Hd Hc Hf.
  destruct (pop_blocks_run alloc_total (v_bitmap (vol s)) bfuel DebugBreak N HNsmall (free (vol s))
    (vl_bitmap _) (proj2 vl_size) (blockmap (disp fi)) (gheap s) (op_ge s) gs Hok Hb Hd Hc Hf)
    as (h & g & gs' & E & Hok' & Hcov).
  exists h, g, gs'. split_and!; [|done..]. unfold ge_pop_file. pget. rewrite vl_vopen. erewrite prog_bind_some.
  2: { unfold on_gaps, Gaps.pop_file. rewrite E. reflexivity. }
  reflexivity.
Qed.

(** *** The files *)
Lemma file_at_run s p f : files s !! p = Some f → file_at p s = Ret (Some f, s).
Proof. intros E. unfold file_at, on_files. simpl. rewrite E. by destruct s. Qed.

Lemma on_files_run {A} (m : FileEnumeration → ST fheap A) s a h :
  m (op_fe s) (files s) = Ret (a, h) → on_files m s = Ret (Some a, with_files h (op_fe s) s).
Proof. intros E. unfold on_files. by rewrite E. Qed.

(** [winx_ftw_dump_file] gives the file the map it has on the volume. *)
Definition dumped (w : W) p (f : winx_file_info) : winx_file_info := set_disp (disp_of w p) f.

Lemma dump_file_run s p f :
  files s !! p = Some f → fi_path f = path p →
  dump_file dfuel p s = Ret (Some tt, with_files (<[p := dumped (vol s) p f]> (files s)) (op_fe s) s).
Proof.
  intros Ef Hp. destruct (vl_retrieve (vol s) f) as (retrieve & n & Er & Hn & Hret & Hok & Hlen).
  unfold dump_file. pget.
  rewrite (prog_bind_some _ _ _ _ _ (file_at_run _ _ _ Ef)), Er. rewrite Hp in Hret, Hok, Hlen.
  pose proof (dump_file_ok n _ retrieve dfuel f 0 Hn Hret Hok Hlen) as Ed.
  erewrite prog_bind_some by (apply on_files_run; rewrite Ed; reflexivity). cbn beta iota.
  erewrite on_files_run by (apply modify_ok; exact Ef). reflexivity.
Qed.

Lemma tracked_starts w h p c : tracked w h p → starts h p c → blocks_have (blocks_of w p) c.
Proof.
  intros (_ & f & Ef & _ & Hbm & _) Hs. destruct (map_facts w p _ Hbm) as (_ & Hlen & _ & <-).
  destruct Hs as (f' & b & Ef' & Hb & <-). rewrite Ef in Ef'. simplify_eq.
  rewrite Forall_forall in Hlen. apply Exists_exists. exists b. split; [done|].
  specialize (Hlen _ Hb). unfold block_has. lia.
Qed.

Lemma tracked_apart w h p q c : tracked w h p → tracked w h q → p ≠ q → starts h q c → ¬ starts h p c.
Proof.
  intros Hp Hq Hne Hsq Hsp. apply (tracked_starts w) in Hsq, Hsp; [|done..].
  apply (vl_apart w (path p) (path q) c); [|done..]. destruct Hp as [Hp _], Hq as [Hq _].
  intros E. by apply Hne, path_inj.
Qed.

Lemma fe_pop_run w s p :
  files_inv w (files s) (op_fe s) → tracked w (files s) p →
  ∃ e, fe_pop p s = Ret (Some tt, with_files (files s) e s) ∧ files_inv w (files s) e ∧
    ∀ x, x ∈ buckets_ e ↔ x ∈ buckets_ (op_fe s) ∧ x.2 ≠ p.
Proof.
  intros [Hok Htr] Hp. pose proof Hp as (_ & f & Ef & _).
  assert (∃ e, Files.pop (op_fe s) p (files s) = Ret (e, files s) ∧ files_ok (files s) e ∧
    ∀ x, x ∈ buckets_ e ↔ x ∈ buckets_ (op_fe s) ∧ x.2 ≠ p) as (e & E & Hok' & Hel).
  { destruct (decide (p ∈ (buckets_ (op_fe s)).*2)) as [Hin|Hin].
    - pose proof Hin as ([k p'] & -> & Hin')%list_elem_of_fmap. simpl in *.
      destruct (Files.pop_run _ _ _ _ Hok Hin') as (e & E & Hok' & Hperm). exists e. split_and!; [done..|].
      assert (Hnd : NoDup ((k, p') :: buckets_ e).*2) by (rewrite Hperm; apply Hok).
      simpl in Hnd. apply NoDup_cons in Hnd as [Hnd _].
      intros [k' q]. rewrite <- Hperm, elem_of_cons. simpl. split; [|naive_solver].
      intros Hx. split; [by right|]. intros ->. apply Hnd, list_elem_of_fmap. by exists (k', p').
    - destruct (pop_absent_run (files s) (op_fe s) p f Hok Ef Hin) as (e & E & Hok' & Eb).
      { intros q c Hq. apply (tracked_apart w); [done | by apply Htr | by intros ->]. }
      exists e. split_and!; [done..|]. intros x. rewrite Eb. split; [|tauto]. intros Hx. split; [done|].
      intros <-. apply Hin, list_elem_of_fmap. by exists x. }
  exists e. split_and!; [| split; [done|] | done].
  - unfold fe_pop. erewrite prog_bind_some by (apply on_files_run; exact E). reflexivity.
  - intros q (x & -> & Hx)%list_elem_of_fmap. apply Htr, list_elem_of_fmap. exists x.
    apply Hel in Hx as [? _]. done.
Qed.

Lemma tracked_ordered w h p q f : h !! p = Some f → tracked w h q → tracked w (ordered h p f) q.
Proof.
  intros Ef (Hq & g & Eg & Hpath & Hbm & Hcl & Hne). split; [done|]. unfold ordered.
  destruct (decide (q = p)) as [->|Hqp].
  - rewrite Ef in Eg. simplify_eq. eexists. rewrite lookup_insert_eq. split_and!; [done..| | done | done].
    simpl. by rewrite order_map_Permutation.
  - exists g. by rewrite lookup_insert_ne.
Qed.

Lemma clusters_range w p : blocks_of w p ≠ [] → 0 < clusters (disp_of w p) < MAXULONG32 - 10 ∧ clusters (disp_of w p) ≤ N.
Proof. apply vl_clusters. Qed.

Lemma fe_push_run w s p :
  files_inv w (files s) (op_fe s) → tracked w (files s) p → p ∉ (buckets_ (op_fe s)).*2 →
  ∃ h e, fe_push p s = Ret (Some tt, with_files h e s) ∧ files_inv w h e ∧
    (∀ x, x ∈ buckets_ e ↔ x = (clusters (disp_of w p), p) ∨ x ∈ buckets_ (op_fe s)) ∧
    ∀ q, tracked w (files s) q → tracked w h q.
Proof.
  intros [Hok Htr] Hp Hn. pose proof Hp as (_ & f & Ef & _ & Hbm & Hcl & Hne).
  pose proof (clusters_range w p Hne) as Hr. unfold MAXULONG32 in Hr.
  destruct (push_run (files s) (op_fe s) p f Hok Ef) as (e & E & Hok' & Hperm); [| lia | done | |].
  { intros Eb. rewrite Eb in Hbm. by apply Permutation_nil_l in Hbm. }
  { intros q c Hq. apply (tracked_apart w); [done | by apply Htr | by intros ->]. }
  exists (ordered (files s) p f), e. split_and!; [| split; [done|] | |].
  - unfold fe_push. erewrite prog_bind_some by (apply on_files_run; exact E). reflexivity.
  - intros q. rewrite Hperm. simpl. rewrite elem_of_cons.
    intros [->|Hq]; apply tracked_ordered; auto.
  - intros x. by rewrite Hperm, elem_of_cons, Hcl.
  - intros q. by apply tracked_ordered.
Qed.

(** *** Moving a file *)

(** The volume after a move of [p]. *)
Record moved_vol (w w' : W) p : Prop := {
  mv_others q : q ∈ all → q ≠ p → layout w' (path q) = layout w (path q);
  mv_clusters : clusters (disp_of w' p) = clusters (disp_of w p);
  mv_nonempty : blocks_of w p ≠ [] → blocks_of w' p ≠ [];
  mv_free c : free w' c = true ↔
    (free w c = true ∨ blocks_have (blocks_of w p) c) ∧ ¬ blocks_have (blocks_of w' p) c;
}.

Lemma move_moved w f p vcn num lcn status w' :
  p ∈ all → fi_path f = path p → v_move w f vcn num lcn = (status, w') →
  moved_vol w w' p ∧
  (NT_SUCCESS status = true → ∀ c, blocks_have (blocks_of w' p) c →
     blocks_have (blocks_of w p) c ∨ lcn ≤ c < lcn + num).
Proof.
  intros Hp Hpath E. destruct (vl_move _ _ _ _ _ _ _ E) as (Ho & Hc & Hn & Hf & Hs).
  rewrite Hpath in *. split; [|done]. split; [|done..].
  intros q Hq Hne. apply Ho. intros Eq. by apply Hne, path_inj.
Qed.

(** Files other than the one that is moved stay as they are. *)
Lemma tracked_moved w w' h p q f :
  moved_vol w w' p → q ≠ p → tracked w h q → tracked w' (<[p := f]> h) q.
Proof.
  intros [Ho _ _ _] Hne (Hq & g & Eg & Hpath & Hbm & Hcl & Hnb). split; [done|]. exists g.
  unfold blocks_of, disp_of in *. rewrite Ho, lookup_insert_ne by done. done.
Qed.

Lemma tracked_dumped w w' h p f :
  moved_vol w w' p → tracked w h p → h !! p = Some f →
  tracked w' (<[p := dumped w' p f]> h) p.
Proof.
  intros [_ _ Hne _] (Hp & g & Eg & Hpath & _ & _ & Hnb) Ef. rewrite Ef in Eg. simplify_eq.
  split; [done|]. eexists. rewrite lookup_insert_eq. split_and!; [done | exact Hpath | done | done | auto].
Qed.

Lemma files_inv_moved w w' h p f e :
  moved_vol w w' p → files_inv w h e → p ∉ (buckets_ e).*2 → files_inv w' (<[p := f]> h) e.
Proof.
  intros Hmv [Hok Htr] Hn. split; [by apply files_ok_update|]. intros q Hq.
  apply (tracked_moved w); [done | by intros -> | by apply Htr].
Qed.

(** One round: the old clusters of the file become gaps and its new map is
    read. *)
Lemma move_round prev_begin s gs p f w' :
  prev_safe prev_begin gs (blocks_of (vol s) p) →
  gaps_inv (vol s) (gheap s) (op_ge s) gs → gs ≠ [] →
  files_inv (vol s) (files s) (op_fe s) → tracked (vol s) (files s) p →
  files s !! p = Some f → p ∉ (buckets_ (op_fe s)).*2 → moved_vol (vol s) w' p →
  ∃ h g gs', (_ ← ge_push bfuel DebugBreak prev_begin f; dump_file dfuel p) (with_vol w' s)
      = Ret (Some tt, with_files (<[p := dumped w' p f]> (files s)) (op_fe s)
                        (with_gaps h g (with_vol w' s))) ∧
    gaps_ok N h g gs' ∧ gs' ≠ [] ∧
    (∀ c, covers gs'.*2 c ↔ covers gs.*2 c ∨ blocks_have (blocks_of (vol s) p) c) ∧
    files_inv w' (<[p := dumped w' p f]> (files s)) (op_fe s) ∧
    tracked w' (<[p := dumped w' p f]> (files s)) p.
Proof.
  intros Hpb [Hok Hfree] Hne Hfi Hp Ef Hn Hmv. pose proof Hp as (_ & f' & Ef' & Hpath & Hbm & _).
  rewrite Ef in Ef'. simplify_eq.
  destruct (map_facts (vol s) p _ Hbm) as (Hb & Hlen & Hd & Hhave).
  assert (Hpb' : prev_safe prev_begin gs (blockmap (disp f'))).
  { destruct Hpb as [?|Hpb]; [by left|]. right. unfold gap_in_front. by rewrite Hbm. }
  destruct (ge_push_run prev_begin (with_vol w' s) gs f' Hok Hne Hpb' Hb Hd) as (h & g & gs' & E & Hok' & Hne' & Hcov).
  { intros c Hc%Hhave Hcv%Hfree. unfold blocks_of in Hc. apply vl_used in Hc. congruence. }
  exists h, g, gs'. split_and!; [| done | done | | by apply (files_inv_moved (vol s)) | by apply (tracked_dumped (vol s))].
  - pstep E. exact (dump_file_run (with_gaps h g (with_vol w' s)) p f' Ef Hpath).
  - intros c. by rewrite Hcov, Hhave.
Qed.

(** What a move of [p] to [lcn] leaves, [ok] when nothing was thrown: [gs] are
    the gaps before. *)
Record move_result s gs p (lcn : Z) (ok : bool) s' : Prop := {
  mr_files : files_inv (vol s') (files s') (op_fe s');
  mr_tracked q : tracked (vol s) (files s) q → tracked (vol s') (files s') q;
  mr_clusters q : q ∈ all → clusters (disp_of (vol s') q) = clusters (disp_of (vol s) q);
  mr_others k q : q ≠ p → (k, q) ∈ buckets_ (op_fe s') ↔ (k, q) ∈ buckets_ (op_fe s);
  mr_vol : ok = false ∧ vol s' = vol s ∨ ∃ f status,
    fi_path f = path p ∧ NT_SUCCESS status = ok ∧
    v_move (vol s) f 0 (clusters (disp_of (vol s) p)) lcn = (status, vol s');
  mr_gaps : ∃ gs', gaps_ok N (gheap s') (op_ge s') gs' ∧
    (ok = true →
      (∀ c, covers gs'.*2 c → free (vol s') c = true) ∧
      (∀ c, covers gs.*2 c ∨ blocks_have (blocks_of (vol s) p) c →
         blocks_have (blocks_of (vol s') p) c ∨ covers gs'.*2 c));
  mr_ok : ok = true → (clusters (disp_of (vol s) p), p) ∈ buckets_ (op_fe s') ∧
    ∀ c, blocks_have (blocks_of (vol s') p) c →
      blocks_have (blocks_of (vol s) p) c ∨ lcn ≤ c < lcn + clusters (disp_of (vol s) p);
}.

Definition rest_same s s' : Prop :=
  known_ s' = known_ s ∧ moved s' = moved s ∧ movedLen s' = movedLen s ∧
  last_moved s' = last_moved s ∧ replaced s' = replaced s.

Lemma buckets_elem (m : list (Z * loc)) q : q ∈ m.*2 ↔ ∃ k, (k, q) ∈ m.
Proof.
  rewrite list_elem_of_fmap. split.
  - intros ([k q'] & -> & ?). by exists k.
  - intros [k ?]. by exists (k, q).
Qed.

Lemma prog_bind_assoc {A B} (m : prog W unit) (k : prog W A) (k' : A → prog W B) s :
  ((_ ← m; k) ≫= k') s = (_ ← m; k ≫= k') s.
Proof. unfold mbind, prog_bind. destruct (m s) as [[[]]| |]; done. Qed.

Lemma moved_clusters w w' p q :
  moved_vol w w' p → q ∈ all → clusters (disp_of w' q) = clusters (disp_of w q).
Proof.
  intros [Ho Hc _ _] Hq. destruct (decide (q = p)) as [->|Hne]; [done|].
  unfold disp_of. by rewrite Ho.
Qed.

Lemma all_tracked_moved w w' h p f q :
  moved_vol w w' p → tracked w h p → h !! p = Some f → tracked w h q →
  tracked w' (<[p := dumped w' p f]> h) q.
Proof.
  intros Hmv Hp Ef Hq. destruct (decide (q = p)) as [->|Hne];
    [by apply (tracked_dumped w) | by apply (tracked_moved w)].
Qed.

Lemma move_loop_done pb n p lcn s : move_loop bfuel dfuel DebugBreak pb n p lcn (u64 0) s = Ret (Some tt, s).
Proof. by destruct n. Qed.

#[local] Instance blocks_have_dec bm c : Decision (blocks_have bm c).
Proof. unfold blocks_have, block_has. apply _. Defined.

(** Gaps are clusters of the volume. *)
Lemma covers_range h g gs : gaps_ok N h g gs → ∀ c, covers gs.*2 c → 0 ≤ c < N.
Proof.
  intros (_ & _ & _ & _ & _ & [Hwf _]) c (r & Hr & ?). rewrite Forall_forall in Hwf.
  destruct (Hwf r Hr) as (? & ? & ?). lia.
Qed.

(** What follows on a move, after the old clusters of the file became gaps and
    its new map was read. *)
Section after_move.
Context s gs p (lcn : Z) (f : winx_file_info) (status : Z) (w' : W).
Abbreviation size := (clusters (disp_of (vol s) p)).
Context (Hg : gaps_inv (vol s) (gheap s) (op_ge s) gs).
Context (Hp : tracked (vol s) (files s) p) (Hpn : p ∉ (buckets_ (op_fe s)).*2).
Context (Ef : files s !! p = Some f) (Hpath : fi_path f = path p).
Context (Htgt : ∀ c, lcn ≤ c < lcn + size → covers gs.*2 c).
Context (Emv : v_move (vol s) f 0 size lcn = (status, w')) (Hmv : moved_vol (vol s) w' p).
Context h g gs' (Hok' : gaps_ok N h g gs').
Context (Hcov : ∀ c, covers gs'.*2 c ↔ covers gs.*2 c ∨ blocks_have (blocks_of (vol s) p) c).
Let fs := <[p := dumped w' p f]> (files s).
Let s1 := with_files fs (op_fe s) (with_gaps h g (with_vol w' s)).
Context (Hfi' : files_inv w' fs (op_fe s)) (Hp' : tracked w' fs p).

Lemma after_tracked q : tracked (vol s) (files s) q → tracked w' fs q.
Proof. intros Hq. by apply (all_tracked_moved (vol s)). Qed.

Lemma after_free c : covers gs'.*2 c → ¬ blocks_have (blocks_of w' p) c → free w' c = true.
Proof.
  intros Hc Hn. apply Hmv. split; [|done]. apply Hcov in Hc as [Hc|Hc]; [left; by apply Hg | by right].
Qed.

(** The move is refused: nothing but the file enumeration may change. *)
Lemma move_refused :
  NT_SUCCESS status = false →
  ∃ s', (if status =? STATUS_ALREADY_COMMITTED then _ ← fe_push p; throw else throw) s1
      = Ret (None : option unit, s') ∧
    move_result s gs p lcn false s' ∧ rest_same s s'.
Proof.
  intros Est. pose proof (moved_clusters (vol s) w' p) as Hmc.
  assert (Hvol : ∃ f status, fi_path f = path p ∧ NT_SUCCESS status = false ∧
    v_move (vol s) f 0 size lcn = (status, w')) by by exists f, status.
  destruct (status =? STATUS_ALREADY_COMMITTED).
  - destruct (fe_push_run w' s1 p Hfi' Hp' Hpn) as (h3 & e3 & E3 & Hfi3 & Hb3 & Htr3).
    pstep E3. eexists _. split; [reflexivity|]. split; [|done].
    split; cbn [s1 with_files with_gaps with_vol op_fe files vol gheap op_ge];
      try solve [done | eauto using after_tracked | by exists gs' | by right].
    intros k q Hq. rewrite Hb3. cbn [s1 with_files with_gaps with_vol op_fe]. naive_solver.
  - eexists _. split; [reflexivity|]. split; [|done].
    split; cbn [s1 with_files with_gaps with_vol op_fe files vol gheap op_ge];
      solve [done | eauto using after_tracked | by exists gs' | by right].
Qed.

(** The gaps after the new clusters of the file have been taken out. *)
Lemma after_gaps gs2 :
  (∀ c, covers gs2.*2 c ↔ covers gs'.*2 c ∧ ¬ blocks_have (blocks_of w' p) c) ∨
  (∀ c, covers gs2.*2 c ↔ 0 ≤ c < N ∧ free w' c = true) →
  (∀ c, covers gs2.*2 c → free w' c = true) ∧
  ∀ c, covers gs.*2 c ∨ blocks_have (blocks_of (vol s) p) c →
    blocks_have (blocks_of w' p) c ∨ covers gs2.*2 c.
Proof.
  intros [Hcov2|Hcov2]; (split; intros c Hc).
  - apply Hcov2 in Hc as [? ?]. by apply after_free.
  - destruct (decide (blocks_have (blocks_of w' p) c)); [by left|]. right. apply Hcov2. by rewrite Hcov.
  - by apply Hcov2 in Hc as [_ Hc].
  - destruct (decide (blocks_have (blocks_of w' p) c)); [by left|]. right.
    rewrite <- Hcov in Hc. apply Hcov2. split; [exact (covers_range _ _ _ Hok' _ Hc) | by apply after_free].
Qed.

Lemma move_accepted pb n l :
  NT_SUCCESS status = true →
  (∀ c, blocks_have (blocks_of w' p) c → blocks_have (blocks_of (vol s) p) c ∨ lcn ≤ c < lcn + size) →
  ∃ s', (fi ← file_at p;
         _ ← ge_pop_file bfuel DebugBreak fi;
         _ ← fe_push p;
         move_loop bfuel dfuel DebugBreak pb n p l (u64 0)) s1 = Ret (Some tt, s') ∧
    move_result s gs p lcn true s' ∧ rest_same s s'.
Proof.
  intros Est Hsucc. pose proof Hp as (Hall & _).
  erewrite (prog_bind_some (file_at p)) by (apply file_at_run; apply lookup_insert_eq).
  destruct (map_facts w' p _ (reflexivity (blocks_of w' p))) as (_ & Hl' & Hd' & _).
  destruct (ge_pop_file_run s1 gs' (dumped w' p f) Hok' Hl' Hd') as (h2 & g2 & gs2 & E2 & Hok2 & Hcov2).
  { intros c Hc. apply Hcov. destruct (Hsucc c Hc) as [?|?]; [by right | left; auto]. }
  { intros c Hc. by apply vl_used in Hc. }
  pstep E2.
  destruct (fe_push_run w' (with_gaps h2 g2 s1) p Hfi' Hp' Hpn) as (h3 & e3 & E3 & Hfi3 & Hb3 & Htr3).
  pstep E3. rewrite move_loop_done. eexists _. split; [reflexivity|]. split; [|done].
  pose proof (moved_clusters (vol s) w' p) as Hmc.
  split; cbn [s1 with_files with_gaps with_vol op_fe files vol gheap op_ge]; try done.
  - eauto using after_tracked.
  - auto.
  - intros k q Hq. rewrite Hb3. cbn [s1 with_files with_gaps with_vol op_fe]. naive_solver.
  - right. by exists f, status.
  - exists gs2. split; [done|]. intros _. by apply after_gaps.
  - intros _. split; [|done]. apply Hb3. left. by rewrite (Hmc p Hmv Hall).
Qed.
End after_move.

Lemma move_loop_run prev_begin n s gs p lcn :
  prev_safe prev_begin gs (blocks_of (vol s) p) →
  gaps_inv (vol s) (gheap s) (op_ge s) gs → files_inv (vol s) (files s) (op_fe s) →
  tracked (vol s) (files s) p → p ∉ (buckets_ (op_fe s)).*2 →
  (∀ c, lcn ≤ c < lcn + clusters (disp_of (vol s) p) → covers gs.*2 c) →
  ∃ r s', move_loop bfuel dfuel DebugBreak prev_begin (S n) p lcn (clusters (disp_of (vol s) p)) s = Ret (r, s') ∧
    move_result s gs p lcn (bool_decide (is_Some r)) s' ∧ rest_same s s'.
Proof.
  intros Hpb Hg Hfi Hp Hpn Htgt. pose proof Hp as (Hall & f & Ef & Hpath & Hbm & Hcl & Hne).
  pose proof (clusters_range (vol s) p Hne) as Hrange.
  assert (Hgs : gs ≠ []).
  { intros ->. destruct (Htgt lcn) as (r & Hr & _); [lia|]. by apply elem_of_nil in Hr. }
  set (c := clusters (disp_of (vol s) p)) in *.
  assert (Hcur : u32 (Z.min c (MAXULONG32 - 10)) = c).
  { rewrite Z.min_l by lia. apply u32_small. unfold MAXULONG32 in *. lia. }
  unfold move_loop; fold (move_loop (W:=W) bfuel dfuel DebugBreak prev_begin). rewrite Hcur.
  rewrite (proj2 (Z.eqb_neq c 0)) by lia. pstep (file_at_run _ _ _ Ef). pget.
  destruct (v_opens (vol s) f); cbn [negb].
  2: { exists None, s. split; [done|]. split; [|done]. split; try done; [by left |].
       exists gs. split; [apply Hg | done]. }
  destruct (v_move (vol s) f 0 c lcn) as [status w'] eqn:Emv.
  destruct (move_moved _ _ _ _ _ _ _ _ Hall Hpath Emv) as [Hmv Hsucc].
  erewrite prog_bind_some by (unfold on_vol; rewrite Emv; reflexivity).
  destruct (move_round prev_begin s gs p f w' Hpb Hg Hgs Hfi Hp Ef Hpn Hmv)
    as (h & g & gs' & E & Hok' & Hgs' & Hcov & Hfi' & Hp').
  rewrite <- prog_bind_assoc. pstep E. rewrite Z.sub_diag. destruct (NT_SUCCESS status) eqn:Est.
  - destruct (move_accepted s gs p lcn f status w' Hg Hp Hpn Ef Hpath Htgt Emv Hmv h g gs' Hok' Hcov Hfi' Hp'
      prev_begin n (u64 (lcn + c)) Est (Hsucc eq_refl)) as (s' & E' & ?).
    by exists (Some tt), s'.
  - destruct (move_refused s gs p lcn f status w' Hp Hpn Ef Hpath Emv Hmv h g gs' Hok' Hcov Hfi' Hp' Est)
      as (s' & E' & ?).
    by exists None, s'.
Qed.

(** The counters count a file that was moved. *)
Definition counted s p s' : Prop :=
  known_ s' = known_ s ∧ moved s' = u64 (moved s + 1) ∧
  movedLen s' = u64 (movedLen s + clusters (disp_of (vol s) p)) ∧ last_moved s' = Some p ∧ replaced s' = true.

Lemma move_file_run prev_begin s gs p lcn :
  (1 ≤ mfuel)%nat → prev_safe prev_begin gs (blocks_of (vol s) p) →
  gaps_inv (vol s) (gheap s) (op_ge s) gs → files_inv (vol s) (files s) (op_fe s) →
  tracked (vol s) (files s) p →
  (∀ c, lcn ≤ c < lcn + clusters (disp_of (vol s) p) → covers gs.*2 c) →
  ∃ r s', move_file bfuel dfuel mfuel DebugBreak prev_begin p lcn s = Ret (r, s') ∧
    move_result s gs p lcn (bool_decide (is_Some r)) s' ∧
    if r then counted s p s' else rest_same s s'.
Proof.
  intros Hn Hpb Hg Hfi Hp Htgt. pose proof Hp as (Hall & f & Ef & _ & _ & Hcl & _).
  destruct (fe_pop_run _ s p Hfi Hp) as (e & E & Hfi' & Hb).
  unfold move_file. pstep E.
  set (s1 := with_files (files s) e s) in *.
  erewrite (prog_bind_some (file_at p)) by (apply file_at_run; exact Ef). rewrite Hcl.
  destruct mfuel as [|n]; [lia|].
  destruct (move_loop_run prev_begin n s1 gs p lcn Hpb Hg Hfi' Hp) as (r & s' & E' & Hres & Hsame); [|done|].
  { rewrite buckets_elem. intros [k Hk]. by apply Hb in Hk as [_ Hk]. }
  assert (Hres' : move_result s gs p lcn (bool_decide (is_Some r)) s').
  { destruct Hres as [? ? ? Ho ? ? ?]. split; try done. intros k q Hq. rewrite (Ho k q Hq). change (op_fe s1) with e. rewrite (Hb (k, q)).
    simpl. tauto. }
  destruct r as [[]|].
  - assert (Hp' : tracked (vol s') (files s') p) by (by apply (mr_tracked _ _ _ _ _ _ Hres')).
    pose proof Hp' as (_ & f' & Ef' & _ & _ & Hcl' & _).
    pstep E'.
    erewrite (prog_bind_some (file_at p)) by (apply file_at_run; exact Ef').
    eexists _, _. split; [reflexivity|]. cbn [bool_decide]. split.
    + destruct Hres'. split; done.
    + rewrite Hcl', (mr_clusters _ _ _ _ _ _ Hres' p Hall).
      destruct Hsame as (? & ? & ? & ? & ?). unfold counted. cbn [known_ moved movedLen last_moved replaced].
      simpl in *. split_and!; congruence.
  - pfail E'. by exists None, s'.
Qed.

(** *** The operation as a whole *)
Section run.
Context (Hmfuel : (1 ≤ mfuel)%nat).
(** The user's patience: it does not grow; [polls] bounds the number of times the
    flag of the console handler is read before it is set where [polls_again] is
    assumed. *)
Context (polls : W → nat).
Context (polls_move : ∀ w f vcn num lcn, (polls (v_move w f vcn num lcn).2 ≤ polls w)%nat).
Context (polls_terminated : ∀ w, (polls (v_terminated w).2 ≤ polls w)%nat).

(** What every part of the operation keeps. *)
Record steps s s' : Prop := {
  st_tracked q : tracked (vol s) (files s) q → tracked (vol s') (files s') q;
  st_clusters q : q ∈ all → clusters (disp_of (vol s') q) = clusters (disp_of (vol s) q);
  st_polls : (polls (vol s') ≤ polls (vol s))%nat;
}.

#[local] Instance steps_preorder : PreOrder steps.
Proof.
  split.
  - intros s. by split.
  - intros s1 s2 s3 [T1 C1 P1] [T2 C2 P2]. split; [auto | | lia]. intros q Hq. by rewrite C2, C1.
Qed.

Lemma steps_same s s' : vol s' = vol s → files s' = files s → steps s s'.
Proof. intros Ev Ef. split; rewrite Ev, ?Ef; auto. Qed.

Lemma op_inv_stale s gs : op_inv s gs → stale_inv s.
Proof. intros [[Hok _] Hf]. split; [by exists gs | done]. Qed.

Lemma tracked_layout w w' h q : layout w' = layout w → tracked w h q → tracked w' h q.
Proof. intros E. unfold tracked, blocks_of, disp_of. by rewrite E. Qed.

Lemma poll_run s gs :
  op_inv s gs → ∃ b s', gTerminated s = Ret (Some b, s') ∧ op_inv s' gs ∧ steps s s' ∧
    v_terminated (vol s) = (b, vol s').
Proof.
  intros [[Hok Hfree] [Hfok Htr]]. unfold gTerminated, on_vol.
  destruct (vl_terminated (vol s)) as [Hlay Hfr]. pose proof (polls_terminated (vol s)) as Hle.
  destruct (v_terminated (vol s)) as [b w']. simpl in *.
  exists b, (with_vol w' s). split_and!; [done | | | done].
  - split; split; cbn [vol files op_fe gheap op_ge with_vol].
    + done.
    + intros c. rewrite Hfr. auto.
    + done.
    + intros q Hq. by apply (tracked_layout (vol s)), Htr.
  - split; cbn [vol files with_vol]; [| | done].
    + intros q. by apply tracked_layout.
    + intros q _. unfold disp_of. by rewrite Hlay.
Qed.

Lemma rescan s :
  stale_inv s → ∃ s' gs, ge_scan bfuel s = Ret (Some tt, s') ∧ op_inv s' gs ∧ steps s s' ∧
    ∀ c, covers gs.*2 c ↔ 0 ≤ c < N ∧ free (vol s') c = true.
Proof.
  intros [Hg Hf]. destruct (ge_scan_run s Hg) as (h & g & gs & E & Hok & Hcov).
  exists (with_gaps h g s), gs. split_and!; [done | | by apply steps_same | done].
  split; [split; [done|] | done]. intros c. rewrite Hcov. cbn [vol with_gaps]. tauto.
Qed.

(** The other files of the volume are left alone. *)
Definition untouched s s' (P : loc → Prop) : Prop :=
  ∀ q, q ∈ all → P q → layout (vol s') (path q) = layout (vol s) (path q).

(** A file that is moved as a whole ends up in the target. *)
Definition moves_whole : Prop :=
  ∀ w f lcn status w',
    v_move w f 0 (clusters (runs_disp (layout w (fi_path f)))) lcn = (status, w') →
    NT_SUCCESS status = true →
    ∀ c, lcn ≤ c < lcn + clusters (runs_disp (layout w (fi_path f))) →
      blocks_have (runs_blocks (layout w' (fi_path f))) c.

Lemma move_file_step s gs p lcn :
  op_inv s gs → tracked (vol s) (files s) p →
  (∀ c, lcn ≤ c < lcn + clusters (disp_of (vol s) p) → covers gs.*2 c) →
  ∃ r s', move_file bfuel dfuel mfuel DebugBreak (Ret tt) p lcn s = Ret (r, s') ∧ stale_inv s' ∧ steps s s' ∧
    untouched s s' (fun q => q ≠ p) ∧
    (is_Some r → (∃ gs', op_inv s' gs' ∧
       ∀ c, covers gs.*2 c → ¬ lcn ≤ c < lcn + clusters (disp_of (vol s) p) → covers gs'.*2 c) ∧
       (moves_whole → ∀ c, lcn ≤ c < lcn + clusters (disp_of (vol s) p) → blocks_have (blocks_of (vol s') p) c)).
Proof.
  intros [Hg Hf] Hp Htgt. pose proof (proj1 Hp) as Hall.
  destruct (move_file_run (Ret tt) s gs p lcn Hmfuel (or_introl eq_refl) Hg Hf Hp Htgt) as (r & s' & E & [Hfi Htr Hcl Ho Hv Hgs Hok] & _).
  exists r, s'. split_and!; [done | | | |].
  - destruct Hgs as (gs' & ? & _). split; [by exists gs' | done].
  - split; [done..|]. destruct Hv as [[_ ->]|(f & status & _ & _ & Ev)]; [done|].
    pose proof (polls_move (vol s) f 0 (clusters (disp_of (vol s) p)) lcn) as Hle. by rewrite Ev in Hle.
  - unfold untouched. destruct Hv as [[_ ->]|(f & status & Hpath & _ & Ev)]; [by intros q _ _|].
    destruct (move_moved _ _ _ _ _ _ _ _ Hall Hpath Ev) as [[Hoth _ _ _] _]. exact Hoth.
  - intros Hr. rewrite bool_decide_eq_true_2 in Hgs, Hok, Hv by done. split.
    + destruct Hgs as (gs' & Hok' & Hgs). destruct (Hgs eq_refl) as [Hfree Hcov]. exists gs'.
      split; [done|]. intros c Hc Hn. destruct (Hcov c (or_introl Hc)) as [Hnew|?]; [|done].
      exfalso. destruct (proj2 (Hok eq_refl) c Hnew) as [Hold|?]; [|done].
      apply vl_used in Hold. apply Hg in Hc. congruence.
    + intros Hwhole. destruct Hv as [[? _]|(f & status & Hpath & Hsucc & Ev)]; [done|].
      unfold disp_of, blocks_of in *. rewrite <- Hpath in *. exact (Hwhole _ _ _ _ _ Ev Hsucc).
Qed.

(** The clusters of a list of files. *)
Fixpoint set_clusters (w : W) (fs : list loc) : Z :=
  match fs with
  | [] => 0
  | p :: fs => clusters (disp_of w p) + set_clusters w fs
  end.

Lemma tracked_in w h q : tracked w h q → q ∈ all.
Proof. by intros [? _]. Qed.

Lemma tracked_clusters w h q : tracked w h q → 0 < clusters (disp_of w q) ≤ N.
Proof. intros (_ & f & _ & _ & _ & _ & Hne). destruct (clusters_range w q Hne) as [? ?]. lia. Qed.

Lemma set_clusters_steps s s' fs :
  steps s s' → Forall (fun q => q ∈ all) fs → set_clusters (vol s') fs = set_clusters (vol s) fs.
Proof. intros Hst. induction 1 as [|q fs Hq _ IH]; simpl; [done|]. by rewrite IH, (st_clusters _ _ Hst). Qed.

Lemma tracked_steps s s' fs :
  steps s s' → Forall (tracked (vol s) (files s)) fs → Forall (tracked (vol s') (files s')) fs.
Proof. intros [Htr _ _] Hfs. eapply Forall_impl; [exact Hfs | exact Htr]. Qed.

Lemma set_clusters_nonneg w h fs : Forall (tracked w h) fs → 0 ≤ set_clusters w fs.
Proof. induction 1 as [|q fs Hq%tracked_clusters _ IH]; simpl; lia. Qed.

Lemma file_at_tracked s p :
  tracked (vol s) (files s) p →
  ∃ f, file_at p s = Ret (Some f, s) ∧ clusters (disp f) = clusters (disp_of (vol s) p).
Proof. intros (_ & f & Ef & _ & _ & Hcl & _). exists f. split; [by apply file_at_run | done]. Qed.

(** Everything from cluster [lcn] on, for the length of the files, belongs to
    them. *)
Definition filled (w : W) (fs : list loc) (lcn len : Z) : Prop :=
  ∀ c, lcn ≤ c < lcn + len → ∃ p, p ∈ fs ∧ blocks_have (blocks_of w p) c.

(** Nothing but an interrupt keeps the files from filling the gap. *)
Definition set_result s s' fs lcn (ok : bool) : Prop :=
  untouched s s' (fun q => q ∉ fs) ∧
  (ok = true → (∃ gs', op_inv s' gs') ∧
     (moves_whole → (∀ w, (v_terminated w).1 = false) → NoDup fs →
        filled (vol s') fs lcn (set_clusters (vol s) fs))).

(** The files of a set go into the gap from its start on; what is left of it
    stays free for the next file. *)
Lemma move_files_run fs s gs r :
  op_inv s gs → Forall (tracked (vol s) (files s)) fs →
  0 ≤ rlcn r → set_clusters (vol s) fs ≤ rlength r → rlcn r + rlength r ≤ N →
  (∀ c, rlcn r ≤ c < rlcn r + set_clusters (vol s) fs → covers gs.*2 c) →
  ∃ res s', move_files bfuel dfuel mfuel DebugBreak (Ret tt) fs r s = Ret (res, s') ∧ stale_inv s' ∧ steps s s' ∧
    set_result s s' fs (rlcn r) (bool_decide (is_Some res)).
Proof.
  pose proof vl_size as [HN _]. revert s gs r.
  induction fs as [|p fs IH]; intros s gs r Hinv Hfs Hr0 Hr1 Hr2 Hc; simpl.
  { exists (Some tt), s. split_and!; [done | by eapply op_inv_stale | done |].
    split; [by intros q|]. intros _. split; [by exists gs|]. intros _ _ _ c. simpl. lia. }
  destruct (poll_run s gs Hinv) as (b & s1 & E1 & Hinv1 & Hst1 & Et).
  pstep E1.
  assert (Hlay : layout (vol s1) = layout (vol s)).
  { destruct (vl_terminated (vol s)) as [Hlay _]. by rewrite Et in Hlay. }
  destruct b.
  { exists (Some tt), s1. split_and!; [done | by eapply op_inv_stale | done |].
    split; [by intros q _ _; rewrite Hlay|]. intros _. split; [by exists gs|].
    intros _ Hno _. specialize (Hno (vol s)). by rewrite Et in Hno. }
  assert (Hsc1 : set_clusters (vol s1) (p :: fs) = set_clusters (vol s) (p :: fs)).
  { apply set_clusters_steps; [done|]. eapply Forall_impl; [exact Hfs | apply tracked_in]. }
  rewrite <- Hsc1 in Hr1, Hc. unfold set_result. rewrite <- Hsc1.
  apply (tracked_steps s s1 _ Hst1), Forall_cons in Hfs as [Hp Hfs]. cbn [set_clusters] in *.
  pose proof (tracked_clusters _ _ _ Hp). pose proof (set_clusters_nonneg _ _ _ Hfs).
  destruct (move_file_step s1 gs p (rlcn r) Hinv1 Hp) as (res & s2 & E2 & Hstale & Hst2 & Hun2 & Hok).
  { intros c ?. apply Hc. lia. }
  assert (Hst : steps s s2) by (by transitivity s1).
  destruct res as [[]|].
  2: { pfail E2. exists None, s2. split_and!; [done.. | | done].
       intros q Hq Hn. rewrite <- Hlay. apply Hun2; [done|]. intros ->. apply Hn. by left. }
  pstep E2. destruct Hok as [(gs2 & Hinv2 & Hcov2) Hwhole2]; [done|].
  destruct (file_at_tracked s2 p) as (f & Ef & Hcl); [by apply (st_tracked _ _ Hst2)|].
  pstep Ef. cbv zeta. rewrite Hcl, (st_clusters _ _ Hst2) by by eapply tracked_in.
  words. set (k := clusters (disp_of (vol s1) p)) in *.
  assert (Hin : Forall (fun q => q ∈ all) fs) by (eapply Forall_impl; [exact Hfs | apply tracked_in]).
  pose proof (set_clusters_steps s1 s2 fs Hst2 Hin) as Esc.
  destruct (IH s2 gs2 (Region (rlcn r + k) (rlength r - k)))
    as (res & s3 & E3 & Hstale3 & Hst3 & Hun3 & Hok3); cbn [rlcn rlength] in *; rewrite ?Esc in *;
    [done | | lia.. | |].
  - by apply (tracked_steps s1).
  - intros c ?. apply Hcov2; [apply Hc; lia | lia].
  - exists res, s3. split_and!; [done | done | by transitivity s2 | |].
    + intros q Hq Hn. rewrite <- Hlay, <- (Hun2 q Hq) by set_solver. apply Hun3; [done | set_solver].
    + intros Hr. destruct (Hok3 Hr) as [Hinv3 Hfill3]. split; [done|].
      intros Hw Hno [Hpn Hnd]%NoDup_cons c Hc'. destruct (decide (c < rlcn r + k)).
      * exists p. split; [by left|]. unfold blocks_of. rewrite Hun3; [| by eapply tracked_in | done].
        apply Hwhole2; [done | lia].
      * destruct (Hfill3 Hw Hno Hnd c) as (q & Hq & ?); [lia|]. exists q. split; [by right | done].
Qed.

Lemma move_set_run fs s gs r :
  op_inv s gs → Forall (tracked (vol s) (files s)) fs →
  0 ≤ rlcn r → set_clusters (vol s) fs ≤ rlength r → rlcn r + rlength r ≤ N →
  (∀ c, rlcn r ≤ c < rlcn r + set_clusters (vol s) fs → covers gs.*2 c) →
  ∃ b s', move_set bfuel dfuel mfuel DebugBreak (Ret tt) fs r s = Ret (Some b, s') ∧ stale_inv s' ∧ steps s s' ∧
    set_result s s' fs (rlcn r) b.
Proof.
  intros Hinv Hfs H0 H1 H2 Hc.
  destruct (move_files_run fs s gs r Hinv Hfs H0 H1 H2 Hc) as ([[]|] & s' & E & Hst & Hsteps & Hres);
    unfold move_set, catch.
  - pstep E. by exists true, s'.
  - pfail E. by exists false, s'.
Qed.

(** Reading a gap. *)
Lemma region_at_run s gs g r :
  gaps_ok N (gheap s) (op_ge s) gs → (g, r) ∈ gs → region_at (Some g) s = Ret (Some r, s).
Proof.
  intros ((nodes & Hl & Hsub) & _) Hg. destruct (node_load _ _ _ _ _ Hl (Hsub _ Hg)) as (nd & E & Hd).
  unfold region_at. erewrite prog_bind_some by (unfold on_gaps; rewrite E; reflexivity).
  rewrite <- Hd. by destruct s.
Qed.

(** A gap is a range of clusters of the volume. *)
Lemma gap_facts h g gs q r :
  gaps_ok N h g gs → (q, r) ∈ gs →
  0 ≤ rlcn r ∧ 0 < rlength r ∧ rlcn r + rlength r ≤ N ∧
  ∀ c, rlcn r ≤ c < rlcn r + rlength r → covers gs.*2 c.
Proof.
  intros (_ & _ & _ & _ & _ & [Hwf _]) Hq. rewrite Forall_forall in Hwf.
  assert (Hr : r ∈ gs.*2) by (apply list_elem_of_fmap; by exists (q, r)).
  destruct (Hwf r Hr) as (? & ? & ?). unfold rend in *. split_and!; [lia.. |].
  intros c ?. exists r. split; [done|]. unfold rend. lia.
Qed.

Lemma fragmented_files_run entries s gs :
  op_inv s gs → (∀ x, x ∈ entries → tracked (vol s) (files s) x.2) →
  ∃ fs s', fragmented_files entries s = Ret (Some fs, s') ∧ op_inv s' gs ∧ steps s s' ∧
    Forall (tracked (vol s') (files s')) fs.
Proof.
  revert s. induction entries as [|[k p] entries IH]; intros s Hinv Hen; simpl.
  { exists [], s. by split_and!. }
  destruct (poll_run s gs Hinv) as (b & s1 & E1 & Hinv1 & Hst1 & _).
  pstep E1. destruct b.
  { exists [], s1. by split_and!. }
  assert (Hp : tracked (vol s1) (files s1) p) by (apply (st_tracked _ _ Hst1), (Hen (k, p)); by left).
  destruct (file_at_tracked s1 p Hp) as (f & Ef & _). pstep Ef.
  destruct (IH s1 Hinv1) as (fs & s2 & E2 & Hinv2 & Hst2 & Hfs).
  { intros x Hx. apply (st_tracked _ _ Hst1), Hen. by right. }
  pstep E2. eexists _, s2. split_and!; [reflexivity | done | by transitivity s1 |].
  destruct (1 <? fragments (disp f)); [|done]. constructor; [by apply (st_tracked _ _ Hst2) | done].
Qed.

(** Taking a file out of the enumeration. *)
Lemma fe_pop_step s gs p :
  op_inv s gs → tracked (vol s) (files s) p →
  ∃ s', fe_pop p s = Ret (Some tt, s') ∧ op_inv s' gs ∧ steps s s'.
Proof.
  intros [Hg Hf] Hp. destruct (fe_pop_run _ s p Hf Hp) as (e & E & Hf' & _).
  eexists. split_and!; [exact E | by split | by apply steps_same].
Qed.

Lemma ge_best_run s gs c :
  op_inv s gs → 0 ≤ c ≤ N →
  ∃ res, ge_best c None false s = Ret (Some res, s) ∧
    ∀ g, res = Some g → ∃ r, (g, r) ∈ gs ∧ c ≤ rlength r.
Proof.
  intros [[Hok _] _] Hc. pose proof vl_size as [HN _].
  destruct (best_run N _ _ gs c None false Hok Hc) as (res & E & Hres); [lia|].
  exists res. split.
  - unfold ge_best, on_gaps. rewrite E. by destruct s.
  - intros g ->. destruct Hres as (r & [Hr _] & Hlen & _). by exists r.
Qed.

Lemma defrag_files_run fs s gs :
  op_inv s gs → Forall (tracked (vol s) (files s)) fs →
  ∃ s' gs', defrag_files bfuel dfuel mfuel DebugBreak (Ret tt) fs s = Ret (Some tt, s') ∧
    op_inv s' gs' ∧ steps s s'.
Proof.
  revert s gs. induction fs as [|p fs IH]; intros s gs Hinv Hfs; simpl; [by exists s, gs|].
  destruct (poll_run s gs Hinv) as (b & s1 & E1 & Hinv1 & Hst1 & _).
  pstep E1. destruct b; [by exists s1, gs|].
  apply (tracked_steps _ _ _ Hst1) in Hfs. inversion_clear Hfs as [|? ? Hp Hfs'].
  pget.
  assert (∃ s2, (if decide (last_moved s1 = Some p) then fe_pop p else mret tt) s1 = Ret (Some tt, s2) ∧
    op_inv s2 gs ∧ steps s1 s2) as (s2 & E2 & Hinv2 & Hst2).
  { destruct (decide _); [by apply fe_pop_step | by exists s1]. }
  pstep E2. pose proof (tracked_steps _ _ _ Hst2 Hfs') as Hfs2.
  apply (st_tracked _ _ Hst2) in Hp. assert (steps s s2) by by transitivity s1.
  destruct (file_at_tracked s2 p Hp) as (f & Ef & Hcl). rewrite (prog_bind_some _ _ _ _ _ Ef), Hcl.
  pose proof (tracked_clusters _ _ _ Hp) as Hr.
  destruct (ge_best_run s2 gs (clusters (disp_of (vol s2) p)) Hinv2) as (res & E3 & Hres); [lia|].
  pstep E3. destruct res as [g|].
  2: { destruct (IH s2 gs Hinv2 Hfs2) as (s' & gs' & ? & ? & ?). exists s', gs'.
       split_and!; [done.. | by transitivity s2]. }
  destruct (Hres g eq_refl) as (r & Hg & Hlen).
  rewrite (prog_bind_some _ _ _ _ _ (region_at_run _ _ _ _ (proj1 (proj1 Hinv2)) Hg)).
  destruct (gap_facts _ _ _ _ _ (proj1 (proj1 Hinv2)) Hg) as (_ & _ & _ & Hcov).
  destruct (move_file_step s2 gs p (rlcn r) Hinv2 Hp) as (res & s3 & E4 & Hstale & Hst3 & _ & Hok).
  { intros c ?. apply Hcov. lia. }
  assert (∃ s4 gs4, catch (move_file bfuel dfuel mfuel DebugBreak (Ret tt) p (rlcn r)) (ge_scan bfuel) s2
    = Ret (Some tt, s4) ∧ op_inv s4 gs4 ∧ steps s3 s4) as (s4 & gs4 & E5 & Hinv4 & Hst4).
  { unfold catch. rewrite E4. destruct res as [[]|].
    - destruct Hok as [(gs4 & ? & _) _]; [done|]. by exists s3, gs4.
    - destruct (rescan s3 Hstale) as (s4 & gs4 & ? & ? & ? & _). by exists s4, gs4. }
  pstep E5.
  assert (steps s2 s4) as Hst24 by by transitivity s3.
  destruct (IH s4 gs4 Hinv4 (tracked_steps _ _ _ Hst24 Hfs2)) as (s' & gs' & ? & ? & ?).
  exists s', gs'. split_and!; [done.. |]. transitivity s2; [done | by transitivity s4].
Qed.

Lemma defrag_run s gs :
  op_inv s gs →
  ∃ s' gs', defrag bfuel dfuel mfuel DebugBreak (Ret tt) s = Ret (Some tt, s') ∧ op_inv s' gs' ∧ steps s s'.
Proof.
  intros Hinv. unfold defrag. pget.
  destruct (fragmented_files_run (buckets_ (op_fe s)) s gs Hinv) as (fs & s1 & E1 & Hinv1 & Hst1 & Hfs).
  { intros x Hx. apply Hinv, list_elem_of_fmap. by exists x. }
  pstep E1.
  destruct (defrag_files_run fs s1 gs Hinv1 Hfs) as (s' & gs' & ? & ? & ?).
  exists s', gs'. split_and!; [done.. | by transitivity s1].
Qed.

(** Taking a whole gap out. *)
Lemma ge_pop_region_run s gs q r :
  op_inv s gs → (q, r) ∈ gs →
  ∃ s' gs', ge_pop_region bfuel DebugBreak (Some q) s = Ret (Some tt, s') ∧ op_inv s' gs' ∧ steps s s' ∧
    vol s' = vol s.
Proof.
  intros [[Hok Hfree] Hf] Hg.
  destruct (gap_facts _ _ _ _ _ Hok Hg) as (Hr0 & Hr1 & Hr2 & Hcov).
  pose proof Hok as ((nodes & Hl & Hsub) & _). destruct (node_load _ _ _ _ _ Hl (Hsub _ Hg)) as (nd & E & Hd).
  destruct (pop_covers alloc_total (v_bitmap (vol s)) bfuel DebugBreak N HNsmall (free (vol s))
    (vl_bitmap _) (proj2 vl_size) (gheap s) (op_ge s) gs (rlcn r) (rlength r) Hok Hr1 Hcov)
    as (h & g & gs' & E2 & Hok' & Hgs').
  exists (with_gaps h g s), gs'. split_and!; [| | by apply steps_same | done].
  - unfold ge_pop_region. pget. rewrite vl_vopen.
    erewrite prog_bind_some.
    2: { unfold on_gaps, pop_region. rewrite (st_bind_ret _ _ _ _ _ E), Hd, E2. reflexivity. }
    reflexivity.
  - split; [split; [done|] | done]. intros c Hc. cbn [vol with_gaps].
    destruct Hgs' as [Hgs'|Hgs']; apply Hgs' in Hc as [? ?]; auto.
Qed.

Lemma set_clusters_total w h m l :
  Forall (bucket_ok h) m → (∀ q, q ∈ m.*2 → tracked w h q) → Forall (fun x => x ∈ m) l →
  set_clusters w l.*2 = Files.total l ∧ Forall (tracked w h) l.*2.
Proof.
  intros Hm Htr. rewrite Forall_forall in Hm.
  induction 1 as [|[k p] l Hx _ [IH1 IH2]]; [done|].
  rewrite fmap_cons. cbn [set_clusters Files.total snd].
  assert (Hp : tracked w h p) by (apply Htr, list_elem_of_fmap; by exists (k, p)).
  split; [|by constructor]. rewrite IH1. f_equal. destruct Hp as (_ & f & Ef & _ & _ & Hcl & _).
  destruct (Hm _ Hx) as (f' & Ef' & Hk & _). simpl in *. congruence.
Qed.

(** The set of files for a gap. *)
Lemma find_set_run s gs q r partialOK :
  op_inv s gs → (q, r) ∈ gs →
  ∃ fs known', on_files (fun e => findBest e (known_ s) (rlcn r) (rlength r) partialOK) s
      = Ret (Some (fs, known'), s) ∧
    Forall (tracked (vol s) (files s)) fs ∧ set_clusters (vol s) fs ≤ rlength r.
Proof.
  intros [[Hok _] [[[_ Hm] _] Htr]] Hg. pose proof vl_size as [HN _].
  destruct (gap_facts _ _ _ _ _ Hok Hg) as (? & ? & ? & _).
  destruct (findBest_run (files s) (buckets_ (op_fe s)) Hm (rlcn r) (op_fe s) (known_ s) (rlength r)
    partialOK eq_refl) as (res & known' & E & Hb & Ht & _); [lia|].
  destruct (set_clusters_total (vol s) (files s) (buckets_ (op_fe s)) res Hm Htr) as [Hsum Hfs].
  { eapply Forall_impl; [exact Hb|]. by intros x [? _]. }
  exists res.*2, known'. split_and!; [| done | by rewrite Hsum].
  rewrite (on_files_run _ _ _ _ E). by destruct s.
Qed.

(** Without the option, no gap is widened. *)
Lemma widen_behind_off o s gs q r k :
  widen o = false → gaps_ok N (gheap s) (op_ge s) gs → (q, r) ∈ gs →
  widen_behind bfuel dfuel mfuel DebugBreak (Ret tt) o (Some q) k s = Ret (Some false, s).
Proof.
  intros Hw Hok Hg. unfold widen_behind. pstep (region_at_run _ _ _ _ Hok Hg).
  simpl. rewrite Hw. reflexivity.
Qed.

Lemma op_inv_known s gs k :
  op_inv s gs → op_inv (Op (gheap s) (op_ge s) (files s) (op_fe s) k (moved s) (movedLen s)
    (last_moved s) (replaced s) (vol s)) gs.
Proof. done. Qed.

(** From here on, someone interrupts the program in the end. *)
Context (polls_again : ∀ w, (v_terminated w).1 = false → (polls (v_terminated w).2 < polls w)%nat).

Lemma polls_step w w' : v_terminated w = (false, w') → (polls w' < polls w)%nat.
Proof. intros E. pose proof (polls_again w) as H. rewrite E in H. auto. Qed.

Lemma close_loop_run n o s gs partialOK :
  widen o = false → op_inv s gs → (polls (vol s) < n)%nat →
  ∃ s' gs', close_loop bfuel dfuel mfuel DebugBreak (Ret tt) n o partialOK s = Ret (Some tt, s') ∧
    op_inv s' gs' ∧ steps s s'.
Proof.
  intros Hw. revert s gs partialOK. induction n as [|n IH]; intros s gs partialOK Hinv Hn; [lia|].
  (* the rest of the loop, from a state that keeps the invariant *)
  assert (Hrest : ∀ s1 s2 gs2 b, steps s s1 → (polls (vol s1) < polls (vol s))%nat → steps s1 s2 →
    op_inv s2 gs2 →
    ∃ s' gs', close_loop bfuel dfuel mfuel DebugBreak (Ret tt) n o b s2 = Ret (Some tt, s') ∧
      op_inv s' gs' ∧ steps s s').
  { intros s1 s2 gs2 b H01 Hlt H12 Hinv2. pose proof (st_polls _ _ H12).
    destruct (IH s2 gs2 b Hinv2) as (s' & gs' & ? & ? & ?); [lia|]. exists s', gs'.
    split_and!; [done.. |]. transitivity s1; [done | by transitivity s2]. }
  simpl. pget.
  unfold next_gap. pose proof Hinv as [[(_ & _ & Hreg & _) _] _]. rewrite Hreg.
  destruct gs as [|[q r] gs]; simpl; [by exists s, []|].
  destruct (poll_run s _ Hinv) as (b & s1 & E1 & Hinv1 & Hst1 & Et).
  pstep E1. destruct b; [by exists s1, ((q, r) :: gs)|].
  pose proof (polls_step _ _ Et) as Hlt. assert (Hg : (q, r) ∈ (q, r) :: gs) by by left.
  rewrite (prog_bind_some _ _ _ _ _ (region_at_run _ _ _ _ (proj1 (proj1 Hinv1)) Hg)).
  destruct (negb (aggressive o) && (maxSize o <? rlength r)).
  { destruct (ge_pop_region_run s1 _ q r Hinv1 Hg) as (s2 & gs2 & E2 & Hinv2 & Hst2 & _).
    pstep E2. by eapply Hrest. }
  pget.
  destruct (find_set_run s1 _ q r partialOK Hinv1 Hg) as (fs & k & E2 & Hfs & Hsum).
  pstep E2. cbn beta iota. pget.
  set (s2 := Op _ _ _ _ k _ _ _ _ _).
  assert (Hst2 : steps s1 s2) by by apply steps_same.
  assert (Hinv2 : op_inv s2 ((q, r) :: gs)) by exact Hinv1.
  destruct (gap_facts _ _ _ _ _ (proj1 (proj1 Hinv2)) Hg) as (Hr0 & Hr1 & Hr2 & Hcov).
  destruct fs as [|p fs].
  - rewrite (prog_bind_some _ _ _ _ _ (widen_behind_off o s2 _ q r _ Hw (proj1 (proj1 Hinv2)) Hg)).
    cbn [negb andb]. destruct partialOK; [|by eapply Hrest].
    destruct (ge_pop_region_run s2 _ q r Hinv2 Hg) as (s3 & gs3 & E3 & Hinv3 & Hst3 & _).
    pstep E3. eapply Hrest; [done | done | by transitivity s2 | done].
  - destruct (move_set_run (p :: fs) s2 _ r Hinv2 Hfs Hr0 Hsum Hr2) as (b & s3 & E3 & Hstale & Hst3 & _ & Hok).
    { intros c ?. apply Hcov. change (vol s2) with (vol s1) in *. lia. }
    pstep E3. destruct b.
    + destruct (Hok eq_refl) as [(gs3 & Hinv3) _]. eapply Hrest; [done | done | by transitivity s2 | done].
    + destruct (rescan s3 Hstale) as (s4 & gs4 & E4 & Hinv4 & Hst4 & _).
      pstep E4.
      eapply Hrest; [done | done | transitivity s2; [done | by transitivity s3] | done].
Qed.

(** A part of the round and the [scan] that follows it, when it is asked for. *)
Lemma part_run (b : bool) (m : prog W unit) s gs :
  op_inv s gs → (∃ s' gs', m s = Ret (Some tt, s') ∧ op_inv s' gs' ∧ steps s s') →
  ∃ s' gs', (if b then (_ ← m; ge_scan bfuel) else mret tt) s = Ret (Some tt, s') ∧
    op_inv s' gs' ∧ steps s s'.
Proof.
  intros Hinv (s1 & gs1 & E1 & Hinv1 & Hst1). destruct b; [|by exists s, gs].
  pstep E1.
  destruct (rescan s1 (op_inv_stale _ _ Hinv1)) as (s2 & gs2 & E2 & Hinv2 & Hst2 & _).
  exists s2, gs2. split_and!; [done.. | by transitivity s1].
Qed.

Lemma rounds_run n k o s gs :
  widen o = false → op_inv s gs → (polls (vol s) < n)%nat → (polls (vol s) < k)%nat →
  ∃ s' gs', rounds bfuel dfuel mfuel DebugBreak (Ret tt) n k o s = Ret (Some tt, s') ∧
    op_inv s' gs' ∧ steps s s'.
Proof.
  intros Hw. revert s gs. induction n as [|n IH]; intros s gs Hinv Hn Hk; [lia|]. simpl.
  destruct (poll_run s gs Hinv) as (b & s1 & E1 & Hinv1 & Hst1 & Et).
  pstep E1. pget.
  destruct b; [by exists s1, gs|]. pose proof (polls_step _ _ Et) as Hlt. cbn [orb].
  destruct (negb (replaced s1)); [by exists s1, gs|].
  destruct (part_run (opt_defrag o) _ s1 gs Hinv1 (defrag_run s1 gs Hinv1)) as (s2 & gs2 & E2 & Hinv2 & Hst2).
  pstep E2. pget.
  set (s3 := Op _ _ _ _ _ _ _ _ false _). pose proof (st_polls _ _ Hst1). pose proof (st_polls _ _ Hst2).
  destruct (part_run (opt_gaps o) (close_gaps bfuel dfuel mfuel DebugBreak (Ret tt) k o) s3 gs2 Hinv2)
    as (s4 & gs4 & E4 & Hinv4 & Hst4).
  { apply (close_loop_run k o s3 gs2); [done | done |]. change (vol s3) with (vol s2). lia. }
  pstep E4.
  assert (Hst : steps s2 s4) by (transitivity s3; [by apply steps_same | done]).
  pose proof (st_polls _ _ Hst). destruct (IH s4 gs4 Hinv4) as (s' & gs' & ? & ? & ?); [lia..|].
  exists s', gs'. split_and!; [done.. |]. transitivity s1; [done|]. transitivity s2; [done|]. by transitivity s4.
Qed.

Lemma run_run n k o s gs :
  widen o = false → op_inv s gs → (polls (vol s) < n)%nat → (polls (vol s) < k)%nat →
  ∃ s' gs', run bfuel dfuel mfuel DebugBreak (Ret tt) n k o s = Ret (Some tt, s') ∧
    op_inv s' gs' ∧ steps s s' ∧ ∀ c, covers gs'.*2 c ↔ 0 ≤ c < N ∧ free (vol s') c = true.
Proof.
  intros Hw Hinv Hn Hk. unfold run. pget.
  set (s1 := Op _ _ _ _ _ _ _ _ true _).
  destruct (rounds_run n k o s1 gs Hw Hinv Hn Hk) as (s2 & gs2 & E2 & Hinv2 & Hst2).
  pstep E2.
  destruct (rescan s2 (op_inv_stale _ _ Hinv2)) as (s3 & gs3 & E3 & Hinv3 & Hst3 & Hcov).
  exists s3, gs3. split_and!; [done.. | | done].
  transitivity s1; [by apply steps_same | by transitivity s2].
Qed.
End run.

(** C3: moving a file that the enumeration knows into a gap of its size never
    faults, provided that the library keeps [std::prev] of the first gap at the
    end or each block of the file has a gap in front of it.  It sends at most one
    FSCTL_MOVE_FILE, of all clusters of the file to the start of the target.
    When nothing is thrown the file lies in its old clusters and the target, the
    gaps are free clusters again, with the old clusters of the file in them, and
    the file is back in its bucket.  When the move fails the file enumeration
    still agrees with the volume and nothing is counted; the gap enumeration is
    well formed, but it may name clusters that are not free and has to be read
    again. *)
Theorem move_file_correct prev_begin s gs p lcn :
  (1 ≤ mfuel)%nat → prev_safe prev_begin gs (blocks_of (vol s) p) →
  gaps_inv (vol s) (gheap s) (op_ge s) gs → files_inv (vol s) (files s) (op_fe s) →
  tracked (vol s) (files s) p →
  (∀ c, lcn ≤ c < lcn + clusters (disp_of (vol s) p) → covers gs.*2 c) →
  ∃ r s', move_file bfuel dfuel mfuel DebugBreak prev_begin p lcn s = Ret (r, s') ∧
    move_result s gs p lcn (bool_decide (is_Some r)) s' ∧
    if r then counted s p s' else rest_same s s'.
Proof. apply move_file_run. Qed.

(** C4: [move_set] moves a set of files, no larger than a gap together, into
    the gap: no exception leaves it, and what it knew about the files still
    agrees with the volume.  Files that are not in the set are untouched.  When
    it returns true the gaps are free clusters; if, besides, the program is not
    interrupted, the set names no file twice and a move of a whole file that
    succeeds puts it into its target, then every cluster from the start of the
    gap on, for the size of the set, belongs to a file of the set. *)
Theorem move_set_correct fs s gs r :
  (1 ≤ mfuel)%nat → op_inv s gs → Forall (tracked (vol s) (files s)) fs →
  0 ≤ rlcn r → set_clusters (vol s) fs ≤ rlength r → rlcn r + rlength r ≤ N →
  (∀ c, rlcn r ≤ c < rlcn r + set_clusters (vol s) fs → covers gs.*2 c) →
  ∃ b s', move_set bfuel dfuel mfuel DebugBreak (Ret tt) fs r s = Ret (Some b, s') ∧ stale_inv s' ∧
    (∀ q, tracked (vol s) (files s) q → tracked (vol s') (files s') q) ∧
    set_result s s' fs (rlcn r) b.
Proof.
  intros Hm Hinv Hfs H0 H1 H2 Hc.
  destruct (move_set_run Hm (fun _ => 0%nat) (fun _ _ _ _ _ => le_n _) (fun _ => le_n _) fs s gs r
    Hinv Hfs H0 H1 H2 Hc) as (b & s' & E & Hst & [Htr _ _] & Hres).
  by exists b, s'.
Qed.

(** C5: [defrag] returns, without a fault and without an exception leaving it,
    whatever moves the volume refuses; the gaps are free clusters of the volume
    afterwards, and both enumerations agree with it. *)
Theorem defrag_correct s gs :
  (1 ≤ mfuel)%nat → op_inv s gs →
  ∃ s' gs', defrag bfuel dfuel mfuel DebugBreak (Ret tt) s = Ret (Some tt, s') ∧ op_inv s' gs' ∧
    ∀ q, tracked (vol s) (files s) q → tracked (vol s') (files s') q.
Proof.
  intros Hm Hinv.
  destruct (defrag_run Hm (fun _ => 0%nat) (fun _ _ _ _ _ => le_n _) (fun _ => le_n _) s gs Hinv)
    as (s' & gs' & E & Hinv' & [Htr _ _]).
  by exists s', gs'.
Qed.

(** C1: once it is interrupted the program ends, and it ends well.  Without the
    option to widen gaps, on a volume that only this program writes to and whose
    moves change nothing but the place of a file ([VolumeLaws]), with a map whose
    [std::prev(begin())] stays at the end, as [Ret tt] says, and when the flag of
    the console handler is read at most [polls] times before it is set: [run]
    returns whatever moves the volume refuses, no exception leaves it, at the end
    the gaps are exactly the free clusters of the volume, the file enumeration
    agrees with it, and every file has as many clusters as before.  More rounds
    than [polls] are not needed. *)
Theorem run_correct (polls : W → nat) n k o s gs :
  (1 ≤ mfuel)%nat →
  (∀ w f vcn num lcn, (polls (v_move w f vcn num lcn).2 ≤ polls w)%nat) →
  (∀ w, (polls (v_terminated w).2 ≤ polls w)%nat) →
  (∀ w, (v_terminated w).1 = false → (polls (v_terminated w).2 < polls w)%nat) →
  widen o = false → op_inv s gs → (polls (vol s) < n)%nat → (polls (vol s) < k)%nat →
  ∃ s' gs', run bfuel dfuel mfuel DebugBreak (Ret tt) n k o s = Ret (Some tt, s') ∧ op_inv s' gs' ∧
    (∀ c, covers gs'.*2 c ↔ 0 ≤ c < N ∧ free (vol s') c = true) ∧
    (∀ q, tracked (vol s) (files s) q → tracked (vol s') (files s') q) ∧
    (∀ q, q ∈ all → clusters (disp_of (vol s') q) = clusters (disp_of (vol s) q)).
Proof.
  intros Hm H1 H2 H3 Hw Hinv Hn Hk.
  destruct (run_run Hm polls H1 H2 H3 n k o s gs Hw Hinv Hn Hk) as (s' & gs' & E & Hinv' & [Htr Hcl _] & Hcov).
  by exists s', gs'.
Qed.
End safety.

(** ** A volume

    Ten clusters: the file [a] lies in clusters 6 and 8 or, once it has been
    moved, in 2 and 3; [b] lies in cluster 4; 0, 1 and 5 belong to the file
    system.  The only move that succeeds is that of [a] to cluster 2.  The number
    counts down to the interrupt. *)
Definition demo_world : Type := bool * nat.

Definition demo_layout (w : demo_world) (p : option str) : list (Z * Z) :=
  if decide (p = Some (text "a")) then (if w.1 then [(2, 2)] else [(1, 6); (2, 8)])
  else if decide (p = Some (text "b")) then [(1, 4)] else [].

Definition demo_free_of (w : demo_world) (c : Z) : bool :=
  if w.1 then (6 <=? c) && (c <=? 9) else (c =? 2) || (c =? 3) || (c =? 7) || (c =? 9).

Definition demo_move (w : demo_world) (f : winx_file_info) (vcn num lcn : Z) : Z * demo_world :=
  if negb w.1 && bool_decide (fi_path f = Some (text "a")) && (vcn =? 0) && (num =? 2) && (lcn =? 2)
  then (0, (true, w.2)) else (0xC000000D, w).

#[export] Instance demo_volume : Volume demo_world := {|
  v_opens _ _ := true;
  v_move := demo_move;
  v_retrieve w f := Some (fun v =>
    let map := demo_layout w (fi_path f) in
    (if decide (length (runs_after v map) ≤ 1)%nat then STATUS_SUCCESS else STATUS_BUFFER_OVERFLOW,
     RetrievalDescriptor (Z.of_nat (Nat.min 1 (length (runs_after v map)))) v
       (take 1 (runs_after v map))));
  v_vopen _ := true;
  v_bitmap w nxt :=
    (STATUS_SUCCESS,
     {| StartLcn := nxt;
        ClustersToEndOfVol := 10 - nxt;
        Map := drop (Z.to_nat (nxt / 8)) (if w.1 then [63; 0] else [115; 1]) |});
  v_terminated w := (bool_decide (w.2 = 0%nat), (w.1, pred w.2));
|}.

Lemma demo_blocks w p :
  runs_blocks (demo_layout w p) =
    if decide (p = Some (text "a")) then (if w.1 then [Block 0 2 2] else [Block 0 6 1; Block 1 8 1])
    else if decide (p = Some (text "b")) then [Block 0 4 1] else [].
Proof. unfold demo_layout. repeat case_decide; destruct w as [[] ?]; reflexivity. Qed.

Lemma demo_have w p c :
  blocks_have (runs_blocks (demo_layout w p)) c ↔
    (p = Some (text "a") ∧ if w.1 then 2 ≤ c ≤ 3 else c = 6 ∨ c = 8) ∨ (p = Some (text "b") ∧ c = 4).
Proof.
  rewrite demo_blocks. unfold blocks_have, block_has.
  destruct (decide (p = Some (text "a"))) as [->|Ha]; [|destruct (decide (p = Some (text "b"))) as [->|Hb]].
  - destruct w as [[] n]; simpl; rewrite !Exists_cons, Exists_nil; simpl; split; intuition (try done; lia).
  - rewrite Exists_cons, Exists_nil; simpl; split; intuition (try done; lia).
  - rewrite Exists_nil. tauto.
Qed.

Lemma demo_have_a w c :
  blocks_have (runs_blocks (demo_layout w (Some (text "a")))) c ↔ if w.1 then 2 ≤ c ≤ 3 else c = 6 ∨ c = 8.
Proof. rewrite demo_have. split; [by intros [[_ ?]|[? _]] | by left]. Qed.

Lemma demo_have_free w p c :
  blocks_have (runs_blocks (demo_layout w p)) c → demo_free_of w c = false.
Proof.
  rewrite demo_have. unfold demo_free_of. destruct w as [[] n]; simpl;
    intros [[-> ?]|[-> ?]]; lia.
Qed.

Lemma demo_bitmap_ok w : bitmap_service 10 (demo_free_of w) (v_bitmap w).
Proof.
  intros nxt Hn Hm. simpl. split_and!; [done | done | by rewrite (proj2 (Z.leb_le _ _)) by (unfold BITMAPBYTES; lia) |].
  unfold portion_size. simpl. intros i Hi.
  assert (nxt = 0 ∨ nxt = 8) as Hnx by (apply Z.mod_divide in Hm as [k ->]; lia).
  assert (Hs : i ∈ seqZ 0 10) by (apply elem_of_seqZ; lia).
  destruct w as [[] n]; destruct Hnx as [->| ->]; vm_compute (seqZ 0 10) in Hs;
    repeat (apply elem_of_cons in Hs as [->|Hs]; [first [by eexists; split; vm_compute | exfalso; lia] | ]);
    try (by apply elem_of_nil in Hs).
Qed.

#[export, program] Instance demo_laws : VolumeLaws demo_world 10 1 3 := {|
  free := demo_free_of;
  layout := demo_layout;
|}.
Next Obligation. split; [lia | vm_compute; done]. Qed.
Next Obligation. done. Qed.
Next Obligation. apply demo_bitmap_ok. Qed.
Next Obligation.
  intros w f. eexists _, 1%nat. split_and!; [reflexivity | lia.. | by intros v | |];
    unfold demo_layout; repeat case_decide; destruct w as [[] n]; simpl; lia.
Qed.
Next Obligation.
  intros w p. rewrite demo_blocks. repeat case_decide; destruct w as [[] n]; simpl;
    repeat constructor; simpl; lia.
Qed.
Next Obligation.
  intros w p. rewrite demo_blocks. repeat case_decide; destruct w as [[] n]; simpl;
    rewrite ?disjoint_blocks_iff; split_and?; try (by intros i ? ? ? ?);
    intros c; unfold blocks_have, block_has; rewrite ?Exists_cons, Exists_nil; simpl; lia.
Qed.
Next Obligation. intros w p c. apply demo_have_free. Qed.
Next Obligation. intros w p q c Hne. rewrite !demo_have.
  intros [[-> Hc]|[-> Hc]] [[-> Hc']|[-> Hc']]; try congruence; destruct w.1; lia.
Qed.
Next Obligation.
  intros w p. rewrite demo_blocks. unfold demo_layout, MAXULONG32.
  repeat case_decide; destruct w as [[] n]; simpl; intros ?; try done; vm_compute; done.
Qed.
Next Obligation.
  intros w f vcn num lcn status w'. simpl. unfold demo_move. destruct (_ && _) eqn:E; intros [= <- <-].
  - rewrite !andb_true_iff, negb_true_iff, bool_decide_eq_true in E. destruct E as ((((Ew & Ef) & _) & En) & El).
    destruct w as [[] n]; [done|]. rewrite Ef. split_and!.
    + intros q Hq. unfold demo_layout. by rewrite !(decide_False (P := q = Some (text "a"))) by done.
    + reflexivity.
    + done.
    + intros c. rewrite !demo_have_a. unfold demo_free_of. simpl. lia.
    + intros _ c. rewrite !demo_have_a. simpl. lia.
  - split_and!; [done.. | | done]. intros c. rewrite demo_have. split.
    + intros Hc. split; [by left|]. intros Hh. apply demo_have in Hh.
      apply demo_have_free in Hh. congruence.
    + tauto.
Qed.
Next Obligation. by intros [f n]. Qed.

Definition demo_all : list loc := [1%positive; 2%positive].

Definition demo_path (p : loc) : option str :=
  if decide (p = 1%positive) then Some (text "a") else Some (text "b").

Definition demo_store : fheap :=
  let file name d := FileInfo name (Some name) 0 d 0 0 0 0 0 0 in
  <[1%positive := file (text "a") (Disp 2 2 [Block 0 6 1; Block 1 8 1])]>
  (<[2%positive := file (text "b") (Disp 1 1 [Block 0 4 1])]> ∅).

Definition demo_op_gaps : gnodes :=
  [(1%positive, Region 2 2); (2%positive, Region 7 1); (3%positive, Region 9 1)].

Definition demo_op_heap : gmap loc (node winx_volume_region) :=
  <[1%positive := Node (Some 2%positive) (Some 3%positive) (Region 2 2)]>
  (<[2%positive := Node (Some 3%positive) (Some 1%positive) (Region 7 1)]>
  (<[3%positive := Node (Some 1%positive) (Some 2%positive) (Region 9 1)]> ∅)).

Definition demo_op : Operation demo_world :=
  Op demo_op_heap
     (Gaps (Some 1%positive) (by_lcn demo_op_gaps) [(1, 2%positive); (1, 3%positive); (2, 1%positive)])
     demo_store (Files [(1, 2%positive); (2, 1%positive)] [] [] [] 0 0) [] 0 0 None false (false, 20%nat).

Lemma demo_path_inj p q : p ∈ demo_all → q ∈ demo_all → demo_path p = demo_path q → p = q.
Proof. unfold demo_all, demo_path. intros Hp Hq. set_unfold. by destruct Hp as [->|[->|[]]], Hq as [->|[->|[]]]. Qed.

Lemma demo_tracked p : p ∈ demo_all → tracked 10 1 3 demo_all demo_path (false, 20%nat) demo_store p.
Proof.
  intros Hp. split; [done|]. unfold demo_all in Hp. set_unfold in Hp.
  destruct Hp as [->|[->|[]]]; (eexists; split_and!; [reflexivity | reflexivity | reflexivity.. | done]).
Qed.

Lemma demo_op_inv : op_inv 10 1 3 demo_all demo_path demo_op demo_op_gaps.
Proof.
  split; split.
  - split_and!.
    + exists demo_op_gaps. split; [|done]. split; [done|]. split; [|by repeat split].
      apply (bool_decide_unpack _). by vm_compute.
    + apply (bool_decide_unpack _). by vm_compute.
    + done.
    + apply (bool_decide_unpack _). by vm_compute.
    + repeat constructor; simpl; lia.
    + split; repeat constructor; unfold rend; simpl; lia.
  - intros c (r & Hr & ?). simpl in *. set_unfold. unfold demo_free_of. simpl. unfold rend in *.
    destruct Hr as [->|[->|[->|[]]]]; simpl in *; lia.
  - split_and!; [split | | |by left].
    + repeat constructor; simpl; lia.
    + repeat constructor; (eexists; split_and!; [vm_compute; reflexivity | done | done | simpl; lia | simpl; lia]).
    + apply (bool_decide_unpack _). by vm_compute.
    + intros p q c Hp Hq Hsp Hsq.
      assert (Ht : ∀ p, p ∈ [2%positive; 1%positive] → tracked 10 1 3 demo_all demo_path (false, 20%nat) demo_store p).
      { intros p' Hp'. apply demo_tracked. unfold demo_all. set_solver. }
      destruct (decide (p = q)) as [|Hne]; [done|]. exfalso.
      eapply (tracked_apart 10 1 3 demo_all demo_path demo_path_inj (false, 20%nat) demo_store p q c);
        [by apply Ht | by apply Ht | done | done | done].
  - intros p Hp. apply demo_tracked. unfold demo_all. set_solver.
Qed.

Definition demo_options : Options := Opts 100 false true true false.

(** The run defragments [a] and finds nothing more to do: it is over before the
    interrupt. *)
Example demo_run :
  let A := bump_allocator (node winx_volume_region) in
  match run 1 3 1 (Ret tt) (Ret tt) 21 21 demo_options demo_op with
  | Ret (Some tt, s') => (regions_ (op_ge s')).*1 = [6] ∧ vol s' = (true, 13%nat) ∧ moved s' = 1 ∧ movedLen s' = 2
  | _ => False
  end.
Proof. vm_compute. done. Qed.

Lemma demo_alloc_total :
  let A := bump_allocator (node winx_volume_region) in
  ∀ h : gmap loc (node winx_volume_region), is_Some (alloc h).
Proof. by eexists. Qed.

Lemma demo_clusters : clusters (disp_of 10 1 3 demo_path (vol demo_op) 1%positive) = 2.
Proof. vm_compute. reflexivity. Qed.

Lemma demo_target c :
  2 ≤ c < 2 + clusters (disp_of 10 1 3 demo_path (vol demo_op) 1%positive) → covers demo_op_gaps.*2 c.
Proof. rewrite demo_clusters. intros ?. exists (Region 2 2). split; [by left|]. unfold rend. simpl. lia. Qed.

(** The gap at cluster 2 lies in front of both blocks of [a]. *)
Lemma demo_in_front :
  gap_in_front demo_op_gaps.*2 (blocks_of 10 1 3 demo_path (vol demo_op) 1%positive).
Proof. apply (bool_decide_unpack _). vm_compute. exact I. Qed.

Definition demo_outcome_moved (o : outcome (option unit * Operation demo_world)) : bool :=
  match o with
  | Ret (Some _, _) => true
  | _ => false
  end.

Lemma move_file_correct_witness :
  let A := bump_allocator (node winx_volume_region) in
  ∃ r s', move_file 1 3 1 (Ret tt) Fault 1%positive 2 demo_op = Ret (r, s') ∧ is_Some r ∧
    move_result 10 1 3 demo_all demo_path demo_op demo_op_gaps 1%positive 2 (bool_decide (is_Some r)) s' ∧
    if r then counted 10 1 3 demo_path demo_op 1%positive s' else rest_same demo_op s'.
Proof.
  intros A.
  destruct (move_file_correct 10 1 3 1 (Ret tt) demo_alloc_total demo_all demo_path demo_path_inj
    Fault demo_op demo_op_gaps 1%positive 2 (le_n 1) (or_intror demo_in_front) (proj1 demo_op_inv)
    (proj2 demo_op_inv) (demo_tracked 1%positive ltac:(by left)) demo_target) as (r & s' & E & H).
  exists r, s'. split; [exact E|]. split; [|exact H].
  pose proof (f_equal demo_outcome_moved E) as E'. vm_compute in E'.
  destruct r as [[]|]; [by eexists | discriminate E'].
Defined.

Lemma demo_set : set_clusters 10 1 3 demo_path (vol demo_op) [1%positive] = 2.
Proof. vm_compute. reflexivity. Qed.

(** The same volume when nobody interrupts the program. *)
Definition calm_world : Type := bool.

Definition calm_up (w : calm_world) : demo_world := (w, O).

#[export] Instance calm_volume : Volume calm_world := {|
  v_opens w := v_opens (calm_up w);
  v_move w f vcn num lcn := let '(status, w') := demo_move (calm_up w) f vcn num lcn in (status, w'.1);
  v_retrieve w := v_retrieve (calm_up w);
  v_vopen w := v_vopen (calm_up w);
  v_bitmap w := v_bitmap (calm_up w);
  v_terminated w := (false, w);
|}.

#[export, program] Instance calm_laws : VolumeLaws calm_world 10 1 3 := {|
  free w := demo_free_of (calm_up w);
  layout w := demo_layout (calm_up w);
|}.
Next Obligation. exact (vl_size (W:=demo_world)). Qed.
Next Obligation. done. Qed.
Next Obligation. intros w. exact (vl_bitmap (W:=demo_world) (calm_up w)). Qed.
Next Obligation. intros w. exact (vl_retrieve (W:=demo_world) (calm_up w)). Qed.
Next Obligation. intros w. exact (vl_blocks (W:=demo_world) (calm_up w)). Qed.
Next Obligation. intros w. exact (vl_disjoint (W:=demo_world) (calm_up w)). Qed.
Next Obligation. intros w. exact (vl_used (W:=demo_world) (calm_up w)). Qed.
Next Obligation. intros w. exact (vl_apart (W:=demo_world) (calm_up w)). Qed.
Next Obligation. intros w. exact (vl_clusters (W:=demo_world) (calm_up w)). Qed.
Next Obligation.
  intros w f vcn num lcn status w' E. cbn [v_move calm_volume] in E.
  destruct (demo_move (calm_up w) f vcn num lcn) as [st w2] eqn:E2.
  assert (st = status ∧ w2.1 = w') as [-> <-] by (split; congruence).
  exact (vl_move (W:=demo_world) (calm_up w) f vcn num lcn status w2 E2).
Qed.
Next Obligation. done. Qed.

Lemma calm_moves_whole : moves_whole (W:=calm_world) 10 1 3.
Proof.
  intros w f lcn status w' E Hs c Hc. cbn [v_move calm_volume layout calm_laws] in *.
  unfold demo_move in E. destruct (_ && _) eqn:E2.
  - rewrite !andb_true_iff, bool_decide_eq_true in E2.
    destruct E2 as ((((_ & Ef) & _) & En) & El). injection E as <- <-.
    rewrite Ef in *. apply demo_have_a. simpl. lia.
  - injection E as <- _. discriminate Hs.
Qed.

Definition calm_op : Operation calm_world :=
  Op demo_op_heap (op_ge demo_op) demo_store (op_fe demo_op) [] 0 0 None false false.

Lemma calm_op_inv : op_inv (W:=calm_world) 10 1 3 demo_all demo_path calm_op demo_op_gaps.
Proof. exact demo_op_inv. Qed.

Lemma calm_set : set_clusters (W:=calm_world) 10 1 3 demo_path (vol calm_op) [1%positive] = 2.
Proof. exact demo_set. Qed.

Definition returned_flag {W} (o : outcome (option bool * Operation W)) : option bool :=
  match o with
  | Ret (b, _) => b
  | _ => None
  end.

(** The file is moved: the set fills the gap. *)
Lemma move_set_correct_witness :
  let A := bump_allocator (node winx_volume_region) in
  ∃ s', move_set (W:=calm_world) 1 3 1 (Ret tt) (Ret tt) [1%positive] (Region 2 2) calm_op
      = Ret (Some true, s') ∧
    (∃ gs', op_inv 10 1 3 demo_all demo_path s' gs') ∧
    untouched 10 1 3 demo_all demo_path calm_op s' (fun q => q ∉ [1%positive]) ∧
    filled 10 1 3 demo_path (vol s') [1%positive] 2 2.
Proof.
  intros A.
  assert (Hfs : Forall (tracked 10 1 3 demo_all demo_path (vol calm_op) (files calm_op)) [1%positive]).
  { constructor; [exact (demo_tracked 1%positive ltac:(by left)) | constructor]. }
  destruct (move_set_correct 10 1 3 1 (Ret tt) demo_alloc_total demo_all demo_path demo_path_inj
    [1%positive] calm_op demo_op_gaps (Region 2 2) (le_n 1) calm_op_inv Hfs)
    as (b & s' & E & _ & _ & Hun & Hok).
  - done.
  - rewrite calm_set. done.
  - done.
  - rewrite calm_set, <- demo_clusters. exact demo_target.
  - pose proof (f_equal returned_flag E) as Eb. vm_compute in Eb.
    assert (b = true) as -> by congruence. destruct (Hok eq_refl) as [Hinv Hfill].
    exists s'. split; [exact E|]. split; [exact Hinv|]. split; [exact Hun|].
    rewrite calm_set in Hfill. apply Hfill; [exact calm_moves_whole | done | apply NoDup_singleton].
Defined.

Lemma defrag_correct_witness :
  let A := bump_allocator (node winx_volume_region) in
  ∃ s' gs', defrag 1 3 1 (Ret tt) (Ret tt) demo_op = Ret (Some tt, s') ∧
    op_inv 10 1 3 demo_all demo_path s' gs' ∧
    ∀ q, tracked 10 1 3 demo_all demo_path (vol demo_op) (files demo_op) q →
      tracked 10 1 3 demo_all demo_path (vol s') (files s') q.
Proof.
  exact (defrag_correct 10 1 3 1 (Ret tt) demo_alloc_total demo_all demo_path demo_path_inj
    demo_op demo_op_gaps (le_n 1) demo_op_inv).
Defined.

(** The number of the demo world, plus one. *)
Definition demo_polls (w : demo_world) : nat := S w.2.

Lemma demo_polls_move w f vcn num lcn : (demo_polls (v_move w f vcn num lcn).2 ≤ demo_polls w)%nat.
Proof. simpl. unfold demo_move, demo_polls. destruct (_ && _); simpl; lia. Qed.

Lemma demo_polls_terminated w : (demo_polls (v_terminated w).2 ≤ demo_polls w)%nat.
Proof. destruct w as [b n]. unfold demo_polls. simpl. lia. Qed.

Lemma demo_polls_again w : (v_terminated w).1 = false → (demo_polls (v_terminated w).2 < demo_polls w)%nat.
Proof. destruct w as [b [|n]]; unfold demo_polls; simpl; [done | lia]. Qed.

Lemma demo_polls_enough b : (demo_polls (b, 20%nat) < 22)%nat.
Proof. unfold demo_polls. simpl. lia. Qed.

Lemma run_correct_witness :
  let A := bump_allocator (node winx_volume_region) in
  ∃ s' gs', run 1 3 1 (Ret tt) (Ret tt) 22 22 demo_options demo_op = Ret (Some tt, s') ∧
    op_inv 10 1 3 demo_all demo_path s' gs' ∧
    (∀ c, covers gs'.*2 c ↔ 0 ≤ c < 10 ∧ free (vol s') c = true) ∧
    (∀ q, tracked 10 1 3 demo_all demo_path (vol demo_op) (files demo_op) q →
       tracked 10 1 3 demo_all demo_path (vol s') (files s') q) ∧
    (∀ q, q ∈ demo_all →
       clusters (disp_of 10 1 3 demo_path (vol s') q) = clusters (disp_of 10 1 3 demo_path (vol demo_op) q)).
Proof.
  exact (run_correct 10 1 3 1 (Ret tt) demo_alloc_total demo_all demo_path demo_path_inj
    demo_polls 22 22 demo_options demo_op demo_op_gaps (le_n 1) demo_polls_move demo_polls_terminated
    demo_polls_again eq_refl demo_op_inv (demo_polls_enough false) (demo_polls_enough false)).
Defined.
