(* ===== verification/Widen.v ===== *)
(** * op.cpp: widening a gap

    [widen_behind] moves the files behind a gap into gaps further behind, so
    that the gap grows.  This file shows when that works, and what a move that
    fails leaves. *)
From S2P Require Import Prelude DList Regions Bitmap CString FileInfo Ftw FileIO StdMap Gaps Files Op OpSafe.
From stdpp Require Import prelude gmap sorting strings.
Open Scope Z_scope.

Section widen.
Context {W : Type} `{!Volume W} `{!Allocator (node winx_volume_region)}.
Context (N : Z) (bfuel dfuel mfuel : nat) (DebugBreak : outcome unit).
Context `{!VolumeLaws W N bfuel dfuel}.
Context (alloc_total : ∀ h : gmap loc (node winx_volume_region), is_Some (alloc h)).
Context (all : list loc) (path : loc → option str).
Context (path_inj : ∀ p q, p ∈ all → q ∈ all → path p = path q → p = q).
Implicit Types (s : Operation W) (p q : loc) (gs : gnodes).

Notation op_inv := (op_inv N bfuel dfuel all path).
Notation stale_inv := (stale_inv N bfuel dfuel all path).
Notation tracked := (tracked N bfuel dfuel all path).
Notation blocks_of := (blocks_of N bfuel dfuel path).
Notation disp_of := (disp_of N bfuel dfuel path).

(** The file lies in one piece. *)
Definition one_piece (w : W) p : Prop :=
  ∃ a, ∀ c, blocks_have (blocks_of w p) c ↔ a ≤ c < a + clusters (disp_of w p).

Definition pieces s : Prop := ∀ p, p ∈ (buckets_ (op_fe s)).*2 → one_piece (vol s) p.

(** A file that is moved as a whole lies in the target and nowhere else. *)
Definition moves_exactly : Prop :=
  ∀ w f lcn status w',
    v_move w f 0 (clusters (runs_disp (layout w (fi_path f)))) lcn = (status, w') →
    NT_SUCCESS status = true →
    ∀ c, blocks_have (runs_blocks (layout w' (fi_path f))) c ↔
      lcn ≤ c < lcn + clusters (runs_disp (layout w (fi_path f))).

(** *** The file behind a gap *)
Lemma find_at_run s gs lcn :
  op_inv s gs →
  ∃ res e, on_files (fun e => findAt e lcn) s = Ret (Some (res, e), s) ∧
    files_ok (files s) e ∧ buckets_ e = buckets_ (op_fe s) ∧
    ∀ p, res = Some p →
      p ∈ (buckets_ (op_fe s)).*2 ∧ tracked (vol s) (files s) p ∧ blocks_have (blocks_of (vol s) p) lcn.
Proof.
  intros [_ [Hok Htr]].
  destruct (findAt_run (files s) (op_fe s) lcn Hok) as (res & e & E & Hok' & Hb & Hres).
  exists res, e. split_and!; [| done | done |].
  - rewrite (on_files_run (fun e => findAt e lcn) s (res, e) (files s) E). by destruct s.
  - intros p Hp. apply Hres in Hp as [Hin Hst]. split_and!; [done | by apply Htr |].
    eapply tracked_starts; [by apply Htr | done].
Qed.

(** Free clusters right in front of a cluster of a file in one piece are in front
    of the file. *)
Lemma piece_behind w p a n :
  one_piece w p → 0 < n → (∀ c, a ≤ c < a + n → free w c = true) →
  blocks_have (blocks_of w p) (a + n) →
  ∀ c, blocks_have (blocks_of w p) c ↔ a + n ≤ c < a + n + clusters (disp_of w p).
Proof.
  intros [b Hb] Hn Hfree Hat. pose proof (proj1 (Hb _) Hat) as Hr.
  assert (b = a + n) as ->; [|done].
  destruct (decide (b = a + n)) as [|Hne]; [done|]. exfalso.
  assert (Hu : blocks_have (blocks_of w p) (a + n - 1)) by (apply Hb; lia).
  apply vl_used in Hu. rewrite Hfree in Hu by lia. done.
Qed.

(** A gap that starts further behind has no cluster in common with a range of
    gaps. *)
Lemma gap_apart h g gs q r a n :
  gaps_ok N h g gs → (q, r) ∈ gs → a < rlcn r → (∀ c, a ≤ c < a + n → covers gs.*2 c) →
  a + n ≤ rlcn r.
Proof.
  intros Hok Hq Ha Hc. destruct (decide (a + n ≤ rlcn r)) as [|Hn]; [done|]. exfalso.
  destruct (Hc (rlcn r - 1)) as (r' & Hr' & Hin); [lia|].
  destruct Hok as (_ & _ & _ & _ & _ & [Hwf Hso]).
  assert (Hr : r ∈ gs.*2) by (apply list_elem_of_fmap; by exists (q, r)).
  assert (Hord : r = r' ∨ rend r < rlcn r' ∨ rend r' < rlcn r).
  { clear -Hso Hr Hr'. revert Hso Hr Hr'. generalize (gs.*2). intros l Hso.
    induction Hso as [|x l Hso IH Hx]; intros Hr Hr'; [by apply elem_of_nil in Hr|].
    rewrite Forall_forall in Hx. apply elem_of_cons in Hr as [->|Hr], Hr' as [->|Hr']; auto. }
  rewrite Forall_forall in Hwf. pose proof (Hwf _ Hr) as (? & ? & ?). unfold rend in *.
  destruct Hord as [<-|?]; lia.
Qed.

(** *** A move *)
Context (Hmfuel : (1 ≤ mfuel)%nat) (Hexact : moves_exactly).

Lemma move_behind s gs p lcn :
  op_inv s gs → pieces s → tracked (vol s) (files s) p →
  (∀ c, lcn ≤ c < lcn + clusters (disp_of (vol s) p) → covers gs.*2 c) →
  ∃ r s', move_file bfuel dfuel mfuel DebugBreak (Ret tt) p lcn s = Ret (r, s') ∧ stale_inv s' ∧
    (∀ q, tracked (vol s) (files s) q → tracked (vol s') (files s') q) ∧
    (is_Some r → ∃ gs', op_inv s' gs' ∧ pieces s' ∧
       clusters (disp_of (vol s') p) = clusters (disp_of (vol s) p) ∧
       (∀ c, lcn ≤ c < lcn + clusters (disp_of (vol s) p) → free (vol s') c = false) ∧
       ∀ c, covers gs.*2 c ∨ blocks_have (blocks_of (vol s) p) c →
         ¬ lcn ≤ c < lcn + clusters (disp_of (vol s) p) → covers gs'.*2 c).
Proof.
  intros [Hg Hf] Hpc Hp Htgt. pose proof (proj1 Hp) as Hall.
  destruct (move_file_run N bfuel dfuel mfuel DebugBreak alloc_total all path path_inj (Ret tt) s gs p lcn Hmfuel (or_introl eq_refl) Hg Hf Hp Htgt)
    as (r & s' & E & [Hfi Htr Hcl Ho Hv Hgs Hok] & _).
  exists r, s'. split_and!; [done | | done |].
  { destruct Hgs as (gs' & ? & _). split; [by exists gs' | done]. }
  intros Hr. rewrite bool_decide_eq_true_2 in Hgs, Hok, Hv by done.
  destruct Hgs as (gs' & Hok' & Hgs). destruct (Hgs eq_refl) as [Hfree Hcov].
  destruct Hv as [[? _]|(f & status & Hpath & Hsucc & Ev)]; [done|].
  destruct (move_moved N bfuel dfuel all path path_inj _ _ _ _ _ _ _ _ Hall Hpath Ev) as [[Hoth _ _ _] _].
  assert (Hnew : ∀ c, blocks_have (blocks_of (vol s') p) c ↔ lcn ≤ c < lcn + clusters (disp_of (vol s) p)).
  { pose proof Ev as Ev'. unfold OpSafe.disp_of, OpSafe.blocks_of in *. rewrite <- Hpath in *.
    exact (Hexact _ _ _ _ _ Ev' Hsucc). }
  exists gs'. split_and!; [by split | | by apply Hcl | |].
  - intros q Hq. destruct (decide (q = p)) as [->|Hne].
    + exists lcn. intros c. rewrite Hnew, Hcl by done. done.
    + assert (Hq0 : q ∈ (buckets_ (op_fe s)).*2).
      { apply buckets_elem in Hq as [k Hq]. apply buckets_elem. exists k. by apply Ho. }
      destruct (Hpc q Hq0) as [a Ha]. exists a. unfold OpSafe.blocks_of, OpSafe.disp_of in *.
      rewrite Hoth; [done | | done]. by destruct Hf as [_ Hf], (Hf q Hq0).
  - intros c Hc. by apply (vl_used _ (path p)), Hnew.
  - intros c Hc Hn. destruct (Hcov c Hc) as [Hb|?]; [|done]. by apply Hnew in Hb.
Qed.

(** *** The loop *)

(** What the gap [r0] has become: it is wider, or it has been filled from its
    start on and lies behind. *)
Definition gap_after (w : W) gs (r0 : winx_volume_region) (moved : bool) : Prop :=
  ∃ a n, rlcn r0 ≤ a ∧ rlength r0 ≤ n ∧ (moved = true → rlcn r0 < a ∨ rlength r0 < n) ∧
    (∀ c, rlcn r0 ≤ c < a → free w c = false) ∧ ∀ c, a ≤ c < a + n → covers gs.*2 c.

(** The loop's copy of the gap. *)
Definition widened gs (r0 r : winx_volume_region) (moved : bool) : Prop :=
  rlcn r = rlcn r0 ∧ 0 ≤ rlcn r ∧ 0 < rlength r0 ≤ rlength r ∧ rlcn r + rlength r ≤ N ∧
  (moved = true → rlength r0 < rlength r) ∧
  ∀ c, rlcn r ≤ c < rlcn r + rlength r → covers gs.*2 c.

Lemma widened_gap w gs r0 r b : widened gs r0 r b → gap_after w gs r0 b.
Proof.
  intros (E & _ & H1 & _ & H2 & H3). exists (rlcn r), (rlength r). split_and!; [lia..| | | done]; [auto | lia].
Qed.

(** Looking at the flag of the console handler. *)
Lemma poll s gs :
  op_inv s gs → ∃ b s', gTerminated s = Ret (Some b, s') ∧ op_inv s' gs ∧
    files s' = files s ∧ op_fe s' = op_fe s ∧ layout (vol s') = layout (vol s) ∧ free (vol s') = free (vol s).
Proof.
  intros [[Hok Hfree] [Hfok Htr]]. unfold gTerminated, on_vol.
  destruct (vl_terminated (vol s)) as [Hlay Hfr]. destruct (v_terminated (vol s)) as [b w']. simpl in *.
  eexists b, (with_vol w' s). split_and!; [done | | done..]. split; split; cbn; [done | | done |].
  - intros c. rewrite Hfr. auto.
  - intros q Hq. by apply (tracked_layout N bfuel dfuel all path (vol s)), Htr.
Qed.

Lemma pieces_same s s' : op_fe s' = op_fe s → layout (vol s') = layout (vol s) → pieces s → pieces s'.
Proof. intros E1 E2 H p. unfold one_piece, OpSafe.blocks_of, OpSafe.disp_of. rewrite E1, E2. apply H. Qed.

(** Once half of the maximal size has been moved, the loop is over. *)
Lemma widen_loop_over n o k st s gs :
  op_inv s gs → maxSize o / 2 ≤ w_movedlen st →
  ∃ s', widen_loop bfuel dfuel mfuel DebugBreak (Ret tt) (S n) o k st s = Ret (Some st, s') ∧
    op_inv s' gs ∧ free (vol s') = free (vol s) ∧
    ∀ q, tracked (vol s) (files s) q → tracked (vol s') (files s') q.
Proof.
  intros Hinv Hlen. cbn [widen_loop]. destruct (negb (widen o)); [by exists s|].
  destruct (poll s gs Hinv) as (b & s1 & E & Hinv1 & Ef & _ & Hlay & Hfr).
  exists s1. split_and!; [| done | done |].
  - pstep E. destruct b; [done|]. by rewrite (proj2 (Z.ltb_ge _ _) Hlen).
  - intros q. rewrite Ef. by apply tracked_layout.
Qed.

(** The target: a gap further behind, or the gap itself. *)
Lemma widen_target_run o s gs r c :
  op_inv s gs → 0 ≤ c ≤ N →
  ∃ t, widen_target o c r s = Ret (Some t, s) ∧
    match t with
    | None => True
    | Some (inl _) => maxSize o ≤ c ≤ rlength r
    | Some (inr q) => ∃ d, (q, d) ∈ gs ∧ rlcn r < rlcn d ∧ c ≤ rlength d
    end.
Proof.
  intros [[Hok _] _] Hc. pose proof vl_size as [HN _].
  destruct (best_run N _ _ gs c (Some (None, r)) true Hok Hc) as (res & E & Hres); [lia|].
  assert (Eb : ge_best c (Some (None, r)) true s = Ret (Some res, s)).
  { unfold ge_best, on_gaps. rewrite E. by destruct s. }
  unfold widen_target. pstep Eb. eexists. split; [reflexivity|]. destruct res as [q|].
  - destruct Hres as (d & [Hd Hp] & Hlen & _). exists d. split; [done|]. split; [|done].
    simpl in Hp. apply orb_false_iff in Hp as [Hp _]. lia.
  - destruct (_ && _) eqn:Eq; [|done]. lia.
Qed.

Lemma blocks_range w p c : blocks_have (blocks_of w p) c → 0 ≤ c < N.
Proof.
  intros (b & Hb & Hc)%Exists_exists. pose proof (vl_blocks w (path p)) as Hbl.
  rewrite Forall_forall in Hbl. destruct (Hbl b Hb) as [Hok _].
  unfold block_ok, block_has in *. lia.
Qed.

(** Moving the file behind the gap [r] to [t]: behind its old place, or to the
    start of the gap when it fits. *)
Lemma widen_move s gs r0 r b p t :
  let c := clusters (disp_of (vol s) p) in
  op_inv s gs → pieces s → widened gs r0 r b → p ∈ (buckets_ (op_fe s)).*2 →
  blocks_have (blocks_of (vol s) p) (rlcn r + rlength r) →
  (∀ i, t ≤ i < t + c → covers gs.*2 i) → (t = rlcn r ∧ c ≤ rlength r ∨ rlcn r + rlength r ≤ t) →
  0 < c < MAXULONG32 - 10 ∧
  ∃ res s', move_file bfuel dfuel mfuel DebugBreak (Ret tt) p t s = Ret (res, s') ∧ stale_inv s' ∧
    (∀ q, tracked (vol s) (files s) q → tracked (vol s') (files s') q) ∧
    (is_Some res → ∃ gs', op_inv s' gs' ∧ pieces s' ∧ clusters (disp_of (vol s') p) = c ∧
       if decide (t = rlcn r) then gap_after (vol s') gs' r0 true
       else widened gs' r0 (Region (rlcn r) (rlength r + c)) true).
Proof.
  intros c Hinv Hpc (E0 & H0 & Hl & HN & Hb & Hr) Hin Hat Ht Hcase.
  pose proof (proj2 (proj2 Hinv) p Hin) as Hp. pose proof (proj2 (proj1 Hinv)) as Hfree.
  assert (Hc : 0 < c < MAXULONG32 - 10).
  { pose proof Hp as (_ & f & _ & _ & _ & _ & Hne). by apply (clusters_range N bfuel dfuel path). }
  pose proof (piece_behind (vol s) p (rlcn r) (rlength r) (Hpc p Hin) ltac:(lia)
    (fun i Hi => Hfree i (Hr i Hi)) Hat) as Hpiece. fold c in Hpiece.
  assert (Hend : 0 ≤ rlcn r + rlength r + c - 1 < N) by (apply (blocks_range (vol s) p), Hpiece; lia).
  split; [done|].
  destruct (move_behind s gs p t Hinv Hpc Hp Ht) as (res & s' & E & Hst & Htr & Hres).
  exists res, s'. split_and!; [done..|]. intros Hsome. fold c in Hres.
  destruct (Hres Hsome) as (gs' & Hinv' & Hpc' & Hcl & Hused & Hcov). exists gs'. split_and!; [done..|].
  assert (Hnew : ∀ i, rlcn r ≤ i < rlcn r + rlength r + c → ¬ t ≤ i < t + c → covers gs'.*2 i).
  { intros i Hi. apply Hcov.
    destruct (decide (i < rlcn r + rlength r)); [left; apply Hr; lia | right; apply Hpiece; lia]. }
  case_decide as Heq.
  - exists (rlcn r + c), (rlength r). split_and!; [lia.. | |]; intros i Hi; [apply Hused; lia | apply Hnew; lia].
  - unfold widened. cbn [rlcn rlength]. split_and!; [lia.. |]. intros i Hi. apply Hnew; [lia|].
    intros Hti. destruct (decide (i < rlcn r + rlength r)); [lia|].
    assert (Hu : free (vol s) i = false) by (apply (vl_used _ (path p)), Hpiece; lia).
    rewrite (Hfree i (Ht i Hti)) in Hu. done.
Qed.

(** Where the target starts; it is free, and it has room for the file. *)
Lemma target_lcn s gs r c t :
  op_inv s gs → (∀ i, rlcn r ≤ i < rlcn r + rlength r → covers gs.*2 i) →
  match t : unit + loc with
  | inl _ => c ≤ rlength r
  | inr q => ∃ d, (q, d) ∈ gs ∧ rlcn r < rlcn d ∧ c ≤ rlength d
  end →
  ∃ l, (match t with inl _ => mret (rlcn r) | inr p => d ← region_at (Some p); mret (rlcn d) end) s =
      Ret (Some l, s) ∧ (∀ i, l ≤ i < l + c → covers gs.*2 i) ∧
    match t with
    | inl _ => l = rlcn r ∧ c ≤ rlength r
    | inr _ => rlcn r + rlength r ≤ l ∧ rlcn r < l
    end.
Proof.
  intros [[Hok _] _] Hr Ht. destruct t as [[]|q].
  - exists (rlcn r). split_and!; [done | | done..]. intros i Hi. apply Hr. lia.
  - destruct Ht as (d & Hd & Hlt & Hc). exists (rlcn d). split_and!.
    + by pstep (region_at_run _ _ _ _ _ Hok Hd).
    + intros i Hi. destruct (gap_facts N 1 (le_n 1) _ _ gs q d Hok Hd) as (_ & _ & _ & Hcov). apply Hcov. lia.
    + by apply (gap_apart _ _ gs q d (rlcn r) (rlength r) Hok Hd).
    + done.
Qed.

(** A round: an exception, the end of the loop, or a gap that has grown and
    another round; it is the last one when the gap itself was the target. *)
Lemma widen_round_run o st s gs r0 b p :
  0 ≤ maxSize o < 2 ^ 64 → op_inv s gs → pieces s → widened gs r0 (w_r st) b →
  0 ≤ w_moved st < 2 ^ 64 - 1 → 0 ≤ w_movedlen st < maxSize o / 2 →
  p ∈ (buckets_ (op_fe s)).*2 → blocks_have (blocks_of (vol s) p) (rlcn (w_r st) + rlength (w_r st)) →
  ∃ res s', widen_round bfuel dfuel mfuel DebugBreak (Ret tt) o st p s = Ret (res, s') ∧
    (∀ q, tracked (vol s) (files s) q → tracked (vol s') (files s') q) ∧
    match res with
    | None => stale_inv s'
    | Some None => s' = s
    | Some (Some st') => ∃ gs', op_inv s' gs' ∧ pieces s' ∧ w_moved st' = w_moved st + 1 ∧ 0 ≤ w_movedlen st' ∧
        (widened gs' r0 (w_r st') true ∨ gap_after (vol s') gs' r0 true ∧ maxSize o / 2 ≤ w_movedlen st')
    end.
Proof.
  intros Ho Hinv Hpc Hwd Hm Hml Hin Hat. pose proof vl_size as [HN _].
  pose proof (proj2 (proj2 Hinv) p Hin) as Hp. pose proof Hp as (Hall & fi & Efi & _ & _ & Hcl & Hne).
  unfold widen_round. pstep (file_at_run s p fi Efi). rewrite Hcl.
  destruct (clusters_range N bfuel dfuel path (vol s) p Hne) as [Hc1 Hc2].
  set (c := clusters (disp_of (vol s) p)) in *.
  destruct (widen_target_run o s gs (w_r st) c Hinv ltac:(lia)) as (t & Et & Ht).
  pstep Et. destruct t as [t|]; [|by exists (Some None), s].
  pose proof Hwd as (E0 & H0 & Hl & HNr & Hb & Hr).
  destruct (target_lcn s gs (w_r st) c t Hinv Hr) as (l & El & Hcov & Hl'); [destruct t; [apply Ht | exact Ht]|].
  pstep El.
  destruct (widen_move s gs r0 (w_r st) b p l Hinv Hpc Hwd Hin Hat Hcov) as
    (_ & res & s' & Em & Hst & Htr & Hres); [destruct t; [by left | right; lia] |].
  destruct res as [[]|]; [|pfail Em; by exists None, s'].
  destruct (Hres ltac:(by eexists)) as (gs' & Hinv' & Hpc' & Hcl' & Hafter).
  pstep Em. destruct (Htr p Hp) as (_ & fi' & Efi' & _ & _ & Hclf & _).
  pstep (file_at_run s' p fi' Efi'). rewrite Hclf, Hcl'. fold c.
  pose proof (Z.mul_div_le (maxSize o) 2 ltac:(lia)). unfold MAXULONG32 in Hc1.
  rewrite !(u64_small (_ + _)) by lia. eexists (Some (Some _)), s'. split; [reflexivity|]. split; [done|].
  exists gs'. cbn [w_moved w_movedlen w_r]. split_and!; [done..|lia|]. destruct t as [[]|q].
  - right. rewrite decide_True in Hafter by apply Hl'. split; [done|]. pose proof (proj1 Ht). lia.
  - left. by rewrite decide_False in Hafter by lia.
Qed.

(** What is left when the loop has ended, with its counters or with an
    exception. *)
Definition widen_post r0 s (res : option widen_state) s' : Prop :=
  (∀ q, tracked (vol s) (files s) q → tracked (vol s') (files s') q) ∧
  match res with
  | None => stale_inv s'
  | Some st => ∃ gs, op_inv s' gs ∧ gap_after (vol s') gs r0 (0 <? w_moved st)
  end.

Lemma widen_post_same r0 s gs st :
  op_inv s gs → widened gs r0 (w_r st) (0 <? w_moved st) → widen_post r0 s (Some st) s.
Proof. intros Hinv Hw. split; [done|]. exists gs. split; [done|]. by apply (widened_gap _ _ _ (w_r st)). Qed.

Lemma widen_post_trans r0 s s1 res s' :
  (∀ q, tracked (vol s) (files s) q → tracked (vol s1) (files s1) q) →
  widen_post r0 s1 res s' → widen_post r0 s res s'.
Proof. intros Ht [Ht' Hres]. split; [auto | done]. Qed.

(** The end of a round that did not move anything. *)
Lemma widen_stay r0 s s1 gs st (m : prog W widen_state) :
  op_inv s1 gs → widened gs r0 (w_r st) (0 <? w_moved st) →
  (∀ q, tracked (vol s) (files s) q → tracked (vol s1) (files s1) q) → m s1 = Ret (Some st, s1) →
  ∃ res s', m s1 = Ret (res, s') ∧ widen_post r0 s res s'.
Proof.
  intros Hinv Hw Ht E. exists (Some st), s1. split; [done|].
  apply (widen_post_trans _ _ s1); [done | by eapply widen_post_same].
Qed.

Lemma widen_loop_run n o k r0 : 0 ≤ maxSize o < 2 ^ 64 → k < 2 ^ 64 → ∀ st s gs,
  op_inv s gs → pieces s → widened gs r0 (w_r st) (0 <? w_moved st) →
  0 ≤ w_moved st ≤ k → 0 ≤ w_movedlen st → k < w_moved st + Z.of_nat n →
  ∃ res s', widen_loop bfuel dfuel mfuel DebugBreak (Ret tt) n o k st s = Ret (res, s') ∧ widen_post r0 s res s'.
Proof.
  intros Ho Hk. induction n as [|n IH]; intros st s gs Hinv Hpc Hwd Hm Hml Hn; [lia|].
  cbn [widen_loop]. destruct (negb (widen o)); [by eapply widen_stay|].
  destruct (poll s gs Hinv) as (b & s1 & E1 & Hinv1 & Ef1 & Ee1 & Hlay1 & _).
  apply (pieces_same s s1 Ee1 Hlay1) in Hpc.
  assert (Ht1 : ∀ q, tracked (vol s) (files s) q → tracked (vol s1) (files s1) q).
  { intros q. rewrite Ef1. by apply tracked_layout. }
  pstep E1. destruct b; [by eapply widen_stay|].
  destruct (_ || _) eqn:Eg; [by eapply widen_stay|].
  apply orb_false_iff in Eg as [Eg1 Eg2]. rewrite negb_false_iff, Z.ltb_lt in Eg1, Eg2.
  pose proof Hwd as (_ & H0 & Hl & HNr & _). pose proof vl_size as [HN _].
  rewrite u64_small by lia.
  destruct (find_at_run s1 gs (rlcn (w_r st) + rlength (w_r st)) Hinv1) as (f & e & Ef & Hok & Hbk & Hf).
  pstep Ef. cbn beta iota. pget. set (s2 := Op _ _ _ e _ _ _ _ _ _).
  assert (Hinv2 : op_inv s2 gs).
  { split; [apply Hinv1|]. split; [done|]. cbn. rewrite Hbk. apply Hinv1. }
  assert (Hpc2 : pieces s2) by (unfold pieces; cbn; rewrite Hbk; exact Hpc).
  destruct f as [p|]; [|by eapply (widen_stay _ _ s2)].
  destruct (Hf p eq_refl) as (Hin & _ & Hat). rewrite <- Hbk in Hin.
  destruct (widen_round_run o st s2 gs r0 _ p Ho Hinv2 Hpc2 Hwd) as (res & s3 & E3 & Ht3 & Hres); [lia..|done|done|].
  assert (Ht : ∀ q, tracked (vol s) (files s) q → tracked (vol s3) (files s3) q) by (intros q ?; by apply Ht3, Ht1).
  destruct res as [[st'|]|]; [| |pfail E3; exists None, s3; by split].
  - pstep E3. destruct Hres as (gs' & Hinv3 & Hpc3 & Em & Hml' & Hcase).
    assert (Epos : (0 <? w_moved st') = true) by (apply Z.ltb_lt; lia).
    destruct Hcase as [Hwd'|[Hgap Hover]].
    + destruct (IH st' s3 gs' Hinv3 Hpc3) as (res & s4 & E4 & Hpost); [by rewrite Epos | lia..|].
      exists res, s4. split; [exact E4 | by apply (widen_post_trans _ _ s3)].
    + destruct n as [|n]; [lia|]. destruct (widen_loop_over n o k st' s3 gs' Hinv3 Hover) as
        (s4 & E4 & Hinv4 & Hfr4 & Ht4).
      exists (Some st'), s4. split; [exact E4|]. split; [auto|]. exists gs'. unfold gap_after. by rewrite Epos, Hfr4.
  - subst s3. pstep E3. by eapply (widen_stay _ _ s2).
Qed.

Lemma widen_behind_run o k s gs q r :
  op_inv s gs → pieces s → (q, r) ∈ gs → 0 ≤ maxSize o < 2 ^ 64 → 0 ≤ k < 2 ^ 64 →
  ∃ b s', widen_behind bfuel dfuel mfuel DebugBreak (Ret tt) o (Some q) k s = Ret (Some b, s') ∧ stale_inv s' ∧
    (∀ p, tracked (vol s) (files s) p → tracked (vol s') (files s') p) ∧
    (b = true → ∃ gs', op_inv s' gs' ∧ gap_after (vol s') gs' r true).
Proof.
  intros Hinv Hpc Hq Ho Hk. pose proof (proj1 (proj1 Hinv)) as Hok.
  destruct (gap_facts N 1 (le_n 1) _ _ gs q r Hok Hq) as (H0 & Hl & HN & Hcov).
  unfold widen_behind. pstep (region_at_run N s gs q r Hok Hq).
  destruct (widen_loop_run (S (Z.to_nat k)) o k r Ho ltac:(lia) (Widen r 0 0) s gs Hinv Hpc) as
    (res & s' & E & Ht & Hres); cbn [w_r w_moved w_movedlen]; [by split_and!; [..|lia|lia|] | lia..|].
  destruct res as [st|].
  - destruct Hres as (gs' & Hinv' & Hgap). exists (0 <? w_moved st), s'. split_and!; [| by eapply op_inv_stale | done |].
    + unfold catch. by pstep E.
    + intros Eb. exists gs'. by rewrite Eb in Hgap.
  - exists false, s'. split_and!; [| done..]. unfold catch. by pfail E.
Qed.
End widen.

(** C6: [widen_behind] on a gap of a volume whose files lie in one piece each and
    where a file that is moved as a whole ends up in its target: it returns, no
    exception leaves it, and both enumerations keep their form. When it returns true
    the gaps are free clusters of the volume, and the gap it was called for has
    grown, or files fill it from its start on and it lies behind them,
    no smaller than before. *)
Theorem widen_behind_correct {W : Type} `{!Volume W} `{!Allocator (node winx_volume_region)}
    N bfuel dfuel mfuel DebugBreak `{!VolumeLaws W N bfuel dfuel} all path o k (s : Operation W) gs q r :
  (∀ h : gmap loc (node winx_volume_region), is_Some (alloc h)) →
  (∀ p p', p ∈ all → p' ∈ all → path p = path p' → p = p') → (1 ≤ mfuel)%nat →
  moves_exactly N bfuel dfuel → op_inv N bfuel dfuel all path s gs → pieces N bfuel dfuel path s →
  (q, r) ∈ gs → 0 ≤ maxSize o < 2 ^ 64 → 0 ≤ k < 2 ^ 64 →
  ∃ b s', widen_behind bfuel dfuel mfuel DebugBreak (Ret tt) o (Some q) k s = Ret (Some b, s') ∧
    stale_inv N bfuel dfuel all path s' ∧
    (∀ p, tracked N bfuel dfuel all path (vol s) (files s) p →
       tracked N bfuel dfuel all path (vol s') (files s') p) ∧
    (b = true → ∃ gs', op_inv N bfuel dfuel all path s' gs' ∧ gap_after N bfuel dfuel (vol s') gs' r true).
Proof. intros Ha Hinj Hm Hx. by apply widen_behind_run. Qed.

(** ** A move that fails

    On the volume of [OpSafe] the file behind the gap [2, 4) cannot be moved: its
    cluster 4 is left in the gaps although it is in use, and the gaps are not
    read again. *)
Definition widening : Options := Opts 100 false true true true.

Example widen_failure_stale :
  let A := bump_allocator (node winx_volume_region) in
  match widen_behind 1 3 1 (Ret tt) (Ret tt) widening (Some 1%positive) 3 demo_op with
  | Ret (Some false, s') =>
      (∃ nd, gheap s' !! 1%positive = Some nd ∧ data nd = Region 2 3) ∧
      regions_ (op_ge s') !! O = Some (2, 1%positive) ∧ free (vol s') 4 = false
  | _ => False
  end.
Proof. vm_compute. split; [by eexists | done]. Qed.

(** ** A volume that grants every move

    Eight clusters: the first one belongs to the file system, one of the
    others to the file [f], wherever it is moved. *)
Definition granting_world : Type := Z.

Definition at_cluster (w : granting_world) : Z := 1 + w mod 7.

Definition granting_layout (w : granting_world) (p : option str) : list (Z * Z) :=
  if decide (p = Some (text "f")) then [(1, at_cluster w)] else [].

Definition granting_free (w : granting_world) (c : Z) : bool := (1 <=? c) && (c <=? 7) && negb (c =? at_cluster w).

Definition granting_move (w : granting_world) (f : winx_file_info) (vcn num lcn : Z) : Z * granting_world :=
  if bool_decide (fi_path f = Some (text "f")) && (vcn =? 0) && (num =? 1) && granting_free w lcn
  then (0, lcn - 1) else (0xC000000D, w).

#[export] Instance granting_volume : Volume granting_world := {|
  v_opens _ _ := true;
  v_move := granting_move;
  v_retrieve w f := Some (fun v =>
    let map := granting_layout w (fi_path f) in
    (if decide (length (runs_after v map) ≤ 1)%nat then STATUS_SUCCESS else STATUS_BUFFER_OVERFLOW,
     RetrievalDescriptor (Z.of_nat (Nat.min 1 (length (runs_after v map)))) v
       (take 1 (runs_after v map))));
  v_vopen _ := true;
  v_bitmap w nxt :=
    (STATUS_SUCCESS, {| StartLcn := nxt; ClustersToEndOfVol := 8 - nxt; Map := [1 + 2 ^ at_cluster w] |});
  v_terminated w := (false, w);
|}.

Lemma at_cluster_range w : 1 ≤ at_cluster w ≤ 7.
Proof. unfold at_cluster. pose proof (Z.mod_pos_bound w 7). lia. Qed.

Lemma at_cluster_cases w : at_cluster w ∈ seqZ 1 7.
Proof. apply elem_of_seqZ. pose proof (at_cluster_range w). lia. Qed.

Lemma granting_blocks w p :
  runs_blocks (granting_layout w p) = if decide (p = Some (text "f")) then [Block 0 (at_cluster w) 1] else [].
Proof.
  pose proof (at_cluster_range w). unfold granting_layout. case_decide; [|done].
  unfold runs_blocks, runs_disp. cbn [map_disp]. rewrite (proj2 (Z.eqb_neq _ _)) by (unfold LLINVALID; lia). reflexivity.
Qed.

Lemma granting_clusters w : clusters (runs_disp (granting_layout w (Some (text "f")))) = 1.
Proof.
  pose proof (at_cluster_range w). unfold granting_layout. rewrite decide_True by done.
  unfold runs_disp. cbn [map_disp]. by rewrite (proj2 (Z.eqb_neq _ _)) by (unfold LLINVALID; lia).
Qed.

Lemma granting_have w p c :
  blocks_have (runs_blocks (granting_layout w p)) c ↔ p = Some (text "f") ∧ c = at_cluster w.
Proof.
  rewrite granting_blocks. unfold blocks_have, block_has.
  case_decide; rewrite ?Exists_cons, ?Exists_nil; simpl; [|tauto]. split; [intros [?|[]]; split; [done|lia]|].
  intros [_ ->]. left. lia.
Qed.

Lemma granting_bitmap w : bitmap_service 8 (granting_free w) (v_bitmap w).
Proof.
  intros nxt Hn Hm. assert (nxt = 0) as -> by (apply Z.mod_divide in Hm as [k ->]; lia).
  simpl. split_and!; [done.. |]. unfold portion_size. simpl. intros i Hi. exists (1 + 2 ^ at_cluster w).
  assert (Hs : i ∈ seqZ 0 8) by (apply elem_of_seqZ; lia).
  pose proof (at_cluster_cases w) as Ha. unfold granting_free.
  apply list_elem_of_In in Hs, Ha. vm_compute (seqZ 0 8) in Hs. vm_compute (seqZ 1 7) in Ha.
  repeat destruct Ha as [Ha|Ha]; try rewrite <- Ha; repeat destruct Hs as [Hs|Hs]; try rewrite <- Hs;
    try (split; vm_compute; done); try done.
Qed.

Lemma granting_have_f w c :
  blocks_have (runs_blocks (granting_layout w (Some (text "f")))) c ↔ c = at_cluster w.
Proof. rewrite granting_have. tauto. Qed.

Lemma granting_moved w f vcn num lcn :
  granting_move w f vcn num lcn = (0xC000000D, w) ∨
  fi_path f = Some (text "f") ∧ num = 1 ∧ at_cluster (lcn - 1) = lcn ∧ granting_free w lcn = true ∧
    granting_move w f vcn num lcn = (0, lcn - 1).
Proof.
  unfold granting_move. destruct (_ && _) eqn:E; [|by left]. right.
  rewrite !andb_true_iff, bool_decide_eq_true in E. destruct E as (((Ef & _) & En) & El).
  split_and!; [done | lia | | done | done]. unfold granting_free in El. unfold at_cluster.
  rewrite Z.mod_small by lia. lia.
Qed.

#[export, program] Instance granting_laws : VolumeLaws granting_world 8 1 2 := {|
  free := granting_free;
  layout := granting_layout;
|}.
Next Obligation. split; [lia | vm_compute; done]. Qed.
Next Obligation. done. Qed.
Next Obligation. apply granting_bitmap. Qed.
Next Obligation.
  intros w f. eexists _, 1%nat. split_and!; [reflexivity | lia.. | by intros v | |];
    unfold granting_layout; case_decide; simpl; lia.
Qed.
Next Obligation.
  intros w p. pose proof (at_cluster_range w). rewrite granting_blocks. case_decide; repeat constructor; simpl; lia.
Qed.
Next Obligation.
  intros w p. rewrite granting_blocks. case_decide; rewrite ?disjoint_blocks_iff; split_and?;
    try (by intros i ? ? ? ?). intros c. unfold blocks_have. rewrite Exists_nil. tauto.
Qed.
Next Obligation.
  intros w p c [_ ->]%granting_have. unfold granting_free. by rewrite Z.eqb_refl, andb_false_r.
Qed.
Next Obligation. intros w p q c Hne [-> _]%granting_have [-> _]%granting_have. done. Qed.
Next Obligation.
  intros w p. rewrite granting_blocks. case_decide as Hp; [|done]. subst p. by rewrite granting_clusters.
Qed.
Next Obligation.
  intros w f vcn num lcn status w'. simpl. destruct (granting_moved w f vcn num lcn) as [->|(Hp & -> & Ha & Hf & ->)];
    intros [= <- <-].
  - split_and!; [done..| | done]. intros c. rewrite granting_have. unfold granting_free. split.
    + intros ?. split; [by left|]. intros [_ ->]. rewrite Z.eqb_refl, andb_false_r in *. done.
    + tauto.
  - rewrite Hp. split_and!.
    + intros q Hq. unfold granting_layout. by rewrite !decide_False.
    + by rewrite !granting_clusters.
    + by rewrite !granting_blocks.
    + intros c. rewrite !granting_have_f, Ha. unfold granting_free in *. rewrite Ha.
      pose proof (at_cluster_range w). lia.
    + intros _ c. rewrite !granting_have_f, Ha. lia.
Qed.
Next Obligation. done. Qed.

Lemma granting_moves_exactly : moves_exactly (W := granting_world) 8 1 2.
Proof.
  intros w f lcn status w'. simpl.
  destruct (granting_moved w f 0 (clusters (runs_disp (granting_layout w (fi_path f)))) lcn)
    as [->|(Hp & _ & Ha & _ & ->)]; intros [= <- <-]; [done|].
  intros _ c. rewrite Hp, granting_clusters, granting_have_f, Ha. lia.
Qed.

(** The file lies in cluster 4, between two gaps of three clusters. *)
Definition granting_gaps : gnodes := [(1%positive, Region 1 3); (2%positive, Region 5 3)].

Definition granting_op : Operation granting_world :=
  Op (<[1%positive := Node (Some 2%positive) (Some 2%positive) (Region 1 3)]>
      (<[2%positive := Node (Some 1%positive) (Some 1%positive) (Region 5 3)]> ∅))
     (Gaps (Some 1%positive) (by_lcn granting_gaps) [(3, 1%positive); (3, 2%positive)])
     {[ 1%positive := FileInfo (text "f") (Some (text "f")) 0 (Disp 1 1 [Block 0 4 1]) 0 0 0 0 0 0 ]}
     (Files [(1, 1%positive)] [] [] [] 0 0) [] 0 0 None false 3.

Definition granting_path (p : loc) : option str := Some (text "f").

Lemma granting_tracked : tracked 8 1 2 [1%positive] granting_path (3 : granting_world) (files granting_op) 1%positive.
Proof. split; [by left|]. eexists. split_and!; [reflexivity | reflexivity | reflexivity.. | done]. Qed.

Lemma granting_inv : op_inv 8 1 2 [1%positive] granting_path granting_op granting_gaps.
Proof.
  split; split.
  - split_and!.
    + exists granting_gaps. split; [|done]. split; [done|]. split; [|by repeat split].
      apply (bool_decide_unpack _). by vm_compute.
    + apply (bool_decide_unpack _). by vm_compute.
    + done.
    + apply (bool_decide_unpack _). by vm_compute.
    + repeat constructor; simpl; lia.
    + split; repeat constructor; unfold rend; simpl; lia.
  - intros c (r & Hr & ?). simpl in *. set_unfold. unfold granting_free, rend in *.
    change (at_cluster 3) with 4. destruct Hr as [->|[->|[]]]; simpl in *; lia.
  - split_and!; [split | | |by left].
    + repeat constructor.
    + repeat constructor; (eexists; split_and!; [vm_compute; reflexivity | done | done | simpl; lia | simpl; lia]).
    + apply (bool_decide_unpack _). by vm_compute.
    + intros p q c Hp Hq _ _. simpl in *. set_unfold. naive_solver.
  - intros p Hp. simpl in Hp. set_unfold. destruct Hp as [->|[]]. apply granting_tracked.
Qed.

Lemma granting_pieces : pieces 8 1 2 granting_path granting_op.
Proof.
  intros p _. exists 4. intros c. unfold blocks_of, disp_of, granting_path.
  change (layout (vol granting_op) (Some (text "f"))) with (granting_layout 3 (Some (text "f"))).
  rewrite granting_have_f, granting_clusters. change (at_cluster 3) with 4. lia.
Qed.

(** The file is moved one cluster at a time, as often as the limit allows. *)
Example widen_moves_again :
  let A := bump_allocator (node winx_volume_region) in
  match widen_behind 1 2 1 (Ret tt) (Ret tt) widening (Some 1%positive) 3 granting_op with
  | Ret (Some true, s') => moved s' = 3 ∧ at_cluster (vol s') = 7 ∧ (regions_ (op_ge s')).*1 = [1]
  | _ => False
  end.
Proof. vm_compute. done. Qed.

Lemma widen_behind_correct_witness :
  let A := bump_allocator (node winx_volume_region) in
  ∃ b s', widen_behind 1 2 1 (Ret tt) (Ret tt) widening (Some 1%positive) 3 granting_op = Ret (Some b, s') ∧
    stale_inv 8 1 2 [1%positive] granting_path s' ∧
    (∀ p, tracked 8 1 2 [1%positive] granting_path (vol granting_op) (files granting_op) p →
       tracked 8 1 2 [1%positive] granting_path (vol s') (files s') p) ∧
    (b = true → ∃ gs', op_inv 8 1 2 [1%positive] granting_path s' gs' ∧
       gap_after 8 1 2 (vol s') gs' (Region 1 3) true).
Proof.
  refine (widen_behind_correct 8 1 2 1 (Ret tt) [1%positive] granting_path widening 3 granting_op granting_gaps
    1%positive (Region 1 3) demo_alloc_total _ (le_n 1) granting_moves_exactly granting_inv granting_pieces _ _ _).
  - intros p q Hp Hq _. set_unfold. naive_solver.
  - by left.
  - done.
  - done.
Defined.
