(* ===== verification/PathVar.v ===== *)
(** * util.cpp: the program's directory in the variable PATH

    [registerPath] appends the directory of the program to the value PATH of
    the system environment, [unregisterPath] takes it out again.  The registry
    is the class [Environment]; an exception is a message, which both functions
    catch and print. *)
From S2P Require Import Prelude CString.
From stdpp Require Import prelude strings.
Open Scope Z_scope.

(** The result of RegGetValue. *)
Inductive get_result : Type :=
| Got (val : str)
| MoreData
| Failed.

Class Environment (W : Type) := {
  (** [getModuleDir], or the message of its exception *)
  e_module_dir : W → string + str;
  (** does RegCreateKeyEx succeed? *)
  e_open : W → bool;
  (** RegGetValue of PATH, and RegSetValueEx *)
  e_get : W → get_result;
  e_set : W → str → bool * W;
}.

Definition SEMICOLON : Z := 0x3B.

(** ** std::wstring *)

(** [s.find(sub)]: the first occurrence; [None] is [npos]. *)
Fixpoint find (sub s : str) : option nat :=
  if bool_decide (sub `prefix_of` s) then Some O
  else match s with
       | [] => None
       | _ :: s => S <$> find sub s
       end.

(** [s.replace(pos, n, L"")] *)
Definition cut (pos n : nat) (s : str) : str := take pos s ++ drop (pos + n) s.

Section path.
Context {W : Type} `{!Environment W}.
(** [::towupper] *)
Context (towupper : Z → Z).

Definition toupper (s : str) : str := towupper <$> s.

(** A function with its handler: the message of the exception that was caught
    and printed, if any, and the world it leaves. *)
Definition attempt : Type := W → option string * W.

Definition throw (msg : string) : attempt := fun w => (Some msg, w).

Definition set_value (str : list Z) (msg : string) : attempt := fun w =>
  let '(ok, w') := e_set w str in (if (ok : bool) then None else Some msg, w').

Definition registerPath : attempt := fun w =>
  match e_module_dir w with
  | inl msg => throw msg w
  | inr path =>
      if negb (e_open w) then throw "Failed to open or create environment key"%string w else
      match e_get w with
      | MoreData => throw "Buffer too small (unhandled)"%string w
      | Failed => set_value path "Failed to create value" w
      | Got val =>
          let str := cstr val in
          let upath := toupper path in
          let ustr := toupper str in
          match find upath ustr with
          | Some _ => throw "Already present in PATH"%string w
          | None =>
              let str := match str with [] => [] | _ => str ++ [SEMICOLON] end ++ path in
              set_value str "Failed to set value" w
          end
      end
  end.

(** The search of [unregisterPath]: the directory with a semicolon behind it,
    else with one in front of it, else alone; its place and the length of what
    goes. *)
Definition find_entry (path str : list Z) : option (nat * nat) :=
  let ustr := toupper str in
  match find (toupper (path ++ [SEMICOLON])) ustr with
  | Some pos => Some (pos, S (length path))
  | None =>
      match find (SEMICOLON :: toupper path) ustr with
      | Some pos => Some (pos, S (length path))
      | None => (fun pos => (pos, length path)) <$> find (toupper path) ustr
      end
  end.

Definition unregisterPath : attempt := fun w =>
  match e_module_dir w with
  | inl msg => throw msg w
  | inr path =>
      if negb (e_open w) then throw "Failed to open or create environment key"%string w else
      match e_get w with
      | MoreData => throw "Buffer too small (unhandled)"%string w
      | Failed => throw "No PATH key"%string w
      | Got val =>
          let str := cstr val in
          match find_entry path str with
          | None => throw "Not present in PATH"%string w
          | Some (pos, n) => set_value (cut pos n str) "Failed to set value" w
          end
      end
  end.

End path.

(** ** Searching *)
Lemma prefix_drop (sub s : str) i : sub `prefix_of` drop i s → (i + length sub ≤ length s)%nat ∨ sub = [].
Proof.
  intros [t E]. apply (f_equal length) in E. rewrite length_app, length_drop in E.
  destruct sub; [by right | left; simpl in *; lia].
Qed.

Lemma find_some sub s i :
  find sub s = Some i ↔ sub `prefix_of` drop i s ∧ (i ≤ length s)%nat ∧
    ∀ j, (j < i)%nat → ¬ sub `prefix_of` drop j s.
Proof.
  revert i. induction s as [|c s IH]; intros i; simpl; (case_bool_decide as Hp; [split|]).
  - intros [= <-]. split_and!; [done | lia | lia].
  - intros (_ & Hi & _). by destruct i; [|simpl in Hi; lia].
  - split; [done|]. intros (H & Hi & _). by destruct i; [|simpl in Hi; lia].
  - intros [= <-]. split_and!; [done | lia | lia].
  - intros (_ & _ & Hm). destruct i; [done|]. by destruct (Hm 0%nat ltac:(lia)).
  - destruct i as [|i].
    + split; [by intros (? & _ & ?)%fmap_Some | by intros [? _]].
    + rewrite fmap_Some. split.
      * intros (j & Hj & [= <-]). apply IH in Hj as (H & Hi & Hm). split_and!; [done | lia |].
        intros [|k] Hk; [done|]. apply Hm. lia.
      * intros (H & Hi & Hm). exists i. split; [|done]. apply IH. split_and!; [done | lia |].
        intros j Hj. apply (Hm (S j)). lia.
Qed.

Lemma find_none sub s : find sub s = None ↔ ∀ j, (j ≤ length s)%nat → ¬ sub `prefix_of` drop j s.
Proof.
  split.
  - revert sub. induction s as [|c s IH]; intros sub; simpl; (case_bool_decide as Hp; [done|]).
    + intros _ [|j] Hj; [done | simpl in *; lia].
    + intros E [|j] Hj; [done|]. apply IH; [|lia]. by destruct (find sub s).
  - intros H. destruct (find sub s) as [i|] eqn:E; [|done]. apply find_some in E as (H' & Hi & _).
    by destruct (H i Hi).
Qed.

Lemma prefix_app_cut {A} (sub a b : list A) :
  sub `prefix_of` a ++ b → (length sub ≤ length a)%nat → sub `prefix_of` a.
Proof.
  intros [t E] Hl. exists (drop (length sub) a). rewrite <- (take_drop (length sub) a) at 1. f_equal.
  apply (f_equal (take (length sub))) in E. rewrite take_app_le, take_app_length in E; done.
Qed.

(** An occurrence of a string without a semicolon lies on one side of it. *)
Lemma one_side sub a b j :
  SEMICOLON ∉ sub → sub ≠ [] → sub `prefix_of` drop j (a ++ SEMICOLON :: b) →
  sub `prefix_of` drop j a ∨ (length a < j)%nat.
Proof.
  intros Hn Hne Hp. destruct (decide (length a < j)%nat) as [|Hj]; [by right|]. left.
  rewrite drop_app_le in Hp by lia. eapply prefix_app_cut; [exact Hp|].
  rewrite length_drop. destruct (decide (length sub ≤ length a - j)%nat) as [|Hl]; [done|]. exfalso. apply Hn.
  destruct Hp as [t E]. apply (f_equal (lookup (length a - j)%nat)) in E.
  rewrite lookup_app_r in E by (rewrite length_drop; lia). rewrite length_drop, Nat.sub_diag in E. simpl in E.
  rewrite lookup_app_l in E by lia. by eapply list_elem_of_lookup_2.
Qed.

(** ** What the registry does *)
Class EnvironmentLaws (W : Type) `{!Environment W} := {
  el_set w s w' : e_set w s = (true, w') → Forall (fun c => c ≠ 0) s →
    (∃ val, e_get w' = Got val ∧ cstr val = s) ∧
    e_module_dir w' = e_module_dir w ∧ e_open w' = e_open w;
}.

Section theory.
Context {W : Type} `{!Environment W, !EnvironmentLaws W}.
Context (towupper : Z → Z) (towupper_semicolon : towupper SEMICOLON = SEMICOLON).
Abbreviation upper := (toupper towupper).

Definition value (w : W) : option str :=
  match e_get w with Got val => Some (cstr val) | _ => None end.

Lemma upper_length s : length (upper s) = length s.
Proof. apply length_fmap. Qed.

(** The entry that was appended is found where it is. *)
Lemma find_entry_appended path str :
  path ≠ [] → SEMICOLON ∉ upper path → find (upper path) (upper str) = None →
  find_entry towupper path (str ++ SEMICOLON :: path) = Some (length str, S (length path)).
Proof.
  intros Hne Hns Hno. rewrite find_none in Hno. unfold find_entry.
  assert (Hup : upper (str ++ SEMICOLON :: path) = upper str ++ SEMICOLON :: upper path).
  { unfold toupper. by rewrite fmap_app, fmap_cons, towupper_semicolon. }
  assert (Hups : upper (path ++ [SEMICOLON]) = upper path ++ [SEMICOLON]).
  { unfold toupper. rewrite fmap_app. simpl. by rewrite towupper_semicolon. }
  assert (Hune : upper path ≠ []) by (by destruct path).
  (* the directory itself occurs behind the semicolon only *)
  assert (Hocc : ∀ j, upper path `prefix_of` drop j (upper str ++ SEMICOLON :: upper path) → (length str < j)%nat).
  { intros j Hj. destruct (one_side _ _ _ _ Hns Hune Hj) as [Hin|]; [|by rewrite upper_length in *].
    exfalso. destruct (decide (j ≤ length (upper str))%nat); [by eapply Hno|].
    rewrite drop_ge in Hin by lia. by apply prefix_nil_inv in Hin. }
  rewrite Hup, Hups. rewrite (proj2 (find_none _ _)).
  - rewrite (proj2 (find_some _ _ (length str))); [done|]. split_and!.
    + rewrite <- upper_length, drop_app_length. done.
    + rewrite length_app, upper_length. lia.
    + intros j Hj [t E]. assert (length str < S j)%nat; [|lia]. apply Hocc. exists t.
      replace (S j) with (j + 1)%nat by lia. rewrite <- drop_drop, E. done.
  - intros j _ Hp. assert (length str < j)%nat.
    { apply Hocc. etrans; [|exact Hp]. by eexists. }
    apply prefix_drop in Hp as [Hp|Hp]; [|by destruct (upper path)].
    rewrite !length_app in Hp. simpl in Hp. rewrite !upper_length in Hp. lia.
Qed.

Lemma find_entry_alone path :
  path ≠ [] → find_entry towupper path path = Some (0%nat, length path).
Proof.
  intros Hne. unfold find_entry.
  rewrite (proj2 (find_none (upper (path ++ [SEMICOLON])) _)), (proj2 (find_none (SEMICOLON :: _) _)).
  - rewrite (proj2 (find_some _ _ 0)); [done|]. rewrite drop_0. split_and!; [done | lia | lia].
  - intros j _ Hp. apply prefix_drop in Hp as [Hp|Hp]; [|done]. simpl in Hp. lia.
  - intros j _ Hp. apply prefix_drop in Hp as [Hp|Hp].
    + rewrite !upper_length, length_app in Hp. simpl in Hp. lia.
    + by destruct path.
Qed.

Definition appended (path str : list Z) : list Z :=
  match str with [] => [] | _ => str ++ [SEMICOLON] end ++ path.

Lemma cut_appended path str :
  path ≠ [] → SEMICOLON ∉ upper path → find (upper path) (upper str) = None →
  ∃ pos n, find_entry towupper path (appended path str) = Some (pos, n) ∧ cut pos n (appended path str) = str.
Proof.
  intros Hne Hns Hno. unfold appended, cut. destruct str as [|c str].
  - exists 0%nat, (length path). split; [by apply find_entry_alone|]. simpl. by rewrite drop_all.
  - exists (length (c :: str)), (S (length path)). rewrite <- app_assoc. split; [by apply find_entry_appended|].
    rewrite take_app_length, drop_ge, app_nil_r; [done|]. rewrite length_app. simpl. lia.
Qed.

(** C40: when PATH exists, the registry can be opened and written, and the
    directory of the program occurs nowhere in PATH, not even as a part of
    another entry, and holds no semicolon: registering the directory adds it at
    the end of PATH, and unregistering it then gives the old PATH back. *)
Theorem register_unregister w path str :
  (∀ w s, (e_set w s).1 = true) → e_open w = true → e_module_dir w = inr path →
  path ≠ [] → Forall (fun c => c ≠ 0) path → SEMICOLON ∉ upper path →
  value w = Some str → Forall (fun c => c ≠ 0) str → find (upper path) (upper str) = None →
  ∃ w1 w2, registerPath towupper w = (None, w1) ∧ value w1 = Some (appended path str) ∧
    unregisterPath towupper w1 = (None, w2) ∧ value w2 = Some str.
Proof.
  intros Hset Hopen Hdir Hne Hp Hns Hv Hs Hno. unfold value in Hv.
  destruct (e_get w) as [val| |] eqn:Eg; simplify_eq.
  destruct (e_set w (appended path (cstr val))) as [ok w1] eqn:E1.
  pose proof (Hset w (appended path (cstr val))) as Hok. rewrite E1 in Hok. simpl in Hok. subst ok.
  destruct (el_set _ _ _ E1) as ((val1 & Eg1 & Ev1) & Hd1 & Ho1).
  { unfold appended. destruct (cstr val); [done|]. rewrite !Forall_app. split_and!; [done | | done].
    by repeat constructor. }
  destruct (cut_appended path (cstr val) Hne Hns Hno) as (pos & n & Ef & Ec).
  destruct (e_set w1 (cstr val)) as [ok w2] eqn:E2.
  pose proof (Hset w1 (cstr val)) as Hok. rewrite E2 in Hok. simpl in Hok. subst ok.
  destruct (el_set _ _ _ E2 Hs) as ((val2 & Eg2 & Ev2) & _).
  exists w1, w2. unfold value. rewrite Eg1, Eg2, Ev1, Ev2. split_and!; [| done | | done].
  - unfold registerPath. rewrite Hdir, Hopen, Eg, Hno. unfold set_value. unfold appended in E1. by rewrite E1.
  - unfold unregisterPath. rewrite Hd1, Hdir, Ho1, Hopen, Eg1, Ev1, Ef, Ec. unfold set_value. by rewrite E2.
Qed.
End theory.

(** ** An environment

    The directory of the program and the value of PATH. *)
#[export] Instance demo_environment : Environment (str * option str) := {|
  e_module_dir w := inr w.1;
  e_open _ := true;
  e_get w := match w.2 with Some s => Got (s ++ [0]) | None => Failed end;
  e_set w s := (true, (w.1, Some s));
|}.

Lemma cstr_zero s : Forall (fun c => c ≠ 0) s → cstr (s ++ [0]) = s.
Proof. intros H. by apply (cstr_zeros s 1); [|lia]. Qed.

#[export, program] Instance demo_environment_laws : EnvironmentLaws (str * option str).
Next Obligation. intros w s w' [= <-] Hs. split_and!; [eexists; split; [done | by apply cstr_zero] | done | done]. Qed.

Definition ascii_upper (c : Z) : Z := if (97 <=? c) && (c <=? 122) then c - 32 else c.

Lemma register_unregister_witness :
  ∃ w1 w2, registerPath ascii_upper (text "C:\a", Some (text "C:\b;C:\Bin")) = (None, w1) ∧
    value w1 = Some (appended (text "C:\a") (text "C:\b;C:\Bin")) ∧
    unregisterPath ascii_upper w1 = (None, w2) ∧ value w2 = Some (text "C:\b;C:\Bin").
Proof.
  apply register_unregister; try done; try (apply (bool_decide_unpack _); vm_compute; exact I).
Defined.

(** The search does not mind where an entry ends: the directory of another
    program is cut in two. *)
Example unregister_substring :
  (unregisterPath ascii_upper (text "C:\a", Some (text "D:\;C:\ab"))).2.2 = Some (text "D:\b").
Proof. reflexivity. Qed.

(** For the same reason a directory whose name goes on is taken for the one that
    is to be registered. *)
Example register_substring :
  registerPath ascii_upper (text "C:\a", Some (text "C:\ab")) =
    (Some "Already present in PATH"%string, (text "C:\a", Some (text "C:\ab"))).
Proof. reflexivity. Qed.
