(* ===== verification/Console.v ===== *)
(** * util.cpp, util.hpp: the console and the version of the program

    The icons of the console window, the handler of control events and the
    version resource, over classes of the calls that they make.  Colours, the
    title and the streams only pass text to the console and are left out. *)
From S2P Require Import Prelude CString.
From stdpp Require Import prelude gmap strings.
Open Scope Z_scope.

(** ** Control events *)
Inductive ctrl_event : Type :=
| CTRL_C_EVENT
| CTRL_BREAK_EVENT
| CTRL_LOGOFF_EVENT
| CTRL_CLOSE_EVENT
| CTRL_SHUTDOWN_EVENT
| OTHER_EVENT (ctrlType : Z).

(** [HandlerRoutine]: whether the event is handled, and the flag. *)
Definition HandlerRoutine (ctrlType : ctrl_event) (gTerminated : Z) : bool * Z :=
  match ctrlType with
  | OTHER_EVENT _ => (false, gTerminated)
  | _ => (true, 1)
  end.

(** ** Icons *)
Definition ICON_SMALL : Z := 0.
Definition ICON_BIG : Z := 1.
Definition LR_DEFAULTSIZE : Z := 0x40.

(** Handles are numbers, 0 is NULL. *)
Class Win32Icons (W : Type) : Type := {
  GetConsoleWindow : W → Z;
  (** SM_CXSMICON. *)
  GetSystemMetrics : W → Z;
  (** The width, the height and the flags; the icon is a resource of the
      program. *)
  LoadImage : Z → Z → Z → W → Z * W;
  (** WM_SETICON: the window, the kind and the icon; the icon of before. *)
  SetIcon : Z → Z → Z → W → Z * W;
  DestroyIcon : Z → W → W;
}.

Record ConsoleIcon : Type := Icon {
  window_ : Z;
  iconSm_ : Z;
  iconLg_ : Z;
  oldIconSm_ : Z;
  oldIconLg_ : Z;
}.

Section icons.
Context {W : Type} `{!Win32Icons W}.
Implicit Types (w : W).

(** [if (icon) old = SendMessage(window_, WM_SETICON, kind, icon)] *)
Definition replace_icon (window kind icon : Z) w : Z * W :=
  if icon =? 0 then (0, w) else SetIcon window kind icon w.

Definition new_ConsoleIcon w : ConsoleIcon * W :=
  let window_ := GetConsoleWindow w in
  if window_ =? 0 then (Icon 0 0 0 0 0, w) else
  let '(iconLg_, w) := LoadImage 0 0 LR_DEFAULTSIZE w in
  let cxsmicon := GetSystemMetrics w in
  let '(iconSm_, w) := LoadImage cxsmicon cxsmicon 0 w in
  let '(oldIconSm_, w) := replace_icon window_ ICON_SMALL iconSm_ w in
  let '(oldIconLg_, w) := replace_icon window_ ICON_BIG iconLg_ w in
  (Icon window_ iconSm_ iconLg_ oldIconSm_ oldIconLg_, w).

Definition destroy_icon (icon : Z) w : W := if icon =? 0 then w else DestroyIcon icon w.

Definition delete_ConsoleIcon (c : ConsoleIcon) w : W :=
  if window_ c =? 0 then w else
  let w := (replace_icon (window_ c) ICON_SMALL (oldIconSm_ c) w).2 in
  let w := (replace_icon (window_ c) ICON_BIG (oldIconLg_ c) w).2 in
  destroy_icon (iconLg_ c) (destroy_icon (iconSm_ c) w).
End icons.

(** ** The version *)
Class Win32Version : Type := {
  GetModuleFileName : option str;
  GetFileVersionInfoSizeEx : str → Z;
  GetFileVersionInfoEx : str → Z → bool;
  (** The root block: its size and dwProductVersionMS; the translations; a
      string, which is empty when its size is zero. *)
  VerQueryRoot : option (Z * Z);
  VerQueryTranslation : option (list (Z * Z));
  VerQueryString : str → option str;
}.

Definition sizeof_VS_FIXEDFILEINFO : Z := 52.

Record Version : Type := MkVersion {
  major : Z;
  minor : Z;
  product : str;
  copyright : str;
}.

Section version.
Context `{!Win32Version} (swprintf : str → Z → Z → str).

Definition ver_string (name : str) (t : Z * Z) : option str :=
  match VerQueryString (swprintf (text "\StringFileInfo\%04x%04x\" ++ name) t.1 t.2) with
  | Some [] | None => None
  | Some val => Some val
  end.

(** The loop over the translations. *)
Fixpoint translation_loop (trans : list (Z * Z)) (v : Version) : Version :=
  match trans with
  | [] => v
  | t :: trans =>
      match ver_string (text "ProductName") t with
      | None => translation_loop trans v
      | Some val =>
          let v := MkVersion (major v) (minor v) (cstr val) (copyright v) in
          match ver_string (text "LegalCopyRight") t with
          | None => translation_loop trans v
          | Some val => MkVersion (major v) (minor v) (product v) (cstr val)
          end
      end
  end.

Definition new_Version : Version :=
  let v := MkVersion 0 0 [] [] in
  match GetModuleFileName with
  | None => v
  | Some file =>
      let size := GetFileVersionInfoSizeEx file in
      if (size =? 0) || negb (GetFileVersionInfoEx file size) then v else
      match VerQueryRoot with
      | None => v
      | Some (fsize, dwProductVersionMS) =>
          if negb (fsize =? sizeof_VS_FIXEDFILEINFO) then v else
          let v := MkVersion (Z.shiftr (Z.land dwProductVersionMS 0xffff0000) 16) (Z.land dwProductVersionMS 0xffff) [] [] in
          match VerQueryTranslation with
          | None => v
          | Some trans => translation_loop trans v
          end
      end
  end.
End version.

(** ** Theory *)

(** What the window shows and which icons there are. *)
Class IconLaws (W : Type) `{!Win32Icons W} : Type := {
  shown : W → Z → Z → Z;
  icons : W → gset Z;
  il_load cx cy fl w : ∃ h w', LoadImage cx cy fl w = (h, w') ∧ shown w' = shown w ∧
    (h = 0 ∧ icons w' = icons w ∨ h ≠ 0 ∧ h ∉ icons w ∧ icons w' = {[ h ]} ∪ icons w);
  il_set window kind h w : ∃ w', SetIcon window kind h w = (shown w window kind, w') ∧ icons w' = icons w ∧
    ∀ x k, shown w' x k = if decide (x = window ∧ k = kind) then h else shown w x k;
  il_destroy h w : icons (DestroyIcon h w) = icons w ∖ {[ h ]} ∧ shown (DestroyIcon h w) = shown w;
}.

Section icon_theory.
Context {W : Type} `{!Win32Icons W, !IconLaws W}.
Implicit Types (w : W).

Lemma replace_icon_run window kind h w :
  ∃ w', replace_icon window kind h w = (if h =? 0 then 0 else shown w window kind, w') ∧ icons w' = icons w ∧
    ∀ x k, shown w' x k = if decide (h ≠ 0 ∧ x = window ∧ k = kind) then h else shown w x k.
Proof.
  unfold replace_icon. destruct (Z.eqb_spec h 0) as [->|Hh].
  - exists w. split; [done|]. split; [done|]. intros x k. by rewrite decide_False by tauto.
  - destruct (il_set window kind h w) as (w' & -> & E & Hs). exists w'. split; [done|]. split; [done|].
    intros x k. rewrite Hs. apply decide_ext. tauto.
Qed.

Lemma destroy_icon_run h w :
  shown (destroy_icon h w) = shown w ∧ icons (destroy_icon h w) = if h =? 0 then icons w else icons w ∖ {[ h ]}.
Proof. unfold destroy_icon. destruct (h =? 0); [done|]. by destruct (il_destroy h w) as [-> ->]. Qed.

Lemma remove_loaded h (I I' : gset Z) :
  h = 0 ∧ I' = I ∨ h ≠ 0 ∧ h ∉ I ∧ I' = {[ h ]} ∪ I → (if h =? 0 then I' else I' ∖ {[ h ]}) = I.
Proof. intros [[-> ->]|(Hh & Hn & ->)]; [done|]. rewrite (proj2 (Z.eqb_neq h 0)) by done. set_solver. Qed.

(** When the console window has icons, they are back once the object is
    gone, and every icon that was loaded is destroyed. *)
Theorem ConsoleIcon_restores w :
  (∀ k, shown w (GetConsoleWindow w) k ≠ 0) →
  let '(c, w1) := new_ConsoleIcon w in
  ∀ w2, icons w2 = icons w1 → shown w2 = shown w1 →
  icons (delete_ConsoleIcon c w2) = icons w ∧ ∀ x k, shown (delete_ConsoleIcon c w2) x k = shown w x k.
Proof.
  intros Hk. unfold new_ConsoleIcon. destruct (Z.eqb_spec (GetConsoleWindow w) 0) as [E|Hw].
  { intros w2 Hi Hs. unfold delete_ConsoleIcon. simpl. by rewrite Hi, Hs. }
  set (win := GetConsoleWindow w) in *.
  destruct (il_load 0 0 LR_DEFAULTSIZE w) as (lg & w1 & -> & Hs1 & Hi1).
  destruct (il_load (GetSystemMetrics w1) (GetSystemMetrics w1) 0 w1) as (sm & w2 & -> & Hs2 & Hi2).
  destruct (replace_icon_run win ICON_SMALL sm w2) as (w3 & -> & Hi3 & Hs3).
  destruct (replace_icon_run win ICON_BIG lg w3) as (w4 & -> & Hi4 & Hs4).
  intros w5 Hi5 Hs5. unfold delete_ConsoleIcon. cbn [window_ iconSm_ iconLg_ oldIconSm_ oldIconLg_].
  rewrite (proj2 (Z.eqb_neq win 0)) by done.
  match goal with |- context [replace_icon win ICON_SMALL ?h w5] =>
    destruct (replace_icon_run win ICON_SMALL h w5) as (w6 & -> & Hi6 & Hs6) end. cbn [snd].
  match goal with |- context [replace_icon win ICON_BIG ?h w6] =>
    destruct (replace_icon_run win ICON_BIG h w6) as (w7 & -> & Hi7 & Hs7) end. cbn [snd].
  destruct (destroy_icon_run sm w7) as [Hs8 Hi8]. destruct (destroy_icon_run lg (destroy_icon sm w7)) as [-> ->].
  rewrite Hs8, Hi8, Hi7, Hi6, Hi5, Hi4, Hi3. split.
  - rewrite (remove_loaded sm (icons w1)) by done. by apply remove_loaded.
  - intros x k. rewrite Hs7, Hs6, Hs5, !Hs4, !Hs3, Hs2, Hs1.
    pose proof (Hk ICON_SMALL) as Hks. pose proof (Hk ICON_BIG) as Hkb. assert (ICON_BIG ≠ ICON_SMALL) as Hne by done.
    revert Hks Hkb Hne. clear. generalize ICON_SMALL, ICON_BIG. intros small big Hks Hkb Hne.
    destruct (Z.eqb_spec sm 0), (Z.eqb_spec lg 0); repeat case_decide; destruct_and?; subst; (done || congruence || tauto).
Qed.
End icon_theory.

Section version_theory.
Context `{!Win32Version} (swprintf : str → Z → Z → str).

(** The parts of a version are the halves of the number. *)
Lemma version_halves ms : 0 ≤ ms < 2 ^ 32 →
  ms = Z.shiftr (Z.land ms 0xffff0000) 16 * 65536 + Z.land ms 0xffff ∧
  0 ≤ Z.shiftr (Z.land ms 0xffff0000) 16 < 2 ^ 16 ∧ 0 ≤ Z.land ms 0xffff < 2 ^ 16.
Proof.
  intros Hms. change 0xffff with (Z.ones 16). rewrite Z.land_ones by lia.
  assert (E : Z.shiftr (Z.land ms 0xffff0000) 16 = ms / 2 ^ 16).
  { rewrite Z.shiftr_land. change (Z.shiftr 0xffff0000 16) with (Z.ones 16).
    rewrite Z.land_ones, Z.shiftr_div_pow2 by lia. apply Z.mod_small.
    split; [apply Z.div_pos; lia|apply Z.div_lt_upper_bound; lia]. }
  rewrite E. pose proof (Z.div_mod ms (2 ^ 16) ltac:(lia)). pose proof (Z.mod_pos_bound ms (2 ^ 16) ltac:(lia)).
  split_and!; lia.
Qed.

(** A copyright is shown together with the product of the same translation. *)
Theorem translation_loop_same trans v :
  let r := translation_loop swprintf trans v in
  major r = major v ∧ minor r = minor v ∧
  (copyright r = copyright v ∨
   ∃ t p c, t ∈ trans ∧ ver_string swprintf (text "ProductName") t = Some p ∧
     ver_string swprintf (text "LegalCopyRight") t = Some c ∧ product r = cstr p ∧ copyright r = cstr c).
Proof.
  revert v. induction trans as [|t trans IH]; intros v; [by auto|]. cbn [translation_loop].
  destruct (ver_string swprintf (text "ProductName") t) as [p|] eqn:Ep.
  - destruct (ver_string swprintf (text "LegalCopyRight") t) as [c|] eqn:Ec.
    + split; [done|]. split; [done|]. right. exists t, p, c. split; [left|]. done.
    + destruct (IH (MkVersion (major v) (minor v) (cstr p) (copyright v))) as (-> & -> & [->|(t' & p' & c' & Hin & Ht)]);
        [by auto|]. split; [done|]. split; [done|]. right. exists t', p', c'. split; [by right|done].
  - destruct (IH v) as (-> & -> & [->|(t' & p' & c' & Hin & Ht)]); [by auto|].
    split; [done|]. split; [done|]. right. exists t', p', c'. split; [by right|done].
Qed.
End version_theory.

(** ** Concrete runs *)

(** A desktop: the icons that there are, with the next handle, and those of
    the windows. *)
Record desktop : Type := Desktop { existing : gset Z; next_icon : Z; set_icons : gmap (Z * Z) Z }.

#[local] Instance demo_icons : Win32Icons desktop := {|
  GetConsoleWindow := fun _ => 7;
  GetSystemMetrics := fun _ => 16;
  LoadImage := fun _ _ _ w => (next_icon w, Desktop ({[next_icon w]} ∪ existing w) (next_icon w + 1) (set_icons w));
  SetIcon := fun x k h w => (default 0 (set_icons w !! (x, k)), Desktop (existing w) (next_icon w) (<[(x, k) := h]> (set_icons w)));
  DestroyIcon := fun h w => Desktop (existing w ∖ {[h]}) (next_icon w) (set_icons w);
|}.

Definition after_console (w : desktop) : desktop := let '(c, w) := new_ConsoleIcon w in delete_ConsoleIcon c w.

Example icons_back :
  let w := Desktop {[1; 2]} 3 {[ (7, 0) := 1; (7, 1) := 2 ]} in
  existing (after_console w) = existing w ∧ set_icons (after_console w) = set_icons w.
Proof. vm_compute. split; reflexivity. Qed.

(** A window that had no icons keeps those that are destroyed. *)
Example destroyed_icon_shown :
  let w := after_console (Desktop ∅ 3 ∅) in
  existing w = ∅ ∧ set_icons w !! (7, ICON_SMALL) = Some 4 ∧ set_icons w !! (7, ICON_BIG) = Some 3.
Proof. vm_compute. repeat split; reflexivity. Qed.
