(* ===== verification/Main.v ===== *)
(** * main.cpp and the rest of op.cpp: the program as a whole

    The options, the set-up of the operation, the report at its end and the
    exit code of the process.  The arguments as boost parses them and the scan of
    the disk ([Ftw], [Ntfs]) are parameters; the volume is opened and queried by
    [Volume], the gaps and the files are enumerated by [Gaps] and [Files], and
    [Op] does the work.  What is printed on the way is left out, the report is a
    value. *)
From S2P Require Import Prelude DList Regions Bitmap CaseTables CString FileInfo Ftw FileIO Volume StdMap Gaps Files PathVar Op OpSafe.
From stdpp Require Import prelude gmap sorting strings list_numbers.
Open Scope Z_scope.

(** ** The command line *)

(** boost's variables_map; [None] for --volume when it is not given. *)
Record variables_map : Type := VM {
  vm_help : bool;
  vm_version : bool;
  vm_register_path : bool;
  vm_unregister_path : bool;
  vm_maxsize : Z;
  vm_verbose : bool;
  vm_widen : bool;
  vm_aggressive : bool;
  vm_no_gaps : bool;
  vm_no_defrag : bool;
  vm_volume : option str;
}.

(** The struct Options; [steer] has the options that [Op] reads. *)
Record all_options : Type := AllOptions {
  volume : Z;
  verbose : bool;
  steer : Options;
}.

(** What comes of the command line: options, the exception Exit, or another
    exception. *)
Inductive parsed : Type :=
| Go (o : all_options)
| Exits (code : Z)
| Throws.

Definition is_letter (c : Z) : bool :=
  (0x61 <=? c) && (c <=? 0x7A) || (0x41 <=? c) && (c <=? 0x5A).

(** ** The report

    What [Operation::run] prints at its end: the number of gaps, the moves, the
    gaps of at most the maximal size, and the others; [listed] are the gaps it
    lists one by one. *)
Record summary : Type := Summary {
  smallish : Z;
  smallsize : Z;
  largish : Z;
  largesize : Z;
  listed : list winx_volume_region;
}.

Record report : Type := Report {
  final_gaps : Z;
  moves : Z;
  moved_clusters : Z;
  largest : option Z;
  sizes : summary;
}.

(** One round of the loop over the gaps at the end of [Operation::run]. *)
Definition summary_step (o : Options) (verbose : bool) (r : winx_volume_region) (a : summary) : summary :=
  if rlength r <=? maxSize o
  then Summary (u64 (smallish a + 1)) (u64 (smallsize a + rlength r)) (largish a) (largesize a) (listed a)
  else if negb verbose
  then Summary (smallish a) (smallsize a) (u64 (largish a + 1)) (u64 (largesize a + rlength r)) (listed a)
  else Summary (smallish a) (smallsize a) (largish a) (largesize a) (listed a ++ [r]).

Section main.
Context {W : Type} `{!NtApi W, !NtControl W, !NtVolume W} `{!Volume W} `{!Environment W}
  `{!Allocator (node winx_volume_region)}.
Context (tmalloc : Z → bool) (uninit : nat → list Z) (narrow : str → list Z) (towupper fold : Z → Z).
Context (bfuel dfuel mfuel : nat) (DebugBreak prev_begin : outcome unit).
(** winx_scan_disk: the files of a drive (none for NULL) and the memory with
    them. *)
Context (scan_disk : Z → W → list loc * fheap * W).
Abbreviation prog := (prog W).

(** [Options::parse]; [None] when boost throws.  A string without characters has
    a zero at its start.  The functions that edit the PATH catch what they
    throw. *)
Definition parse (vm : option variables_map) (w : W) : parsed * W :=
  match vm with
  | None => (Throws, w)
  | Some vm =>
      if vm_help vm then (Exits 1, w) else
      if vm_version vm then (Exits 0, w) else
      if vm_register_path vm then (Exits 0, (registerPath towupper w).2) else
      if vm_unregister_path vm then (Exits 0, (unregisterPath towupper w).2) else
      let letter := match vm_volume vm with Some v => u8 (nth 0 v 0) | None => 0 end in
      let o := AllOptions letter (vm_verbose vm)
                 (Opts (vm_maxsize vm) (vm_aggressive vm) (negb (vm_no_gaps vm))
                    (negb (vm_no_defrag vm)) (vm_widen vm)) in
      if is_letter letter then (Go o, w) else (Throws, w)
  end.

(** [zen::Volume::init]: the information, or nothing when it throws.  The handle
    stays open; winx_get_volume_information clears the structure first. *)
Definition volume_init (letter : Z) (w : W) : outcome (option winx_volume_information * W) :=
  let '(f, w) := winx_vopen tmalloc letter w in
  match f with
  | None => Ret (None, w)
  | Some _ =>
      '(r, info, w) ← winx_get_volume_information tmalloc uninit narrow letter (Some (blank 0)) w;
      Ret (if r <? 0 then None else info, w)
  end.

(** [opts.maxSize * 1024 / vol.info.bytes_per_cluster]: kilobytes to clusters; the
    division traps for zero. *)
Definition clusters_of (o : Options) (info : winx_volume_information) : outcome Options :=
  if bytes_per_cluster info =? 0 then Fault else
  Ret (Opts (u64 (maxSize o * 1024) / bytes_per_cluster info) (aggressive o) (opt_gaps o) (opt_defrag o) (widen o)).

(** The constructor of FileEnumeration. *)
Definition enumerate_files (letter : Z) : prog unit :=
  '(infos, h) ← on_vol (fun w => let '(infos, h, w) := scan_disk letter w in ((infos, h), w));
  _ ← on_files (fun _ _ => Ret (tt, h));
  stop ← (match infos with [] => gTerminated | _ => mret false end);
  e ← on_files (fun e => Files.scan fold stop infos e);
  match e with Some e => set_fe e | None => Op.throw end.

(** The list of the unmovable files of [Operation::init], with --verbose: the
    paths without their first four characters. *)
Fixpoint unmovable_paths (fs : list loc) : prog (list str) :=
  match fs with
  | [] => mret []
  | f :: fs =>
      fi ← file_at f;
      match fi_path fi with
      | Some path =>
          if (4 <=? length path)%nat then ps ← unmovable_paths fs; mret (drop 4 path :: ps)
          else fun _ => Fault
      | None => fun _ => Fault
      end
  end.

(** The rest of [Operation::init]. *)
Definition init_enumerations (letter : Z) (verbose : bool) : prog (list str) :=
  _ ← ge_scan bfuel;
  _ ← enumerate_files letter;
  e ← get op_fe;
  if verbose then unmovable_paths (unmovable_ e) else mret [].

(** A new operation. *)
Definition new_operation (w : W) : Operation W :=
  Op ∅ (Gaps None [] []) ∅ (Files [] [] [] [] 0 0) [] 0 0 None false w.

(** The loop over the gaps. *)
Fixpoint summary_loop (regions : list (Z * loc)) (o : Options) (verbose : bool) (a : summary) : prog summary :=
  match regions with
  | [] => mret a
  | (_, p) :: regions =>
      r ← region_at (Some p);
      summary_loop regions o verbose (summary_step o verbose r a)
  end.

(** [Operation::run]; the sizes are in reverse order from [sbegin] on. *)
Definition run_operation (n k : nat) (o : Options) (verbose : bool) : prog report :=
  _ ← run bfuel dfuel mfuel DebugBreak prev_begin n k o;
  s ← get id;
  a ← summary_loop (regions_ (op_ge s)) o verbose (Summary 0 0 0 0 []);
  mret (Report (Z.of_nat (length (regions_ (op_ge s)))) (moved s) (movedLen s)
          (fst <$> last (sizes_ (op_ge s))) a).

Definition operate (n k : nat) (o : all_options) (steer : Options) : prog report :=
  _ ← init_enumerations (volume o) (verbose o);
  run_operation n k steer (verbose o).

(** ** The process

    Its exit code and the report, if it comes that far: the code of Exit, 3 after
    another exception, and otherwise the flag of the console handler. *)
Definition wmain (n k : nat) (vm : option variables_map) (w : W) : outcome (Z * option report * W) :=
  let '(p, w) := parse vm w in
  match p with
  | Exits code => Ret (code, None, w)
  | Throws => Ret (3, None, w)
  | Go o =>
      '(info, w) ← volume_init (volume o) w;
      match info with
      | None => Ret (3, None, w)
      | Some info =>
          st ← clusters_of (steer o) info;
          '(r, s) ← operate n k o st (new_operation w);
          match r with
          | None => Ret (3, None, vol s)
          | Some r => let '(terminated, w) := v_terminated (vol s) in
                      Ret (if (terminated : bool) then 1 else 0, Some r, w)
          end
      end
  end.
End main.

(** ** The report, without the loop *)

Definition gap_clusters (l : list winx_volume_region) : Z := foldr (fun r acc => rlength r + acc) 0 l.

(** The gaps of at most the maximal size and the others; the others are listed
    with --verbose, and counted without. *)
Definition small (o : Options) (l : list winx_volume_region) : list winx_volume_region :=
  base.filter (fun r => rlength r ≤ maxSize o) l.

Definition large (o : Options) (l : list winx_volume_region) : list winx_volume_region :=
  base.filter (fun r => maxSize o < rlength r) l.

Definition summary_of (o : Options) (verbose : bool) (l : list winx_volume_region) : summary :=
  Summary (Z.of_nat (length (small o l))) (gap_clusters (small o l))
    (if verbose then 0 else Z.of_nat (length (large o l)))
    (if verbose then 0 else gap_clusters (large o l))
    (if verbose then large o l else []).

Definition plus (a b : summary) : summary :=
  Summary (smallish a + smallish b) (smallsize a + smallsize b)
    (largish a + largish b) (largesize a + largesize b) (listed a ++ listed b).

(** The numbers of a summary, as counters of 64 bits that [n] clusters more do not
    make overflow. *)
Definition fits (a : summary) (n : Z) : Prop :=
  0 ≤ smallish a ∧ smallish a + n < 2 ^ 64 ∧ 0 ≤ smallsize a ∧ smallsize a + n < 2 ^ 64 ∧
  0 ≤ largish a ∧ largish a + n < 2 ^ 64 ∧ 0 ≤ largesize a ∧ largesize a + n < 2 ^ 64.

Lemma gap_clusters_nonneg l : Forall (fun r => 0 < rlength r) l → 0 ≤ gap_clusters l.
Proof. induction 1; simpl; lia. Qed.

Lemma summary_of_cons o vb r l :
  summary_of o vb (r :: l) = plus (summary_of o vb [r]) (summary_of o vb l).
Proof.
  unfold summary_of, plus, small, large. rewrite !filter_cons, !filter_nil.
  repeat case_decide; try lia; destruct vb; simpl; f_equal; lia.
Qed.

Lemma plus_assoc a b c : plus a (plus b c) = plus (plus a b) c.
Proof. unfold plus; simpl. f_equal; [lia.. | by rewrite app_assoc]. Qed.

(** One round of the loop. *)
Lemma summary_round o vb r a n :
  0 < rlength r → 0 ≤ n → fits a (rlength r + n) →
  summary_step o vb r a = plus a (summary_of o vb [r]) ∧ fits (plus a (summary_of o vb [r])) n.
Proof.
  intros Hr Hn Hf. unfold fits in *.
  unfold summary_step, summary_of, plus, small, large. rewrite !filter_cons, !filter_nil.
  destruct (Z.leb_spec (rlength r) (maxSize o));
    repeat case_decide; try lia; destruct vb; simpl;
    rewrite ?u64_small by lia; (split; [f_equal; try lia; by rewrite app_nil_r | lia]).
Qed.

Section report.
Context {W : Type} `{!Volume W}.

Lemma summary_loop_run N (s : Operation W) gs o vb :
  gaps_ok N (gheap s) (op_ge s) gs → ∀ gs1 a, gs1 ⊆ gs → fits a (gap_clusters gs1.*2) →
  summary_loop (by_lcn gs1) o vb a s = Ret (Some (plus a (summary_of o vb gs1.*2)), s).
Proof.
  intros Hok. induction gs1 as [|[p r] gs1 IH]; intros a Hsub Hf.
  - simpl. unfold mret, prog_ret, plus, summary_of. simpl.
    destruct a, vb; simpl; by rewrite ?Z.add_0_r, app_nil_r.
  - assert (Hin : (p, r) ∈ gs) by (apply Hsub; by left).
    assert (Hpos : ∀ g, g ∈ (gs1.*2) → 0 < rlength g).
    { intros g ([q r'] & -> & Hq)%list_elem_of_fmap.
      destruct (gap_facts N 1 (le_n 1) _ _ gs q r' Hok) as (_ & ? & _); [apply Hsub; by right | done]. }
    destruct (gap_facts N 1 (le_n 1) _ _ gs p r Hok Hin) as (_ & Hr & _).
    cbn [by_lcn fmap list_fmap fst snd summary_loop].
    rewrite (prog_bind_some _ _ _ _ _ (region_at_run N s gs p r Hok Hin)).
    destruct (summary_round o vb r a (gap_clusters gs1.*2)) as [-> Hf']; [done | | done |].
    { apply gap_clusters_nonneg, Forall_forall, Hpos. }
    rewrite IH by (done || set_solver). rewrite <- plus_assoc. f_equal.
    cbn [fmap list_fmap fst snd]. by rewrite <- summary_of_cons.
Qed.
End report.

(** How many of [n] clusters from [a] on are free. *)
Definition free_clusters (P : Z → bool) (a n : Z) : Z :=
  Z.of_nat (length (base.filter (fun c => P c = true) (seqZ a n))).

Lemma free_clusters_split P a n m :
  0 ≤ n → 0 ≤ m → free_clusters P a (n + m) = free_clusters P a n + free_clusters P (a + n) m.
Proof. intros. unfold free_clusters. rewrite seqZ_app, filter_app, length_app by done. lia. Qed.

Lemma free_clusters_none P a n : (∀ c, a ≤ c < a + n → P c = false) → free_clusters P a n = 0.
Proof.
  intros H. unfold free_clusters. rewrite filter_none; [done|].
  intros c ?%elem_of_seqZ. rewrite H by lia. done.
Qed.

Lemma free_clusters_every P a n : 0 ≤ n → (∀ c, a ≤ c < a + n → P c = true) → free_clusters P a n = n.
Proof.
  intros Hn H. unfold free_clusters. rewrite filter_every, length_seqZ; [by apply Z2Nat.id|].
  intros c ?%elem_of_seqZ. apply H. lia.
Qed.

(** The gaps have as many clusters as are free. *)
Lemma gap_clusters_free N (P : Z → bool) l : ∀ a,
  0 ≤ a ≤ N → regions_wf N l → Forall (fun r => a ≤ rlcn r) l →
  (∀ c, a ≤ c → covers l c ↔ c < N ∧ P c = true) → gap_clusters l = free_clusters P a (N - a).
Proof.
  induction l as [|r l IH]; intros a Ha Hwf Hlo Hc.
  - symmetry. apply free_clusters_none. intros c Hr. apply not_true_is_false. intros Hp.
    assert (Hcov : covers [] c) by (apply Hc; [lia | split; [lia | done]]).
    destruct Hcov as (r & Hin & _). by apply elem_of_nil in Hin.
  - apply regions_wf_cons in Hwf as ((H0 & Hlen & Hend) & Hsep & Hwf).
    apply Forall_cons in Hlo as [Hlo _]. rewrite Forall_forall in Hsep. unfold rend in *.
    replace (N - a) with ((rlcn r - a) + (rlength r + (N - rend r))) by (unfold rend; lia).
    rewrite !free_clusters_split by (unfold rend; lia).
    change (gap_clusters (r :: l)) with (rlength r + gap_clusters l).
    rewrite (free_clusters_none P a), (free_clusters_every P).
    + rewrite (IH (rend r)); [unfold rend; rewrite Z.add_0_l; f_equal; f_equal; lia | unfold rend; lia | done | |].
      * apply Forall_forall. intros r' Hr'. specialize (Hsep r' Hr'). unfold rend. lia.
      * intros c Hr. rewrite <- Hc by (unfold rend in *; lia). rewrite covers_cons. unfold rend in *. naive_solver lia.
    + lia.
    + intros c Hr. apply Hc; [lia|]. exists r. unfold rend. split; [by left | lia].
    + intros c Hr. apply not_true_is_false. intros Hp.
      assert (Hcov : covers (r :: l) c) by (apply Hc; [lia | split; [lia | done]]). destruct Hcov as (r' & Hin & Hr').
      apply elem_of_cons in Hin as [->|Hin]; [lia|]. specialize (Hsep r' Hin). lia.
Qed.

Lemma gap_clusters_split o l : gap_clusters (small o l) + gap_clusters (large o l) = gap_clusters l.
Proof.
  unfold small, large. induction l as [|r l IH]; [done|]. rewrite !filter_cons.
  repeat case_decide; simpl; lia.
Qed.

(** ** The scan leaves the paths of the files alone *)
Definition same_paths (h h' : fheap) : Prop := ∀ q : loc, fi_path <$> h' !! q = fi_path <$> h !! q.

Definition keeps_paths {A} (m : ST fheap A) : Prop := ∀ h a h', m h = Ret (a, h') → same_paths h h'.

Lemma keeps_ret {A} (a : A) : keeps_paths (mret a).
Proof. intros h b h' [= _ <-] q. done. Qed.

Lemma keeps_bind {A B} (m : ST fheap A) (f : A → ST fheap B) :
  keeps_paths m → (∀ a, keeps_paths (f a)) → keeps_paths (m ≫= f).
Proof.
  intros Hm Hf h b h'. unfold mbind, st_bind. destruct (m h) as [[a h1]| |] eqn:E; try done.
  intros E' q. by rewrite (Hf a h1 b h' E'), (Hm h a h1 E).
Qed.

Lemma keeps_load p : keeps_paths (load p).
Proof. intros h a h'. destruct p as [p|]; [|done]. simpl. destruct (h !! p); [|done]. by intros [= _ <-]. Qed.

Lemma keeps_modify p (f : winx_file_info → winx_file_info) :
  (∀ x, fi_path (f x) = fi_path x) → keeps_paths (modify p f).
Proof.
  intros Hf h a h'. destruct p as [p|]; [|done]. simpl. destruct (h !! p) as [v|] eqn:E; [|done].
  intros [= _ <-] q. destruct (decide (q = p)) as [->|Hne].
  - rewrite lookup_insert_eq, E. simpl. by rewrite Hf.
  - by rewrite lookup_insert_ne.
Qed.

Lemma keeps_fault {A} : keeps_paths (st_fault : ST fheap A).
Proof. done. Qed.

Create HintDb paths.
#[local] Hint Resolve keeps_ret keeps_load keeps_modify keeps_fault : paths.

Lemma keeps_scan_file fold p e : keeps_paths (scan_file fold p e).
Proof.
  unfold scan_file, Files.order.
  repeat (apply keeps_bind; [auto with paths | intros ?] || case_match || auto with paths).
Qed.

Lemma keeps_scan_files fold ps : ∀ e, keeps_paths (scan_files fold ps e).
Proof.
  induction ps as [|p ps IH]; intros e; [apply keeps_ret|].
  apply keeps_bind; [apply keeps_scan_file | done].
Qed.

Lemma keeps_scan fold b ps e : keeps_paths (Files.scan fold b ps e).
Proof.
  unfold Files.scan. destruct ps as [|p ps]; [apply keeps_ret|].
  apply keeps_bind; [apply keeps_scan_files | intros ?; apply keeps_ret].
Qed.

(** ** The whole program *)
Section setup.
Context {W : Type} `{!Volume W} `{!Allocator (node winx_volume_region)} (fold : Z → Z).
Context (N : Z) (bfuel dfuel : nat) `{!VolumeLaws W N bfuel dfuel}.
Context (alloc_total : ∀ h : gmap loc (node winx_volume_region), is_Some (alloc h)).
Context (scan_disk : Z → W → list loc * fheap * W).
Implicit Types (w : W) (s : Operation W) (infos : list loc) (h : fheap).

(** What the file system and the scan of the disk promise about a list of files:
    it is not empty, every file has a path of its own, and the block maps are
    those of the volume, which the scan leaves alone. *)
Record listing w infos h w' : Prop := {
  ls_found : infos ≠ [];
  ls_nodup : NoDup infos;
  ls_count : Z.of_nat (length infos) < 2 ^ 64;
  ls_file p : p ∈ infos → ∃ f path, h !! p = Some f ∧ fi_path f = Some path ∧
    blockmap (disp f) ≡ₚ runs_blocks (layout w' (Some path)) ∧
    clusters (disp f) = clusters (runs_disp (layout w' (Some path))) ∧ 0 ≤ clusters (disp f) < 2 ^ 64;
  ls_path p q : p ∈ infos → q ∈ infos → (h !! p ≫= fi_path) = (h !! q ≫= fi_path) → p = q;
  ls_layout : layout w' = layout w;
  ls_free : free w' = free w;
}.

Section listed.
Context w infos h w' (L : listing w infos h w').

Let path p : option str := h !! p ≫= fi_path.

Lemma listed_scanned : Forall (scanned h) infos.
Proof.
  apply Forall_forall. intros p Hp. destruct (ls_file _ _ _ _ L p Hp) as (f & path0 & E & Ep & _ & _ & ?).
  exists f. by rewrite Ep.
Qed.

(** A file in a bucket is the file on the volume. *)
Lemma listed_tracked h' p :
  p ∈ infos → rejected fold h p = false → h' !! p = prepared <$> h !! p →
  tracked N bfuel dfuel infos path w' h' p.
Proof.
  intros Hp Hr E'. destruct (ls_file _ _ _ _ L p Hp) as (f & path0 & E & Ep & Hbm & Hcl & _).
  assert (Epath : path p = Some path0) by (unfold path; by rewrite E).
  split; [done|]. exists (prepared f). unfold blocks_of, disp_of. rewrite E', E, Epath.
  split_and!; [done | done | | done |].
  - unfold prepared, set_map. simpl. by rewrite order_map_Permutation.
  - intros Hnil. unfold rejected in Hr. rewrite E, Ep, Hnil in *.
    apply Permutation_nil_r in Hbm. by rewrite Hbm in Hr.
Qed.

Lemma listed_files_inv e h' :
  multimap_sorted (buckets_ e) → NoDup (buckets_ e).*2 → lcns_ e = [] →
  (∀ k p, (k, p) ∈ buckets_ e ↔ p ∈ infos ∧ rejected fold h p = false ∧ k = file_key h p) →
  (∀ k p, (k, p) ∈ buckets_ e → h' !! p = prepared <$> h !! p) →
  files_inv N bfuel dfuel infos path w' h' e.
Proof.
  intros Hso Hnd Hl Hb Hpr.
  assert (Htr : ∀ p, p ∈ (buckets_ e).*2 → tracked N bfuel dfuel infos path w' h' p).
  { intros p ([k q] & -> & Hq)%list_elem_of_fmap. simpl.
    pose proof (proj1 (Hb k q) Hq) as (Hp & Hr & _). apply listed_tracked; [done.. |]. by apply (Hpr k). }
  split; [|done]. split_and!; [split | done | | by left].
  - done.
  - apply Forall_forall. intros [k p] Hp. pose proof (proj1 (Hb k p) Hp) as (Hin & _ & Hk).
    destruct (Htr p) as (_ & f' & E' & _ & Hbm & Hcl & Hne).
    { apply list_elem_of_fmap. by exists (k, p). }
    destruct (ls_file _ _ _ _ L p Hin) as (f & path0 & E & _ & _ & _ & Hr).
    exists f'. simpl. split_and!; [done | | | |].
    + rewrite (Hpr k p Hp), E in E'. injection E' as <-. unfold file_key in Hk. by rewrite Hk, E.
    + intros Hnil. apply Hne. by rewrite Hnil, Permutation_nil_l in Hbm.
    + unfold file_key in Hk. rewrite E in Hk. lia.
    + unfold file_key in Hk. rewrite E in Hk. lia.
  - intros p q c Hp Hq Hsp Hsq. destruct (decide (p = q)) as [|Hne]; [done|]. exfalso.
    exact (tracked_apart N bfuel dfuel infos path (ls_path _ _ _ _ L) w' h' p q c (Htr p Hp) (Htr q Hq) Hne Hsq Hsp).
Qed.
End listed.

(** Without files the constructor throws, unless the user has stopped the
    program; otherwise the files that can be moved are known afterwards. *)
Lemma enumerate_run letter s infos h w' gs :
  scan_disk letter (vol s) = (infos, h, w') → listing (vol s) infos h w' →
  gaps_inv N bfuel dfuel (vol s) (gheap s) (op_ge s) gs →
  fragmented_ (op_fe s) = 0 → unprocessable_ (op_fe s) = 0 →
  ∃ s', enumerate_files fold scan_disk letter s = Ret (Some tt, s') ∧
    op_inv N bfuel dfuel infos (fun p => h !! p ≫= fi_path) s' gs ∧ vol s' = w' ∧
    same_paths h (files s') ∧ unmovable_ (op_fe s') ⊆ infos.
Proof.
  intros Hscan L [Hok Hfree] Hf Hu.
  destruct (disk_scan_run fold h infos (op_fe s) (ls_nodup _ _ _ _ L) (listed_scanned _ _ _ _ L)
    (ls_count _ _ _ _ L) Hf Hu (ls_found _ _ _ _ L)) as (h' & e' & E & Hso & Hnd & Hb & Hl & Hun & _ & _ & Hpr).
  unfold enumerate_files.
  assert (E1 : on_vol (fun w => let '(infos, h, w) := scan_disk letter w in ((infos, h), w)) s =
    Ret (Some (infos, h), with_vol w' s)) by (unfold on_vol; by rewrite Hscan).
  pstep E1. cbn beta iota.
  pstep (on_files_run (fun _ _ => Ret (tt, h)) (with_vol w' s) tt h eq_refl).
  set (s1 := with_files h _ _).
  assert (E2 : (match infos with [] => gTerminated | _ => mret false end) s1 = Ret (Some false, s1)).
  { destruct infos; [by destruct (ls_found _ _ _ _ L) | done]. }
  pstep E2. pstep (on_files_run (fun e => Files.scan fold false infos e) s1 (Some e') h' E).
  eexists. split; [reflexivity|]. split_and!; [| done | | ].
  - split.
    + split; [done|]. intros c Hc. cbn. rewrite (ls_free _ _ _ _ L). by apply Hfree.
    + exact (listed_files_inv _ _ _ _ L e' h' Hso Hnd Hl Hb Hpr).
  - exact (keeps_scan fold false infos (op_fe s1) h (Some e') h' E).
  - cbn. rewrite Hun. apply list_subseteq_filter.
Qed.

(** The paths are long enough for the list of the unmovable files. *)
Definition long_paths infos h : Prop :=
  ∀ p f path, p ∈ infos → h !! p = Some f → fi_path f = Some path → (4 ≤ length path)%nat.

Lemma unmovable_run s infos h w w' fs :
  listing w infos h w' → long_paths infos h → same_paths h (files s) → fs ⊆ infos →
  ∃ ps, unmovable_paths fs s = Ret (Some ps, s).
Proof.
  intros L Hlong Hsame. induction fs as [|p fs IH]; intros Hsub; [by eexists|].
  assert (Hp : p ∈ infos) by (apply Hsub; by left).
  destruct (ls_file _ _ _ _ L p Hp) as (f & path & E & Ep & _).
  pose proof (Hsame p) as Hs. rewrite E in Hs. destruct (files s !! p) as [f'|] eqn:E'; [|done].
  injection Hs as Hs. cbn [unmovable_paths]. pstep (file_at_run s p f' E').
  rewrite Hs, Ep. rewrite (proj2 (Nat.leb_le 4 (length path)) (Hlong p f path Hp E Ep)).
  destruct IH as (ps & IH); [set_solver|]. pstep IH. by eexists.
Qed.

Lemma gaps_ok_empty : gaps_ok N ∅ (Gaps None [] []) [].
Proof.
  split_and!; try done; [|constructor..|split; constructor].
  exists []. split; [by apply is_list_nil | done].
Qed.

(** [Operation::init] leaves the enumerations in step with the volume. *)
Lemma init_run letter vb infos h w w' :
  scan_disk letter w = (infos, h, w') → listing w infos h w' → (vb = true → long_paths infos h) →
  ∃ ps s gs, init_enumerations fold bfuel scan_disk letter vb (new_operation w) = Ret (Some ps, s) ∧
    op_inv N bfuel dfuel infos (fun p => h !! p ≫= fi_path) s gs ∧ vol s = w'.
Proof.
  intros Hscan L Hlong.
  destruct (ge_scan_run N bfuel dfuel alloc_total (new_operation w)) as (hg & g & gs & E & Hok & Hc).
  { exists []. apply gaps_ok_empty. }
  destruct (enumerate_run letter (with_gaps hg g (new_operation w)) infos h w' gs) as
    (s & Es & Hinv & Ew & Hsame & Hun); [done | done | | done | done |].
  { split; [done|]. intros c Hcov. by apply Hc. }
  unfold init_enumerations. pstep E. pstep Es. pget.
  destruct vb; [|by eexists [], s, gs].
  destruct (unmovable_run s infos h w w' (unmovable_ (op_fe s)) L (Hlong eq_refl) Hsame Hun) as (ps & Ep).
  by exists ps, s, gs.
Qed.

End setup.

Section program.
Context {W : Type} `{!Volume W} `{!Allocator (node winx_volume_region)}.
Context (N : Z) (bfuel dfuel mfuel : nat) (DebugBreak : outcome unit) `{!VolumeLaws W N bfuel dfuel}.
Context (alloc_total : ∀ h : gmap loc (node winx_volume_region), is_Some (alloc h)).
Implicit Types (w : W) (s : Operation W).

(** What the report says of the volume at the end. *)
Record reports w (o : Options) (vb : bool) (r : report) : Prop := {
  rp_gaps : ∃ l, regions_wf N l ∧ (∀ c, covers l c ↔ 0 ≤ c < N ∧ free w c = true) ∧
    final_gaps r = Z.of_nat (length l) ∧ sizes r = summary_of o vb l ∧
    (∀ n, largest r = Some n → Forall (fun g => rlength g ≤ n) l ∧ n ∈ rlength <$> l) ∧
    (largest r = None → l = []);
  rp_free : smallsize (sizes r) + largesize (sizes r) + gap_clusters (listed (sizes r)) =
    free_clusters (free w) 0 N;
}.

Lemma summary_free w o vb l :
  regions_wf N l → (∀ c, covers l c ↔ 0 ≤ c < N ∧ free w c = true) →
  let a := summary_of o vb l in
  smallsize a + largesize a + gap_clusters (listed a) = free_clusters (free w) 0 N.
Proof.
  intros Hwf Hc a. transitivity (gap_clusters l).
  - rewrite <- (gap_clusters_split o l). unfold a. destruct vb; simpl; lia.
  - pose proof (proj1 (vl_size (VolumeLaws := VolumeLaws0))).
    rewrite (gap_clusters_free N (free w) l 0); [by rewrite Z.sub_0_r | lia | done | |].
    + apply (Forall_impl _ _ _ (proj1 Hwf)). by intros g (? & _).
    + intros c Hc0. rewrite Hc. naive_solver lia.
Qed.

Lemma gap_clusters_le l : regions_wf N l → gap_clusters l ≤ N.
Proof.
  intros Hwf. set (P := fun c => bool_decide (Exists (fun g => rlcn g ≤ c < rend g) l)).
  pose proof (proj1 (vl_size (VolumeLaws := VolumeLaws0))).
  assert (HP : ∀ c, P c = true ↔ covers l c).
  { intros c. unfold P. rewrite bool_decide_eq_true, Exists_exists. unfold covers. by setoid_rewrite list_elem_of_In. }
  rewrite (gap_clusters_free N P l 0); [| lia | done | |].
  - rewrite Z.sub_0_r. unfold free_clusters.
    pose proof (length_filter (fun c => P c = true) (seqZ 0 N)) as Hle. rewrite length_seqZ in Hle. lia.
  - apply (Forall_impl _ _ _ (proj1 Hwf)). by intros g (? & _).
  - intros c _. rewrite HP. split; [|tauto]. intros Hc. split; [|done].
    destruct Hc as (g & Hg & Hr). destruct (proj1 (Forall_forall _ _) (proj1 Hwf) g Hg) as (_ & _ & ?). lia.
Qed.

Lemma largest_spec (m : list (Z * loc)) gs :
  multimap_sorted m → m ≡ₚ by_length gs →
  (∀ n, fst <$> last m = Some n → Forall (fun g => rlength g ≤ n) gs.*2 ∧ n ∈ rlength <$> gs.*2) ∧
  (fst <$> last m = None → gs.*2 = []).
Proof.
  intros Hso Hm.
  assert (Hm1 : m.*1 ≡ₚ rlength <$> gs.*2).
  { rewrite Hm. unfold by_length. by rewrite <- !list_fmap_compose. }
  destruct m as [|x m _] using rev_ind.
  - split; [done|]. intros _. apply Permutation_nil_l in Hm1. by destruct (gs.*2).
  - rewrite last_snoc. split; [|done]. intros n [= <-]. rewrite fmap_app in Hm1. split.
    + apply Forall_forall. intros g Hg.
      assert (Hin : rlength g ∈ m.*1 ++ [x].*1) by (rewrite Hm1; by apply list_elem_of_fmap_2).
      apply elem_of_app in Hin as [Hin|Hin]; [|apply list_elem_of_singleton in Hin; lia].
      apply list_elem_of_fmap in Hin as (y & -> & Hy).
      apply (StronglySorted_app_1_elem_of _ _ _ _ _ Hso Hy). by apply list_elem_of_singleton.
    + rewrite <- Hm1. apply elem_of_app. right. by apply list_elem_of_singleton.
Qed.

Context (Hmfuel : (1 ≤ mfuel)%nat) (polls : W → nat).
Context (polls_move : ∀ w f vcn num lcn, (polls (v_move w f vcn num lcn).2 ≤ polls w)%nat).
Context (polls_terminated : ∀ w, (polls (v_terminated w).2 ≤ polls w)%nat).
Context (polls_again : ∀ w, (v_terminated w).1 = false → (polls (v_terminated w).2 < polls w)%nat).

Lemma run_operation_run n k o vb s gs all path :
  (∀ p q, p ∈ all → q ∈ all → path p = path q → p = q) →
  widen o = false → op_inv N bfuel dfuel all path s gs → (polls (vol s) < n)%nat → (polls (vol s) < k)%nat →
  ∃ r s', run_operation bfuel dfuel mfuel DebugBreak (Ret tt) n k o vb s = Ret (Some r, s') ∧
    reports (vol s') o vb r ∧
    (∀ q, q ∈ all →
       clusters (disp_of N bfuel dfuel path (vol s') q) = clusters (disp_of N bfuel dfuel path (vol s) q)).
Proof.
  intros Hinj Hw Hinv Hn Hk.
  destruct (run_run N bfuel dfuel mfuel DebugBreak alloc_total all path Hinj Hmfuel polls polls_move
    polls_terminated polls_again n k o s gs Hw Hinv Hn Hk) as (s' & gs' & E & [[Hok _] _] & [_ Hcl _] & Hcov).
  unfold run_operation. pstep E. pget.
  pose proof Hok as (_ & _ & Hreg & Hsz & Hso & Hwf).
  change (id s') with s'. rewrite Hreg.
  assert (Hfit : fits (Summary 0 0 0 0 []) (gap_clusters gs'.*2)).
  { pose proof (gap_clusters_le _ Hwf). pose proof (vl_size (VolumeLaws := VolumeLaws0)). unfold fits; simpl. lia. }
  pstep (summary_loop_run N s' gs' o vb Hok gs' _ (reflexivity _) Hfit).
  eexists _, s'. split; [reflexivity|]. split; [|done].
  assert (Ea : ∀ a, plus (Summary 0 0 0 0 []) a = a) by (intros []; reflexivity).
  rewrite Ea. split.
  - exists gs'.*2. cbn [final_gaps sizes largest]. unfold by_lcn. rewrite length_fmap, length_fmap.
    split_and!; [done..|apply (largest_spec _ _ Hso Hsz)|apply (largest_spec _ _ Hso Hsz)].
  - by apply summary_free.
Qed.
End program.

(** C2: the program as a whole. When the command line names a volume that can be
    queried and whose clusters are not empty and does not ask for wider gaps,
    the scan of the disk lists the files of the volume ([listing]; in verbose
    mode with paths long enough for the code that cuts them, [long_paths]), the
    volume keeps its [VolumeLaws], the library keeps [std::prev] of the first
    gap at the end ([Ret tt]) and the user interrupts the program after at most
    [polls] readings of the flag of the console handler, then the program ends,
    whatever moves the volume refuses: nothing faults, no exception leaves the
    operation, and the exit code is 0, or 1 after an interrupt. The report is
    right about the volume at the end: it counts the gaps, small and large ones,
    that make up exactly the free clusters, and every file still has as many
    clusters as were found. *)
Theorem wmain_correct {W : Type} `{!NtApi W, !NtControl W, !NtVolume W} `{!Volume W} `{!Environment W}
    `{!Allocator (node winx_volume_region)} tmalloc uninit narrow towupper fold N bfuel dfuel mfuel DebugBreak
    `{!VolumeLaws W N bfuel dfuel} (scan_disk : Z → W → list loc * fheap * W) (polls : W → nat)
    n k vm o info st infos h (w w1 w2 w3 : W) :
  (∀ h : gmap loc (node winx_volume_region), is_Some (alloc h)) → (1 ≤ mfuel)%nat →
  (∀ w f vcn num lcn, (polls (v_move w f vcn num lcn).2 ≤ polls w)%nat) →
  (∀ w, (polls (v_terminated w).2 ≤ polls w)%nat) →
  (∀ w, (v_terminated w).1 = false → (polls (v_terminated w).2 < polls w)%nat) →
  parse towupper vm w = (Go o, w1) → widen (steer o) = false →
  volume_init tmalloc uninit narrow (volume o) w1 = Ret (Some info, w2) →
  clusters_of (steer o) info = Ret st →
  scan_disk (volume o) w2 = (infos, h, w3) → listing N bfuel dfuel w2 infos h w3 →
  (verbose o = true → long_paths infos h) → (polls w3 < n)%nat → (polls w3 < k)%nat →
  ∃ code r w', wmain tmalloc uninit narrow towupper fold bfuel dfuel mfuel DebugBreak (Ret tt) scan_disk n k vm w =
      Ret (code, Some r, w') ∧
    (code = 0 ∨ code = 1) ∧ reports N bfuel dfuel w' st (verbose o) r ∧
    ∀ p f path, p ∈ infos → h !! p = Some f → fi_path f = Some path →
      clusters (runs_disp (layout w' (Some path))) = clusters (disp f).
Proof.
  intros Ha Hm H1 H2 H3 Hp Hw Hv Hst Hs L Hlong Hn Hk.
  destruct (init_run fold N bfuel dfuel Ha scan_disk (volume o) (verbose o) infos h w2 w3 Hs L Hlong)
    as (ps & s & gs & Ei & Hinv & Ew).
  assert (Hw' : widen st = false).
  { unfold clusters_of in Hst. destruct (_ =? 0); [done|]. injection Hst as <-. exact Hw. }
  destruct (run_operation_run N bfuel dfuel mfuel DebugBreak Ha Hm polls H1 H2 H3 n k st (verbose o) s gs infos
    _ (ls_path _ _ _ _ _ _ _ L) Hw' Hinv) as (r & s' & Er & Hr & Hcl); [by rewrite Ew..|].
  unfold wmain. rewrite Hp, Hv, outcome_bind_ret, Hst, outcome_bind_ret.
  unfold operate. pstep Ei. rewrite Er, outcome_bind_ret.
  destruct (vl_terminated (vol s')) as [Hlay Hfree]. destruct (v_terminated (vol s')) as [b w'].
  cbn [snd] in Hlay, Hfree.
  exists (if (b : bool) then 1 else 0), r, w'. split; [done|]. split; [destruct b; tauto|]. split.
  - destruct Hr. split; by rewrite Hfree.
  - intros p f path Hpi E Ep. pose proof (Hcl p Hpi) as Hc. unfold disp_of in Hc. cbn beta in Hc.
    rewrite E in Hc. cbn [mbind option_bind] in Hc. rewrite Ep, Ew in Hc. rewrite Hlay, Hc.
    destruct (ls_file _ _ _ _ _ _ _ L p Hpi) as (f' & path' & E' & Ep' & _ & Hcl' & _).
    assert (f' = f) as -> by congruence. assert (path' = path) as -> by congruence. done.
Qed.

(** ** A machine

    The volume of [OpSafe] behind a system that opens every file and describes the
    volume of [Volume]. *)
#[export] Instance demo_api : NtApi demo_world := {|
  NtCreateFile _ w := (STATUS_SUCCESS, 1, w);
  NtReadFile _ _ _ _ := (STATUS_ACCESS_DENIED, 0, []);
  NtWriteFile _ _ _ w := (STATUS_ACCESS_DENIED, 0, w);
  NtFlushBuffersFile _ w := (STATUS_SUCCESS, w);
  NtQueryStandardInformation _ _ := (STATUS_ACCESS_DENIED, 0);
  NtDeleteFile _ w := (STATUS_ACCESS_DENIED, w);
  NtClose _ w := w;
|}.

#[export] Instance demo_control : NtControl demo_world := {|
  NtFsControlFile h code i n w :=
    let '(status, information, b, _) := NtFsControlFile h code i n (∅ : world) in (status, information, b, w);
  NtDeviceIoControlFile h code i n w :=
    let '(status, information, b, _) := NtDeviceIoControlFile h code i n (∅ : world) in (status, information, b, w);
|}.

#[export] Instance demo_information : NtVolume demo_world := {|
  NtQueryFsSize h _ := NtQueryFsSize h (∅ : world);
  NtQueryFsAttribute h _ := NtQueryFsAttribute h (∅ : world);
  NtQueryFsVolume h _ := NtQueryFsVolume h (∅ : world);
  NtQueryFsDevice h _ := NtQueryFsDevice h (∅ : world);
  NtOpenSymbolicLinkObject _ w := (STATUS_SUCCESS, 1, w);
  NtQuerySymbolicLinkObject h n _ := NtQuerySymbolicLinkObject h n (∅ : world);
  NtQueryDeviceMap _ := NtQueryDeviceMap (∅ : world);
|}.

#[export] Instance demo_environment : Environment demo_world := {|
  e_module_dir _ := inr (text "C:\");
  e_open _ := false;
  e_get _ := Failed;
  e_set w _ := (false, w);
|}.

Definition demo_vm : variables_map :=
  VM false false false false 102400 false false false false false (Some (text "c:")).

Definition demo_all_options : all_options := AllOptions 0x63 false (Opts 102400 false true true false).

Definition demo_scan (letter : Z) (w : demo_world) : list loc * fheap * demo_world := (demo_all, demo_store, w).

Lemma demo_listing : listing 10 1 3 (false, 20%nat) demo_all demo_store (false, 20%nat).
Proof.
  split; try done.
  - apply (bool_decide_unpack _). by vm_compute.
  - intros p Hp. unfold demo_all in Hp. set_unfold. destruct Hp as [->|[->|[]]];
      (eexists _, _; split_and!; [reflexivity | reflexivity | reflexivity | reflexivity | simpl; lia | simpl; lia]).
  - intros p q Hp Hq. unfold demo_all in *. set_unfold.
    by destruct Hp as [->|[->|[]]], Hq as [->|[->|[]]].
Qed.

(** The command line [c:]. *)
Example demo_wmain :
  let A := bump_allocator (node winx_volume_region) in
  match wmain (fun _ => true) Volume.demo_uninit demo_narrow id id 1 3 1 (Ret tt) (Ret tt) demo_scan 22 22
          (Some demo_vm) (false, 20%nat) with
  | Ret (code, Some r, w) => code = 0 ∧ w.1 = true ∧
      r = Report 1 1 2 (Some 4) (Summary 1 4 0 0 [])
  | _ => False
  end.
Proof. vm_compute. done. Qed.

Definition demo_info : winx_volume_information :=
  match volume_init (W := demo_world) (fun _ => true) Volume.demo_uninit demo_narrow 0x63 (false, 20%nat) with
  | Ret (Some info, _) => info
  | _ => blank 0
  end.

Definition demo_steer : Options := Opts 25600 false true true false.

Lemma demo_init :
  volume_init (fun _ => true) Volume.demo_uninit demo_narrow 0x63 (false, 20%nat) =
    Ret (Some demo_info, (false, 20%nat)).
Proof. vm_compute. reflexivity. Qed.

Lemma demo_clusters_of : clusters_of (steer demo_all_options) demo_info = Ret demo_steer.
Proof. vm_compute. reflexivity. Qed.

Lemma wmain_correct_witness :
  let A := bump_allocator (node winx_volume_region) in
  ∃ code r w', wmain (fun _ => true) Volume.demo_uninit demo_narrow id id 1 3 1 (Ret tt) (Ret tt) demo_scan 22 22
      (Some demo_vm) (false, 20%nat) = Ret (code, Some r, w') ∧
    (code = 0 ∨ code = 1) ∧ reports 10 1 3 w' demo_steer false r ∧
    ∀ p f path, p ∈ demo_all → demo_store !! p = Some f → fi_path f = Some path →
      clusters (runs_disp (layout w' (Some path))) = clusters (disp f).
Proof.
  exact (wmain_correct (fun _ => true) Volume.demo_uninit demo_narrow id id 10 1 3 1 (Ret tt) demo_scan demo_polls
    22 22 (Some demo_vm) demo_all_options demo_info demo_steer demo_all demo_store
    (false, 20%nat) (false, 20%nat) (false, 20%nat) (false, 20%nat)
    demo_alloc_total (le_n 1) demo_polls_move demo_polls_terminated demo_polls_again eq_refl eq_refl
    demo_init demo_clusters_of eq_refl demo_listing
    (fun H => match diff_false_true H with end) (demo_polls_enough false) (demo_polls_enough false)).
Defined.
